(** * Pomodash: the store's action and mutation layer

    A shallow embedding of [src/store/actions.ts] and of the mutations the
    actions commit, over an explicit model of the two pieces of state the
    code keeps in step: the IndexedDB database reached through Dexie and
    the in-memory Vuex store. *)

From Stdlib Require Import List String Ascii ZArith Bool Lia Permutation.
Import ListNotations.

Local Open Scope string_scope.
Local Open Scope Z_scope.
Local Open Scope list_scope.

Set Implicit Arguments.

(** ** JavaScript values *)

(** Truthiness of a [number | null | undefined] field: [null], [undefined]
    and [0] are falsy. *)
Definition truthy_num (v : option Z) : bool :=
  match v with
  | Some z => negb (z =? 0)
  | None => false
  end.

(** Truthiness of a [boolean | undefined] field. *)
Definition truthy_flag (v : option bool) : bool :=
  match v with
  | Some b => b
  | None => false
  end.

(** [v === null] for a field that is a number or [null] ([v == null] for
    one that may also be [undefined]). *)
Definition isNull {A : Type} (v : option A) : bool :=
  match v with
  | None => true
  | Some _ => false
  end.

(** Truthiness of a string: only the empty string is falsy. *)
Definition truthy_str (s : string) : bool := negb (s =? "")%string.

(** ** Strings

    A string is held as the bytes of its UTF-8 encoding.  The ids, the
    setting keys and the prefixes the program builds are ASCII; the names
    a user types are arbitrary text.

    [String.prototype.trim] strips the white space and the line
    terminators of ECMAScript from both ends: TAB, LF, VT, FF, CR and
    the space; U+00A0 (no-break space); U+FEFF (byte order mark); U+2028
    and U+2029 (line and paragraph separator); and the other space
    separators of Unicode, U+1680, U+2000 to U+200A, U+202F, U+205F and
    U+3000. *)

(** The ones of one byte. *)
Definition isSpace (c : ascii) : bool :=
  match nat_of_ascii c with
  | 9%nat | 10%nat | 11%nat | 12%nat | 13%nat | 32%nat => true
  | _ => false
  end.

Definition isByte (n : N) (c : ascii) : bool := (N_of_ascii c =? n)%N.

Definition byteWithin (lo hi : N) (c : ascii) : bool :=
  ((lo <=? N_of_ascii c) && (N_of_ascii c <=? hi))%N.

(** U+00A0 is the bytes C2 A0. *)
Definition isSpace2 (a b : ascii) : bool := isByte 194 a && isByte 160 b.

(** U+1680 is E1 9A 80; U+2000 to U+200A are E2 80 80 to E2 80 8A;
    U+2028, U+2029 and U+202F are E2 80 A8, E2 80 A9 and E2 80 AF;
    U+205F is E2 81 9F; U+3000 is E3 80 80; U+FEFF is EF BB BF. *)
Definition isSpace3 (a b c : ascii) : bool :=
  (isByte 225 a && isByte 154 b && isByte 128 c)
  || (isByte 226 a && isByte 128 b
      && (byteWithin 128 138 c || byteWithin 168 169 c || isByte 175 c))
  || (isByte 226 a && isByte 129 b && isByte 159 c)
  || (isByte 227 a && isByte 128 b && isByte 128 c)
  || (isByte 239 a && isByte 187 b && isByte 191 c).

(** A string that is one white space character and nothing else. *)
Definition isWhiteSpace (s : string) : bool :=
  match s with
  | String a EmptyString => isSpace a
  | String a (String b EmptyString) => isSpace2 a b
  | String a (String b (String c EmptyString)) => isSpace3 a b c
  | _ => false
  end.

Fixpoint trimStart (s : string) : string :=
  match s with
  | EmptyString => EmptyString
  | String a s1 =>
      if isSpace a then trimStart s1
      else
        match s1 with
        | EmptyString => s
        | String b s2 =>
            if isSpace2 a b then trimStart s2
            else
              match s2 with
              | EmptyString => s
              | String c s3 => if isSpace3 a b c then trimStart s3 else s
              end
        end
  end.

(** From the end: what is left of the rest is empty or starts with the
    bytes that follow [c] in its character, so [c] opens a trailing white
    space character exactly when it and that rest are one. *)
Fixpoint trimEnd (s : string) : string :=
  match s with
  | EmptyString => EmptyString
  | String c rest =>
      let rest' := trimEnd rest in
      if isWhiteSpace (String c rest') then EmptyString else String c rest'
  end.

Definition trim (s : string) : string := trimEnd (trimStart s).

(** ** Plain objects used as maps

    [state.tasks], [state.tags], [state.taskTagsMap] and [state.settings]
    are plain objects keyed by strings.  [Object.keys] and [Object.values]
    enumerate such keys in insertion order (the keys are ids such as
    ['task-' + nanoid()], never integer-like), assigning to a key that is
    present keeps its position, and [delete] removes it. *)
Module JsObj.

Definition t (V : Type) : Type := list (string * V).

Definition empty {V : Type} : t V := [].

Fixpoint get {V : Type} (k : string) (o : t V) : option V :=
  match o with
  | [] => None
  | (k', v) :: rest => if (k' =? k)%string then Some v else get k rest
  end.

Fixpoint set {V : Type} (k : string) (v : V) (o : t V) : t V :=
  match o with
  | [] => [(k, v)]
  | (k', v') :: rest =>
      if (k' =? k)%string then (k', v) :: rest else (k', v') :: set k v rest
  end.

Definition del {V : Type} (k : string) (o : t V) : t V :=
  filter (fun kv => negb (fst kv =? k)%string) o.

Definition keys {V : Type} (o : t V) : list string := map fst o.

Definition values {V : Type} (o : t V) : list V := map snd o.

End JsObj.

(** ** Dexie tables

    A table is the list of its rows in the order of their primary keys,
    which is the order in which IndexedDB hands rows back ([toArray],
    [first], and, within one index value, [where(...).equals(...)]).
    Keys are strings; IndexedDB compares them code unit by code unit,
    which for the ASCII keys of the program is byte by byte. *)
Section Table.

Variable R : Type.
Variable key : R -> string.

Fixpoint tbl_insert (r : R) (tbl : list R) : list R :=
  match tbl with
  | [] => [r]
  | x :: rest =>
      if String.ltb (key r) (key x) then r :: tbl else x :: tbl_insert r rest
  end.

Definition tbl_has (k : string) (tbl : list R) : bool :=
  existsb (fun x => (key x =? k)%string) tbl.

(** [table.get(k)] *)
Definition tbl_get (k : string) (tbl : list R) : option R :=
  find (fun x => (key x =? k)%string) tbl.

(** [table.put(r)]: insert, or replace the row that has the key. *)
Definition tbl_put (r : R) (tbl : list R) : list R :=
  tbl_insert r (filter (fun x => negb (key x =? key r)%string) tbl).

(** [table.bulkPut(rs)] *)
Definition tbl_bulkPut (rs : list R) (tbl : list R) : list R :=
  fold_left (fun acc r => tbl_put r acc) rs tbl.

(** [table.add(r)]: fails with a ConstraintError when the key is taken. *)
Definition tbl_add (r : R) (tbl : list R) : option (list R) :=
  if tbl_has (key r) tbl then None else Some (tbl_insert r tbl).

(** [table.bulkAdd(rs)]: the rows whose key is free are added; the
    boolean tells whether all of them were (the promise rejects with a
    BulkError otherwise). *)
Fixpoint tbl_bulkAdd (rs : list R) (tbl : list R) : list R * bool :=
  match rs with
  | [] => (tbl, true)
  | r :: rest =>
      match tbl_add r tbl with
      | Some tbl' => tbl_bulkAdd rest tbl'
      | None => (fst (tbl_bulkAdd rest tbl), false)
      end
  end.

(** [table.update(k, changes)]: no row with that key, nothing happens. *)
Definition tbl_update (k : string) (f : R -> R) (tbl : list R) : list R :=
  map (fun x => if (key x =? k)%string then f x else x) tbl.

(** [collection.delete()] for the collection of the rows satisfying [p]. *)
Definition tbl_delete (p : R -> bool) (tbl : list R) : list R :=
  filter (fun x => negb (p x)) tbl.

(** [table.orderBy(field)]: by the indexed field, then by primary key. *)
Fixpoint insertBy (ord : R -> Z) (r : R) (l : list R) : list R :=
  match l with
  | [] => [r]
  | x :: rest => if ord r <=? ord x then r :: l else x :: insertBy ord r rest
  end.

Definition orderBy (ord : R -> Z) (tbl : list R) : list R :=
  fold_right (insertBy ord) [] tbl.

End Table.

(** ** The data model ([@/types]) *)

Module Task.
Record t : Type := mk {
  id : string;
  name : string;
  notes : string;
  order : Z;
  created_at : Z;
  completed : option Z;
  archived : option bool
}.

Definition with_name (v : string) (x : t) : t :=
  mk (id x) v (notes x) (order x) (created_at x) (completed x) (archived x).
Definition with_notes (v : string) (x : t) : t :=
  mk (id x) (name x) v (order x) (created_at x) (completed x) (archived x).
Definition with_order (v : Z) (x : t) : t :=
  mk (id x) (name x) (notes x) v (created_at x) (completed x) (archived x).
Definition with_completed (v : option Z) (x : t) : t :=
  mk (id x) (name x) (notes x) (order x) (created_at x) v (archived x).
Definition with_archived (v : option bool) (x : t) : t :=
  mk (id x) (name x) (notes x) (order x) (created_at x) (completed x) v.
End Task.

Module Tag.
Record t : Type := mk {
  id : string;
  tagName : string;
  color : string;
  order : Z
}.
End Tag.

Module TaskLog.
Record t : Type := mk {
  id : string;
  taskId : string;
  started : Z;
  stopped : option Z;
  timeSpent : option Z
}.

Definition with_started (v : Z) (x : t) : t :=
  mk (id x) (taskId x) v (stopped x) (timeSpent x).
Definition with_stopped (v : option Z) (x : t) : t :=
  mk (id x) (taskId x) (started x) v (timeSpent x).
Definition with_timeSpent (v : option Z) (x : t) : t :=
  mk (id x) (taskId x) (started x) (stopped x) v.
End TaskLog.

Module TaskTagMap.
Record t : Type := mk {
  id : string;
  taskId : string;
  tagId : string
}.
End TaskTagMap.

(** The values a setting holds: the selected task (a string or [null]),
    the tag filters (an array of tag ids), toggles and numbers. *)
Inductive SettingValue : Type :=
| VNull
| VBool (b : bool)
| VNum (z : Z)
| VStr (s : string)
| VList (l : list string).

Definition truthy_value (v : SettingValue) : bool :=
  match v with
  | VNull => false
  | VBool b => b
  | VNum z => negb (z =? 0)
  | VStr s => truthy_str s
  | VList _ => true
  end.

Module SettingKv.
Record t : Type := mk {
  key : string;
  value : SettingValue
}.
End SettingKv.

(** [Partial<Task>] as the actions build it: one field at a time. *)
Inductive TaskUpdates : Type :=
| UpdName (name : string)
| UpdNotes (notes : string)
| UpdCompleted (completed : option Z)
| UpdArchived (archived : bool).

(** [{ ...task, ...taskUpdates }] *)
Definition applyTaskUpdates (u : TaskUpdates) (x : Task.t) : Task.t :=
  match u with
  | UpdName n => Task.with_name n x
  | UpdNotes n => Task.with_notes n x
  | UpdCompleted c => Task.with_completed c x
  | UpdArchived b => Task.with_archived (Some b) x
  end.

(** The database: five tables, [settings] keyed by [key], the others by
    [id]. *)
Module Db.
Record t : Type := mk {
  tasks : list Task.t;
  tags : list Tag.t;
  taskTagMap : list TaskTagMap.t;
  settings : list SettingKv.t;
  logs : list TaskLog.t
}.

Definition empty : t := mk [] [] [] [] [].

Definition with_tasks (v : list Task.t) (d : t) : t :=
  mk v (tags d) (taskTagMap d) (settings d) (logs d).
Definition with_tags (v : list Tag.t) (d : t) : t :=
  mk (tasks d) v (taskTagMap d) (settings d) (logs d).
Definition with_taskTagMap (v : list TaskTagMap.t) (d : t) : t :=
  mk (tasks d) (tags d) v (settings d) (logs d).
Definition with_settings (v : list SettingKv.t) (d : t) : t :=
  mk (tasks d) (tags d) (taskTagMap d) v (logs d).
Definition with_logs (v : list TaskLog.t) (d : t) : t :=
  mk (tasks d) (tags d) (taskTagMap d) (settings d) v.
End Db.

(** The part of [state.tempState] the actions and mutations read or
    write. *)
Module TempState.
Record t : Type := mk {
  activeTaskID : option string;
  running : bool;
  modalTagId : option string
}.
End TempState.

(** The store ([PomoTrackState]). *)
Module State.
Record t : Type := mk {
  tasks : JsObj.t Task.t;
  tags : JsObj.t Tag.t;
  tagOrder : list string;
  taskTagsMap : JsObj.t (list string);
  settings : JsObj.t SettingValue;
  selectedTaskLogs : list TaskLog.t;
  tempState : TempState.t;
  isActivityModalVisible : bool
}.

Definition with_tasks (v : JsObj.t Task.t) (s : t) : t :=
  mk v (tags s) (tagOrder s) (taskTagsMap s) (settings s)
     (selectedTaskLogs s) (tempState s) (isActivityModalVisible s).
Definition with_tags (v : JsObj.t Tag.t) (s : t) : t :=
  mk (tasks s) v (tagOrder s) (taskTagsMap s) (settings s)
     (selectedTaskLogs s) (tempState s) (isActivityModalVisible s).
Definition with_tagOrder (v : list string) (s : t) : t :=
  mk (tasks s) (tags s) v (taskTagsMap s) (settings s)
     (selectedTaskLogs s) (tempState s) (isActivityModalVisible s).
Definition with_taskTagsMap (v : JsObj.t (list string)) (s : t) : t :=
  mk (tasks s) (tags s) (tagOrder s) v (settings s)
     (selectedTaskLogs s) (tempState s) (isActivityModalVisible s).
Definition with_settings (v : JsObj.t SettingValue) (s : t) : t :=
  mk (tasks s) (tags s) (tagOrder s) (taskTagsMap s) v
     (selectedTaskLogs s) (tempState s) (isActivityModalVisible s).
Definition with_selectedTaskLogs (v : list TaskLog.t) (s : t) : t :=
  mk (tasks s) (tags s) (tagOrder s) (taskTagsMap s) (settings s)
     v (tempState s) (isActivityModalVisible s).
Definition with_tempState (v : TempState.t) (s : t) : t :=
  mk (tasks s) (tags s) (tagOrder s) (taskTagsMap s) (settings s)
     (selectedTaskLogs s) v (isActivityModalVisible s).
Definition with_isActivityModalVisible (v : bool) (s : t) : t :=
  mk (tasks s) (tags s) (tagOrder s) (taskTagsMap s) (settings s)
     (selectedTaskLogs s) (tempState s) v.
End State.

(** ** Computations that may throw

    An async action either resolves with a value or rejects; a mutation
    either returns or throws.  Whatever was written before the exception
    stays written, so the state is threaded through both outcomes. *)
Inductive Outcome (A : Type) : Type :=
| Resolved (a : A)
| Rejected.

Arguments Rejected {A}.

Definition M (S A : Type) : Type := S -> Outcome A * S.

Definition ret {S A : Type} (a : A) : M S A := fun s => (Resolved a, s).

Definition throw {S A : Type} : M S A := fun s => (Rejected, s).

Definition bind {S A B : Type} (m : M S A) (k : A -> M S B) : M S B :=
  fun s =>
    match m s with
    | (Resolved a, s') => k a s'
    | (Rejected, s') => (Rejected, s')
    end.

(** [try { m } catch (error) { console.error(...) }] *)
Definition tryCatch {S : Type} (m : M S unit) : M S unit :=
  fun s => (Resolved tt, snd (m s)).

Definition gets {S A : Type} (f : S -> A) : M S A := fun s => (Resolved (f s), s).

Definition modify {S : Type} (f : S -> S) : M S unit := fun s => (Resolved tt, f s).

Declare Scope js_scope.
Delimit Scope js_scope with js.
Notation "x <- m ;; k" := (bind m (fun x => k))
  (at level 61, m at next level, right associativity) : js_scope.
Notation "m ;; k" := (bind m (fun _ => k))
  (at level 61, right associativity) : js_scope.
Local Open Scope js_scope.

(** [for (const x of xs) { body(x) }] *)
Fixpoint forEach {S A : Type} (xs : list A) (body : A -> M S unit) : M S unit :=
  match xs with
  | [] => ret tt
  | x :: rest => body x ;; forEach rest body
  end.

(** ** Mutations (the store's synchronous state changes) *)

(** [array.findIndex(p)] followed by [array[index] = v]; [None] when no
    element satisfies [p] (index [-1]). *)
Fixpoint replaceFirst {A : Type} (p : A -> bool) (v : A) (l : list A) : option (list A) :=
  match l with
  | [] => None
  | x :: rest =>
      if p x then Some (v :: rest)
      else match replaceFirst p v rest with
           | Some rest' => Some (x :: rest')
           | None => None
           end
  end.

(** [array.findIndex(p)] followed by [array.splice(index, 1)]. *)
Fixpoint removeFirst {A : Type} (p : A -> bool) (l : list A) : option (list A) :=
  match l with
  | [] => None
  | x :: rest =>
      if p x then Some rest
      else match removeFirst p rest with
           | Some rest' => Some (x :: rest')
           | None => None
           end
  end.

(** [taskId === state.settings.selectedTaskID] *)
Definition isSelectedTask (taskId : string) (s : State.t) : bool :=
  match JsObj.get "selectedTaskID" (State.settings s) with
  | Some (VStr x) => (x =? taskId)%string
  | _ => false
  end.

(** [state.taskTagsMap[taskId].push(tagId)]: a TypeError when the task has
    no entry. *)
Definition pushTaskTag (taskId tagId : string) : M State.t unit :=
  fun s =>
    match JsObj.get taskId (State.taskTagsMap s) with
    | Some tagIds =>
        (Resolved tt,
         State.with_taskTagsMap
           (JsObj.set taskId (tagIds ++ [tagId]) (State.taskTagsMap s)) s)
    | None => (Rejected, s)
    end.

(** [array.filter(x => x !== tagId)] *)
Definition without (tagId : string) (l : list string) : list string :=
  filter (fun x => negb (x =? tagId)%string) l.

Module Mutations.

Definition loadInitialData (initialSettings : JsObj.t SettingValue)
    (tasks : list Task.t) (tags : list Tag.t)
    (taskTagMaps : list TaskTagMap.t) (settings : list SettingKv.t)
    (selectedTaskLogs : list TaskLog.t) : M State.t unit :=
  modify (State.with_tasks JsObj.empty) ;;
  forEach tasks (fun task =>
    modify (fun s =>
      State.with_tasks (JsObj.set (Task.id task) task (State.tasks s)) s)) ;;
  modify (State.with_tags JsObj.empty) ;;
  modify (State.with_tagOrder []) ;;
  forEach tags (fun tag =>
    modify (fun s =>
      State.with_tags (JsObj.set (Tag.id tag) tag (State.tags s)) s) ;;
    modify (fun s => State.with_tagOrder (State.tagOrder s ++ [Tag.id tag]) s)) ;;
  modify (State.with_taskTagsMap JsObj.empty) ;;
  forEach tasks (fun task =>
    modify (fun s =>
      State.with_taskTagsMap
        (JsObj.set (Task.id task) [] (State.taskTagsMap s)) s)) ;;
  forEach taskTagMaps (fun taskTagMap =>
    pushTaskTag (TaskTagMap.taskId taskTagMap) (TaskTagMap.tagId taskTagMap)) ;;
  forEach initialSettings (fun kv =>
    let key := fst kv in
    let setting :=
      find (fun s => (SettingKv.key s =? key)%string) settings in
    modify (fun s =>
      State.with_settings
        (JsObj.set key
           match setting with
           | Some found => SettingKv.value found
           | None => snd kv
           end
           (State.settings s)) s)) ;;
  modify (State.with_selectedTaskLogs selectedTaskLogs).

(** *** Tasks *)

Definition addTask (task : Task.t) (taskTagMaps : list TaskTagMap.t)
    : M State.t unit :=
  modify (fun s =>
    State.with_tasks (JsObj.set (Task.id task) task (State.tasks s)) s) ;;
  modify (fun s =>
    State.with_taskTagsMap
      (JsObj.set (Task.id task) [] (State.taskTagsMap s)) s) ;;
  forEach taskTagMaps (fun taskTagMap =>
    pushTaskTag (TaskTagMap.taskId taskTagMap) (TaskTagMap.tagId taskTagMap)).

(** [state.tasks[taskId] = { ...state.tasks[taskId], ...taskUpdates }].
    Every action commits it after it has found [state.tasks[taskId]];
    for an absent key JavaScript would store an object with the updated
    field alone, which is no [Task], and the model leaves the store as
    it is. *)
Definition updateTask (taskId : string) (taskUpdates : TaskUpdates)
    (s : State.t) : State.t :=
  match JsObj.get taskId (State.tasks s) with
  | Some task =>
      State.with_tasks
        (JsObj.set taskId (applyTaskUpdates taskUpdates task) (State.tasks s)) s
  | None => s
  end.

Definition setTasks (tasks : list Task.t) (s : State.t) : State.t :=
  fold_left
    (fun acc task =>
       State.with_tasks (JsObj.set (Task.id task) task (State.tasks acc)) acc)
    tasks (State.with_tasks JsObj.empty s).

Definition deleteTasks (taskIds : list string) (s : State.t) : State.t :=
  fold_left
    (fun acc taskId =>
       State.with_taskTagsMap (JsObj.del taskId (State.taskTagsMap acc))
         (State.with_tasks (JsObj.del taskId (State.tasks acc)) acc))
    taskIds s.

(** *** Logs *)

Definition startTask (log : TaskLog.t) (s : State.t) : State.t :=
  match JsObj.get (TaskLog.taskId log) (State.tasks s) with
  | Some task =>
      State.with_selectedTaskLogs (State.selectedTaskLogs s ++ [log])
        (State.with_tempState
           (TempState.mk (Some (Task.id task)) true
              (TempState.modalTagId (State.tempState s))) s)
  | None => s
  end.

Definition updateLog (taskId : string) (log : TaskLog.t) (s : State.t)
    : State.t :=
  if negb (isSelectedTask taskId s) then s
  else
    match replaceFirst (fun l => (TaskLog.id l =? TaskLog.id log)%string) log
            (State.selectedTaskLogs s) with
    | Some logs' =>
        let s' := State.with_selectedTaskLogs logs' s in
        match TaskLog.stopped log with
        | None =>
            State.with_tempState
              (TempState.mk (TempState.activeTaskID (State.tempState s')) true
                 (TempState.modalTagId (State.tempState s'))) s'
        | Some _ =>
            State.with_tempState
              (TempState.mk None false
                 (TempState.modalTagId (State.tempState s'))) s'
        end
    | None =>
        State.with_selectedTaskLogs (State.selectedTaskLogs s ++ [log]) s
    end.

Definition deleteInterval (taskId logId : string) (s : State.t) : State.t :=
  if negb (isSelectedTask taskId s) then s
  else
    match removeFirst (fun l => (TaskLog.id l =? logId)%string)
            (State.selectedTaskLogs s) with
    | Some logs' => State.with_selectedTaskLogs logs' s
    | None => s
    end.

Definition setSelectedTaskLogs (selectedTaskLogs : list TaskLog.t)
    (s : State.t) : State.t :=
  State.with_selectedTaskLogs selectedTaskLogs s.

(** *** Tags *)

Definition addTaskTag (taskId : string) (tag : Tag.t) (isNewTag : bool)
    : M State.t unit :=
  (if isNewTag then
     modify (fun s =>
       State.with_tags (JsObj.set (Tag.id tag) tag (State.tags s)) s) ;;
     modify (fun s => State.with_tagOrder (State.tagOrder s ++ [Tag.id tag]) s)
   else ret tt) ;;
  pushTaskTag taskId (Tag.id tag).

Definition deleteTaskTag (taskId : string) (newTagIds : list string)
    (s : State.t) : State.t :=
  State.with_taskTagsMap (JsObj.set taskId newTagIds (State.taskTagsMap s)) s.

Definition deleteTag (tagId : string) : M State.t unit :=
  taskIds <- gets (fun s => JsObj.keys (State.tasks s)) ;;
  forEach taskIds (fun taskId => fun s =>
    match JsObj.get taskId (State.taskTagsMap s) with
    | Some tagIds =>
        (Resolved tt,
         State.with_taskTagsMap
           (JsObj.set taskId (without tagId tagIds) (State.taskTagsMap s)) s)
    | None => (Rejected, s)
    end) ;;
  (fun s =>
    match JsObj.get "selectedTagIds" (State.settings s) with
    | Some (VList selected) =>
        (Resolved tt,
         State.with_settings
           (JsObj.set "selectedTagIds" (VList (without tagId selected))
              (State.settings s)) s)
    | _ => (Rejected, s)
    end) ;;
  modify (fun s => State.with_tags (JsObj.del tagId (State.tags s)) s) ;;
  modify (fun s => State.with_tagOrder (without tagId (State.tagOrder s)) s) ;;
  modify (State.with_isActivityModalVisible false).

(** *** Settings *)

Definition updateSetting (key : string) (value : SettingValue) (s : State.t)
    : State.t :=
  State.with_settings (JsObj.set key value (State.settings s)) s.

End Mutations.

(** ** The world the actions run in *)

(** What [storageManager] and [initialState] export: whether the database
    handle [dexieDb] exists, the flag [storageEnabled] that the disk-space
    check maintains, and the default settings. *)
Record Env : Type := mkEnv {
  dexieDb : bool;
  storageEnabled : bool;
  initialSettings : JsObj.t SettingValue
}.

Record World : Type := mkWorld {
  db : Db.t;
  state : State.t
}.

Definition Async (A : Type) : Type := M World A.

(** [commit(mutation, payload)] *)
Definition commit (m : M State.t unit) : Async unit :=
  fun w =>
    let (r, s') := m (state w) in
    (r, mkWorld (db w) s').

Definition commit_ (f : State.t -> State.t) : Async unit := commit (modify f).

(** A write request that cannot fail. *)
Definition dexie (f : Db.t -> Db.t) : Async unit :=
  fun w => (Resolved tt, mkWorld (f (db w)) (state w)).

(** A read request. *)
Definition query {A : Type} (f : Db.t -> A) : Async A :=
  gets (fun w => f (db w)).

(** A write request that may fail. *)
Definition dexie_try (f : Db.t -> option Db.t) : Async unit :=
  fun w =>
    match f (db w) with
    | Some d => (Resolved tt, mkWorld d (state w))
    | None => (Rejected, w)
    end.

Definition tasks_update (taskId : string) (u : TaskUpdates) : Async unit :=
  dexie (fun d =>
    Db.with_tasks (tbl_update Task.id taskId (applyTaskUpdates u) (Db.tasks d)) d).

Definition tasks_add (task : Task.t) : Async unit :=
  dexie_try (fun d =>
    option_map (fun tbl => Db.with_tasks tbl d) (tbl_add Task.id task (Db.tasks d))).

Definition tasks_bulkPut (tasks : list Task.t) : Async unit :=
  dexie (fun d => Db.with_tasks (tbl_bulkPut Task.id tasks (Db.tasks d)) d).

Definition tasks_delete (p : Task.t -> bool) : Async unit :=
  dexie (fun d => Db.with_tasks (tbl_delete p (Db.tasks d)) d).

Definition tags_add (tag : Tag.t) : Async unit :=
  dexie_try (fun d =>
    option_map (fun tbl => Db.with_tags tbl d) (tbl_add Tag.id tag (Db.tags d))).

Definition tags_delete (p : Tag.t -> bool) : Async unit :=
  dexie (fun d => Db.with_tags (tbl_delete p (Db.tags d)) d).

Definition taskTagMap_add (row : TaskTagMap.t) : Async unit :=
  dexie_try (fun d =>
    option_map (fun tbl => Db.with_taskTagMap tbl d)
      (tbl_add TaskTagMap.id row (Db.taskTagMap d))).

Definition taskTagMap_bulkAdd (rows : list TaskTagMap.t) : Async unit :=
  fun w =>
    let (tbl, ok) := tbl_bulkAdd TaskTagMap.id rows (Db.taskTagMap (db w)) in
    ((if ok then Resolved tt else Rejected),
     mkWorld (Db.with_taskTagMap tbl (db w)) (state w)).

Definition taskTagMap_delete (p : TaskTagMap.t -> bool) : Async unit :=
  dexie (fun d => Db.with_taskTagMap (tbl_delete p (Db.taskTagMap d)) d).

Definition logs_add (log : TaskLog.t) : Async unit :=
  dexie_try (fun d =>
    option_map (fun tbl => Db.with_logs tbl d) (tbl_add TaskLog.id log (Db.logs d))).

Definition logs_put (log : TaskLog.t) : Async unit :=
  dexie (fun d => Db.with_logs (tbl_put TaskLog.id log (Db.logs d)) d).

Definition logs_delete (p : TaskLog.t -> bool) : Async unit :=
  dexie (fun d => Db.with_logs (tbl_delete p (Db.logs d)) d).

Definition settings_put (kv : SettingKv.t) : Async unit :=
  dexie (fun d => Db.with_settings (tbl_put SettingKv.key kv (Db.settings d)) d).

(** Membership in a list of ids ([anyOf(taskIds)], [id in reorderTaskIds]). *)
Definition mem (x : string) (l : list string) : bool :=
  existsb (fun y => (y =? x)%string) l.

(** Modelled from the spec: the getter [archivedTasks] ([getters.ts] is not
    among the sources).  The glossary gives a task an optional archival
    mark and the archive drop-down lists [getters.archivedTasks] as the
    "Archived Tasks"; the getter is taken to be the tasks of the store
    whose [archived] field is truthy. *)
Definition archivedTasks (s : State.t) : list Task.t :=
  filter (fun t => truthy_flag (Task.archived t)) (JsObj.values (State.tasks s)).

(** ** Actions *)

Section Actions.

Variable env : Env.

(** The helper for Dexie calls.  Its first argument is the promise of a
    request the caller has already issued: JavaScript evaluates
    [dexieDb.table.op(...)] before it enters [handleDexieError], so the
    request runs whatever [storageEnabled] says, and the flag only
    decides whether the caller sees the result or a rejection. *)
Definition handleDexieError {A : Type} (dexiePromise : Async A) : Async A :=
  fun w =>
    let (r, w') := dexiePromise w in
    if storageEnabled env then (r, w') else (Rejected, w').

Fixpoint loadSelectedTaskLogs (settings : list SettingKv.t)
    (selectedTaskLogs : list TaskLog.t) : Async (list TaskLog.t) :=
  match settings with
  | [] => ret selectedTaskLogs
  | setting :: rest =>
      if (SettingKv.key setting =? "selectedTaskID")%string
         && truthy_value (SettingKv.value setting)
      then
        match SettingKv.value setting with
        | VStr selectedTaskID =>
            found <- query (fun d =>
              filter (fun l => (TaskLog.taskId l =? selectedTaskID)%string)
                (Db.logs d)) ;;
            loadSelectedTaskLogs rest found
        | VBool _ => throw
        | _ => loadSelectedTaskLogs rest []
        end
      else loadSelectedTaskLogs rest selectedTaskLogs
  end.

(** [log.stopped = log.started + log.timeSpent] *)
Definition closeOrphan (log : TaskLog.t) : TaskLog.t :=
  match TaskLog.timeSpent log with
  | Some spent => TaskLog.with_stopped (Some (TaskLog.started log + spent)) log
  | None => log
  end.

Definition loadInitialData : Async unit :=
  if negb (dexieDb env) then ret tt
  else
    tasks <- query (fun d => orderBy Task.order (Db.tasks d)) ;;
    tags <- query (fun d => orderBy Tag.order (Db.tags d)) ;;
    taskTagMaps <- query Db.taskTagMap ;;
    settings <- query Db.settings ;;
    logs <- query Db.logs ;;
    forEach logs (fun log =>
      if negb (truthy_num (TaskLog.stopped log))
         && truthy_num (TaskLog.timeSpent log)
      then handleDexieError (logs_put (closeOrphan log))
      else ret tt) ;;
    selectedTaskLogs <- loadSelectedTaskLogs settings [] ;;
    commit (Mutations.loadInitialData (initialSettings env)
              tasks tags taskTagMaps settings selectedTaskLogs).

Definition updateTaskName (taskId name : string) : Async unit :=
  if negb (dexieDb env) then ret tt
  else
    tryCatch (
      task <- gets (fun w => JsObj.get taskId (State.tasks (state w))) ;;
      match task with
      | Some _ =>
          let taskUpdates := UpdName name in
          handleDexieError (tasks_update taskId taskUpdates) ;;
          commit_ (Mutations.updateTask taskId taskUpdates)
      | None => ret tt
      end).

Definition updateTaskNotes (taskId notes : string) : Async unit :=
  if negb (dexieDb env) then ret tt
  else
    tryCatch (
      task <- gets (fun w => JsObj.get taskId (State.tasks (state w))) ;;
      match task with
      | Some _ =>
          let taskUpdates := UpdNotes notes in
          handleDexieError (tasks_update taskId taskUpdates) ;;
          commit_ (Mutations.updateTask taskId taskUpdates)
      | None => ret tt
      end).

(** A task object the action holds: the object itself and, when it is
    one of the objects of [state.tasks], the key it is stored under.  The
    objects [Object.values(state.tasks)] returns are the store's own, so
    an assignment to one of their fields shows in the store at once; the
    objects of the payload are the caller's. *)
Definition TaskRef : Type := (option string * Task.t)%type.

Definition ownRefs (p : Task.t -> bool) (s : State.t) : list TaskRef :=
  map (fun kv => (Some (fst kv), snd kv))
    (filter (fun kv => p (snd kv)) (State.tasks s)).

Definition callerRefs (tasks : list Task.t) : list TaskRef :=
  map (fun t => (None, t)) tasks.

(** [for (const [i, task] of fullTaskOrder.entries()) { task.order = i }];
    an [undefined] element makes the assignment throw. *)
Fixpoint assignOrders (i : Z) (fullTaskOrder : list (option TaskRef))
    : M State.t (list Task.t) :=
  match fullTaskOrder with
  | [] => ret []
  | None :: _ => throw
  | Some (owner, task) :: rest =>
      let task' := Task.with_order i task in
      match owner with
      | Some k =>
          modify (fun s =>
            State.with_tasks (JsObj.set k task' (State.tasks s)) s)
      | None => ret tt
      end ;;
      rest' <- assignOrders (i + 1) rest ;;
      ret (task' :: rest')
  end.

(** Code that touches the store outside a mutation. *)
Definition inPlace {A : Type} (m : M State.t A) : Async A :=
  fun w =>
    let (r, s') := m (state w) in
    (r, mkWorld (db w) s').

Definition bulkPutTasks (tasks : list Task.t) : Async unit :=
  if negb (dexieDb env) then ret tt
  else
    handleDexieError (tasks_bulkPut tasks) ;;
    commit_ (Mutations.setTasks tasks).

(** The second branch's loop: every incomplete task whose id is among
    the payload's gives its place to the next object of the payload
    ([undefined] once the payload is used up). *)
Fixpoint substitute (reorderTaskIds : list string)
    (incompleteTasks : list TaskRef) (newIncompleteTaskOrder : list Task.t)
    : list (option TaskRef) :=
  match incompleteTasks with
  | [] => []
  | x :: rest =>
      if mem (Task.id (snd x)) reorderTaskIds then
        match newIncompleteTaskOrder with
        | next :: later =>
            Some (None, next) :: substitute reorderTaskIds rest later
        | [] => None :: substitute reorderTaskIds rest []
        end
      else Some x :: substitute reorderTaskIds rest newIncompleteTaskOrder
  end.

Definition reorderIncompleteTasks (newIncompleteTaskOrder : list Task.t)
    : Async unit :=
  if negb (dexieDb env) then ret tt
  else
    tryCatch (
      s <- gets state ;;
      let incompleteTasks :=
        ownRefs (fun t => negb (truthy_num (Task.completed t))) s in
      let completedTasks :=
        ownRefs (fun t => truthy_num (Task.completed t)) s in
      let origLength := List.length incompleteTasks in
      if Nat.eqb (List.length newIncompleteTaskOrder) origLength then
        let fullTaskOrder :=
          callerRefs newIncompleteTaskOrder ++ completedTasks in
        tasks <- inPlace (assignOrders 0 (map Some fullTaskOrder)) ;;
        bulkPutTasks tasks
      else
        let reorderTaskIds := map Task.id newIncompleteTaskOrder in
        let incompleteTasks' :=
          substitute reorderTaskIds incompleteTasks newIncompleteTaskOrder in
        if Nat.eqb (List.length incompleteTasks') origLength then
          let fullTaskOrder := incompleteTasks' ++ map Some completedTasks in
          tasks <- inPlace (assignOrders 0 fullTaskOrder) ;;
          bulkPutTasks tasks
        else ret tt).

Definition stopTask (now : Z) : Async unit :=
  if negb (dexieDb env) then ret tt
  else
    tryCatch (
      runningLog <- query (fun d =>
        find (fun log => isNull (TaskLog.stopped log)) (Db.logs d)) ;;
      match runningLog with
      | Some runningLog =>
          let runningLog :=
            TaskLog.with_timeSpent (Some (now - TaskLog.started runningLog))
              (TaskLog.with_stopped (Some now) runningLog) in
          handleDexieError (logs_put runningLog) ;;
          commit_ (Mutations.updateLog (TaskLog.taskId runningLog) runningLog)
      | None => ret tt
      end).

(** [nanoid] and the two readings of [Date.now()] (the one [stopTask]
    takes and the one of the new log) are arguments. *)
Definition startTask (nowStop now : Z) (nanoid : string) (taskId : string)
    : Async unit :=
  if negb (dexieDb env) then ret tt
  else
    tryCatch (
      stopTask nowStop ;;
      task <- gets (fun w => JsObj.get taskId (State.tasks (state w))) ;;
      match task with
      | Some _ =>
          let log := TaskLog.mk ("log-" ++ nanoid) taskId now None None in
          handleDexieError (logs_add log) ;;
          commit_ (Mutations.startTask log)
      | None => ret tt
      end).

Definition updateTaskTimer (now : Z) (taskId : string) : Async unit :=
  if negb (dexieDb env) then ret tt
  else
    tryCatch (
      task <- gets (fun w => JsObj.get taskId (State.tasks (state w))) ;;
      match task with
      | Some _ =>
          runningLog <- query (fun d =>
            find (fun log =>
                    (TaskLog.taskId log =? taskId)%string
                    && isNull (TaskLog.stopped log))
                 (Db.logs d)) ;;
          match runningLog with
          | Some runningLog =>
              let runningLog :=
                TaskLog.with_timeSpent
                  (Some (now - TaskLog.started runningLog)) runningLog in
              handleDexieError (logs_put runningLog) ;;
              commit_ (Mutations.updateLog taskId runningLog)
          | None => ret tt
          end
      | None => ret tt
      end).

Definition isActiveTask (task : Task.t) (s : State.t) : bool :=
  match TempState.activeTaskID (State.tempState s) with
  | Some active => (Task.id task =? active)%string
  | None => false
  end.

Definition completeTask (nowStop now : Z) (taskId : string) : Async unit :=
  if negb (dexieDb env) then ret tt
  else
    task <- gets (fun w => JsObj.get taskId (State.tasks (state w))) ;;
    match task with
    | Some task =>
        completedValue <-
          (if negb (truthy_num (Task.completed task)) then
             s <- gets state ;;
             (if isActiveTask task s && TempState.running (State.tempState s)
              then stopTask nowStop
              else ret tt) ;;
             ret (Some now)
           else ret None) ;;
        let taskUpdates := UpdCompleted completedValue in
        tasks_update taskId taskUpdates ;;
        commit_ (Mutations.updateTask taskId taskUpdates)
    | None => ret tt
    end.

(** The payload's [archived] is what the Restore button passes along
    with [taskId]; the action destructures [taskId] alone. *)
Definition archiveTask (taskId : string) (archived : option bool)
    : Async unit :=
  if negb (dexieDb env) then ret tt
  else
    task <- gets (fun w => JsObj.get taskId (State.tasks (state w))) ;;
    match task with
    | Some task =>
        let taskUpdates := UpdArchived (negb (truthy_flag (Task.archived task))) in
        tasks_update taskId taskUpdates ;;
        commit_ (Mutations.updateTask taskId taskUpdates)
    | None => ret tt
    end.

Definition addInterval (nanoid : string) (taskId : string)
    (started timeSpent stopped : Z) : Async unit :=
  if negb (dexieDb env) then ret tt
  else
    task <- gets (fun w => JsObj.get taskId (State.tasks (state w))) ;;
    match task with
    | Some _ =>
        let log :=
          TaskLog.mk ("log-" ++ nanoid) taskId started (Some stopped)
            (Some timeSpent) in
        logs_add log ;;
        commit_ (Mutations.updateLog taskId log)
    | None => ret tt
    end.

Definition updateInterval (logId : string) (started timeSpent stopped : Z)
    : Async unit :=
  if negb (dexieDb env) then ret tt
  else
    tryCatch (
      log <- query (fun d => tbl_get TaskLog.id logId (Db.logs d)) ;;
      match log with
      | Some log =>
          let log :=
            TaskLog.with_timeSpent (Some timeSpent)
              (TaskLog.with_stopped (Some stopped)
                 (TaskLog.with_started started log)) in
          handleDexieError (logs_put log) ;;
          commit_ (Mutations.updateLog (TaskLog.taskId log) log)
      | None => ret tt
      end).

Definition deleteInterval (logId : string) : Async unit :=
  if negb (dexieDb env) then ret tt
  else
    tryCatch (
      log <- query (fun d => tbl_get TaskLog.id logId (Db.logs d)) ;;
      match log with
      | Some log =>
          handleDexieError
            (logs_delete (fun l => (TaskLog.id l =? logId)%string)) ;;
          commit_ (Mutations.deleteInterval (TaskLog.taskId log) logId)
      | None => ret tt
      end).

Definition updateSetting (key : string) (value : SettingValue) : Async unit :=
  if negb (dexieDb env) then ret tt
  else
    handleDexieError (settings_put (SettingKv.mk key value)) ;;
    commit_ (Mutations.updateSetting key value).

Definition selectTask (taskId : option string) : Async unit :=
  if negb (dexieDb env) then ret tt
  else
    updateSetting "selectedTaskID"
      match taskId with Some x => VStr x | None => VNull end ;;
    match taskId with
    | Some x =>
        if truthy_str x then
          selectedTaskLogs <- query (fun d =>
            filter (fun l => (TaskLog.taskId l =? x)%string) (Db.logs d)) ;;
          commit_ (Mutations.setSelectedTaskLogs selectedTaskLogs)
        else commit_ (Mutations.setSelectedTaskLogs [])
    | None => commit_ (Mutations.setSelectedTaskLogs [])
    end.

(** [taskTagMaps = selectedTagIds.map(tagId => ({ id: 'taskTag-' + nanoid(), ... }))],
    the calls of [nanoid] numbered from [i]. *)
Fixpoint newTaskTagMaps (nanoid : nat -> string) (i : nat) (taskId : string)
    (selectedTagIds : list string) : list TaskTagMap.t :=
  match selectedTagIds with
  | [] => []
  | tagId :: rest =>
      TaskTagMap.mk ("taskTag-" ++ nanoid i) taskId tagId
        :: newTaskTagMaps nanoid (S i) taskId rest
  end.

(** [nanoid n] is what the [n]-th call of [nanoid()] in this run
    returns. *)
Definition addTask (nanoid : nat -> string) (now : Z) (name : string)
    : Async unit :=
  if negb (dexieDb env) then ret tt
  else
    let taskName := trim name in
    if truthy_str taskName then
      tryCatch (
        s <- gets state ;;
        let order :=
          fold_left
            (fun max t => if Task.order t >? max then Task.order t else max)
            (JsObj.values (State.tasks s)) 0 + 1 in
        let newTask :=
          Task.mk ("task-" ++ nanoid 0%nat) taskName "" order now None None in
        handleDexieError (tasks_add newTask) ;;
        taskTagMaps <-
          (if match JsObj.get "addSelectedTags" (State.settings s) with
              | Some v => truthy_value v
              | None => false
              end
           then
             match JsObj.get "selectedTagIds" (State.settings s) with
             | Some (VList []) => ret []
             | Some (VList selectedTagIds) =>
                 let taskTagMaps :=
                   newTaskTagMaps nanoid 1 (Task.id newTask) selectedTagIds in
                 handleDexieError (taskTagMap_bulkAdd taskTagMaps) ;;
                 ret taskTagMaps
             | Some (VStr "") | Some (VNum _) | Some (VBool _) => ret []
             | Some (VStr _) | Some VNull | None => throw
             end
           else ret []) ;;
        commit (Mutations.addTask newTask taskTagMaps) ;;
        selectTask (Some (Task.id newTask)))
    else ret tt.

(** [dexieDb.tags.orderBy('order').last()] *)
Definition lastByOrder (tags : list Tag.t) : option Tag.t :=
  last (map Some (orderBy Tag.order tags)) None.

(** [nanoidTag], [color] and [nanoidMap] are what [nanoid()],
    [colorManager.getRandomColor()] and the second [nanoid()] return. *)
Definition addTaskTagByName (nanoidTag color nanoidMap : string)
    (taskId tagName : string) : Async unit :=
  if negb (dexieDb env) then ret tt
  else
    tryCatch (
      let trimmedTagName := trim tagName in
      if truthy_str trimmedTagName then
        task <- gets (fun w => JsObj.get taskId (State.tasks (state w))) ;;
        match task with
        | Some _ =>
            found <- query (fun d =>
              find (fun t => (Tag.tagName t =? trimmedTagName)%string)
                (Db.tags d)) ;;
            let isNewTag :=
              match found with Some _ => false | None => true end in
            tag <-
              match found with
              | Some tag => ret tag
              | None =>
                  maxOrder <- query (fun d => lastByOrder (Db.tags d)) ;;
                  let order :=
                    match maxOrder with
                    | Some m => Tag.order m + 1
                    | None => 0
                    end in
                  let tag :=
                    Tag.mk ("tag-" ++ nanoidTag) trimmedTagName color order in
                  tags_add tag ;;
                  ret tag
              end ;;
            taskTagMap_add
              (TaskTagMap.mk ("taskTag-" ++ nanoidMap) taskId (Tag.id tag)) ;;
            commit (Mutations.addTaskTag taskId tag isNewTag)
        | None => ret tt
        end
      else ret tt).

Definition addTaskTagById (nanoid : string) (taskId tagId : string)
    : Async unit :=
  if negb (dexieDb env) then ret tt
  else
    s <- gets state ;;
    match JsObj.get taskId (State.tasks s), JsObj.get tagId (State.tags s) with
    | Some _, Some tag =>
        handleDexieError
          (taskTagMap_add (TaskTagMap.mk ("taskTag-" ++ nanoid) taskId tagId)) ;;
        commit (Mutations.addTaskTag taskId tag false)
    | _, _ => ret tt
    end.

Definition removeTaskTag (taskId tagId : string) : Async unit :=
  if negb (dexieDb env) then ret tt
  else
    taskTagMap_delete (fun taskTagMap =>
      (TaskTagMap.taskId taskTagMap =? taskId)%string
      && (TaskTagMap.tagId taskTagMap =? tagId)%string) ;;
    newTags <- query (fun d =>
      filter (fun row => (TaskTagMap.taskId row =? taskId)%string)
        (Db.taskTagMap d)) ;;
    let newTagIds := map TaskTagMap.tagId newTags in
    commit_ (Mutations.deleteTaskTag taskId newTagIds).

(** [confirmed] is the user's answer to the [confirm] dialog. *)
Definition deleteTag (confirmed : bool) (tagId : string) : Async unit :=
  if negb (dexieDb env) then ret tt
  else
    tag <- query (fun d => tbl_get Tag.id tagId (Db.tags d)) ;;
    match tag with
    | None => ret tt
    | Some _ =>
        if confirmed then
          handleDexieError
            (taskTagMap_delete (fun row => (TaskTagMap.tagId row =? tagId)%string)) ;;
          handleDexieError
            (tags_delete (fun t => (Tag.id t =? tagId)%string)) ;;
          commit (Mutations.deleteTag tagId)
        else ret tt
    end.

(** [selectedTagIds] is the store's own array: [push] changes the store
    before [updateSetting] is dispatched. *)
Definition addTagFilter (tagId : string) : Async unit :=
  if negb (dexieDb env) then ret tt
  else
    s <- gets state ;;
    match JsObj.get "selectedTagIds" (State.settings s) with
    | Some (VList selectedTagIds) =>
        let selectedTagIds := selectedTagIds ++ [tagId] in
        inPlace (modify (fun s =>
          State.with_settings
            (JsObj.set "selectedTagIds" (VList selectedTagIds)
               (State.settings s)) s)) ;;
        updateSetting "selectedTagIds" (VList selectedTagIds)
    | _ => throw
    end.

Definition removeTagFilter (tagId : string) : Async unit :=
  if negb (dexieDb env) then ret tt
  else
    s <- gets state ;;
    match JsObj.get "selectedTagIds" (State.settings s) with
    | Some (VList selectedTagIds) =>
        updateSetting "selectedTagIds" (VList (without tagId selectedTagIds))
    | _ => throw
    end.

Definition removeAllTagFilters : Async unit :=
  if negb (dexieDb env) then ret tt
  else
    handleDexieError (settings_put (SettingKv.mk "selectedTagIds" (VList []))) ;;
    updateSetting "selectedTagIds" (VList []).

Definition deleteAllArchivedTasks : Async unit :=
  if negb (dexieDb env) then ret tt
  else
    archived <- gets (fun w => archivedTasks (state w)) ;;
    match archived with
    | [] => ret tt
    | _ :: _ =>
        let taskIds := map Task.id archived in
        handleDexieError
          (logs_delete (fun l => mem (TaskLog.taskId l) taskIds)) ;;
        handleDexieError
          (taskTagMap_delete (fun row => mem (TaskTagMap.taskId row) taskIds)) ;;
        handleDexieError
          (tasks_delete (fun t => mem (Task.id t) taskIds)) ;;
        commit_ (Mutations.deleteTasks taskIds)
    end.

End Actions.

(** ** Notions the properties are stated with *)

(** The world an action leaves behind. *)
Definition run {A : Type} (m : Async A) (w : World) : World := snd (m w).

(** Every task of the store sits under its own id, each key once. *)
Definition tasks_keyed (s : State.t) : Prop :=
  NoDup (JsObj.keys (State.tasks s))
  /\ forall k t, In (k, t) (State.tasks s) -> Task.id t = k.

Definition incompleteTasks (s : State.t) : list Task.t :=
  filter (fun t => negb (truthy_num (Task.completed t)))
    (JsObj.values (State.tasks s)).

Definition completedTasks (s : State.t) : list Task.t :=
  filter (fun t => truthy_num (Task.completed t)) (JsObj.values (State.tasks s)).

(** The tasks of a list with [order] set to their index, counted from [i]. *)
Fixpoint renumber (i : Z) (tasks : list Task.t) : list Task.t :=
  match tasks with
  | [] => []
  | t :: rest => Task.with_order i t :: renumber (i + 1) rest
  end.

(** The tag ids of the association rows of a task, in table order. *)
Definition tagIdsOf (taskId : string) (rows : list TaskTagMap.t) : list string :=
  map TaskTagMap.tagId
    (filter (fun row => (TaskTagMap.taskId row =? taskId)%string) rows).

(** [state.taskTagsMap] lists, for every task of the store, the tag ids of
    the task's rows: in the order of the table ... *)
Definition tagsMapExact (w : World) : Prop :=
  forall taskId,
    In taskId (JsObj.keys (State.tasks (state w))) ->
    JsObj.get taskId (State.taskTagsMap (state w))
    = Some (tagIdsOf taskId (Db.taskTagMap (db w))).

(** ... or in some order. *)
Definition consistentWith (taskIds : list string)
    (tagsMap : JsObj.t (list string)) (rows : list TaskTagMap.t) : Prop :=
  forall taskId,
    In taskId taskIds ->
    exists tagIds,
      JsObj.get taskId tagsMap = Some tagIds
      /\ Permutation tagIds (tagIdsOf taskId rows).

Definition tagsMapConsistent (w : World) : Prop :=
  consistentWith (JsObj.keys (State.tasks (state w)))
    (State.taskTagsMap (state w)) (Db.taskTagMap (db w)).

(** Every tag of the store sits under its own id. *)
Definition tags_keyed (s : State.t) : Prop :=
  forall k tag, JsObj.get k (State.tags s) = Some tag -> Tag.id tag = k.

(** The running logs of the database. *)
Definition isRunning (log : TaskLog.t) : bool := isNull (TaskLog.stopped log).

Definition runningLogs (d : Db.t) : list TaskLog.t :=
  filter isRunning (Db.logs d).

Definition runningCount (d : Db.t) : nat := List.length (runningLogs d).

Definition atMostOneRunning (d : Db.t) : Prop := (runningCount d <= 1)%nat.

(** A computation that starts no timer: it leaves no more running logs
    than it found. *)
Definition nonIncreasing {A : Type} (m : Async A) : Prop :=
  forall w, (runningCount (db (snd (m w))) <= runningCount (db w))%nat.

(** One dispatched action, run from its dispatch to its end with no other
    action in between, with whatever payload, clock readings, fresh ids and
    user answers.  The actions of [actions.ts] that
    are not modelled above ([loadAllActivity], [loadTagActivity],
    [archiveTasks], [getLogById], [updateTag], [reorderTags],
    [openActivityModal], [closeActivityModal]) issue no write to the
    [logs] table; [step_other] stands for them. *)
Inductive step : World -> World -> Prop :=
| step_loadInitialData env w :
    step w (run (loadInitialData env) w)
| step_addTask env nanoid now name w :
    step w (run (addTask env nanoid now name) w)
| step_updateTaskName env taskId name w :
    step w (run (updateTaskName env taskId name) w)
| step_updateTaskNotes env taskId notes w :
    step w (run (updateTaskNotes env taskId notes) w)
| step_reorderIncompleteTasks env newIncompleteTaskOrder w :
    step w (run (reorderIncompleteTasks env newIncompleteTaskOrder) w)
| step_startTask env nowStop now nanoid taskId w :
    step w (run (startTask env nowStop now nanoid taskId) w)
| step_updateTaskTimer env now taskId w :
    step w (run (updateTaskTimer env now taskId) w)
| step_stopTask env now w :
    step w (run (stopTask env now) w)
| step_completeTask env nowStop now taskId w :
    step w (run (completeTask env nowStop now taskId) w)
| step_archiveTask env taskId archived w :
    step w (run (archiveTask env taskId archived) w)
| step_addInterval env nanoid taskId started timeSpent stopped w :
    step w (run (addInterval env nanoid taskId started timeSpent stopped) w)
| step_updateInterval env logId started timeSpent stopped w :
    step w (run (updateInterval env logId started timeSpent stopped) w)
| step_deleteInterval env logId w :
    step w (run (deleteInterval env logId) w)
| step_addTaskTagByName env nanoidTag color nanoidMap taskId tagName w :
    step w (run (addTaskTagByName env nanoidTag color nanoidMap taskId tagName) w)
| step_addTaskTagById env nanoid taskId tagId w :
    step w (run (addTaskTagById env nanoid taskId tagId) w)
| step_removeTaskTag env taskId tagId w :
    step w (run (removeTaskTag env taskId tagId) w)
| step_deleteTag env confirmed tagId w :
    step w (run (deleteTag env confirmed tagId) w)
| step_selectTask env taskId w :
    step w (run (selectTask env taskId) w)
| step_addTagFilter env tagId w :
    step w (run (addTagFilter env tagId) w)
| step_removeTagFilter env tagId w :
    step w (run (removeTagFilter env tagId) w)
| step_updateSetting env key value w :
    step w (run (updateSetting env key value) w)
| step_removeAllTagFilters env w :
    step w (run (removeAllTagFilters env) w)
| step_deleteAllArchivedTasks env w :
    step w (run (deleteAllArchivedTasks env) w)
| step_other w w' :
    Db.logs (db w') = Db.logs (db w) -> step w w'.

(** The worlds the application is in between actions that are dispatched
    one after the other, each settled before the next is dispatched: it
    starts on an empty database and moves by whole actions.  Actions that
    overlap are the matter of [Flight] below. *)
Inductive reachable : World -> Prop :=
| reachable_init s : reachable (mkWorld Db.empty s)
| reachable_step w w' : reachable w -> step w w' -> reachable w'.

(** ** Actions in flight

    [step] takes an action from its dispatch to its end.  An async action
    runs in stretches: at an [await] it gives way, and it goes on with the
    awaited value once the request has been served.  Nothing keeps a second
    action from being dispatched, and from running its own stretches, in
    between.  A [Flight] is an action at such a point: it has settled, or
    it has a next stretch (an awaited request, or the code between two
    awaits, run in one piece on the world of that moment) and goes on from
    the outcome of it. *)
Inductive Flight (A : Type) : Type :=
| Settled (r : Outcome A)
| Await (X : Type) (stretch : Async X) (resume : Outcome X -> Flight A).

(** [await request] *)
Definition await {X : Type} (request : Async X) : Flight X :=
  Await request (fun o => Settled o).

(** Code that touches the store between two awaits. *)
Definition sync {X : Type} (code : Async X) : Flight X :=
  Await code (fun o => Settled o).

Fixpoint fbind {A B : Type} (f : Flight A) (k : A -> Flight B) : Flight B :=
  match f with
  | Settled (Resolved a) => k a
  | Settled Rejected => Settled Rejected
  | Await stretch resume => Await stretch (fun o => fbind (resume o) k)
  end.

(** [try { f } catch (error) { console.error(...) }] *)
Fixpoint ftryCatch (f : Flight unit) : Flight unit :=
  match f with
  | Settled _ => Settled (Resolved tt)
  | Await stretch resume => Await stretch (fun o => ftryCatch (resume o))
  end.

Declare Scope flight_scope.
Delimit Scope flight_scope with flight.
Notation "x <- m ;; k" := (fbind m (fun x => k))
  (at level 61, m at next level, right associativity) : flight_scope.
Notation "m ;; k" := (fbind m (fun _ => k))
  (at level 61, right associativity) : flight_scope.

(** A flight that nothing interrupts. *)
Fixpoint settle {A : Type} (f : Flight A) : Async A :=
  match f with
  | Settled r => fun w => (r, w)
  | Await stretch resume =>
      fun w => let (o, w') := stretch w in settle (resume o) w'
  end.

(** Two actions in flight.  The schedule says whose turn it is, stretch by
    stretch ([true]: the first action's); an action that has settled lets
    its turn pass, and once the schedule is used up the first action runs
    to its end, then the second. *)
Fixpoint interleave {A B : Type} (schedule : list bool)
    (f : Flight A) (g : Flight B) (w : World) : World :=
  match schedule with
  | [] => run (settle g) (run (settle f) w)
  | true :: later =>
      match f with
      | Settled _ => interleave later f g w
      | Await stretch resume =>
          let (o, w') := stretch w in interleave later (resume o) g w'
      end
  | false :: later =>
      match g with
      | Settled _ => interleave later f g w
      | Await stretch resume =>
          let (o, w') := stretch w in interleave later f (resume o) w'
      end
  end.

(** The timer's actions, stretch by stretch. *)
Module Flights.

Section Timer.

Variable env : Env.

Definition stopTask (now : Z) : Flight unit :=
  if negb (dexieDb env) then Settled (Resolved tt)
  else
    ftryCatch (
      runningLog <- await (query (fun d =>
        find (fun log => isNull (TaskLog.stopped log)) (Db.logs d))) ;;
      match runningLog with
      | Some runningLog =>
          let runningLog :=
            TaskLog.with_timeSpent (Some (now - TaskLog.started runningLog))
              (TaskLog.with_stopped (Some now) runningLog) in
          await (handleDexieError env (logs_put runningLog)) ;;
          sync (commit_ (Mutations.updateLog (TaskLog.taskId runningLog)
                           runningLog))
      | None => Settled (Resolved tt)
      end)%flight.

Definition startTask (nowStop now : Z) (nanoid : string) (taskId : string)
    : Flight unit :=
  if negb (dexieDb env) then Settled (Resolved tt)
  else
    ftryCatch (
      stopTask nowStop ;;
      task <- sync (gets (fun w => JsObj.get taskId (State.tasks (state w)))) ;;
      match task with
      | Some _ =>
          let log := TaskLog.mk ("log-" ++ nanoid) taskId now None None in
          await (handleDexieError env (logs_add log)) ;;
          sync (commit_ (Mutations.startTask log))
      | None => Settled (Resolved tt)
      end)%flight.

Definition updateTaskTimer (now : Z) (taskId : string) : Flight unit :=
  if negb (dexieDb env) then Settled (Resolved tt)
  else
    ftryCatch (
      task <- sync (gets (fun w => JsObj.get taskId (State.tasks (state w)))) ;;
      match task with
      | Some _ =>
          runningLog <- await (query (fun d =>
            find (fun log =>
                    (TaskLog.taskId log =? taskId)%string
                    && isNull (TaskLog.stopped log))
                 (Db.logs d))) ;;
          match runningLog with
          | Some runningLog =>
              let runningLog :=
                TaskLog.with_timeSpent
                  (Some (now - TaskLog.started runningLog)) runningLog in
              await (handleDexieError env (logs_put runningLog)) ;;
              sync (commit_ (Mutations.updateLog taskId runningLog))
          | None => Settled (Resolved tt)
          end
      | None => Settled (Resolved tt)
      end)%flight.

End Timer.

End Flights.

(** An orphaned entry as [loadInitialData] tests it:
    [!log.stopped && log.timeSpent]. *)
Definition isOrphan (log : TaskLog.t) : bool :=
  negb (truthy_num (TaskLog.stopped log)) && truthy_num (TaskLog.timeSpent log).

(** The [logs] table after the reconciliation loop has gone through
    [logs], all writes admitted. *)
Definition reconcile (logs tbl : list TaskLog.t) : list TaskLog.t :=
  fold_left
    (fun acc log =>
       if isOrphan log then tbl_put TaskLog.id (closeOrphan log) acc else acc)
    logs tbl.

(** ** Sample worlds *)

Module Sample.

Definition settings : JsObj.t SettingValue :=
  [("selectedTaskID", VStr "task-2");
   ("selectedTagIds", VList ["tag-a"]);
   ("addSelectedTags", VBool false)].

(** Storage enabled, and the disk-space check failing. *)
Definition env : Env := mkEnv true true settings.
Definition lowDisk : Env := mkEnv true false settings.

Definition task1 : Task.t := Task.mk "task-1" "write" "" 1 10 None None.
Definition task2 : Task.t :=
  Task.mk "task-2" "read" "" 0 20 (Some 50) (Some true).

Definition tagA : Tag.t := Tag.mk "tag-a" "home" "red" 0.
Definition tagB : Tag.t := Tag.mk "tag-b" "work" "blue" 1.

Definition rowM : TaskTagMap.t := TaskTagMap.mk "taskTag-m" "task-1" "tag-a".

(** A closed interval of the archived task and the running timer. *)
Definition log1 : TaskLog.t := TaskLog.mk "log-1" "task-2" 30 (Some 40) (Some 10).
Definition log2 : TaskLog.t := TaskLog.mk "log-2" "task-1" 100 None None.

Definition database : Db.t :=
  Db.mk [task1; task2] [tagA; tagB] [rowM]
    [SettingKv.mk "selectedTagIds" (VList ["tag-a"]);
     SettingKv.mk "selectedTaskID" (VStr "task-2")]
    [log1; log2].

Definition store : State.t :=
  State.mk [("task-2", task2); ("task-1", task1)]
    [("tag-a", tagA); ("tag-b", tagB)] ["tag-a"; "tag-b"]
    [("task-2", []); ("task-1", ["tag-a"])]
    settings [log1] (TempState.mk (Some "task-1") true None) false.

Definition world : World := mkWorld database store.

(** A session on a fresh install: a task is added, its timer started ... *)
Definition defaults : JsObj.t SettingValue :=
  [("selectedTaskID", VNull);
   ("selectedTagIds", VList []);
   ("addSelectedTags", VBool false)].

Definition fresh : World :=
  mkWorld Db.empty
    (State.mk [] [] [] [] defaults [] (TempState.mk None false None) false).

Definition taskR : Task.t := Task.mk "task-r" "read" "" 1 10 None None.

Definition added : World :=
  mkWorld
    (Db.mk [taskR] [] [] [SettingKv.mk "selectedTaskID" (VStr "task-r")] [])
    (State.mk [("task-r", taskR)] [] [] [("task-r", [])]
       [("selectedTaskID", VStr "task-r");
        ("selectedTagIds", VList []);
        ("addSelectedTags", VBool false)]
       [] (TempState.mk None false None) false).

Definition logA : TaskLog.t := TaskLog.mk "log-a" "task-r" 21 None None.

Definition started : World :=
  mkWorld (Db.with_logs [logA] (db added))
    (State.with_tempState (TempState.mk (Some "task-r") true None)
       (State.with_selectedTaskLogs [logA] (state added))).

(** ... the timer is updated within the millisecond of its start ... *)
Definition logA0 : TaskLog.t := TaskLog.mk "log-a" "task-r" 21 None (Some 0).

Definition ticked : World :=
  mkWorld (Db.with_logs [logA0] (db started))
    (State.with_selectedTaskLogs [logA0] (state started)).

(** ... or stopped, and the task archived ... *)
Definition logA9 : TaskLog.t := TaskLog.mk "log-a" "task-r" 21 (Some 30) (Some 9).

Definition archivedSelected : World :=
  mkWorld
    (Db.with_tasks [Task.with_archived (Some true) taskR]
       (Db.with_logs [logA9] (db added)))
    (State.with_tasks [("task-r", Task.with_archived (Some true) taskR)]
       (State.with_selectedTaskLogs [logA9] (state added))).

(** ... or the new task is given a first tag. *)
Definition tagHome : Tag.t := Tag.mk "tag-h" "home" "red" 0.

Definition tagged : World :=
  mkWorld
    (Db.with_tags [tagHome]
       (Db.with_taskTagMap [TaskTagMap.mk "taskTag-m" "task-r" "tag-h"]
          (db added)))
    (State.with_tags [("tag-h", tagHome)]
       (State.with_tagOrder ["tag-h"]
          (State.with_taskTagsMap [("task-r", ["tag-h"])] (state added)))).

(** A store with two incomplete tasks and a completed one. *)
Definition task3 : Task.t := Task.mk "task-3" "plan" "" 2 30 None None.

Definition three : World :=
  mkWorld (Db.with_tasks [task1; task2; task3] database)
    (State.with_tasks
       [("task-2", task2); ("task-1", task1); ("task-3", task3)] store).

End Sample.

(** ** The rest of the store: tag order, single logs, the activity list

    The actions [reorderTags], [getLogById], [loadAllActivity] and
    [loadTagActivity], with the mutations they commit.  [archiveTasks]
    reads the getter [completedTasksFiltered] and [updateTag] spreads a
    partial tag built by its callers; neither is among the sources, and
    the two actions are left out, as are [openActivityModal] and
    [closeActivityModal], which only show and hide the modal. *)

(** [tag.order = v] *)
Definition Tag_with_order (v : Z) (x : Tag.t) : Tag.t :=
  Tag.mk (Tag.id x) (Tag.tagName x) (Tag.color x) v.

(** [dexieDb.tags.bulkPut(tags)] *)
Definition tags_bulkPut (tags : list Tag.t) : Async unit :=
  dexie (fun d => Db.with_tags (tbl_bulkPut Tag.id tags (Db.tags d)) d).

(** What the activity modal lists: a log as it is (its task is not in the
    store), a log with the name and the tags of its task, or the
    completion of a task. *)
Inductive ModalActivityItem : Type :=
| PlainLog (log : TaskLog.t)
| TaskLogItem (task : string) (tagIds : option (list string)) (log : TaskLog.t)
| CompletedItem (task : string) (tagIds : option (list string)) (completed : Z).

(** ['started' in a ? a.started : a.completed] *)
Definition itemTime (item : ModalActivityItem) : Z :=
  match item with
  | PlainLog log => TaskLog.started log
  | TaskLogItem _ _ log => TaskLog.started log
  | CompletedItem _ _ completed => completed
  end.

(** [task.completed] of a task that passed the filter [t => t.completed]. *)
Definition completedAt (task : Task.t) : Z :=
  match Task.completed task with
  | Some z => z
  | None => 0
  end.

(** [table.where(field).anyOf(keys)] walks the index of a string field:
    rows come by that field, then by primary key. *)
Fixpoint insertByStr {R : Type} (field : R -> string) (r : R) (l : list R)
    : list R :=
  match l with
  | [] => [r]
  | x :: rest =>
      if String.leb (field r) (field x) then r :: l
      else x :: insertByStr field r rest
  end.

Definition orderByStr {R : Type} (field : R -> string) (tbl : list R) : list R :=
  fold_right (insertByStr field) [] tbl.

Module MoreMutations.

(** The mutation [updateTagOrder]. *)
Definition updateTagOrder (reorderedTags : list Tag.t) (s : State.t) : State.t :=
  State.with_tagOrder (map Tag.id reorderedTags)
    (fold_left
       (fun acc tag =>
          State.with_tags (JsObj.set (Tag.id tag) tag (State.tags acc)) acc)
       reorderedTags s).

(** The mutation [setModalActivity]: the list it stores in
    [state.modalActivity], the one field it writes.  [Array.prototype.sort]
    is stable, and so is [orderBy]. *)
Definition setModalActivity (logs : list TaskLog.t) (s : State.t)
    : list ModalActivityItem :=
  let logsWithTaskDetails :=
    map (fun l =>
           match JsObj.get (TaskLog.taskId l) (State.tasks s) with
           | None => PlainLog l
           | Some task =>
               let tagIds := JsObj.get (Task.id task) (State.taskTagsMap s) in
               TaskLogItem (Task.name task) tagIds l
           end) logs in
  let withCompleted :=
    fold_left
      (fun acc task =>
         CompletedItem (Task.name task)
           (JsObj.get (Task.id task) (State.taskTagsMap s)) (completedAt task)
         :: acc)
      (filter (fun t => truthy_num (Task.completed t))
         (JsObj.values (State.tasks s)))
      logsWithTaskDetails in
  orderBy itemTime withCompleted.

End MoreMutations.

Section MoreActions.

Variable env : Env.

(** The loop of [reorderTags]: [tag.order = i] is written into the store's
    own tag object; a tag id the store does not have makes [tag.order]
    throw. *)
Fixpoint renumberTags (i : Z) (newOrder : list string) : M State.t unit :=
  match newOrder with
  | [] => ret tt
  | tagId :: rest =>
      fun s =>
        match JsObj.get tagId (State.tags s) with
        | Some tag =>
            renumberTags (i + 1) rest
              (if Tag.order tag =? i then s
               else State.with_tags
                      (JsObj.set tagId (Tag_with_order i tag) (State.tags s)) s)
        | None => (Rejected, s)
        end
  end.

(** [reorderedTags] holds the store's tag objects themselves, so it shows
    them as the loop has left them. *)
Definition reorderTags (newOrder : list string) : Async unit :=
  if negb (dexieDb env) then ret tt
  else
    inPlace (renumberTags 0 newOrder) ;;
    s <- gets state ;;
    let reorderedTags :=
      flat_map (fun tagId =>
                  match JsObj.get tagId (State.tags s) with
                  | Some tag => [tag]
                  | None => []
                  end) newOrder in
    handleDexieError env (tags_bulkPut reorderedTags) ;;
    commit_ (MoreMutations.updateTagOrder reorderedTags).

(** [dexieDb.logs.where('id').equals(logId).first()] *)
Definition getLogById (logId : string) : Async (option TaskLog.t) :=
  if negb (dexieDb env) then ret None
  else query (fun d => tbl_get TaskLog.id logId (Db.logs d)).

(** [loadAllActivity] and [loadTagActivity] write [state.modalActivity]
    alone: each is modelled by the list it commits ([None] when it returns
    without a commit). *)
Definition loadAllActivity : Async (option (list ModalActivityItem)) :=
  if negb (dexieDb env) then ret None
  else
    logs <- query (fun d => rev (orderBy TaskLog.started (Db.logs d))) ;;
    s <- gets state ;;
    ret (Some (MoreMutations.setModalActivity logs s)).

Definition loadTagActivity : Async (option (list ModalActivityItem)) :=
  if negb (dexieDb env) then ret None
  else
    s <- gets state ;;
    match TempState.modalTagId (State.tempState s) with
    | None => ret None
    | Some modalTagId =>
        if negb (truthy_str modalTagId) then ret None
        else
          taskMaps <- query (fun d =>
            filter (fun row => (TaskTagMap.tagId row =? modalTagId)%string)
              (Db.taskTagMap d)) ;;
          let taskIds := map TaskTagMap.taskId taskMaps in
          logs <- query (fun d =>
            orderByStr TaskLog.taskId
              (filter (fun l => mem (TaskLog.taskId l) taskIds) (Db.logs d))) ;;
          ret (Some (MoreMutations.setModalActivity logs s))
    end.

End MoreActions.

(** A list in ascending order of a numeric field. *)
Fixpoint ascending {R : Type} (ord : R -> Z) (l : list R) : Prop :=
  match l with
  | [] => True
  | x :: rest => (forall y, In y rest -> ord x <= ord y) /\ ascending ord rest
  end.

(** The store's maps are keyed by id. *)
Definition keyed (s : State.t) : Prop := tasks_keyed s /\ tags_keyed s.

(** The tags of a table carry distinct names. *)
Definition distinctTagNames (tags : list Tag.t) : Prop :=
  NoDup (map Tag.tagName tags).

(** A store whose tag filters are copied to new tasks. *)
Definition copying : World :=
  mkWorld Sample.database
    (State.with_settings
       [("selectedTaskID", VStr "task-2");
        ("selectedTagIds", VList ["tag-a"; "tag-b"]);
        ("addSelectedTags", VBool true)]
       Sample.store).

(** The ids [nanoid()] hands out in the sample runs: ["n0"], ["n1"], ... *)
Definition sampleIds (n : nat) : string :=
  String "n" (String (ascii_of_nat (48 + n)) EmptyString).

(** A computation that keeps the store's maps keyed by id. *)
Definition keepsKeyed {A : Type} (m : Async A) : Prop :=
  forall w, keyed (state w) -> keyed (state (snd (m w))).

(** The same for a mutation, or a loop that writes into the store. *)
Definition keepsKeyedM {A : Type} (m : M State.t A) : Prop :=
  forall s, keyed s -> keyed (snd (m s)).

(** One of the actions modelled here, dispatched and run to its end, with
    whatever payload, clock readings, fresh ids and user answers. *)
Inductive dispatched : World -> World -> Prop :=
| dispatched_loadInitialData env w :
    dispatched w (run (loadInitialData env) w)
| dispatched_loadAllActivity env w :
    dispatched w (run (loadAllActivity env) w)
| dispatched_loadTagActivity env w :
    dispatched w (run (loadTagActivity env) w)
| dispatched_addTask env nanoid now name w :
    dispatched w (run (addTask env nanoid now name) w)
| dispatched_updateTaskName env taskId name w :
    dispatched w (run (updateTaskName env taskId name) w)
| dispatched_updateTaskNotes env taskId notes w :
    dispatched w (run (updateTaskNotes env taskId notes) w)
| dispatched_reorderIncompleteTasks env newIncompleteTaskOrder w :
    dispatched w (run (reorderIncompleteTasks env newIncompleteTaskOrder) w)
| dispatched_startTask env nowStop now nanoid taskId w :
    dispatched w (run (startTask env nowStop now nanoid taskId) w)
| dispatched_updateTaskTimer env now taskId w :
    dispatched w (run (updateTaskTimer env now taskId) w)
| dispatched_stopTask env now w :
    dispatched w (run (stopTask env now) w)
| dispatched_completeTask env nowStop now taskId w :
    dispatched w (run (completeTask env nowStop now taskId) w)
| dispatched_archiveTask env taskId archived w :
    dispatched w (run (archiveTask env taskId archived) w)
| dispatched_addInterval env nanoid taskId started timeSpent stopped w :
    dispatched w (run (addInterval env nanoid taskId started timeSpent stopped) w)
| dispatched_getLogById env logId w :
    dispatched w (run (getLogById env logId) w)
| dispatched_updateInterval env logId started timeSpent stopped w :
    dispatched w (run (updateInterval env logId started timeSpent stopped) w)
| dispatched_deleteInterval env logId w :
    dispatched w (run (deleteInterval env logId) w)
| dispatched_addTaskTagByName env nanoidTag color nanoidMap taskId tagName w :
    dispatched w
      (run (addTaskTagByName env nanoidTag color nanoidMap taskId tagName) w)
| dispatched_addTaskTagById env nanoid taskId tagId w :
    dispatched w (run (addTaskTagById env nanoid taskId tagId) w)
| dispatched_reorderTags env newOrder w :
    dispatched w (run (reorderTags env newOrder) w)
| dispatched_removeTaskTag env taskId tagId w :
    dispatched w (run (removeTaskTag env taskId tagId) w)
| dispatched_deleteTag env confirmed tagId w :
    dispatched w (run (deleteTag env confirmed tagId) w)
| dispatched_selectTask env taskId w :
    dispatched w (run (selectTask env taskId) w)
| dispatched_addTagFilter env tagId w :
    dispatched w (run (addTagFilter env tagId) w)
| dispatched_removeTagFilter env tagId w :
    dispatched w (run (removeTagFilter env tagId) w)
| dispatched_updateSetting env key value w :
    dispatched w (run (updateSetting env key value) w)
| dispatched_removeAllTagFilters env w :
    dispatched w (run (removeAllTagFilters env) w)
| dispatched_deleteAllArchivedTasks env w :
    dispatched w (run (deleteAllArchivedTasks env) w).

(** * Properties *)

(** ** Strings *)

(** [trim] on white space beyond ASCII: a no-break space (C2 A0) and an
    ideographic space (E3 80 80) in front, a line separator (E2 80 A8) and
    a byte order mark (EF BB BF) behind; the space inside the name and the
    letter e with an acute accent (C3 A9) stay; and a name of one no-break
    space is blank. *)
Lemma trim_white_space_beyond_ascii :
  let bytes := fold_right (fun n s => String (ascii_of_nat n) s) "" in
  let nbsp := bytes [194; 160]%nat in
  let name := ("caf" ++ bytes [195; 169]%nat ++ " au lait")%string in
  trim (nbsp ++ bytes [227; 128; 128]%nat ++ " " ++ name
        ++ bytes [226; 128; 168]%nat ++ bytes [239; 187; 191]%nat ++ " ")%string
  = name
  /\ trim nbsp = ""
  /\ truthy_str (trim nbsp) = false
  /\ trim (name ++ nbsp)%string = name.
Proof. repeat split. Qed.

Lemma trim_empty : trim "" = "".
Proof. reflexivity. Qed.

(** ** Plain objects *)

Module JsObjFacts.

Import JsObj.

Lemma get_set_same {V : Type} (k : string) (v : V) (o : t V) :
  get k (set k v o) = Some v.
Proof.
  induction o as [|[k' v'] rest IH]; simpl.
  - now rewrite String.eqb_refl.
  - destruct (k' =? k)%string eqn:E; simpl; rewrite E; auto.
Qed.

Lemma get_set_other {V : Type} (k k' : string) (v : V) (o : t V) :
  k <> k' -> get k (set k' v o) = get k o.
Proof.
  intros Hne. induction o as [|[k0 v0] rest IH]; simpl.
  - destruct (k' =? k)%string eqn:E; auto.
    apply String.eqb_eq in E. congruence.
  - destruct (k0 =? k')%string eqn:E; simpl.
    + apply String.eqb_eq in E. subst k0.
      destruct (k' =? k)%string eqn:E'; auto.
      apply String.eqb_eq in E'. congruence.
    + now rewrite IH.
Qed.

Lemma get_In {V : Type} (k : string) (v : V) (o : t V) :
  get k o = Some v -> In (k, v) o.
Proof.
  induction o as [|[k' v'] rest IH]; simpl; [discriminate|].
  destruct (k' =? k)%string eqn:E.
  - apply String.eqb_eq in E. intros [= ->]. subst. now left.
  - auto.
Qed.

Lemma get_None_keys {V : Type} (k : string) (o : t V) :
  get k o = None <-> ~ In k (keys o).
Proof.
  induction o as [|[k' v'] rest IH]; simpl.
  - tauto.
  - destruct (k' =? k)%string eqn:E.
    + apply String.eqb_eq in E. split; [discriminate | intros H; exfalso; auto].
    + apply String.eqb_neq in E. rewrite IH. tauto.
Qed.

Lemma get_Some_keys {V : Type} (k : string) (o : t V) :
  In k (keys o) -> exists v, get k o = Some v.
Proof.
  intros Hin. destruct (get k o) eqn:E; eauto.
  apply get_None_keys in E. contradiction.
Qed.

Lemma In_get {V : Type} (k : string) (v : V) (o : t V) :
  NoDup (keys o) -> In (k, v) o -> get k o = Some v.
Proof.
  induction o as [|[k' v'] rest IH]; simpl; [tauto|].
  intros Hnd [Heq | Hin].
  - injection Heq as -> ->. now rewrite String.eqb_refl.
  - inversion Hnd as [|? ? Hnotin Hnd']; subst.
    destruct (k' =? k)%string eqn:E.
    + apply String.eqb_eq in E. subst k'.
      exfalso. apply Hnotin. change k with (fst (k, v)). now apply in_map.
    + auto.
Qed.

Lemma keys_set_present {V : Type} (k : string) (v : V) (o : t V) :
  In k (keys o) -> keys (set k v o) = keys o.
Proof.
  induction o as [|[k' v'] rest IH]; simpl; [tauto|].
  intros Hin. destruct (k' =? k)%string eqn:E; simpl; auto.
  apply String.eqb_neq in E. f_equal. apply IH. tauto.
Qed.

Lemma keys_set_absent {V : Type} (k : string) (v : V) (o : t V) :
  ~ In k (keys o) -> set k v o = o ++ [(k, v)].
Proof.
  induction o as [|[k' v'] rest IH]; simpl; auto.
  intros Hnotin. destruct (k' =? k)%string eqn:E.
  - apply String.eqb_eq in E. tauto.
  - f_equal. apply IH. tauto.
Qed.

Lemma set_same_value {V : Type} (k : string) (v : V) (o : t V) :
  get k o = Some v -> set k v o = o.
Proof.
  induction o as [|[k' v'] rest IH]; simpl; [discriminate|].
  destruct (k' =? k)%string eqn:E.
  - now intros [= ->].
  - intros H. now rewrite IH.
Qed.

Lemma set_set {V : Type} (k : string) (v v' : V) (o : t V) :
  set k v' (set k v o) = set k v' o.
Proof.
  induction o as [|[k0 v0] rest IH]; simpl.
  - now rewrite String.eqb_refl.
  - destruct (k0 =? k)%string eqn:E; simpl; rewrite E; auto.
    now rewrite IH.
Qed.

Lemma get_del_same {V : Type} (k : string) (o : t V) :
  get k (del k o) = None.
Proof.
  unfold del. induction o as [|[k' v'] rest IH]; simpl; auto.
  destruct (k' =? k)%string eqn:E; simpl; auto. now rewrite E.
Qed.

Lemma get_del_other {V : Type} (k k' : string) (o : t V) :
  k <> k' -> get k (del k' o) = get k o.
Proof.
  intros Hne. unfold del. induction o as [|[k0 v0] rest IH]; simpl; auto.
  destruct (k0 =? k')%string eqn:E; simpl.
  - apply String.eqb_eq in E. subst k0.
    destruct (k' =? k)%string eqn:E'; auto.
    apply String.eqb_eq in E'. congruence.
  - now rewrite IH.
Qed.

Lemma In_del {V : Type} (k : string) (kv : string * V) (o : t V) :
  In kv (del k o) <-> In kv o /\ fst kv <> k.
Proof.
  unfold del. rewrite filter_In, negb_true_iff, String.eqb_neq. tauto.
Qed.

End JsObjFacts.

(** ** Tables *)

Section TableFacts.

Variable R : Type.
Variable key : R -> string.

Lemma tbl_insert_perm (r : R) (tbl : list R) :
  Permutation (tbl_insert key r tbl) (r :: tbl).
Proof.
  induction tbl as [|x rest IH]; simpl; auto.
  destruct (String.ltb (key r) (key x)); auto.
  rewrite IH. apply perm_swap.
Qed.

Lemma In_tbl_insert (x r : R) (tbl : list R) :
  In x (tbl_insert key r tbl) <-> x = r \/ In x tbl.
Proof.
  split; intros H.
  - apply (Permutation_in _ (tbl_insert_perm r tbl)) in H.
    destruct H; auto.
  - apply (Permutation_in _ (Permutation_sym (tbl_insert_perm r tbl))).
    destruct H; [left | right]; auto.
Qed.

Lemma filter_tbl_insert (p : R -> bool) (r : R) (tbl : list R) :
  Permutation (filter p (tbl_insert key r tbl)) (filter p (r :: tbl)).
Proof.
  induction tbl as [|x rest IH]; simpl; auto.
  destruct (String.ltb (key r) (key x)); simpl; auto.
  simpl in IH. destruct (p x), (p r); rewrite IH; auto using perm_swap.
Qed.

Lemma In_tbl_put (x r : R) (tbl : list R) :
  In x (tbl_put key r tbl) <-> x = r \/ (In x tbl /\ key x <> key r).
Proof.
  unfold tbl_put. rewrite In_tbl_insert, filter_In, negb_true_iff, String.eqb_neq.
  tauto.
Qed.

Lemma tbl_get_In (k : string) (r : R) (tbl : list R) :
  tbl_get key k tbl = Some r -> In r tbl /\ key r = k.
Proof.
  unfold tbl_get. intros H. apply find_some in H.
  now rewrite String.eqb_eq in H.
Qed.

Lemma tbl_get_None (k : string) (tbl : list R) :
  tbl_get key k tbl = None <-> forall x, In x tbl -> key x <> k.
Proof.
  unfold tbl_get. split.
  - intros H x Hin. apply (find_none _ _ H) in Hin. now apply String.eqb_neq.
  - intros H. induction tbl as [|x rest IH]; simpl; auto.
    destruct (key x =? k)%string eqn:E.
    + apply String.eqb_eq in E. exfalso. apply (H x); simpl; auto.
    + apply IH. intros y Hy. apply H. now right.
Qed.

Lemma In_tbl_get (r : R) (tbl : list R) :
  NoDup (map key tbl) -> In r tbl -> tbl_get key (key r) tbl = Some r.
Proof.
  unfold tbl_get. induction tbl as [|x rest IH]; simpl; [tauto|].
  intros Hnd [-> | Hin].
  - now rewrite String.eqb_refl.
  - inversion Hnd as [|? ? Hnotin Hnd']; subst.
    destruct (key x =? key r)%string eqn:E; auto.
    apply String.eqb_eq in E. exfalso. apply Hnotin. rewrite E. now apply in_map.
Qed.

Lemma tbl_get_insert_fresh (r : R) (tbl : list R) :
  (forall x, In x tbl -> key x <> key r) ->
  tbl_get key (key r) (tbl_insert key r tbl) = Some r.
Proof.
  unfold tbl_get. induction tbl as [|x rest IH]; simpl; intros Hfresh.
  - now rewrite String.eqb_refl.
  - destruct (String.ltb (key r) (key x)); simpl.
    + now rewrite String.eqb_refl.
    + destruct (key x =? key r)%string eqn:E.
      * apply String.eqb_eq in E. exfalso. apply (Hfresh x); auto.
      * apply IH. intros y Hy. apply Hfresh. now right.
Qed.

Lemma tbl_get_insert_other (k : string) (r : R) (tbl : list R) :
  key r <> k ->
  tbl_get key k (tbl_insert key r tbl) = tbl_get key k tbl.
Proof.
  unfold tbl_get. intros Hne. induction tbl as [|x rest IH]; simpl.
  - apply String.eqb_neq in Hne. now rewrite Hne.
  - destruct (String.ltb (key r) (key x)); simpl.
    + apply String.eqb_neq in Hne. now rewrite Hne.
    + now rewrite IH.
Qed.

Lemma tbl_get_put_same (r : R) (tbl : list R) :
  tbl_get key (key r) (tbl_put key r tbl) = Some r.
Proof.
  unfold tbl_put. apply tbl_get_insert_fresh.
  intros x Hx. apply filter_In in Hx.
  now rewrite negb_true_iff, String.eqb_neq in Hx.
Qed.

Lemma tbl_get_filter_other (k : string) (p : R -> bool) (tbl : list R) :
  (forall x, key x = k -> p x = true) ->
  tbl_get key k (filter p tbl) = tbl_get key k tbl.
Proof.
  unfold tbl_get. intros Hp. induction tbl as [|x rest IH]; simpl; auto.
  destruct (key x =? k)%string eqn:E.
  - apply String.eqb_eq in E. rewrite (Hp x E). simpl.
    apply String.eqb_eq in E. now rewrite E.
  - destruct (p x); simpl; [rewrite E|]; auto.
Qed.

Lemma tbl_get_put_other (k : string) (r : R) (tbl : list R) :
  key r <> k ->
  tbl_get key k (tbl_put key r tbl) = tbl_get key k tbl.
Proof.
  intros Hne. unfold tbl_put. rewrite tbl_get_insert_other by assumption.
  apply tbl_get_filter_other. intros x Hx.
  rewrite negb_true_iff, String.eqb_neq. congruence.
Qed.

Lemma tbl_get_update (k k' : string) (f : R -> R) (tbl : list R) :
  (forall x, key (f x) = key x) ->
  tbl_get key k (tbl_update key k' f tbl)
  = if (k' =? k)%string then option_map f (tbl_get key k tbl)
    else tbl_get key k tbl.
Proof.
  unfold tbl_get, tbl_update. intros Hkey.
  induction tbl as [|x rest IH]; simpl.
  - now destruct (k' =? k)%string.
  - destruct (key x =? k')%string eqn:E1; simpl.
    + rewrite Hkey. apply String.eqb_eq in E1. subst k'.
      destruct (key x =? k)%string eqn:E2; auto.
    + destruct (key x =? k)%string eqn:E2; auto.
      apply String.eqb_eq in E2. subst k.
      rewrite String.eqb_sym, E1. reflexivity.
Qed.

Lemma NoDup_keys_filter (p : R -> bool) (tbl : list R) :
  NoDup (map key tbl) -> NoDup (map key (filter p tbl)).
Proof.
  induction tbl as [|x rest IH]; simpl; intros Hnd; [constructor|].
  inversion Hnd as [|? ? Hnotin Hnd']; subst.
  destruct (p x); simpl; auto.
  constructor; auto.
  rewrite in_map_iff. intros (y & Hk & Hy). apply filter_In in Hy.
  apply Hnotin. rewrite <- Hk. apply in_map. tauto.
Qed.

Lemma NoDup_keys_put (r : R) (tbl : list R) :
  NoDup (map key tbl) -> NoDup (map key (tbl_put key r tbl)).
Proof.
  intros Hnd. unfold tbl_put.
  eapply Permutation_NoDup.
  - apply Permutation_sym, Permutation_map, tbl_insert_perm.
  - simpl. constructor.
    + rewrite in_map_iff. intros (x & Hk & Hx). apply filter_In in Hx.
      rewrite negb_true_iff, String.eqb_neq in Hx. tauto.
    + now apply NoDup_keys_filter.
Qed.

End TableFacts.

(** ** Running the actions *)

Ltac run_m :=
  cbv beta iota delta
    [run bind ret throw gets modify tryCatch commit_ commit dexie query
     dexie_try inPlace handleDexieError];
  cbn [fst snd db state negb].

Lemma applyTaskUpdates_id (u : TaskUpdates) (x : Task.t) :
  Task.id (applyTaskUpdates u x) = Task.id x.
Proof. now destruct u. Qed.

Lemma updateTask_tasks (taskId : string) (u : TaskUpdates) (s : State.t)
    (task : Task.t) :
  JsObj.get taskId (State.tasks s) = Some task ->
  JsObj.get taskId (State.tasks (Mutations.updateTask taskId u s))
  = Some (applyTaskUpdates u task).
Proof.
  intros H. unfold Mutations.updateTask. rewrite H. simpl.
  apply JsObjFacts.get_set_same.
Qed.

(** [stopTask] always resolves, and touches neither the tasks of the store
    nor any table but [logs]. *)
Lemma stopTask_resolves (env : Env) (now : Z) (w : World) :
  fst (stopTask env now w) = Resolved tt.
Proof.
  unfold stopTask. destruct (dexieDb env); reflexivity.
Qed.

Lemma updateLog_tasks (taskId : string) (log : TaskLog.t) (s : State.t) :
  State.tasks (Mutations.updateLog taskId log s) = State.tasks s
  /\ State.taskTagsMap (Mutations.updateLog taskId log s) = State.taskTagsMap s
  /\ State.settings (Mutations.updateLog taskId log s) = State.settings s.
Proof.
  unfold Mutations.updateLog.
  destruct (negb (isSelectedTask taskId s)); auto.
  destruct (replaceFirst _ _ _); auto.
  destruct (TaskLog.stopped log); auto.
Qed.

Lemma stopTask_frame (env : Env) (now : Z) (w : World) :
  let w' := run (stopTask env now) w in
  State.tasks (state w') = State.tasks (state w)
  /\ State.taskTagsMap (state w') = State.taskTagsMap (state w)
  /\ State.settings (state w') = State.settings (state w)
  /\ Db.tasks (db w') = Db.tasks (db w)
  /\ Db.tags (db w') = Db.tags (db w)
  /\ Db.taskTagMap (db w') = Db.taskTagMap (db w)
  /\ Db.settings (db w') = Db.settings (db w).
Proof.
  unfold stopTask. destruct (dexieDb env); simpl; [|tauto].
  run_m.
  match goal with
  | |- context [find ?p ?l] => destruct (find p l) as [runningLog|]
  end; simpl; [|tauto].
  unfold logs_put. run_m.
  destruct (storageEnabled env); simpl; [|tauto].
  pose proof (updateLog_tasks (TaskLog.taskId runningLog)
    (TaskLog.with_timeSpent (Some (now - TaskLog.started runningLog))
       (TaskLog.with_stopped (Some now) runningLog)) (state w)) as H.
  simpl in H. tauto.
Qed.

(** What [archiveTask] does to an existing task, whatever the payload's
    [archived]. *)
Lemma archiveTask_run (env : Env) (w : World) (taskId : string)
    (archived : option bool) (task : Task.t) :
  dexieDb env = true ->
  JsObj.get taskId (State.tasks (state w)) = Some task ->
  archiveTask env taskId archived w
  = (Resolved tt,
     let u := UpdArchived (negb (truthy_flag (Task.archived task))) in
     mkWorld
       (Db.with_tasks (tbl_update Task.id taskId (applyTaskUpdates u)
                         (Db.tasks (db w))) (db w))
       (Mutations.updateTask taskId u (state w))).
Proof.
  intros Hdb Hget. unfold archiveTask. rewrite Hdb.
  run_m. rewrite Hget. unfold tasks_update. run_m. reflexivity.
Qed.

(** C9. [archiveTask] ignores the [archived] value of its payload and
    toggles: for a task the store holds, the action sets [archived], in the
    store and in the task's row, to the negation of the (truthiness of the)
    store's current value, whatever the caller passed; so the Restore
    button's [archived: false] un-archives a task only when the task is
    archived, and archives it otherwise. *)
Theorem archiveTask_ignores_payload_and_toggles
    (env : Env) (w : World) (taskId : string) (archived : option bool)
    (task : Task.t) :
  dexieDb env = true ->
  JsObj.get taskId (State.tasks (state w)) = Some task ->
  let toggled := Some (negb (truthy_flag (Task.archived task))) in
  let w' := run (archiveTask env taskId archived) w in
  JsObj.get taskId (State.tasks (state w')) = Some (Task.with_archived toggled task)
  /\ (forall row,
        tbl_get Task.id taskId (Db.tasks (db w)) = Some row ->
        tbl_get Task.id taskId (Db.tasks (db w'))
        = Some (Task.with_archived toggled row))
  /\ (forall archived', archiveTask env taskId archived' w
                        = archiveTask env taskId archived w).
Proof.
  intros Hdb Hget toggled w'. subst w'. unfold run.
  rewrite (archiveTask_run env w taskId archived Hdb Hget). cbn [snd db state].
  split; [|split].
  - now rewrite (updateTask_tasks _ _ _ Hget).
  - intros row Hrow. cbn [Db.tasks Db.with_tasks].
    rewrite tbl_get_update by apply applyTaskUpdates_id.
    rewrite String.eqb_refl, Hrow. reflexivity.
  - intros archived'.
    now rewrite !(archiveTask_run env w taskId _ Hdb Hget).
Qed.

Lemma archiveTask_ignores_payload_and_toggles_witness :
  let w' := run (archiveTask Sample.env "task-2" (Some false)) Sample.world in
  JsObj.get "task-2" (State.tasks (state w'))
  = Some (Task.with_archived (Some false) Sample.task2)
  /\ let w'' := run (archiveTask Sample.env "task-1" (Some false)) Sample.world in
     JsObj.get "task-1" (State.tasks (state w''))
     = Some (Task.with_archived (Some true) Sample.task1).
Proof.
  split.
  - apply (archiveTask_ignores_payload_and_toggles Sample.env Sample.world
             "task-2" (Some false) (task := Sample.task2)); reflexivity.
  - apply (archiveTask_ignores_payload_and_toggles Sample.env Sample.world
             "task-1" (Some false) (task := Sample.task1)); reflexivity.
Defined.

(** What [completeTask] does to an existing task: the running timer is
    stopped first when the task is the active one, then the task's
    [completed] is overwritten. *)
Lemma completeTask_run (env : Env) (w : World) (taskId : string)
    (task : Task.t) (nowStop now : Z) :
  dexieDb env = true ->
  JsObj.get taskId (State.tasks (state w)) = Some task ->
  exists w1,
    (w1 = w \/ w1 = run (stopTask env nowStop) w)
    /\ completeTask env nowStop now taskId w
       = (Resolved tt,
          let u := UpdCompleted
                     (if truthy_num (Task.completed task) then None else Some now) in
          mkWorld
            (Db.with_tasks (tbl_update Task.id taskId (applyTaskUpdates u)
                              (Db.tasks (db w1))) (db w1))
            (Mutations.updateTask taskId u (state w1))).
Proof.
  intros Hdb Hget. unfold completeTask. rewrite Hdb.
  run_m. rewrite Hget. unfold tasks_update.
  destruct (truthy_num (Task.completed task)); run_m.
  - exists w. split; auto.
  - destruct (isActiveTask task (state w) && TempState.running (State.tempState (state w))).
    + exists (run (stopTask env nowStop) w). split; auto.
      pose proof (stopTask_resolves env nowStop w) as Hres.
      unfold run. destruct (stopTask env nowStop w) as [r w1].
      simpl in Hres. subst r. run_m. reflexivity.
    + exists w. split; auto.
Qed.

(** C5. For a task the store holds, [completeTask] records the current
    time as [completed] when the task is not completed and clears the
    field when it is, in the store and in the task's row; [archiveTask]
    records no time: it stores a boolean, the negation of the current
    [archived]. *)
Theorem completeTask_stamps_and_archiveTask_flags
    (env : Env) (w : World) (taskId : string) (task : Task.t)
    (nowStop now : Z) (archived : option bool) :
  dexieDb env = true ->
  JsObj.get taskId (State.tasks (state w)) = Some task ->
  let completed' := if truthy_num (Task.completed task) then None else Some now in
  let wc := run (completeTask env nowStop now taskId) w in
  let wa := run (archiveTask env taskId archived) w in
  JsObj.get taskId (State.tasks (state wc))
  = Some (Task.with_completed completed' task)
  /\ (forall row,
        tbl_get Task.id taskId (Db.tasks (db w)) = Some row ->
        tbl_get Task.id taskId (Db.tasks (db wc))
        = Some (Task.with_completed completed' row))
  /\ JsObj.get taskId (State.tasks (state wa))
     = Some (Task.with_archived
               (Some (negb (truthy_flag (Task.archived task)))) task).
Proof.
  intros Hdb Hget completed' wc wa. subst wc wa.
  destruct (completeTask_run env w taskId nowStop now Hdb Hget)
    as (w1 & Hw1 & Hrun).
  unfold run at 1 2. rewrite Hrun. cbn [snd db state].
  assert (Hframe : State.tasks (state w1) = State.tasks (state w)
                   /\ Db.tasks (db w1) = Db.tasks (db w)).
  { destruct Hw1 as [-> | ->]; auto.
    pose proof (stopTask_frame env nowStop w) as H. simpl in H. tauto. }
  destruct Hframe as [Hst Hdbt].
  split; [|split].
  - rewrite (updateTask_tasks taskId _ (state w1) (task := task)) by congruence.
    reflexivity.
  - intros row Hrow. cbn [Db.tasks Db.with_tasks].
    rewrite tbl_get_update by apply applyTaskUpdates_id.
    rewrite String.eqb_refl, Hdbt, Hrow. reflexivity.
  - unfold run. rewrite (archiveTask_run env w taskId archived Hdb Hget).
    cbn [snd state]. now rewrite (updateTask_tasks _ _ _ Hget).
Qed.

Lemma completeTask_stamps_and_archiveTask_flags_witness :
  JsObj.get "task-1"
    (State.tasks (state (run (completeTask Sample.env 200 201 "task-1") Sample.world)))
  = Some (Task.with_completed (Some 201) Sample.task1)
  /\ JsObj.get "task-2"
       (State.tasks (state (run (completeTask Sample.env 200 201 "task-2") Sample.world)))
     = Some (Task.with_completed None Sample.task2).
Proof.
  split.
  - apply (completeTask_stamps_and_archiveTask_flags Sample.env Sample.world
             "task-1" (task := Sample.task1) 200 201 None); reflexivity.
  - apply (completeTask_stamps_and_archiveTask_flags Sample.env Sample.world
             "task-2" (task := Sample.task2) 200 201 None); reflexivity.
Defined.

(** [archiveTask] on a task that is archived leaves it with
    [archived = false]: nothing that dates, or even marks, an archival. *)
Lemma archiveTask_records_no_archival_cex :
  JsObj.get "task-r" (State.tasks (state Sample.archivedSelected))
  = Some (Task.with_archived (Some true) Sample.taskR)
  /\ option_map Task.archived
       (JsObj.get "task-r"
          (State.tasks
             (state (run (archiveTask Sample.env "task-r" None)
                       Sample.archivedSelected))))
     = Some (Some false).
Proof. split; reflexivity. Qed.

(** C3. For a [taskId] the store has no task for, [updateTaskName],
    [updateTaskNotes], [completeTask], [archiveTask], [addInterval] and
    [addTaskTagById] resolve with the database and the store as they were;
    [startTask] does what [stopTask] does (it closes the running log, if
    there is one) and nothing more. *)
Theorem missing_task_is_left_alone
    (env : Env) (w : World) (taskId : string) (name notes nanoid tagId : string)
    (nowStop now started timeSpent stopped : Z) (archived : option bool) :
  JsObj.get taskId (State.tasks (state w)) = None ->
  updateTaskName env taskId name w = (Resolved tt, w)
  /\ updateTaskNotes env taskId notes w = (Resolved tt, w)
  /\ completeTask env nowStop now taskId w = (Resolved tt, w)
  /\ archiveTask env taskId archived w = (Resolved tt, w)
  /\ addInterval env nanoid taskId started timeSpent stopped w = (Resolved tt, w)
  /\ addTaskTagById env nanoid taskId tagId w = (Resolved tt, w)
  /\ startTask env nowStop now nanoid taskId w = stopTask env nowStop w.
Proof.
  intros Hget.
  unfold updateTaskName, updateTaskNotes, completeTask, archiveTask,
    addInterval, addTaskTagById, startTask.
  destruct (dexieDb env) eqn:Hdb; run_m; rewrite ?Hget.
  - repeat split.
    pose proof (stopTask_resolves env nowStop w) as Hres.
    pose proof (stopTask_frame env nowStop w) as Hframe.
    unfold run in Hframe. simpl in Hframe. destruct Hframe as (Htasks & _).
    destruct (stopTask env nowStop w) as [r w1].
    simpl in Hres, Htasks. subst r. run_m. now rewrite Htasks, Hget.
  - repeat split. unfold stopTask. now rewrite Hdb.
Qed.

Lemma missing_task_is_left_alone_witness :
  updateTaskName Sample.env "task-9" "x" Sample.world = (Resolved tt, Sample.world)
  /\ archiveTask Sample.env "task-9" None Sample.world = (Resolved tt, Sample.world).
Proof.
  pose proof (@missing_task_is_left_alone Sample.env Sample.world "task-9"
                "x" "" "n" "tag-a" 0 0 0 0 0 None eq_refl) as H.
  split; apply H.
Defined.

(** [startTask] for a task that does not exist still stops the timer that
    is running: the running log is closed, in the table and in the
    store. *)
Lemma startTask_missing_task_stops_timer_cex :
  JsObj.get "task-9" (State.tasks (state Sample.started)) = None
  /\ Db.logs (db Sample.started) = [Sample.logA]
  /\ startTask Sample.env 200 201 "n" "task-9" Sample.started
     = (Resolved tt,
        let closed := TaskLog.mk "log-a" "task-r" 21 (Some 200) (Some 179) in
        mkWorld (Db.with_logs [closed] (db Sample.started))
          (State.with_tempState (TempState.mk None false None)
             (State.with_selectedTaskLogs [closed] (state Sample.started))))
  /\ run (startTask Sample.env 200 201 "n" "task-9") Sample.started
     <> Sample.started.
Proof.
  repeat split. intros H.
  apply (f_equal (fun w => Db.logs (db w))) in H. vm_compute in H. discriminate.
Qed.

(** C2. With [storageEnabled] false [completeTask] still resolves, and
    both the task's row and the store's task carry the new [completed]:
    the action calls [dexieDb.tasks.update] directly, not through
    [handleDexieError]. *)
Theorem completeTask_writes_on_low_disk :
  storageEnabled Sample.lowDisk = false
  /\ JsObj.get "task-r" (State.tasks (state Sample.added)) = Some Sample.taskR
  /\ completeTask Sample.lowDisk 200 201 "task-r" Sample.added
     = (Resolved tt,
        let completed := Task.with_completed (Some 201) Sample.taskR in
        mkWorld (Db.with_tasks [completed] (db Sample.added))
          (State.with_tasks [("task-r", completed)] (state Sample.added))).
Proof. repeat split. Qed.

(** The guard of [handleDexieError] comes after the request: with
    [storageEnabled] false [updateTaskName] leaves the store alone, but the
    row has the new name. *)
Lemma updateTaskName_on_low_disk :
  updateTaskName Sample.lowDisk "task-r" "draft" Sample.added
  = (Resolved tt,
     mkWorld
       (Db.with_tasks [Task.with_name "draft" Sample.taskR] (db Sample.added))
       (state Sample.added)).
Proof. reflexivity. Qed.

(** ** Tag filters *)

Lemma without_absent (tagId : string) (l : list string) :
  ~ In tagId l -> without tagId l = l.
Proof.
  unfold without. induction l as [|x rest IH]; simpl; auto.
  intros Hnotin. destruct (x =? tagId)%string eqn:E.
  - apply String.eqb_eq in E. exfalso. auto.
  - simpl. f_equal. auto.
Qed.

Lemma without_pushed (tagId : string) (l : list string) :
  ~ In tagId l -> without tagId (l ++ [tagId]) = l.
Proof.
  intros Hnotin. unfold without. rewrite filter_app. simpl.
  rewrite String.eqb_refl. simpl. rewrite app_nil_r.
  now apply without_absent.
Qed.

Lemma In_without (tagId x : string) (l : list string) :
  In x (without tagId l) <-> In x l /\ x <> tagId.
Proof.
  unfold without. now rewrite filter_In, negb_true_iff, String.eqb_neq.
Qed.

Lemma updateSetting_run (env : Env) (key : string) (value : SettingValue)
    (w : World) :
  dexieDb env = true ->
  storageEnabled env = true ->
  updateSetting env key value w
  = (Resolved tt,
     mkWorld
       (Db.with_settings
          (tbl_put SettingKv.key (SettingKv.mk key value) (Db.settings (db w)))
          (db w))
       (Mutations.updateSetting key value (state w))).
Proof.
  intros Hdb Hstore. unfold updateSetting, settings_put. rewrite Hdb.
  run_m. rewrite Hstore. reflexivity.
Qed.

Lemma addTagFilter_run (env : Env) (tagId : string) (selected : list string)
    (w : World) :
  dexieDb env = true ->
  storageEnabled env = true ->
  JsObj.get "selectedTagIds" (State.settings (state w)) = Some (VList selected) ->
  addTagFilter env tagId w
  = (Resolved tt,
     let value := VList (selected ++ [tagId]) in
     mkWorld
       (Db.with_settings
          (tbl_put SettingKv.key (SettingKv.mk "selectedTagIds" value)
             (Db.settings (db w)))
          (db w))
       (State.with_settings
          (JsObj.set "selectedTagIds" value (State.settings (state w)))
          (state w))).
Proof.
  intros Hdb Hstore Hget. unfold addTagFilter. rewrite Hdb.
  run_m. rewrite Hget. run_m.
  rewrite updateSetting_run by assumption. cbn [db state].
  unfold Mutations.updateSetting. cbn [State.settings State.with_settings].
  rewrite JsObjFacts.set_set. reflexivity.
Qed.

Lemma removeTagFilter_run (env : Env) (tagId : string) (selected : list string)
    (w : World) :
  dexieDb env = true ->
  storageEnabled env = true ->
  JsObj.get "selectedTagIds" (State.settings (state w)) = Some (VList selected) ->
  removeTagFilter env tagId w
  = (Resolved tt,
     let value := VList (without tagId selected) in
     mkWorld
       (Db.with_settings
          (tbl_put SettingKv.key (SettingKv.mk "selectedTagIds" value)
             (Db.settings (db w)))
          (db w))
       (State.with_settings
          (JsObj.set "selectedTagIds" value (State.settings (state w)))
          (state w))).
Proof.
  intros Hdb Hstore Hget. unfold removeTagFilter. rewrite Hdb.
  run_m. rewrite Hget.
  rewrite updateSetting_run by assumption. reflexivity.
Qed.

(** C7. Tag filters are persisted settings.  With the database there and
    storage enabled, [addTagFilter] appends the tag id to
    [settings.selectedTagIds] and puts the list in the [settings] table;
    [removeTagFilter] removes every occurrence of the tag id and puts the
    list; and for a tag id that is not among the selected ones,
    [addTagFilter] followed by [removeTagFilter] brings the store back to
    what it was, with the original list in the table. *)
Theorem tag_filter_add_remove_round_trip
    (env : Env) (w : World) (tagId : string) (selected : list string) :
  dexieDb env = true ->
  storageEnabled env = true ->
  JsObj.get "selectedTagIds" (State.settings (state w)) = Some (VList selected) ->
  let persisted (w' : World) :=
    option_map SettingKv.value
      (tbl_get SettingKv.key "selectedTagIds" (Db.settings (db w'))) in
  let filters (w' : World) :=
    JsObj.get "selectedTagIds" (State.settings (state w')) in
  let wa := run (addTagFilter env tagId) w in
  let wr := run (removeTagFilter env tagId) w in
  (filters wa = Some (VList (selected ++ [tagId]))
   /\ persisted wa = Some (VList (selected ++ [tagId])))
  /\ (filters wr = Some (VList (without tagId selected))
      /\ persisted wr = Some (VList (without tagId selected))
      /\ ~ In tagId (without tagId selected))
  /\ (~ In tagId selected ->
      let wb := run (removeTagFilter env tagId) wa in
      state wb = state w
      /\ filters wb = Some (VList selected)
      /\ persisted wb = Some (VList selected)).
Proof.
  intros Hdb Hstore Hget persisted filters wa wr.
  subst persisted filters wa wr. unfold run.
  rewrite (addTagFilter_run env tagId w Hdb Hstore Hget).
  rewrite (removeTagFilter_run env tagId w Hdb Hstore Hget).
  cbn [snd db state Db.settings Db.with_settings State.settings
       State.with_settings].
  assert (Hput : forall v tbl,
            option_map SettingKv.value
              (tbl_get SettingKv.key "selectedTagIds"
                 (tbl_put SettingKv.key (SettingKv.mk "selectedTagIds" v) tbl))
            = Some v).
  { intros v tbl.
    change "selectedTagIds" with (SettingKv.key (SettingKv.mk "selectedTagIds" v)) at 1.
    now rewrite tbl_get_put_same. }
  rewrite !Hput, !JsObjFacts.get_set_same.
  split; [|split]; auto.
  - repeat split. rewrite In_without. tauto.
  - intros Hnotin.
    erewrite removeTagFilter_run; [| assumption | assumption |].
    2:{ cbn [state State.settings State.with_settings].
        apply JsObjFacts.get_set_same. }
    cbn [snd db state Db.settings Db.with_settings State.settings
         State.with_settings].
    rewrite Hput, JsObjFacts.get_set_same, JsObjFacts.set_set.
    rewrite without_pushed by assumption.
    rewrite (JsObjFacts.set_same_value _ _ Hget).
    repeat split. now destruct (state w).
Qed.

Lemma tag_filter_add_remove_round_trip_witness :
  state (run (removeTagFilter Sample.env "tag-b")
           (run (addTagFilter Sample.env "tag-b") Sample.world))
  = state Sample.world.
Proof.
  apply (tag_filter_add_remove_round_trip Sample.env Sample.world "tag-b"
           (selected := ["tag-a"]) eq_refl eq_refl eq_refl).
  simpl. intros [H | []]. discriminate.
Defined.

(** Without the storage condition neither the removal nor the round trip
    holds.  With [storageEnabled] false [updateSetting] rejects before its
    commit, so [removeTagFilter] leaves the occurrence of the tag id in
    the store's list; and after [addTagFilter] and [removeTagFilter] for a
    tag id that was not selected, the store's list is not the original
    one. *)
Lemma tag_filter_round_trip_low_disk_cex :
  let filters (w' : World) :=
    JsObj.get "selectedTagIds" (State.settings (state w')) in
  storageEnabled Sample.lowDisk = false
  /\ filters Sample.world = Some (VList ["tag-a"])
  /\ fst (removeTagFilter Sample.lowDisk "tag-a" Sample.world) = Rejected
  /\ filters (run (removeTagFilter Sample.lowDisk "tag-a") Sample.world)
     = Some (VList ["tag-a"])
  /\ ~ In "tag-b" ["tag-a"]
  /\ filters (run (removeTagFilter Sample.lowDisk "tag-b")
                (run (addTagFilter Sample.lowDisk "tag-b") Sample.world))
     = Some (VList ["tag-a"; "tag-b"])
  /\ filters (run (removeTagFilter Sample.lowDisk "tag-b")
                (run (addTagFilter Sample.lowDisk "tag-b") Sample.world))
     <> filters Sample.world.
Proof.
  repeat split.
  - simpl. intros [H | []]. discriminate.
  - vm_compute. discriminate.
Qed.

(** ** Reconciliation of orphaned logs on load *)

Lemma closeOrphan_id (log : TaskLog.t) :
  TaskLog.id (closeOrphan log) = TaskLog.id log.
Proof. unfold closeOrphan. now destruct (TaskLog.timeSpent log). Qed.

Lemma reconcile_loop (env : Env) (logs : list TaskLog.t) (w : World) :
  storageEnabled env = true ->
  forEach logs
    (fun log =>
       if negb (truthy_num (TaskLog.stopped log))
          && truthy_num (TaskLog.timeSpent log)
       then handleDexieError env (logs_put (closeOrphan log))
       else ret tt) w
  = (Resolved tt,
     mkWorld (Db.with_logs (reconcile logs (Db.logs (db w))) (db w)) (state w)).
Proof.
  intros Hstore.
  match goal with |- forEach _ ?f _ = _ => set (body := f) end.
  assert (Hbody : forall log w',
             body log w'
             = (Resolved tt,
                mkWorld
                  (Db.with_logs
                     (if isOrphan log
                      then tbl_put TaskLog.id (closeOrphan log) (Db.logs (db w'))
                      else Db.logs (db w')) (db w')) (state w'))).
  { intros log w'. subst body. cbv beta. fold (isOrphan log).
    destruct (isOrphan log).
    - unfold logs_put. run_m. now rewrite Hstore.
    - run_m. now destruct w' as [[] ?]. }
  clearbody body. revert w. induction logs as [|log rest IH]; intros w.
  - simpl. run_m. now destruct w as [[] ?].
  - cbn [forEach]. unfold bind. rewrite Hbody, IH. reflexivity.
Qed.

Lemma loadSelectedTaskLogs_frame (settings : list SettingKv.t)
    (acc : list TaskLog.t) (w : World) :
  snd (loadSelectedTaskLogs settings acc w) = w.
Proof.
  revert acc. induction settings as [|setting rest IH]; intros acc; simpl; auto.
  destruct ((SettingKv.key setting =? "selectedTaskID")%string
            && truthy_value (SettingKv.value setting)); auto.
  destruct (SettingKv.value setting); auto.
  run_m. apply IH.
Qed.

Lemma loadInitialData_logs (env : Env) (w : World) :
  dexieDb env = true ->
  storageEnabled env = true ->
  Db.logs (db (run (loadInitialData env) w))
  = reconcile (Db.logs (db w)) (Db.logs (db w)).
Proof.
  intros Hdb Hstore. unfold loadInitialData. rewrite Hdb.
  run_m. rewrite (reconcile_loop env _ w Hstore).
  match goal with
  | |- context [loadSelectedTaskLogs ?st ?acc ?w'] =>
      pose proof (loadSelectedTaskLogs_frame st acc w') as Hframe;
      destruct (loadSelectedTaskLogs st acc w') as [[selected|] w1]
  end; simpl in Hframe; subst w1; cbn [snd db]; auto.
  match goal with
  | |- context [Mutations.loadInitialData ?a ?b ?c ?d ?e ?f ?s] =>
      destruct (Mutations.loadInitialData a b c d e f s) as [r s']
  end.
  reflexivity.
Qed.

Lemma reconcile_get (logs tbl : list TaskLog.t) (k : string) :
  NoDup (map TaskLog.id logs) ->
  tbl_get TaskLog.id k (reconcile logs tbl)
  = match tbl_get TaskLog.id k logs with
    | Some log =>
        if isOrphan log then Some (closeOrphan log) else tbl_get TaskLog.id k tbl
    | None => tbl_get TaskLog.id k tbl
    end.
Proof.
  revert tbl. induction logs as [|log rest IH]; intros tbl Hnd; auto.
  inversion Hnd as [|? ? Hnotin Hnd']; subst.
  change (reconcile (log :: rest) tbl)
    with (reconcile rest
            (if isOrphan log
             then tbl_put TaskLog.id (closeOrphan log) tbl else tbl)).
  rewrite IH by assumption.
  change (tbl_get TaskLog.id k (log :: rest))
    with (if (TaskLog.id log =? k)%string
          then Some log else tbl_get TaskLog.id k rest).
  destruct (TaskLog.id log =? k)%string eqn:E.
  - apply String.eqb_eq in E.
    assert (Hnone : tbl_get TaskLog.id k rest = None).
    { apply tbl_get_None. intros x Hx Heq. apply Hnotin. rewrite E, <- Heq.
      now apply in_map. }
    rewrite Hnone. destruct (isOrphan log); auto.
    replace k with (TaskLog.id (closeOrphan log))
      by (now rewrite closeOrphan_id).
    apply tbl_get_put_same.
  - apply String.eqb_neq in E.
    assert (Hsame : tbl_get TaskLog.id k
                      (if isOrphan log
                       then tbl_put TaskLog.id (closeOrphan log) tbl else tbl)
                    = tbl_get TaskLog.id k tbl).
    { destruct (isOrphan log); auto.
      apply tbl_get_put_other. now rewrite closeOrphan_id. }
    now rewrite Hsame.
Qed.

(** X28. What the reconciliation loop of [loadInitialData] does to the
    rows of the [logs] table, with the database there, storage enabled and
    the logs under distinct ids: a log whose [stopped] is unset and whose
    [timeSpent] is a number other than 0 is written back with
    [stopped = started + timeSpent]; a log whose [stopped] and [timeSpent]
    are both unset keeps its row; and so does a log that carries a
    [stopped] time. *)
Theorem loadInitialData_closes_orphans (env : Env) (w : World) (log : TaskLog.t) :
  dexieDb env = true ->
  storageEnabled env = true ->
  NoDup (map TaskLog.id (Db.logs (db w))) ->
  In log (Db.logs (db w)) ->
  let logs' := Db.logs (db (run (loadInitialData env) w)) in
  (forall spent,
      TaskLog.stopped log = None ->
      TaskLog.timeSpent log = Some spent ->
      spent <> 0 ->
      tbl_get TaskLog.id (TaskLog.id log) logs'
      = Some (TaskLog.with_stopped (Some (TaskLog.started log + spent)) log))
  /\ (TaskLog.stopped log = None ->
      TaskLog.timeSpent log = None ->
      tbl_get TaskLog.id (TaskLog.id log) logs' = Some log)
  /\ (forall stopped,
      TaskLog.stopped log = Some stopped ->
      stopped <> 0 ->
      tbl_get TaskLog.id (TaskLog.id log) logs' = Some log).
Proof.
  intros Hdb Hstore Hnd Hin logs'. subst logs'.
  rewrite (loadInitialData_logs env w Hdb Hstore).
  rewrite reconcile_get by assumption.
  rewrite (In_tbl_get TaskLog.id log _ Hnd Hin).
  unfold isOrphan, closeOrphan. split; [|split].
  - intros spent Hstopped Hspent Hnz. rewrite Hstopped, Hspent. simpl.
    apply Z.eqb_neq in Hnz. now rewrite Hnz.
  - intros Hstopped Hspent. now rewrite Hstopped, Hspent.
  - intros stopped Hstopped Hnz. rewrite Hstopped. simpl.
    apply Z.eqb_neq in Hnz. now rewrite Hnz.
Qed.

Lemma loadInitialData_closes_orphans_witness :
  let w := mkWorld (Db.with_logs
                      [TaskLog.mk "log-4" "task-1" 100 None (Some 25);
                       TaskLog.mk "log-5" "task-1" 200 None None]
                      Sample.database) Sample.store in
  let logs' := Db.logs (db (run (loadInitialData Sample.env) w)) in
  tbl_get TaskLog.id "log-4" logs'
  = Some (TaskLog.mk "log-4" "task-1" 100 (Some 125) (Some 25))
  /\ tbl_get TaskLog.id "log-5" logs'
     = Some (TaskLog.mk "log-5" "task-1" 200 None None).
Proof.
  intros w logs'.
  assert (Hnd : NoDup (map TaskLog.id (Db.logs (db w)))).
  { simpl. repeat constructor; simpl; intuition discriminate. }
  split.
  - refine (proj1 (@loadInitialData_closes_orphans Sample.env w
                     (TaskLog.mk "log-4" "task-1" 100 None (Some 25))
                     eq_refl eq_refl Hnd _) 25 eq_refl eq_refl _).
    + simpl. auto.
    + discriminate.
  - refine (proj1 (proj2 (@loadInitialData_closes_orphans Sample.env w
                            (TaskLog.mk "log-5" "task-1" 200 None None)
                            eq_refl eq_refl Hnd _)) eq_refl eq_refl).
    simpl. auto.
Defined.

(** C1. A log with [stopped] unset and [timeSpent] set to 0 is an
    orphaned running entry, and the comment over the loop of
    [loadInitialData] says that any log that was running but not stopped is
    stopped.  The loop tests [!log.stopped && log.timeSpent], and 0 is
    falsy: the log that [addTask], [startTask] and an [updateTaskTimer]
    within the millisecond of the start leave behind is passed by, no row
    is written, and the log is still running after the load, with the
    database there and storage enabled. *)
Theorem loadInitialData_skips_zero_timeSpent :
  dexieDb Sample.env = true
  /\ storageEnabled Sample.env = true
  /\ Db.logs (db Sample.ticked) = [Sample.logA0]
  /\ TaskLog.stopped Sample.logA0 = None
  /\ TaskLog.timeSpent Sample.logA0 = Some 0
  /\ Db.logs (db (run (loadInitialData Sample.env) Sample.ticked))
     = [Sample.logA0]
  /\ tbl_get TaskLog.id "log-a"
       (Db.logs (db (run (loadInitialData Sample.env) Sample.ticked)))
     <> Some (TaskLog.with_stopped (Some (TaskLog.started Sample.logA0 + 0))
                Sample.logA0)
  /\ runningLogs (db (run (loadInitialData Sample.env) Sample.ticked))
     = [Sample.logA0].
Proof.
  repeat split. vm_compute. discriminate.
Qed.

(** ** The derived tag-membership map *)

Lemma Permutation_filter {A : Type} (p : A -> bool) (l l' : list A) :
  Permutation l l' -> Permutation (filter p l) (filter p l').
Proof.
  induction 1; simpl; auto.
  - destruct (p x); auto.
  - destruct (p x), (p y); auto using perm_swap.
  - etransitivity; eauto.
Qed.

Lemma tagIdsOf_insert (taskId : string) (row : TaskTagMap.t)
    (rows : list TaskTagMap.t) :
  Permutation (tagIdsOf taskId (tbl_insert TaskTagMap.id row rows))
    (if (TaskTagMap.taskId row =? taskId)%string
     then TaskTagMap.tagId row :: tagIdsOf taskId rows
     else tagIdsOf taskId rows).
Proof.
  unfold tagIdsOf.
  etransitivity; [apply Permutation_map, filter_tbl_insert|].
  simpl. destruct (TaskTagMap.taskId row =? taskId)%string; reflexivity.
Qed.

Lemma tagIdsOf_delete_tag (tagId taskId : string) (rows : list TaskTagMap.t) :
  tagIdsOf taskId
    (tbl_delete (fun row => (TaskTagMap.tagId row =? tagId)%string) rows)
  = without tagId (tagIdsOf taskId rows).
Proof.
  unfold tagIdsOf, tbl_delete, without.
  induction rows as [|row rest IH]; simpl; auto.
  destruct (TaskTagMap.tagId row =? tagId)%string eqn:Eg; simpl;
    destruct (TaskTagMap.taskId row =? taskId)%string eqn:Et; simpl;
    rewrite ?Eg; simpl; rewrite IH; reflexivity.
Qed.

Lemma tagIdsOf_delete_other (taskId taskId0 tagId : string)
    (rows : list TaskTagMap.t) :
  taskId <> taskId0 ->
  tagIdsOf taskId
    (tbl_delete (fun row => (TaskTagMap.taskId row =? taskId0)%string
                            && (TaskTagMap.tagId row =? tagId)%string) rows)
  = tagIdsOf taskId rows.
Proof.
  intros Hne. unfold tagIdsOf, tbl_delete.
  induction rows as [|row rest IH]; simpl; auto.
  destruct (TaskTagMap.taskId row =? taskId)%string eqn:Et.
  - apply String.eqb_eq in Et.
    assert (E0 : (TaskTagMap.taskId row =? taskId0)%string = false)
      by (apply String.eqb_neq; congruence).
    rewrite E0. simpl. apply String.eqb_eq in Et. rewrite Et. simpl.
    now rewrite IH.
  - destruct (negb _); simpl; rewrite ?Et; auto.
Qed.

Lemma pushTaskTag_run (taskId tagId : string) (s : State.t) (l : list string) :
  JsObj.get taskId (State.taskTagsMap s) = Some l ->
  pushTaskTag taskId tagId s
  = (Resolved tt,
     State.with_taskTagsMap
       (JsObj.set taskId (l ++ [tagId]) (State.taskTagsMap s)) s).
Proof. intros H. unfold pushTaskTag. now rewrite H. Qed.

Lemma consistentWith_push (taskIds : list string)
    (tagsMap : JsObj.t (list string)) (rows : list TaskTagMap.t)
    (row : TaskTagMap.t) (l : list string) :
  consistentWith taskIds tagsMap rows ->
  JsObj.get (TaskTagMap.taskId row) tagsMap = Some l ->
  consistentWith taskIds
    (JsObj.set (TaskTagMap.taskId row) (l ++ [TaskTagMap.tagId row]) tagsMap)
    (tbl_insert TaskTagMap.id row rows).
Proof.
  intros Hc Hget t Hin. destruct (Hc t Hin) as (l0 & Hl0 & Hperm).
  destruct (string_dec t (TaskTagMap.taskId row)) as [-> | Hne].
  - exists (l ++ [TaskTagMap.tagId row]). split.
    + apply JsObjFacts.get_set_same.
    + rewrite tagIdsOf_insert, String.eqb_refl.
      assert (l0 = l) by congruence. subst l0.
      rewrite <- Hperm. apply Permutation_sym, Permutation_cons_append.
  - exists l0. split.
    + now rewrite JsObjFacts.get_set_other.
    + rewrite tagIdsOf_insert.
      assert (E : (TaskTagMap.taskId row =? t)%string = false)
        by (apply String.eqb_neq; congruence).
      now rewrite E.
Qed.

Lemma consistentWith_remove (taskIds : list string)
    (tagsMap : JsObj.t (list string)) (rows : list TaskTagMap.t)
    (taskId tagId : string) :
  consistentWith taskIds tagsMap rows ->
  let rows' :=
    tbl_delete (fun row => (TaskTagMap.taskId row =? taskId)%string
                           && (TaskTagMap.tagId row =? tagId)%string) rows in
  consistentWith taskIds
    (JsObj.set taskId (tagIdsOf taskId rows') tagsMap) rows'.
Proof.
  intros Hc rows' t Hin. destruct (string_dec t taskId) as [-> | Hne].
  - exists (tagIdsOf taskId rows'). split; [apply JsObjFacts.get_set_same | auto].
  - destruct (Hc t Hin) as (l0 & Hl0 & Hperm). exists l0. split.
    + now rewrite JsObjFacts.get_set_other.
    + subst rows'. now rewrite tagIdsOf_delete_other.
Qed.

Lemma without_idem (tagId : string) (l : list string) :
  without tagId (without tagId l) = without tagId l.
Proof.
  apply without_absent. rewrite In_without. tauto.
Qed.

Lemma deleteTag_loop (tagId : string) (ks : list string) (s : State.t) :
  (forall k, In k ks -> exists l, JsObj.get k (State.taskTagsMap s) = Some l) ->
  exists m',
    forEach ks (fun taskId => fun s0 =>
      match JsObj.get taskId (State.taskTagsMap s0) with
      | Some tagIds =>
          (Resolved tt,
           State.with_taskTagsMap
             (JsObj.set taskId (without tagId tagIds) (State.taskTagsMap s0)) s0)
      | None => (Rejected, s0)
      end) s
    = (Resolved tt, State.with_taskTagsMap m' s)
    /\ forall t,
         JsObj.get t m'
         = if mem t ks
           then option_map (without tagId) (JsObj.get t (State.taskTagsMap s))
           else JsObj.get t (State.taskTagsMap s).
Proof.
  revert s. induction ks as [|k rest IH]; intros s Hall.
  - exists (State.taskTagsMap s). split; [now destruct s | auto].
  - destruct (Hall k (or_introl eq_refl)) as (l & Hl).
    set (s1 := State.with_taskTagsMap
                 (JsObj.set k (without tagId l) (State.taskTagsMap s)) s).
    destruct (IH s1) as (m' & Hrun & Hget).
    { intros k' Hk'. subst s1. cbn [State.taskTagsMap State.with_taskTagsMap].
      destruct (string_dec k' k) as [-> | Hne].
      - rewrite JsObjFacts.get_set_same. eauto.
      - rewrite JsObjFacts.get_set_other by assumption. apply Hall. now right. }
    exists m'. split.
    + cbn [forEach]. unfold bind. rewrite Hl. fold s1. rewrite Hrun. reflexivity.
    + intros t. rewrite Hget. subst s1.
      cbn [State.taskTagsMap State.with_taskTagsMap mem existsb].
      fold (mem t rest).
      destruct (string_dec t k) as [-> | Hne].
      * rewrite String.eqb_refl, JsObjFacts.get_set_same, Hl. simpl.
        rewrite without_idem. now destruct (mem k rest).
      * rewrite JsObjFacts.get_set_other by assumption.
        assert (E : (k =? t)%string = false) by (apply String.eqb_neq; congruence).
        now rewrite E.
Qed.

Lemma mem_In (x : string) (l : list string) : mem x l = true <-> In x l.
Proof.
  unfold mem. rewrite existsb_exists. split.
  - intros (y & Hy & E). apply String.eqb_eq in E. now subst.
  - intros H. exists x. split; auto. apply String.eqb_refl.
Qed.

Lemma get_del_Some {V : Type} (k k' : string) (v : V) (o : JsObj.t V) :
  JsObj.get k (JsObj.del k' o) = Some v -> JsObj.get k o = Some v.
Proof.
  destruct (string_dec k k') as [-> | Hne].
  - now rewrite JsObjFacts.get_del_same.
  - now rewrite JsObjFacts.get_del_other.
Qed.

(** The mutation [deleteTag] filters the entry of every task of the store
    (and may stop after that, on a [selectedTagIds] that is no array). *)
Lemma Mutations_deleteTag_effect (tagId : string) (s : State.t) :
  (forall k, In k (JsObj.keys (State.tasks s)) ->
             exists l, JsObj.get k (State.taskTagsMap s) = Some l) ->
  let s' := snd (Mutations.deleteTag tagId s) in
  State.tasks s' = State.tasks s
  /\ (forall t, In t (JsObj.keys (State.tasks s)) ->
        JsObj.get t (State.taskTagsMap s')
        = option_map (without tagId) (JsObj.get t (State.taskTagsMap s)))
  /\ (tags_keyed s -> tags_keyed s').
Proof.
  intros Hall. unfold Mutations.deleteTag. run_m.
  destruct (deleteTag_loop tagId _ s Hall) as (m' & Hrun & Hget).
  rewrite Hrun. cbn [State.settings State.with_taskTagsMap].
  assert (Hmap : forall t, In t (JsObj.keys (State.tasks s)) ->
            JsObj.get t m'
            = option_map (without tagId) (JsObj.get t (State.taskTagsMap s))).
  { intros t Hin. rewrite Hget. apply mem_In in Hin. now rewrite Hin. }
  destruct (JsObj.get "selectedTagIds" (State.settings s)) as [[| | | |selected]|];
    cbn [snd State.tasks State.taskTagsMap State.tags State.with_taskTagsMap
         State.with_settings State.with_tags State.with_tagOrder
         State.with_isActivityModalVisible];
    repeat split; auto.
  unfold tags_keyed. cbn [State.tags]. intros Hk k tag Hg.
  apply get_del_Some in Hg. auto.
Qed.

Lemma tagsMap_has_entries (w : World) :
  tagsMapConsistent w ->
  forall k, In k (JsObj.keys (State.tasks (state w))) ->
            exists l, JsObj.get k (State.taskTagsMap (state w)) = Some l.
Proof.
  intros Hc k Hin. destruct (Hc k Hin) as (l & Hl & _). eauto.
Qed.

Lemma get_In_keys {V : Type} (k : string) (v : V) (o : JsObj.t V) :
  JsObj.get k o = Some v -> In k (JsObj.keys o).
Proof.
  intros H. apply JsObjFacts.get_In in H.
  change k with (fst (k, v)). now apply in_map.
Qed.

Lemma tbl_add_Some {R : Type} (key : R -> string) (r : R) (tbl tbl' : list R) :
  tbl_add key r tbl = Some tbl' -> tbl' = tbl_insert key r tbl.
Proof.
  unfold tbl_add. destruct (tbl_has key (key r) tbl); congruence.
Qed.

Lemma addTaskTagById_consistent (env : Env) (nanoid taskId tagId : string)
    (w : World) :
  storageEnabled env = true ->
  tags_keyed (state w) ->
  tagsMapConsistent w ->
  let w' := run (addTaskTagById env nanoid taskId tagId) w in
  tagsMapConsistent w' /\ tags_keyed (state w').
Proof.
  intros Hstore Hkeyed Hc. unfold addTaskTagById.
  destruct (dexieDb env); [|split; assumption]. run_m.
  destruct (JsObj.get taskId (State.tasks (state w))) as [task|] eqn:Ht;
    [|split; assumption].
  destruct (JsObj.get tagId (State.tags (state w))) as [tag|] eqn:Hg;
    [|split; assumption].
  unfold taskTagMap_add. run_m. rewrite Hstore.
  destruct (tbl_add TaskTagMap.id _ (Db.taskTagMap (db w))) as [rows'|] eqn:Hadd;
    cbn [option_map snd db state]; [|split; assumption].
  apply tbl_add_Some in Hadd. subst rows'.
  destruct (tagsMap_has_entries Hc _ (get_In_keys _ _ Ht)) as (l & Hl).
  unfold Mutations.addTaskTag. run_m.
  rewrite (pushTaskTag_run _ _ _ Hl). cbn [snd db state].
  split; [|exact Hkeyed].
  unfold tagsMapConsistent.
  cbn [db state State.tasks State.taskTagsMap State.with_taskTagsMap
       Db.taskTagMap Db.with_taskTagMap].
  rewrite (Hkeyed _ _ Hg).
  exact (consistentWith_push
           (TaskTagMap.mk ("taskTag-" ++ nanoid) taskId tagId) Hc Hl).
Qed.

Lemma removeTaskTag_consistent (env : Env) (taskId tagId : string) (w : World) :
  tags_keyed (state w) ->
  tagsMapConsistent w ->
  let w' := run (removeTaskTag env taskId tagId) w in
  tagsMapConsistent w' /\ tags_keyed (state w').
Proof.
  intros Hkeyed Hc. unfold removeTaskTag.
  destruct (dexieDb env); [|split; assumption].
  unfold taskTagMap_delete. run_m. split; [|exact Hkeyed].
  unfold tagsMapConsistent, Mutations.deleteTaskTag.
  cbn [db state State.tasks State.taskTagsMap State.with_taskTagsMap
       Db.taskTagMap Db.with_taskTagMap].
  exact (consistentWith_remove taskId tagId Hc).
Qed.

Lemma deleteTag_consistent (env : Env) (confirmed : bool) (tagId : string)
    (w : World) :
  storageEnabled env = true ->
  tags_keyed (state w) ->
  tagsMapConsistent w ->
  let w' := run (deleteTag env confirmed tagId) w in
  tagsMapConsistent w' /\ tags_keyed (state w').
Proof.
  intros Hstore Hkeyed Hc. unfold deleteTag.
  destruct (dexieDb env); [|split; assumption]. run_m.
  destruct (tbl_get Tag.id tagId (Db.tags (db w))); [|split; assumption].
  destruct confirmed; [|split; assumption].
  unfold taskTagMap_delete, tags_delete. run_m. rewrite Hstore. run_m.
  pose proof (Mutations_deleteTag_effect tagId (state w)
                (tagsMap_has_entries Hc)) as (Htasks & Hmap & Hk).
  destruct (Mutations.deleteTag tagId (state w)) as [r s'].
  cbn [snd] in Htasks, Hmap, Hk.
  assert (Hgoal : tagsMapConsistent
                    (mkWorld
                       (Db.with_tags
                          (tbl_delete (fun t => (Tag.id t =? tagId)%string)
                             (Db.tags (db w)))
                          (Db.with_taskTagMap
                             (tbl_delete
                                (fun row => (TaskTagMap.tagId row =? tagId)%string)
                                (Db.taskTagMap (db w))) (db w))) s')).
  { unfold tagsMapConsistent.
    cbn [db state Db.taskTagMap Db.with_taskTagMap Db.with_tags].
    rewrite Htasks. intros k Hin. destruct (Hc k Hin) as (l & Hl & Hperm).
    exists (without tagId l). split.
    - now rewrite (Hmap k Hin), Hl.
    - rewrite tagIdsOf_delete_tag. now apply Permutation_filter. }
  destruct r; cbn [snd state]; auto.
Qed.

Lemma tags_keyed_set (tag : Tag.t) (s : State.t) :
  tags_keyed s ->
  forall k tag',
    JsObj.get k (JsObj.set (Tag.id tag) tag (State.tags s)) = Some tag' ->
    Tag.id tag' = k.
Proof.
  intros Hk k tag' Hg. destruct (string_dec k (Tag.id tag)) as [-> | Hne].
  - rewrite JsObjFacts.get_set_same in Hg. congruence.
  - rewrite JsObjFacts.get_set_other in Hg by assumption. eauto.
Qed.

Lemma addTaskTagByName_consistent (env : Env)
    (nanoidTag color nanoidMap taskId tagName : string) (w : World) :
  tags_keyed (state w) ->
  tagsMapConsistent w ->
  let w' := run (addTaskTagByName env nanoidTag color nanoidMap taskId tagName) w in
  tagsMapConsistent w' /\ tags_keyed (state w').
Proof.
  intros Hkeyed Hc. unfold addTaskTagByName.
  destruct (dexieDb env); [|split; assumption]. run_m.
  destruct (truthy_str (trim tagName)); [|split; assumption]. run_m.
  destruct (JsObj.get taskId (State.tasks (state w))) as [task|] eqn:Ht;
    [|split; assumption].
  destruct (tagsMap_has_entries Hc _ (get_In_keys _ _ Ht)) as (l & Hl).
  destruct (find _ (Db.tags (db w))) as [tag|]; run_m.
  - unfold taskTagMap_add. run_m.
    destruct (tbl_add TaskTagMap.id _ (Db.taskTagMap (db w))) as [rows'|] eqn:Hadd;
      cbn [option_map snd db state]; [|split; assumption].
    apply tbl_add_Some in Hadd. subst rows'.
    unfold Mutations.addTaskTag. run_m.
    rewrite (pushTaskTag_run _ _ _ Hl). cbn [snd db state].
    split; [|exact Hkeyed].
    exact (consistentWith_push
             (TaskTagMap.mk ("taskTag-" ++ nanoidMap) taskId (Tag.id tag)) Hc Hl).
  - unfold tags_add. run_m.
    destruct (tbl_add Tag.id _ (Db.tags (db w))) as [tags'|];
      cbn [option_map snd db state]; [|split; assumption].
    unfold taskTagMap_add. run_m.
    cbn [Db.taskTagMap Db.with_tags].
    destruct (tbl_add TaskTagMap.id _ (Db.taskTagMap (db w))) as [rows'|] eqn:Hadd;
      cbn [option_map snd db state]; [|split; assumption].
    apply tbl_add_Some in Hadd. subst rows'.
    unfold Mutations.addTaskTag. run_m.
    cbn [State.taskTagsMap State.with_tags State.with_tagOrder].
    match goal with
    | |- context [pushTaskTag ?a ?b ?s] =>
        rewrite (@pushTaskTag_run a b s l) by exact Hl
    end.
    cbn [snd db state]. split.
    + match goal with
      | |- context [TaskTagMap.mk ?i ?t ?g] =>
          exact (consistentWith_push (TaskTagMap.mk i t g) Hc Hl)
      end.
    + unfold tags_keyed.
      cbn [State.tags State.with_tags State.with_tagOrder State.with_taskTagsMap].
      match goal with
      | |- context [JsObj.set _ ?tag (State.tags (state w))] =>
          exact (tags_keyed_set tag Hkeyed)
      end.
Qed.

(** C4. Adding a tag to a task (by name or by id), removing a tag from a
    task and deleting a tag keep [state.taskTagsMap] consistent with the
    association table up to order: when, for every task of the store,
    [state.taskTagsMap[t]] is a permutation of the tag ids of the rows
    whose [taskId] is [t], it is so again after the action.  The two
    actions whose writes go through [handleDexieError] need storage to be
    enabled for that; the tags of the store are assumed to sit under their
    own ids, which the actions keep true as well. *)
Theorem tag_operations_keep_taskTagsMap_consistent
    (env : Env) (w : World)
    (nanoidTag color nanoidMap nanoid taskId tagName tagId : string)
    (confirmed : bool) :
  tags_keyed (state w) ->
  tagsMapConsistent w ->
  (let w' := run (addTaskTagByName env nanoidTag color nanoidMap taskId tagName) w in
   tagsMapConsistent w' /\ tags_keyed (state w'))
  /\ (storageEnabled env = true ->
      let w' := run (addTaskTagById env nanoid taskId tagId) w in
      tagsMapConsistent w' /\ tags_keyed (state w'))
  /\ (let w' := run (removeTaskTag env taskId tagId) w in
      tagsMapConsistent w' /\ tags_keyed (state w'))
  /\ (storageEnabled env = true ->
      let w' := run (deleteTag env confirmed tagId) w in
      tagsMapConsistent w' /\ tags_keyed (state w')).
Proof.
  intros Hkeyed Hc. split; [|split; [|split]].
  - now apply addTaskTagByName_consistent.
  - intros Hstore. now apply addTaskTagById_consistent.
  - now apply removeTaskTag_consistent.
  - intros Hstore. now apply deleteTag_consistent.
Qed.

Lemma Sample_tags_keyed : tags_keyed (state Sample.world).
Proof.
  intros k tag. unfold Sample.world, Sample.store.
  cbn [state State.tags JsObj.get].
  destruct ("tag-a" =? k)%string eqn:Ea.
  - apply String.eqb_eq in Ea. intros H. injection H as H. now subst.
  - destruct ("tag-b" =? k)%string eqn:Eb; [|discriminate].
    apply String.eqb_eq in Eb. intros H. injection H as H. now subst.
Qed.

Lemma Sample_tagsMapExact : tagsMapExact Sample.world.
Proof.
  intros t Hin. simpl in Hin. destruct Hin as [<- | [<- | []]]; reflexivity.
Qed.

Lemma Sample_tagsMapConsistent : tagsMapConsistent Sample.world.
Proof.
  intros t Hin. rewrite (Sample_tagsMapExact Hin). eauto.
Qed.

Lemma tag_operations_keep_taskTagsMap_consistent_witness :
  tagsMapConsistent (run (addTaskTagById Sample.env "b" "task-1" "tag-b") Sample.world)
  /\ tagsMapConsistent (run (deleteTag Sample.env true "tag-a") Sample.world).
Proof.
  pose proof (@tag_operations_keep_taskTagsMap_consistent Sample.env Sample.world
                "t" "green" "c" "b" "task-1" "errands" "tag-b" true
                Sample_tags_keyed Sample_tagsMapConsistent)
    as (_ & Hb & _ & _).
  pose proof (@tag_operations_keep_taskTagsMap_consistent Sample.env Sample.world
                "t" "green" "c" "b" "task-1" "errands" "tag-a" true
                Sample_tags_keyed Sample_tagsMapConsistent)
    as (_ & _ & _ & Ha).
  split; [apply (Hb eq_refl) | apply (Ha eq_refl)].
Defined.

(** The map is not kept equal to the rows' tag ids as a list: the new
    association gets the key ["taskTag-b"], which sorts before
    ["taskTag-m"], so its row comes first in the table while its tag id
    was pushed last in the store. *)
Lemma addTaskTag_order_differs_cex :
  tagsMapExact Sample.tagged
  /\ (let w' := run (addTaskTagByName Sample.env "w" "blue" "b" "task-r" "work")
                   Sample.tagged in
      JsObj.get "task-r" (State.taskTagsMap (state w')) = Some ["tag-h"; "tag-w"]
      /\ tagIdsOf "task-r" (Db.taskTagMap (db w')) = ["tag-w"; "tag-h"]
      /\ ~ tagsMapExact w').
Proof.
  split.
  - intros t Hin. simpl in Hin. destruct Hin as [<- | []]. reflexivity.
  - repeat split. intros H. specialize (H "task-r").
    assert (Hin : In "task-r"
                    (JsObj.keys
                       (State.tasks
                          (state
                             (run (addTaskTagByName Sample.env "w" "blue" "b"
                                     "task-r" "work") Sample.tagged)))))
      by (simpl; auto).
    specialize (H Hin). vm_compute in H. discriminate.
Qed.

(** ** Deleting the archived tasks *)

Lemma deleteTasks_cons (i : string) (rest : list string) (s : State.t) :
  Mutations.deleteTasks (i :: rest) s
  = Mutations.deleteTasks rest
      (State.with_taskTagsMap (JsObj.del i (State.taskTagsMap s))
         (State.with_tasks (JsObj.del i (State.tasks s)) s)).
Proof. reflexivity. Qed.

Lemma deleteTasks_get (taskIds : list string) (s : State.t) (k : string) :
  JsObj.get k (State.tasks (Mutations.deleteTasks taskIds s))
  = (if mem k taskIds then None else JsObj.get k (State.tasks s))
  /\ JsObj.get k (State.taskTagsMap (Mutations.deleteTasks taskIds s))
     = (if mem k taskIds then None else JsObj.get k (State.taskTagsMap s)).
Proof.
  revert s. induction taskIds as [|i rest IH]; intros s; [simpl; auto|].
  rewrite deleteTasks_cons.
  destruct (IH (State.with_taskTagsMap (JsObj.del i (State.taskTagsMap s))
                  (State.with_tasks (JsObj.del i (State.tasks s)) s)))
    as [Ht Hm].
  rewrite Ht, Hm.
  cbn [State.tasks State.taskTagsMap State.with_tasks State.with_taskTagsMap
       mem existsb].
  fold (mem k rest).
  destruct (string_dec k i) as [-> | Hne].
  - rewrite String.eqb_refl, !JsObjFacts.get_del_same. simpl.
    now destruct (mem i rest).
  - rewrite !JsObjFacts.get_del_other by assumption.
    assert (E : (i =? k)%string = false) by (apply String.eqb_neq; congruence).
    now rewrite E.
Qed.

Lemma deleteTasks_In (taskIds : list string) (s : State.t)
    (kv : string * Task.t) :
  In kv (State.tasks (Mutations.deleteTasks taskIds s)) ->
  In kv (State.tasks s) /\ ~ In (fst kv) taskIds.
Proof.
  revert s. induction taskIds as [|i rest IH]; intros s; [simpl; tauto|].
  rewrite deleteTasks_cons. intros Hin. apply IH in Hin.
  cbn [State.tasks State.with_tasks State.with_taskTagsMap] in Hin.
  rewrite JsObjFacts.In_del in Hin. simpl. intuition congruence.
Qed.

Lemma deleteTasks_frame (taskIds : list string) (s : State.t) :
  State.selectedTaskLogs (Mutations.deleteTasks taskIds s) = State.selectedTaskLogs s
  /\ State.settings (Mutations.deleteTasks taskIds s) = State.settings s.
Proof.
  revert s. induction taskIds as [|i rest IH]; intros s; [simpl; auto|].
  rewrite deleteTasks_cons.
  destruct (IH (State.with_taskTagsMap (JsObj.del i (State.taskTagsMap s))
                  (State.with_tasks (JsObj.del i (State.tasks s)) s))) as [H1 H2].
  now rewrite H1, H2.
Qed.

Lemma filter_nil_all {A : Type} (p : A -> bool) (l : list A) :
  (forall x, In x l -> p x = false) -> filter p l = [].
Proof.
  induction l as [|x rest IH]; simpl; auto. intros H.
  rewrite (H x) by auto. apply IH. auto.
Qed.

Lemma In_tbl_delete {R : Type} (p : R -> bool) (x : R) (tbl : list R) :
  In x (tbl_delete p tbl) <-> In x tbl /\ p x = false.
Proof.
  unfold tbl_delete. now rewrite filter_In, negb_true_iff.
Qed.

Lemma mem_false (x : string) (l : list string) : mem x l = false <-> ~ In x l.
Proof.
  rewrite <- mem_In. destruct (mem x l); split; congruence.
Qed.

Lemma deleteAllArchivedTasks_run (env : Env) (w : World) :
  dexieDb env = true ->
  storageEnabled env = true ->
  archivedTasks (state w) <> [] ->
  deleteAllArchivedTasks env w
  = (Resolved tt,
     let taskIds := map Task.id (archivedTasks (state w)) in
     mkWorld
       (Db.mk
          (tbl_delete (fun t => mem (Task.id t) taskIds) (Db.tasks (db w)))
          (Db.tags (db w))
          (tbl_delete (fun row => mem (TaskTagMap.taskId row) taskIds)
             (Db.taskTagMap (db w)))
          (Db.settings (db w))
          (tbl_delete (fun l => mem (TaskLog.taskId l) taskIds) (Db.logs (db w))))
       (Mutations.deleteTasks taskIds (state w))).
Proof.
  intros Hdb Hstore Hne. unfold deleteAllArchivedTasks. rewrite Hdb. run_m.
  destruct (archivedTasks (state w)) as [|a rest]; [congruence|].
  unfold logs_delete, taskTagMap_delete, tasks_delete. run_m.
  rewrite Hstore. reflexivity.
Qed.

(** C10. [deleteAllArchivedTasks] cascades (database there, storage
    enabled, the tasks of the store under their own ids): afterwards the
    store holds no archived task; a task, a log or an association is in
    its table exactly when it was there before and does not belong to a
    task that was archived; the store has neither a task nor a
    [taskTagsMap] entry under the id of a task that was archived;
    [state.selectedTaskLogs] and the settings, [selectedTaskID] among
    them, are what they were, in the store and in the [settings] table;
    and when no task is archived the action changes nothing. *)
Theorem deleteAllArchivedTasks_cascades (env : Env) (w : World) :
  dexieDb env = true ->
  storageEnabled env = true ->
  tasks_keyed (state w) ->
  let taskIds := map Task.id (archivedTasks (state w)) in
  let w' := run (deleteAllArchivedTasks env) w in
  archivedTasks (state w') = []
  /\ (forall t, In t (Db.tasks (db w'))
                <-> In t (Db.tasks (db w)) /\ ~ In (Task.id t) taskIds)
  /\ (forall log, In log (Db.logs (db w'))
                  <-> In log (Db.logs (db w)) /\ ~ In (TaskLog.taskId log) taskIds)
  /\ (forall row, In row (Db.taskTagMap (db w'))
                  <-> In row (Db.taskTagMap (db w))
                      /\ ~ In (TaskTagMap.taskId row) taskIds)
  /\ (forall taskId, In taskId taskIds ->
        JsObj.get taskId (State.tasks (state w')) = None
        /\ JsObj.get taskId (State.taskTagsMap (state w')) = None)
  /\ (State.selectedTaskLogs (state w') = State.selectedTaskLogs (state w)
      /\ State.settings (state w') = State.settings (state w)
      /\ JsObj.get "selectedTaskID" (State.settings (state w'))
         = JsObj.get "selectedTaskID" (State.settings (state w))
      /\ Db.settings (db w') = Db.settings (db w))
  /\ (archivedTasks (state w) = [] ->
      deleteAllArchivedTasks env w = (Resolved tt, w)).
Proof.
  intros Hdb Hstore [_ Hkeyed] taskIds w'. subst w'.
  assert (Hcase : archivedTasks (state w) = [] \/ archivedTasks (state w) <> []).
  { destruct (archivedTasks (state w)); [left | right]; congruence. }
  destruct Hcase as [Hnil | Hne].
  - assert (Hrun : deleteAllArchivedTasks env w = (Resolved tt, w)).
    { unfold deleteAllArchivedTasks. rewrite Hdb. run_m. now rewrite Hnil. }
    unfold run. rewrite Hrun. subst taskIds. rewrite Hnil. simpl.
    repeat split; auto; tauto.
  - unfold run. rewrite deleteAllArchivedTasks_run by assumption.
    fold taskIds. cbn [snd db state Db.tasks Db.logs Db.taskTagMap Db.settings].
    split; [|split; [|split; [|split; [|split; [|split]]]]].
    + apply filter_nil_all. intros t Hin.
      unfold JsObj.values in Hin. apply in_map_iff in Hin.
      destruct Hin as ([k t'] & Heq & Hin). simpl in Heq. subst t'.
      apply deleteTasks_In in Hin. destruct Hin as [Hin Hnot].
      cbn [fst] in Hnot.
      destruct (truthy_flag (Task.archived t)) eqn:E; auto.
      exfalso. apply Hnot. rewrite <- (Hkeyed k t Hin).
      subst taskIds. apply in_map. unfold archivedTasks.
      apply filter_In. split; auto.
      unfold JsObj.values. change t with (snd (k, t)). now apply in_map.
    + intros t. now rewrite In_tbl_delete, mem_false.
    + intros log. now rewrite In_tbl_delete, mem_false.
    + intros row. now rewrite In_tbl_delete, mem_false.
    + intros taskId Hin.
      destruct (deleteTasks_get taskIds (state w) taskId) as [Ht Hm].
      rewrite Ht, Hm. apply mem_In in Hin. now rewrite Hin.
    + destruct (deleteTasks_frame taskIds (state w)) as [Hlogs Hsettings].
      rewrite Hlogs, Hsettings. repeat split.
    + intros Hnil. contradiction.
Qed.

Lemma Sample_tasks_keyed : tasks_keyed (state Sample.world).
Proof.
  split.
  - simpl. repeat constructor; simpl; intuition discriminate.
  - intros k t. simpl. intros [[= <- <-] | [[= <- <-] | []]]; reflexivity.
Qed.

Lemma deleteAllArchivedTasks_cascades_witness :
  let w' := run (deleteAllArchivedTasks Sample.env) Sample.world in
  archivedTasks (state w') = []
  /\ forall log, In log (Db.logs (db w')) -> TaskLog.taskId log <> "task-2".
Proof.
  pose proof (@deleteAllArchivedTasks_cascades Sample.env Sample.world
                eq_refl eq_refl Sample_tasks_keyed) as (H1 & _ & H3 & _).
  split; [exact H1|].
  intros log Hin Heq. apply H3 in Hin. destruct Hin as [_ Hnot].
  apply Hnot. rewrite Heq. simpl. auto.
Defined.

(** The store keeps logs of a deleted task: when the archived task is the
    selected one, its interval is still in [state.selectedTaskLogs] (and
    its id in [settings.selectedTaskID]) after the action. *)
Lemma deleteAllArchivedTasks_keeps_selected_logs_cex :
  let w' := run (deleteAllArchivedTasks Sample.env) Sample.archivedSelected in
  map Task.id (archivedTasks (state Sample.archivedSelected)) = ["task-r"]
  /\ TaskLog.taskId Sample.logA9 = "task-r"
  /\ State.selectedTaskLogs (state w') = [Sample.logA9]
  /\ State.tasks (state w') = []
  /\ Db.logs (db w') = []
  /\ JsObj.get "selectedTaskID" (State.settings (state w')) = Some (VStr "task-r").
Proof. repeat split. Qed.

(** The sample session is one the actions produce. *)
Lemma Sample_session_by_actions :
  run (addTask Sample.env (fun _ => "r") 10 " read ") Sample.fresh = Sample.added
  /\ run (startTask Sample.env 20 21 "a" "task-r") Sample.added = Sample.started
  /\ run (updateTaskTimer Sample.env 21 "task-r") Sample.started = Sample.ticked
  /\ run (archiveTask Sample.env "task-r" None)
       (run (stopTask Sample.env 30) Sample.started)
     = Sample.archivedSelected
  /\ run (addTaskTagByName Sample.env "h" "red" "m" "task-r" "home") Sample.added
     = Sample.tagged.
Proof. repeat split. Qed.

(** ** Reordering the incomplete tasks *)

Lemma ownRefs_tasks (p : Task.t -> bool) (s : State.t) :
  map snd (ownRefs p s) = filter p (JsObj.values (State.tasks s)).
Proof.
  unfold ownRefs, JsObj.values.
  induction (State.tasks s) as [|[k t] rest IH]; simpl; auto.
  destruct (p t); simpl; now rewrite IH.
Qed.

Lemma callerRefs_tasks (tasks : list Task.t) :
  map snd (callerRefs tasks) = tasks.
Proof.
  unfold callerRefs. rewrite map_map. simpl. apply map_id.
Qed.

Lemma assignOrders_all (i : Z) (refs : list TaskRef) (s : State.t) :
  exists s',
    assignOrders i (map Some refs) s = (Resolved (renumber i (map snd refs)), s').
Proof.
  revert i s. induction refs as [|[owner task] rest IH]; intros i s.
  - exists s. reflexivity.
  - cbn [map assignOrders snd renumber].
    destruct owner as [k|]; run_m.
    + destruct (IH (i + 1)
                  (State.with_tasks
                     (JsObj.set k (Task.with_order i task) (State.tasks s)) s))
        as (s' & Hs').
      exists s'. now rewrite Hs'.
    + destruct (IH (i + 1) s) as (s' & Hs'). exists s'. now rewrite Hs'.
Qed.

Lemma setTasks_tasks (tasks : list Task.t) (s : State.t) :
  State.tasks (Mutations.setTasks tasks s)
  = fold_left (fun o task => JsObj.set (Task.id task) task o) tasks JsObj.empty.
Proof.
  unfold Mutations.setTasks.
  change (@JsObj.empty Task.t)
    with (State.tasks (State.with_tasks JsObj.empty s)) at 2.
  generalize (State.with_tasks JsObj.empty s). clear s.
  induction tasks as [|t rest IH]; intros s; simpl; auto.
Qed.

Lemma fold_set_fresh (tasks : list Task.t) (o : JsObj.t Task.t) :
  NoDup (JsObj.keys o ++ map Task.id tasks) ->
  fold_left (fun o task => JsObj.set (Task.id task) task o) tasks o
  = o ++ map (fun t => (Task.id t, t)) tasks.
Proof.
  revert o. induction tasks as [|t rest IH]; intros o Hnd; simpl.
  - now rewrite app_nil_r.
  - assert (Hfresh : ~ In (Task.id t) (JsObj.keys o)).
    { intros Hin. apply NoDup_remove_2 in Hnd. apply Hnd.
      apply in_or_app. now left. }
    rewrite JsObjFacts.keys_set_absent by assumption.
    rewrite IH.
    + now rewrite <- app_assoc.
    + unfold JsObj.keys. rewrite map_app. simpl. rewrite <- app_assoc. exact Hnd.
Qed.

Lemma renumber_ids (i : Z) (tasks : list Task.t) :
  map Task.id (renumber i tasks) = map Task.id tasks.
Proof.
  revert i. induction tasks as [|t rest IH]; intros i; simpl; auto.
  now rewrite IH.
Qed.

Lemma nth_error_renumber (j : Z) (tasks : list Task.t) (i : nat) :
  nth_error (renumber j tasks) i
  = option_map (Task.with_order (j + Z.of_nat i)) (nth_error tasks i).
Proof.
  revert j i. induction tasks as [|t rest IH]; intros j i.
  - now destruct i.
  - destruct i as [|i]; simpl.
    + now rewrite Z.add_0_r.
    + rewrite IH. do 2 f_equal. lia.
Qed.

Lemma filter_split_perm {A : Type} (p : A -> bool) (l : list A) :
  Permutation (filter (fun x => negb (p x)) l ++ filter p l) l.
Proof.
  induction l as [|x rest IH]; simpl; auto.
  destruct (p x); simpl.
  - apply Permutation_sym, Permutation_cons_app, Permutation_sym, IH.
  - now constructor.
Qed.

Lemma keyed_ids (o : JsObj.t Task.t) :
  (forall k t, In (k, t) o -> Task.id t = k) ->
  map Task.id (JsObj.values o) = JsObj.keys o.
Proof.
  unfold JsObj.values, JsObj.keys.
  induction o as [|[k t] rest IH]; intros H; simpl; auto.
  rewrite (H k t) by (simpl; auto). f_equal. apply IH.
  intros k' t' Hin. apply H. now right.
Qed.

Lemma tbl_get_bulkPut_other {R : Type} (key : R -> string) (k : string)
    (rs tbl : list R) :
  ~ In k (map key rs) ->
  tbl_get key k (tbl_bulkPut key rs tbl) = tbl_get key k tbl.
Proof.
  unfold tbl_bulkPut. revert tbl.
  induction rs as [|r rest IH]; intros tbl Hnotin; simpl; auto.
  rewrite IH by (simpl in Hnotin; tauto).
  apply tbl_get_put_other. simpl in Hnotin. tauto.
Qed.

Lemma tbl_get_bulkPut {R : Type} (key : R -> string) (r : R) (rs tbl : list R) :
  NoDup (map key rs) ->
  In r rs ->
  tbl_get key (key r) (tbl_bulkPut key rs tbl) = Some r.
Proof.
  revert tbl. induction rs as [|x rest IH]; intros tbl Hnd Hin; [contradiction|].
  inversion Hnd as [|? ? Hnotin Hnd']; subst.
  change (tbl_bulkPut key (x :: rest) tbl)
    with (tbl_bulkPut key rest (tbl_put key x tbl)).
  destruct Hin as [-> | Hin].
  - rewrite tbl_get_bulkPut_other by assumption. apply tbl_get_put_same.
  - now apply IH.
Qed.

(** What [reorderIncompleteTasks] leaves behind when the payload has as
    many tasks as there are incomplete ones: the full list, renumbered,
    put into the table and made the store's tasks. *)
Lemma reorderIncompleteTasks_run (env : Env) (w : World)
    (newIncompleteTaskOrder : list Task.t) :
  dexieDb env = true ->
  storageEnabled env = true ->
  List.length newIncompleteTaskOrder = List.length (incompleteTasks (state w)) ->
  exists s2,
    reorderIncompleteTasks env newIncompleteTaskOrder w
    = (Resolved tt,
       let tasks :=
         renumber 0 (newIncompleteTaskOrder ++ completedTasks (state w)) in
       mkWorld
         (Db.with_tasks (tbl_bulkPut Task.id tasks (Db.tasks (db w))) (db w))
         (Mutations.setTasks tasks s2)).
Proof.
  intros Hdb Hstore Hlen. unfold reorderIncompleteTasks. rewrite Hdb. run_m.
  assert (Hlen' : Nat.eqb (List.length newIncompleteTaskOrder)
                    (List.length
                       (ownRefs (fun t => negb (truthy_num (Task.completed t)))
                          (state w))) = true).
  { apply Nat.eqb_eq. rewrite Hlen. unfold incompleteTasks.
    rewrite <- ownRefs_tasks. now rewrite length_map. }
  rewrite Hlen'.
  destruct (assignOrders_all 0
              (callerRefs newIncompleteTaskOrder
               ++ ownRefs (fun t => truthy_num (Task.completed t)) (state w))
              (state w)) as (s2 & Hs2).
  run_m. rewrite Hs2.
  rewrite map_app, callerRefs_tasks, ownRefs_tasks.
  fold (completedTasks (state w)).
  unfold bulkPutTasks, tasks_bulkPut. rewrite Hdb. run_m. rewrite Hstore.
  exists s2. reflexivity.
Qed.

Lemma values_of_entries (tasks : list Task.t) :
  JsObj.values (map (fun t => (Task.id t, t)) tasks) = tasks.
Proof.
  unfold JsObj.values. rewrite map_map. simpl. apply map_id.
Qed.

Lemma keys_of_entries (tasks : list Task.t) :
  JsObj.keys (map (fun t => (Task.id t, t)) tasks) = map Task.id tasks.
Proof.
  unfold JsObj.keys. rewrite map_map. reflexivity.
Qed.

(** C6. When the payload of [reorderIncompleteTasks] holds exactly the
    incomplete tasks of the store (in any order), then, the database there
    and storage enabled, the store's tasks become the payload followed by
    the completed tasks, each with [order] equal to its index in that
    list; the task's row carries the same [order]; and every completed
    task is numbered after every incomplete one. *)
Theorem reorderIncompleteTasks_orders_by_index
    (env : Env) (w : World) (newIncompleteTaskOrder : list Task.t) :
  dexieDb env = true ->
  storageEnabled env = true ->
  tasks_keyed (state w) ->
  Permutation newIncompleteTaskOrder (incompleteTasks (state w)) ->
  let fullTaskOrder := newIncompleteTaskOrder ++ completedTasks (state w) in
  let w' := run (reorderIncompleteTasks env newIncompleteTaskOrder) w in
  JsObj.values (State.tasks (state w')) = renumber 0 fullTaskOrder
  /\ (forall i t,
        nth_error fullTaskOrder i = Some t ->
        JsObj.get (Task.id t) (State.tasks (state w'))
        = Some (Task.with_order (Z.of_nat i) t)
        /\ tbl_get Task.id (Task.id t) (Db.tasks (db w'))
           = Some (Task.with_order (Z.of_nat i) t))
  /\ (forall u c,
        In u (JsObj.values (State.tasks (state w'))) ->
        In c (JsObj.values (State.tasks (state w'))) ->
        truthy_num (Task.completed u) = false ->
        truthy_num (Task.completed c) = true ->
        Task.order u < Task.order c).
Proof.
  intros Hdb Hstore [Hnd Hkeyed] Hperm fullTaskOrder w'.
  destruct (reorderIncompleteTasks_run env w newIncompleteTaskOrder Hdb Hstore
              (Permutation_length Hperm)) as (s2 & Hrun).
  subst w'. unfold run. rewrite Hrun. fold fullTaskOrder.
  cbn [snd db state Db.tasks Db.with_tasks].
  assert (Hids : NoDup (map Task.id (renumber 0 fullTaskOrder))).
  { rewrite renumber_ids.
    apply (Permutation_NoDup (l := JsObj.keys (State.tasks (state w))));
      [|exact Hnd].
    rewrite <- (keyed_ids _ Hkeyed). apply Permutation_map, Permutation_sym.
    subst fullTaskOrder. rewrite Hperm. apply filter_split_perm. }
  assert (Htasks : State.tasks (Mutations.setTasks (renumber 0 fullTaskOrder) s2)
                   = map (fun t => (Task.id t, t)) (renumber 0 fullTaskOrder)).
  { rewrite setTasks_tasks, fold_set_fresh; auto. }
  rewrite Htasks, values_of_entries.
  assert (Hnth : forall i t,
             nth_error fullTaskOrder i = Some t ->
             In (Task.with_order (Z.of_nat i) t) (renumber 0 fullTaskOrder)).
  { intros i t Hi. apply (nth_error_In _ i).
    now rewrite nth_error_renumber, Hi. }
  split; [reflexivity | split].
  - intros i t Hi. split.
    + apply JsObjFacts.In_get.
      * now rewrite keys_of_entries.
      * change (Task.id t, Task.with_order (Z.of_nat i) t)
          with ((fun t => (Task.id t, t)) (Task.with_order (Z.of_nat i) t)).
        apply in_map. auto.
    + change (Task.id t) with (Task.id (Task.with_order (Z.of_nat i) t)).
      apply tbl_get_bulkPut; auto.
  - intros u c Hu Hc Hfalse Htrue.
    apply In_nth_error in Hu. destruct Hu as (i & Hi).
    apply In_nth_error in Hc. destruct Hc as (j & Hj).
    rewrite nth_error_renumber in Hi, Hj.
    destruct (nth_error fullTaskOrder i) as [tu|] eqn:Etu; [|discriminate].
    destruct (nth_error fullTaskOrder j) as [tc|] eqn:Etc; [|discriminate].
    simpl in Hi, Hj. injection Hi as <-. injection Hj as <-.
    simpl in Hfalse, Htrue |- *.
    assert (Hi : (i < List.length newIncompleteTaskOrder)%nat).
    { destruct (Nat.lt_ge_cases i (List.length newIncompleteTaskOrder)) as [|Hge];
        auto.
      subst fullTaskOrder. rewrite nth_error_app2 in Etu by assumption.
      apply nth_error_In in Etu. unfold completedTasks in Etu.
      apply filter_In in Etu. destruct Etu as [_ Etu]. congruence. }
    assert (Hj : (List.length newIncompleteTaskOrder <= j)%nat).
    { destruct (Nat.lt_ge_cases j (List.length newIncompleteTaskOrder)) as [Hlt|];
        auto.
      subst fullTaskOrder. rewrite nth_error_app1 in Etc by assumption.
      apply nth_error_In in Etc.
      apply (Permutation_in _ Hperm) in Etc. unfold incompleteTasks in Etc.
      apply filter_In in Etc. destruct Etc as [_ Etc].
      rewrite Htrue in Etc. discriminate. }
    lia.
Qed.

Lemma reorderIncompleteTasks_orders_by_index_witness :
  JsObj.values
    (State.tasks
       (state (run (reorderIncompleteTasks Sample.env [Sample.task3; Sample.task1])
                 Sample.three)))
  = [Task.with_order 0 Sample.task3; Task.with_order 1 Sample.task1;
     Task.with_order 2 Sample.task2].
Proof.
  apply (@reorderIncompleteTasks_orders_by_index Sample.env Sample.three
           [Sample.task3; Sample.task1] eq_refl eq_refl).
  - split.
    + simpl. repeat constructor; simpl; intuition discriminate.
    + intros k t. simpl.
      intros [[= <- <-] | [[= <- <-] | [[= <- <-] | []]]]; reflexivity.
  - apply perm_swap.
Defined.

(** Without the storage condition the orders need not be the indices.
    With [storageEnabled] false and a payload that holds exactly the
    incomplete tasks, the [setTasks] commit is not reached, and the store's
    incomplete task [task-3], first in the payload, keeps [order] 2: not
    its index 0, and not below the [order] 2 that the completed task
    [task-2] got. *)
Lemma reorderIncompleteTasks_low_disk_cex :
  let payload := [Sample.task3; Sample.task1] in
  let fullTaskOrder := payload ++ completedTasks (state Sample.three) in
  let w' := run (reorderIncompleteTasks Sample.lowDisk payload) Sample.three in
  let order (taskId : string) :=
    option_map Task.order (JsObj.get taskId (State.tasks (state w'))) in
  storageEnabled Sample.lowDisk = false
  /\ Permutation payload (incompleteTasks (state Sample.three))
  /\ List.length payload = List.length (incompleteTasks (state Sample.three))
  /\ map Task.id fullTaskOrder = ["task-3"; "task-1"; "task-2"]
  /\ option_map Task.completed (JsObj.get "task-3" (State.tasks (state w')))
     = Some None
  /\ option_map Task.completed (JsObj.get "task-2" (State.tasks (state w')))
     = Some (Some 50)
  /\ order "task-3" = Some 2
  /\ order "task-2" = Some 2
  /\ order "task-3" <> Some 0.
Proof.
  repeat split.
  - apply perm_swap.
  - vm_compute. discriminate.
Qed.

(** ** At most one running log *)

Lemma filter_length_le {A : Type} (p q : A -> bool) (l : list A) :
  (List.length (filter p (filter q l)) <= List.length (filter p l))%nat.
Proof.
  induction l as [|x rest IH]; simpl; auto.
  destruct (q x), (p x) eqn:E; simpl; rewrite ?E; simpl; lia.
Qed.

Lemma filter_length_lt {A : Type} (p q : A -> bool) (l : list A) (r : A) :
  In r l -> p r = true -> q r = false ->
  (List.length (filter p (filter q l)) < List.length (filter p l))%nat.
Proof.
  induction l as [|x rest IH]; simpl; [tauto|].
  intros [-> | Hin] Hp Hq.
  - rewrite Hq, Hp. simpl. pose proof (filter_length_le p q rest). lia.
  - specialize (IH Hin Hp Hq).
    destruct (q x), (p x) eqn:E; simpl; rewrite ?E; simpl; lia.
Qed.

Lemma running_insert (log : TaskLog.t) (logs : list TaskLog.t) :
  List.length (filter isRunning (tbl_insert TaskLog.id log logs))
  = ((if isRunning log then 1 else 0) + List.length (filter isRunning logs))%nat.
Proof.
  rewrite (Permutation_length (filter_tbl_insert TaskLog.id isRunning log logs)).
  simpl. now destruct (isRunning log).
Qed.

Lemma running_put_closed (log : TaskLog.t) (logs : list TaskLog.t) :
  isRunning log = false ->
  (List.length (filter isRunning (tbl_put TaskLog.id log logs))
   <= List.length (filter isRunning logs))%nat.
Proof.
  intros H. unfold tbl_put. rewrite running_insert, H. simpl.
  apply filter_length_le.
Qed.

Lemma running_put_found (log found : TaskLog.t) (logs : list TaskLog.t) :
  In found logs -> isRunning found = true -> TaskLog.id log = TaskLog.id found ->
  (List.length (filter isRunning (tbl_put TaskLog.id log logs))
   <= List.length (filter isRunning logs))%nat
  /\ (isRunning log = false ->
      (List.length (filter isRunning (tbl_put TaskLog.id log logs))
       < List.length (filter isRunning logs))%nat).
Proof.
  intros Hin Hrun Hid. unfold tbl_put. rewrite running_insert.
  assert (Hlt : (List.length
                   (filter isRunning
                      (filter (fun x => negb (TaskLog.id x =? TaskLog.id log)%string)
                         logs))
                 < List.length (filter isRunning logs))%nat).
  { apply (filter_length_lt _ _ _ found); auto.
    now rewrite Hid, String.eqb_refl. }
  destruct (isRunning log); split; intros; simpl; try lia; discriminate.
Qed.

Section NonIncreasing.

Variable env : Env.

Lemma ni_ret {A : Type} (a : A) : nonIncreasing (ret a).
Proof. intros w. simpl. lia. Qed.

Lemma ni_throw {A : Type} : nonIncreasing (@throw World A).
Proof. intros w. simpl. lia. Qed.

Lemma ni_gets {A : Type} (f : World -> A) : nonIncreasing (gets f).
Proof. intros w. simpl. lia. Qed.

Lemma ni_query {A : Type} (f : Db.t -> A) : nonIncreasing (query f).
Proof. intros w. simpl. lia. Qed.

Lemma ni_bind {A B : Type} (m : Async A) (k : A -> Async B) :
  nonIncreasing m -> (forall a, nonIncreasing (k a)) -> nonIncreasing (bind m k).
Proof.
  intros Hm Hk w. unfold bind. specialize (Hm w).
  destruct (m w) as [[a|] w1]; simpl in *; auto.
  specialize (Hk a w1). lia.
Qed.

Lemma ni_tryCatch (m : Async unit) : nonIncreasing m -> nonIncreasing (tryCatch m).
Proof. intros Hm w. exact (Hm w). Qed.

Lemma ni_commit (m : M State.t unit) : nonIncreasing (commit m).
Proof.
  intros w. unfold commit. destruct (m (state w)). simpl. lia.
Qed.

Lemma ni_commit_ (f : State.t -> State.t) : nonIncreasing (commit_ f).
Proof. apply ni_commit. Qed.

Lemma ni_inPlace {A : Type} (m : M State.t A) : nonIncreasing (inPlace m).
Proof.
  intros w. unfold inPlace. destruct (m (state w)). simpl. lia.
Qed.

Lemma ni_handleDexieError {A : Type} (m : Async A) :
  nonIncreasing m -> nonIncreasing (handleDexieError env m).
Proof.
  intros Hm w. unfold handleDexieError. specialize (Hm w).
  destruct (m w) as [r w1]. now destruct (storageEnabled env).
Qed.

Lemma ni_forEach {A : Type} (xs : list A) (body : A -> Async unit) :
  (forall x, nonIncreasing (body x)) -> nonIncreasing (forEach xs body).
Proof.
  intros Hbody. induction xs as [|x rest IH]; simpl.
  - apply ni_ret.
  - apply ni_bind; auto.
Qed.

(** Requests on the other tables leave the logs alone. *)
Lemma ni_dexie (f : Db.t -> Db.t) :
  (forall d, Db.logs (f d) = Db.logs d) -> nonIncreasing (dexie f).
Proof.
  intros Hf w. unfold dexie, runningCount, runningLogs. simpl. now rewrite Hf.
Qed.

Lemma ni_dexie_try (f : Db.t -> option Db.t) :
  (forall d d', f d = Some d' -> Db.logs d' = Db.logs d) ->
  nonIncreasing (dexie_try f).
Proof.
  intros Hf w. unfold dexie_try, runningCount, runningLogs.
  destruct (f (db w)) as [d'|] eqn:E; simpl; auto.
  now rewrite (Hf _ _ E).
Qed.

Lemma ni_tasks_update taskId u : nonIncreasing (tasks_update taskId u).
Proof. now apply ni_dexie. Qed.

Lemma ni_tasks_add task : nonIncreasing (tasks_add task).
Proof.
  apply ni_dexie_try. intros d d'.
  destruct (tbl_add Task.id task (Db.tasks d)); simpl; [|discriminate].
  now intros [= <-].
Qed.

Lemma ni_tasks_bulkPut tasks : nonIncreasing (tasks_bulkPut tasks).
Proof. now apply ni_dexie. Qed.

Lemma ni_tasks_delete p : nonIncreasing (tasks_delete p).
Proof. now apply ni_dexie. Qed.

Lemma ni_tags_add tag : nonIncreasing (tags_add tag).
Proof.
  apply ni_dexie_try. intros d d'.
  destruct (tbl_add Tag.id tag (Db.tags d)); simpl; [|discriminate].
  now intros [= <-].
Qed.

Lemma ni_tags_delete p : nonIncreasing (tags_delete p).
Proof. now apply ni_dexie. Qed.

Lemma ni_taskTagMap_add row : nonIncreasing (taskTagMap_add row).
Proof.
  apply ni_dexie_try. intros d d'.
  destruct (tbl_add TaskTagMap.id row (Db.taskTagMap d)); simpl; [|discriminate].
  now intros [= <-].
Qed.

Lemma ni_taskTagMap_bulkAdd rows : nonIncreasing (taskTagMap_bulkAdd rows).
Proof.
  intros w. unfold taskTagMap_bulkAdd.
  destruct (tbl_bulkAdd TaskTagMap.id rows (Db.taskTagMap (db w))).
  unfold runningCount, runningLogs. simpl. lia.
Qed.

Lemma ni_taskTagMap_delete p : nonIncreasing (taskTagMap_delete p).
Proof. now apply ni_dexie. Qed.

Lemma ni_settings_put kv : nonIncreasing (settings_put kv).
Proof. now apply ni_dexie. Qed.

(** Requests on the logs: deleting, and writing a log that is closed. *)
Lemma ni_logs_delete p : nonIncreasing (logs_delete p).
Proof.
  intros w. unfold logs_delete, dexie, runningCount, runningLogs, tbl_delete.
  simpl. apply filter_length_le.
Qed.

Lemma ni_logs_put (log : TaskLog.t) :
  TaskLog.stopped log <> None -> nonIncreasing (logs_put log).
Proof.
  intros Hclosed w. unfold logs_put, dexie, runningCount, runningLogs. simpl.
  apply running_put_closed. unfold isRunning.
  now destruct (TaskLog.stopped log).
Qed.

Lemma ni_logs_add (log : TaskLog.t) :
  TaskLog.stopped log <> None -> nonIncreasing (logs_add log).
Proof.
  intros Hclosed w. unfold logs_add, dexie_try, runningCount, runningLogs.
  destruct (tbl_add TaskLog.id log (Db.logs (db w))) as [logs'|] eqn:E;
    simpl; auto.
  apply tbl_add_Some in E. subst logs'.
  fold isRunning. rewrite running_insert. unfold isRunning.
  destruct (TaskLog.stopped log); [simpl; lia | congruence].
Qed.

End NonIncreasing.

(** The combinators are chosen by the head of the computation. *)
Ltac ni_step :=
  match goal with
  | |- nonIncreasing (ret _) => apply ni_ret
  | |- nonIncreasing throw => apply ni_throw
  | |- nonIncreasing (gets _) => apply ni_gets
  | |- nonIncreasing (query _) => apply ni_query
  | |- nonIncreasing (commit_ _) => apply ni_commit_
  | |- nonIncreasing (commit _) => apply ni_commit
  | |- nonIncreasing (inPlace _) => apply ni_inPlace
  | |- nonIncreasing (tryCatch _) => apply ni_tryCatch
  | |- nonIncreasing (handleDexieError _ _) => apply ni_handleDexieError
  | |- nonIncreasing (bind _ _) => apply ni_bind; [| intros ?]
  | |- nonIncreasing (forEach _ _) => apply ni_forEach; intros ?
  | |- nonIncreasing (tasks_update _ _) => apply ni_tasks_update
  | |- nonIncreasing (tasks_add _) => apply ni_tasks_add
  | |- nonIncreasing (tasks_bulkPut _) => apply ni_tasks_bulkPut
  | |- nonIncreasing (tasks_delete _) => apply ni_tasks_delete
  | |- nonIncreasing (tags_add _) => apply ni_tags_add
  | |- nonIncreasing (tags_delete _) => apply ni_tags_delete
  | |- nonIncreasing (taskTagMap_add _) => apply ni_taskTagMap_add
  | |- nonIncreasing (taskTagMap_bulkAdd _) => apply ni_taskTagMap_bulkAdd
  | |- nonIncreasing (taskTagMap_delete _) => apply ni_taskTagMap_delete
  | |- nonIncreasing (settings_put _) => apply ni_settings_put
  | |- nonIncreasing (logs_delete _) => apply ni_logs_delete
  | |- nonIncreasing (logs_put _) => apply ni_logs_put; simpl; discriminate
  | |- nonIncreasing (logs_add _) => apply ni_logs_add; simpl; discriminate
  | |- nonIncreasing (if ?b then _ else _) => destruct b eqn:?
  | |- nonIncreasing (match ?x with _ => _ end) => destruct x eqn:?
  end.

Ltac ni_with leaf := repeat first [ leaf | ni_step | progress cbv zeta ].

Ltac ni := ni_with fail.

Lemma ni_stopTask (env : Env) (now : Z) : nonIncreasing (stopTask env now).
Proof. unfold stopTask. ni. Qed.

Lemma ni_updateSetting (env : Env) (key : string) (value : SettingValue) :
  nonIncreasing (updateSetting env key value).
Proof. unfold updateSetting. ni. Qed.

Lemma ni_selectTask (env : Env) (taskId : option string) :
  nonIncreasing (selectTask env taskId).
Proof. unfold selectTask. ni_with ltac:(idtac; match goal with
    | |- nonIncreasing (updateSetting _ _ _) => apply ni_updateSetting
    end). Qed.

Lemma ni_bulkPutTasks (env : Env) (tasks : list Task.t) :
  nonIncreasing (bulkPutTasks env tasks).
Proof. unfold bulkPutTasks. ni. Qed.

Lemma ni_loadSelectedTaskLogs (settings : list SettingKv.t)
    (acc : list TaskLog.t) :
  nonIncreasing (loadSelectedTaskLogs settings acc).
Proof.
  intros w. rewrite loadSelectedTaskLogs_frame. lia.
Qed.

Lemma closeOrphan_closed (log : TaskLog.t) :
  truthy_num (TaskLog.timeSpent log) = true ->
  TaskLog.stopped (closeOrphan log) <> None.
Proof.
  unfold closeOrphan. destruct (TaskLog.timeSpent log); simpl; discriminate.
Qed.

Lemma ni_loadInitialData (env : Env) : nonIncreasing (loadInitialData env).
Proof.
  unfold loadInitialData.
  ni_with ltac:(idtac; match goal with
    | |- nonIncreasing (loadSelectedTaskLogs _ _) =>
        apply ni_loadSelectedTaskLogs
    | H : _ && _ = true |- nonIncreasing (logs_put (closeOrphan _)) =>
        apply ni_logs_put, closeOrphan_closed;
        apply andb_true_iff in H; apply H
    end).
Qed.

Lemma ni_addTask (env : Env) nanoid now name :
  nonIncreasing (addTask env nanoid now name).
Proof. unfold addTask. ni_with ltac:(idtac; match goal with
    | |- nonIncreasing (selectTask _ _) => apply ni_selectTask
    end). Qed.

Lemma ni_updateTaskName (env : Env) taskId name :
  nonIncreasing (updateTaskName env taskId name).
Proof. unfold updateTaskName. ni. Qed.

Lemma ni_updateTaskNotes (env : Env) taskId notes :
  nonIncreasing (updateTaskNotes env taskId notes).
Proof. unfold updateTaskNotes. ni. Qed.

Lemma ni_reorderIncompleteTasks (env : Env) newIncompleteTaskOrder :
  nonIncreasing (reorderIncompleteTasks env newIncompleteTaskOrder).
Proof. unfold reorderIncompleteTasks. ni_with ltac:(idtac; match goal with
    | |- nonIncreasing (bulkPutTasks _ _) => apply ni_bulkPutTasks
    end). Qed.

Lemma ni_completeTask (env : Env) nowStop now taskId :
  nonIncreasing (completeTask env nowStop now taskId).
Proof. unfold completeTask. ni_with ltac:(idtac; match goal with
    | |- nonIncreasing (stopTask _ _) => apply ni_stopTask
    end). Qed.

Lemma ni_archiveTask (env : Env) taskId archived :
  nonIncreasing (archiveTask env taskId archived).
Proof. unfold archiveTask. ni. Qed.

Lemma ni_addInterval (env : Env) nanoid taskId started timeSpent stopped :
  nonIncreasing (addInterval env nanoid taskId started timeSpent stopped).
Proof. unfold addInterval. ni. Qed.

Lemma ni_updateInterval (env : Env) logId started timeSpent stopped :
  nonIncreasing (updateInterval env logId started timeSpent stopped).
Proof. unfold updateInterval. ni. Qed.

Lemma ni_deleteInterval (env : Env) logId :
  nonIncreasing (deleteInterval env logId).
Proof. unfold deleteInterval. ni. Qed.

Lemma ni_addTaskTagByName (env : Env) nanoidTag color nanoidMap taskId tagName :
  nonIncreasing (addTaskTagByName env nanoidTag color nanoidMap taskId tagName).
Proof. unfold addTaskTagByName. ni. Qed.

Lemma ni_addTaskTagById (env : Env) nanoid taskId tagId :
  nonIncreasing (addTaskTagById env nanoid taskId tagId).
Proof. unfold addTaskTagById. ni. Qed.

Lemma ni_removeTaskTag (env : Env) taskId tagId :
  nonIncreasing (removeTaskTag env taskId tagId).
Proof. unfold removeTaskTag. ni. Qed.

Lemma ni_deleteTag (env : Env) confirmed tagId :
  nonIncreasing (deleteTag env confirmed tagId).
Proof. unfold deleteTag. ni. Qed.

Lemma ni_addTagFilter (env : Env) tagId : nonIncreasing (addTagFilter env tagId).
Proof. unfold addTagFilter. ni_with ltac:(idtac; match goal with
    | |- nonIncreasing (updateSetting _ _ _) => apply ni_updateSetting
    end). Qed.

Lemma ni_removeTagFilter (env : Env) tagId :
  nonIncreasing (removeTagFilter env tagId).
Proof. unfold removeTagFilter. ni_with ltac:(idtac; match goal with
    | |- nonIncreasing (updateSetting _ _ _) => apply ni_updateSetting
    end). Qed.

Lemma ni_removeAllTagFilters (env : Env) : nonIncreasing (removeAllTagFilters env).
Proof. unfold removeAllTagFilters. ni_with ltac:(idtac; match goal with
    | |- nonIncreasing (updateSetting _ _ _) => apply ni_updateSetting
    end). Qed.

Lemma ni_deleteAllArchivedTasks (env : Env) :
  nonIncreasing (deleteAllArchivedTasks env).
Proof. unfold deleteAllArchivedTasks. ni. Qed.

(** [updateTaskTimer] rewrites the running log it found: the log stays
    running and no other log starts. *)
Lemma ni_updateTaskTimer (env : Env) (now : Z) (taskId : string) :
  nonIncreasing (updateTaskTimer env now taskId).
Proof.
  intros w. unfold updateTaskTimer.
  destruct (dexieDb env); [|simpl; lia]. run_m.
  destruct (JsObj.get taskId (State.tasks (state w))); [|simpl; lia].
  match goal with
  | |- context [find ?p ?l] => destruct (find p l) as [found|] eqn:Hfind
  end; [|simpl; lia].
  apply find_some in Hfind. destruct Hfind as [Hin Hcond].
  apply andb_true_iff in Hcond. destruct Hcond as [_ Hrun].
  assert (Hle : (runningCount
                   (Db.with_logs
                      (tbl_put TaskLog.id
                         (TaskLog.with_timeSpent
                            (Some (now - TaskLog.started found)%Z) found)
                         (Db.logs (db w))) (db w))
                 <= runningCount (db w))%nat).
  { unfold runningCount, runningLogs. cbn [Db.logs Db.with_logs].
    now apply (running_put_found _ found). }
  unfold logs_put. run_m.
  destruct (storageEnabled env); cbn [snd db]; exact Hle.
Qed.

(** With the database there, [stopTask] leaves no running log behind when
    there was at most one. *)
Lemma stopTask_clears (env : Env) (now : Z) (w : World) :
  dexieDb env = true ->
  atMostOneRunning (db w) ->
  runningCount (db (run (stopTask env now) w)) = 0%nat.
Proof.
  intros Hdb Hone. unfold stopTask. rewrite Hdb. run_m.
  fold isRunning.
  destruct (find isRunning (Db.logs (db w))) as [found|] eqn:Hfind.
  - apply find_some in Hfind. destruct Hfind as [Hin Hrun].
    assert (Hzero : runningCount
                      (Db.with_logs
                         (tbl_put TaskLog.id
                            (TaskLog.with_timeSpent
                               (Some (now - TaskLog.started found))
                               (TaskLog.with_stopped (Some now) found))
                            (Db.logs (db w))) (db w)) = 0%nat).
    { unfold atMostOneRunning, runningCount, runningLogs in *.
      cbn [Db.logs Db.with_logs].
      pose proof (proj2 (running_put_found
                           (TaskLog.with_timeSpent
                              (Some (now - TaskLog.started found))
                              (TaskLog.with_stopped (Some now) found))
                           found (Db.logs (db w)) Hin Hrun eq_refl) eq_refl).
      lia. }
    unfold logs_put. run_m.
    destruct (storageEnabled env); cbn [snd db]; exact Hzero.
  - cbn [snd db]. unfold runningCount, runningLogs.
    rewrite filter_nil_all; auto.
    intros x Hx. exact (find_none _ _ Hfind x Hx).
Qed.

Lemma startTask_keeps_one (env : Env) (nowStop now : Z) (nanoid taskId : string)
    (w : World) :
  atMostOneRunning (db w) ->
  atMostOneRunning (db (run (startTask env nowStop now nanoid taskId) w)).
Proof.
  intros Hone. unfold startTask.
  destruct (dexieDb env) eqn:Hdb; [|exact Hone]. run_m.
  pose proof (stopTask_clears env nowStop w Hdb Hone) as Hzero.
  unfold run in Hzero. destruct (stopTask env nowStop w) as [r w1].
  cbn [snd] in Hzero. unfold atMostOneRunning.
  destruct r; cbn [snd]; [|lia].
  destruct (JsObj.get taskId (State.tasks (state w1))); cbn [snd]; [|lia].
  unfold logs_add. run_m.
  destruct (tbl_add TaskLog.id _ (Db.logs (db w1))) as [logs'|] eqn:Hadd;
    cbn [option_map].
  - apply tbl_add_Some in Hadd.
    assert (Hle : (runningCount (Db.with_logs logs' (db w1)) <= 1)%nat).
    { subst logs'. unfold runningCount, runningLogs in *.
      cbn [Db.logs Db.with_logs]. rewrite running_insert. simpl. lia. }
    destruct (storageEnabled env); cbn [snd db]; exact Hle.
  - destruct (storageEnabled env); cbn [snd db]; lia.
Qed.

Lemma nonIncreasing_keeps_one {A : Type} (m : Async A) (w : World) :
  nonIncreasing m ->
  atMostOneRunning (db w) -> atMostOneRunning (db (run m w)).
Proof.
  intros Hm Hone. unfold atMostOneRunning, run in *. specialize (Hm w). lia.
Qed.

Lemma step_keeps_one (w w' : World) :
  step w w' -> atMostOneRunning (db w) -> atMostOneRunning (db w').
Proof.
  intros Hstep Hone. destruct Hstep.
  - apply nonIncreasing_keeps_one; [apply ni_loadInitialData | exact Hone].
  - apply nonIncreasing_keeps_one; [apply ni_addTask | exact Hone].
  - apply nonIncreasing_keeps_one; [apply ni_updateTaskName | exact Hone].
  - apply nonIncreasing_keeps_one; [apply ni_updateTaskNotes | exact Hone].
  - apply nonIncreasing_keeps_one; [apply ni_reorderIncompleteTasks | exact Hone].
  - now apply startTask_keeps_one.
  - apply nonIncreasing_keeps_one; [apply ni_updateTaskTimer | exact Hone].
  - apply nonIncreasing_keeps_one; [apply ni_stopTask | exact Hone].
  - apply nonIncreasing_keeps_one; [apply ni_completeTask | exact Hone].
  - apply nonIncreasing_keeps_one; [apply ni_archiveTask | exact Hone].
  - apply nonIncreasing_keeps_one; [apply ni_addInterval | exact Hone].
  - apply nonIncreasing_keeps_one; [apply ni_updateInterval | exact Hone].
  - apply nonIncreasing_keeps_one; [apply ni_deleteInterval | exact Hone].
  - apply nonIncreasing_keeps_one; [apply ni_addTaskTagByName | exact Hone].
  - apply nonIncreasing_keeps_one; [apply ni_addTaskTagById | exact Hone].
  - apply nonIncreasing_keeps_one; [apply ni_removeTaskTag | exact Hone].
  - apply nonIncreasing_keeps_one; [apply ni_deleteTag | exact Hone].
  - apply nonIncreasing_keeps_one; [apply ni_selectTask | exact Hone].
  - apply nonIncreasing_keeps_one; [apply ni_addTagFilter | exact Hone].
  - apply nonIncreasing_keeps_one; [apply ni_removeTagFilter | exact Hone].
  - apply nonIncreasing_keeps_one; [apply ni_updateSetting | exact Hone].
  - apply nonIncreasing_keeps_one; [apply ni_removeAllTagFilters | exact Hone].
  - apply nonIncreasing_keeps_one; [apply ni_deleteAllArchivedTasks | exact Hone].
  - unfold atMostOneRunning, runningCount, runningLogs in *. congruence.
Qed.

(** C8. When actions are dispatched one after the other, each settled
    before the next is dispatched, at most one running log (a log whose
    [stopped] is [null]) exists between them: in every world reached that
    way from an empty database the [logs] table holds at most one log
    with [stopped] unset.  [startTask] stops the running log before it
    adds its own, [loadInitialData], [stopTask], [addInterval] and
    [updateInterval] only write closed logs, [updateTaskTimer] rewrites
    the running log, and no other action writes to the table. *)
Theorem at_most_one_running_log (w : World) :
  reachable w -> atMostOneRunning (db w).
Proof.
  induction 1 as [s | w w' Hreach IH Hstep].
  - unfold atMostOneRunning, runningCount. simpl. lia.
  - exact (step_keeps_one Hstep IH).
Qed.

Lemma at_most_one_running_log_witness :
  let w1 := run (startTask Sample.env 1 2 "a" "task-1")
                (mkWorld Db.empty Sample.store) in
  let w2 := run (startTask Sample.env 3 4 "b" "task-2") w1 in
  runningLogs (db w2) = [TaskLog.mk "log-b" "task-2" 4 None None]
  /\ atMostOneRunning (db w2).
Proof.
  intros w1 w2. split; [reflexivity|].
  apply at_most_one_running_log.
  apply (reachable_step (w := w1)).
  - apply (reachable_step (w := mkWorld Db.empty Sample.store)).
    + apply reachable_init.
    + apply step_startTask.
  - apply step_startTask.
Defined.

(** The worlds of the sample session are reachable. *)
Lemma Sample_session_reachable :
  reachable Sample.added
  /\ reachable Sample.started
  /\ reachable Sample.ticked
  /\ reachable Sample.archivedSelected
  /\ reachable Sample.tagged.
Proof.
  destruct Sample_session_by_actions as (Ha & Hs & Ht & Hr & Hg).
  assert (Hadded : reachable Sample.added).
  { rewrite <- Ha. eapply reachable_step; [apply reachable_init|].
    apply step_addTask. }
  assert (Hstarted : reachable Sample.started).
  { rewrite <- Hs. eapply reachable_step; [exact Hadded|]. apply step_startTask. }
  repeat split; auto.
  - rewrite <- Ht. eapply reachable_step; [exact Hstarted|].
    apply step_updateTaskTimer.
  - rewrite <- Hr. eapply reachable_step; [|apply step_archiveTask].
    eapply reachable_step; [exact Hstarted|]. apply step_stopTask.
  - rewrite <- Hg. eapply reachable_step; [exact Hadded|].
    apply step_addTaskTagByName.
Qed.

(** *** Dispatches that overlap *)

Lemma settle_fbind {A B : Type} (f : Flight A) (k : A -> Flight B) (w : World) :
  settle (fbind f k) w = bind (settle f) (fun a => settle (k a)) w.
Proof.
  revert w. induction f as [[a|] | X stretch resume IH]; intros w;
    try reflexivity.
  cbn [fbind settle]. unfold bind in *. cbn [settle].
  destruct (stretch w) as [o w']. apply IH.
Qed.

Lemma settle_ftryCatch (f : Flight unit) (w : World) :
  settle (ftryCatch f) w = tryCatch (settle f) w.
Proof.
  revert w. induction f as [r | X stretch resume IH]; intros w;
    try reflexivity.
  cbn [ftryCatch settle]. unfold tryCatch in *. cbn [settle].
  destruct (stretch w) as [o w']. apply IH.
Qed.

Lemma tryCatch_ext {S : Type} (m m' : M S unit) (s : S) :
  m s = m' s -> tryCatch m s = tryCatch m' s.
Proof. intros H. unfold tryCatch. now rewrite H. Qed.

Ltac flight_run :=
  cbv beta iota zeta delta [settle fbind ftryCatch await sync tryCatch bind ret
                            query gets commit_ commit modify handleDexieError];
  cbn [fst snd db state].

(** Left to itself, a flight is the action of the same name: the
    stretches are the action's code, cut at its awaits. *)
Lemma settle_stopTask (env : Env) (now : Z) (w : World) :
  settle (Flights.stopTask env now) w = stopTask env now w.
Proof.
  unfold Flights.stopTask, stopTask.
  destruct (negb (dexieDb env)); [reflexivity|].
  flight_run.
  destruct (find _ (Db.logs (db w))) as [l|]; [|reflexivity].
  destruct (logs_put _ w) as [[[]|] w1]; destruct (storageEnabled env);
    reflexivity.
Qed.

Lemma settle_startTask (env : Env) (nowStop now : Z) (nanoid taskId : string)
    (w : World) :
  settle (Flights.startTask env nowStop now nanoid taskId) w
  = startTask env nowStop now nanoid taskId w.
Proof.
  unfold Flights.startTask, startTask.
  destruct (negb (dexieDb env)) eqn:Hdb; [reflexivity|].
  rewrite settle_ftryCatch. apply tryCatch_ext.
  rewrite settle_fbind. unfold bind. rewrite settle_stopTask.
  destruct (stopTask env nowStop w) as [[[]|] w1]; [|reflexivity].
  flight_run.
  destruct (JsObj.get taskId (State.tasks (state w1))); [|reflexivity].
  destruct (logs_add _ w1) as [[[]|] w2]; destruct (storageEnabled env);
    reflexivity.
Qed.

Lemma settle_updateTaskTimer (env : Env) (now : Z) (taskId : string)
    (w : World) :
  settle (Flights.updateTaskTimer env now taskId) w
  = updateTaskTimer env now taskId w.
Proof.
  unfold Flights.updateTaskTimer, updateTaskTimer.
  destruct (negb (dexieDb env)); [reflexivity|].
  flight_run.
  destruct (JsObj.get taskId (State.tasks (state w))); [|reflexivity].
  destruct (find _ (Db.logs (db w))) as [l|]; [|reflexivity].
  destruct (logs_put _ w) as [[[]|] w1]; destruct (storageEnabled env);
    reflexivity.
Qed.

(** Two [startTask] dispatches that do not overlap are two steps. *)
Lemma startTask_in_turn (env : Env) (nowStop now nowStop' now' : Z)
    (nanoid nanoid' taskId taskId' : string) (w : World) :
  interleave []
    (Flights.startTask env nowStop now nanoid taskId)
    (Flights.startTask env nowStop' now' nanoid' taskId') w
  = run (startTask env nowStop' now' nanoid' taskId')
      (run (startTask env nowStop now nanoid taskId) w).
Proof.
  cbn [interleave]. unfold run. now rewrite !settle_startTask.
Qed.

(** Two [startTask] dispatches that overlap: the play button of the one
    task of a fresh install is hit twice, and the second dispatch runs its
    first stretch, the read of [stopTask], before the first dispatch has
    added its log.  Both reads find no running log, both logs are added,
    and two logs run.  In turn, the same two dispatches leave one. *)
Lemma overlapping_startTask_two_running_logs_cex :
  let first := Flights.startTask Sample.env 20 21 "a" "task-r" in
  let second := Flights.startTask Sample.env 22 23 "b" "task-r" in
  let logB := TaskLog.mk "log-b" "task-r" 23 None None in
  reachable Sample.added
  /\ runningLogs (db Sample.added) = []
  /\ runningLogs (db (interleave [true; false] first second Sample.added))
     = [Sample.logA; logB]
  /\ ~ atMostOneRunning (db (interleave [true; false] first second Sample.added))
  /\ runningLogs (db (interleave [] first second Sample.added)) = [logB].
Proof.
  split; [apply Sample_session_reachable|].
  repeat split. vm_compute. lia.
Qed.

(** A timer update that overlaps a restart: [updateTaskTimer] has read the
    running log when [startTask] closes it and adds the next one; the
    update then puts back the log it read, [stopped] unset. *)
Lemma stale_updateTaskTimer_reopens_the_log :
  let tick := Flights.updateTaskTimer Sample.env 25 "task-r" in
  let restart := Flights.startTask Sample.env 30 31 "b" "task-r" in
  let w' :=
    interleave [true; true; false; false; false; false; false; false]
      tick restart Sample.started in
  runningLogs (db Sample.started) = [Sample.logA]
  /\ runningLogs (db w')
     = [TaskLog.mk "log-a" "task-r" 21 None (Some 4);
        TaskLog.mk "log-b" "task-r" 31 None None].
Proof. split; reflexivity. Qed.

(** * More properties of the actions *)

(** ** The timer: start, tick, stop *)

Lemma filter_head_find {A : Type} (p : A -> bool) (l : list A) (x : A)
    (rest : list A) :
  filter p l = x :: rest -> find p l = Some x.
Proof.
  induction l as [|y l' IH]; simpl; [discriminate|].
  destruct (p y); [now intros [= ->] | auto].
Qed.

Lemma filter_nil_find {A : Type} (p : A -> bool) (l : list A) :
  filter p l = [] -> find p l = None.
Proof.
  induction l as [|y l' IH]; simpl; auto.
  destruct (p y); [discriminate | auto].
Qed.

Lemma filter_one_In {A : Type} (p : A -> bool) (l : list A) (x : A) :
  filter p l = [x] -> In x l /\ p x = true.
Proof.
  intros H. apply filter_In. rewrite H. now left.
Qed.

Lemma length_zero_nil {A : Type} (l : list A) : List.length l = 0%nat -> l = [].
Proof. now destruct l. Qed.

Lemma tbl_has_false {R : Type} (key : R -> string) (k : string) (tbl : list R) :
  tbl_has key k tbl = false <-> forall x, In x tbl -> key x <> k.
Proof.
  unfold tbl_has. split.
  - intros H x Hin Heq.
    assert (Htrue : existsb (fun y => (key y =? k)%string) tbl = true).
    { apply existsb_exists. exists x. split; auto. now apply String.eqb_eq. }
    congruence.
  - intros H. destruct (existsb _ tbl) eqn:E; auto.
    apply existsb_exists in E. destruct E as (x & Hin & Heq).
    apply String.eqb_eq in Heq. exfalso. exact (H x Hin Heq).
Qed.

Lemma filter_insert_only {R : Type} (key : R -> string) (p : R -> bool)
    (r : R) (tbl : list R) :
  filter p tbl = [] -> p r = true -> filter p (tbl_insert key r tbl) = [r].
Proof.
  intros Hnil Hr. induction tbl as [|x rest IH]; simpl in *.
  - now rewrite Hr.
  - destruct (p x) eqn:Ex; [discriminate|].
    destruct (String.ltb (key r) (key x)); simpl; rewrite ?Hr, ?Ex; auto.
    now rewrite Hnil.
Qed.

(** What [stopTask] does when exactly one log is running. *)
Lemma stopTask_run_one (env : Env) (now : Z) (w : World) (running : TaskLog.t) :
  dexieDb env = true ->
  storageEnabled env = true ->
  runningLogs (db w) = [running] ->
  stopTask env now w
  = (Resolved tt,
     let closed :=
       TaskLog.mk (TaskLog.id running) (TaskLog.taskId running)
         (TaskLog.started running) (Some now)
         (Some (now - TaskLog.started running)) in
     mkWorld
       (Db.with_logs (tbl_put TaskLog.id closed (Db.logs (db w))) (db w))
       (Mutations.updateLog (TaskLog.taskId running) closed (state w))).
Proof.
  intros Hdb Hstore Hone. unfold stopTask. rewrite Hdb. run_m.
  fold isRunning. unfold runningLogs in Hone.
  rewrite (filter_head_find _ _ Hone). unfold logs_put. run_m.
  rewrite Hstore. reflexivity.
Qed.

Lemma stopTask_run_none (env : Env) (now : Z) (w : World) :
  runningLogs (db w) = [] -> stopTask env now w = (Resolved tt, w).
Proof.
  intros Hnone. unfold stopTask. destruct (dexieDb env); auto. run_m.
  fold isRunning. unfold runningLogs in Hnone.
  now rewrite (filter_nil_find _ _ Hnone).
Qed.

Lemma atMostOne_cases (d : Db.t) :
  atMostOneRunning d ->
  runningLogs d = [] \/ exists running, runningLogs d = [running].
Proof.
  unfold atMostOneRunning, runningCount.
  destruct (runningLogs d) as [|x [|y rest]]; simpl; intros H; eauto. lia.
Qed.

(** X1. [stopTask] closes the running log: with the database there and
    storage enabled, the one running log gets [stopped] = now and
    [timeSpent] = now - started and is put back under its key, no log is
    running afterwards, and the store sees the closed log through
    [updateLog]; with no log running, [stopTask] changes nothing. *)
Theorem stopTask_closes_the_running_log (env : Env) (now : Z) (w : World) :
  dexieDb env = true ->
  storageEnabled env = true ->
  (runningLogs (db w) = [] -> stopTask env now w = (Resolved tt, w))
  /\ (forall running,
        runningLogs (db w) = [running] ->
        let closed :=
          TaskLog.mk (TaskLog.id running) (TaskLog.taskId running)
            (TaskLog.started running) (Some now)
            (Some (now - TaskLog.started running)) in
        let w' := run (stopTask env now) w in
        tbl_get TaskLog.id (TaskLog.id running) (Db.logs (db w')) = Some closed
        /\ runningLogs (db w') = []
        /\ (forall log, TaskLog.id log <> TaskLog.id running ->
              (In log (Db.logs (db w')) <-> In log (Db.logs (db w))))
        /\ state w' = Mutations.updateLog (TaskLog.taskId running) closed (state w)).
Proof.
  intros Hdb Hstore. split; [apply stopTask_run_none|].
  intros running Hone closed w'.
  assert (Hclear : runningCount (db w') = 0%nat).
  { apply stopTask_clears; auto.
    unfold atMostOneRunning, runningCount. rewrite Hone. simpl. lia. }
  subst w'. unfold run in *.
  rewrite (stopTask_run_one env now w Hdb Hstore Hone) in *.
  cbn [snd db state Db.logs Db.with_logs] in *. fold closed in Hclear |- *.
  repeat split.
  - change (TaskLog.id running) with (TaskLog.id closed). apply tbl_get_put_same.
  - now apply length_zero_nil.
  - intros Hin. apply In_tbl_put in Hin. destruct Hin as [-> | [Hin _]]; auto.
    now contradiction H.
  - intros Hin. apply In_tbl_put. right. split; auto.
Qed.

Lemma stopTask_closes_the_running_log_witness :
  tbl_get TaskLog.id "log-a"
    (Db.logs (db (run (stopTask Sample.env 30) Sample.started)))
  = Some Sample.logA9
  /\ runningLogs (db (run (stopTask Sample.env 30) Sample.started)) = [].
Proof.
  pose proof (proj2 (@stopTask_closes_the_running_log Sample.env 30
                       Sample.started eq_refl eq_refl) Sample.logA eq_refl)
    as (Hget & Hnone & _ & _).
  split; [exact Hget | exact Hnone].
Defined.

Lemma tbl_has_put_other {R : Type} (key : R -> string) (k : string) (r : R)
    (tbl : list R) :
  key r <> k -> tbl_has key k (tbl_put key r tbl) = tbl_has key k tbl.
Proof.
  intros Hne. destruct (tbl_has key k tbl) eqn:E.
  - unfold tbl_has in *. apply existsb_exists in E.
    destruct E as (x & Hin & Heq). apply existsb_exists. exists x. split; auto.
    apply In_tbl_put. right. split; auto.
    apply String.eqb_eq in Heq. congruence.
  - rewrite tbl_has_false in E |- *. intros x Hin.
    apply In_tbl_put in Hin. destruct Hin as [-> | [Hin _]]; auto.
Qed.

(** [stopTask] leaves a key that is free in the [logs] table free. *)
Lemma stopTask_keeps_key_free (env : Env) (now : Z) (w : World) (k : string) :
  tbl_has TaskLog.id k (Db.logs (db w)) = false ->
  tbl_has TaskLog.id k (Db.logs (db (run (stopTask env now) w))) = false.
Proof.
  intros Hfree. unfold stopTask. destruct (dexieDb env); auto. run_m.
  match goal with
  | |- context [find ?p ?l] => destruct (find p l) as [found|] eqn:Hfind
  end; auto.
  apply find_some in Hfind. destruct Hfind as [Hin _].
  assert (Hput : tbl_has TaskLog.id k
                   (tbl_put TaskLog.id
                      (TaskLog.with_timeSpent (Some (now - TaskLog.started found))
                         (TaskLog.with_stopped (Some now) found))
                      (Db.logs (db w))) = false).
  { rewrite tbl_has_put_other; auto. simpl.
    rewrite tbl_has_false in Hfree. auto. }
  unfold logs_put. run_m.
  destruct (storageEnabled env); cbn [snd db Db.logs Db.with_logs]; exact Hput.
Qed.

(** What [startTask] does for a task of the store, the new key free. *)
Lemma startTask_run (env : Env) (nowStop now : Z) (nanoid taskId : string)
    (w : World) (task : Task.t) :
  dexieDb env = true ->
  storageEnabled env = true ->
  JsObj.get taskId (State.tasks (state w)) = Some task ->
  tbl_has TaskLog.id ("log-" ++ nanoid) (Db.logs (db w)) = false ->
  startTask env nowStop now nanoid taskId w
  = (Resolved tt,
     let w1 := run (stopTask env nowStop) w in
     let log := TaskLog.mk ("log-" ++ nanoid) taskId now None None in
     mkWorld
       (Db.with_logs (tbl_insert TaskLog.id log (Db.logs (db w1))) (db w1))
       (Mutations.startTask log (state w1))).
Proof.
  intros Hdb Hstore Hget Hfree. unfold startTask. rewrite Hdb. run_m.
  pose proof (stopTask_resolves env nowStop w) as Hres.
  pose proof (stopTask_frame env nowStop w) as Hframe.
  pose proof (stopTask_keeps_key_free env nowStop w _ Hfree) as Hfree1.
  unfold run in *. destruct (stopTask env nowStop w) as [r w1].
  cbn [fst snd] in *. subst r. destruct Hframe as (Htasks & _).
  run_m. rewrite Htasks, Hget. unfold logs_add. run_m.
  unfold tbl_add. cbn [TaskLog.id]. rewrite Hfree1. cbn [option_map].
  rewrite Hstore. reflexivity.
Qed.

(** X2. Starting a task leaves exactly its timer running: for a task of
    the store, a fresh log id, storage enabled and at most one log running
    before, the running logs after [startTask] are the new log alone
    ([started] = now, [stopped] and [timeSpent] null), and the store marks
    the task as the active, running one and lists the log. *)
Theorem startTask_leaves_one_timer_running
    (env : Env) (nowStop now : Z) (nanoid taskId : string) (w : World)
    (task : Task.t) :
  dexieDb env = true ->
  storageEnabled env = true ->
  atMostOneRunning (db w) ->
  JsObj.get taskId (State.tasks (state w)) = Some task ->
  tbl_has TaskLog.id ("log-" ++ nanoid) (Db.logs (db w)) = false ->
  let log := TaskLog.mk ("log-" ++ nanoid) taskId now None None in
  let w' := run (startTask env nowStop now nanoid taskId) w in
  runningLogs (db w') = [log]
  /\ TempState.activeTaskID (State.tempState (state w')) = Some (Task.id task)
  /\ TempState.running (State.tempState (state w')) = true
  /\ In log (State.selectedTaskLogs (state w')).
Proof.
  intros Hdb Hstore Hone Hget Hfree log w'. subst w'. unfold run at 1 2 3 4.
  rewrite (startTask_run env nowStop now nanoid taskId w Hdb Hstore Hget Hfree).
  cbn [snd db state]. fold log.
  pose proof (stopTask_clears env nowStop w Hdb Hone) as Hclear.
  pose proof (stopTask_frame env nowStop w) as (Htasks & _).
  set (w1 := run (stopTask env nowStop) w) in *.
  split.
  - unfold runningLogs. cbn [Db.logs Db.with_logs].
    apply filter_insert_only; [|reflexivity].
    apply length_zero_nil. exact Hclear.
  - unfold Mutations.startTask. cbn [TaskLog.taskId log].
    rewrite Htasks, Hget.
    cbn [State.tempState State.with_tempState State.with_selectedTaskLogs
         State.selectedTaskLogs TempState.activeTaskID TempState.running].
    repeat split. apply in_or_app. right. now left.
Qed.

Lemma startTask_leaves_one_timer_running_witness :
  runningLogs (db (run (startTask Sample.env 20 21 "a" "task-r") Sample.added))
  = [Sample.logA].
Proof.
  apply (@startTask_leaves_one_timer_running Sample.env 20 21 "a" "task-r"
           Sample.added Sample.taskR eq_refl eq_refl).
  - unfold atMostOneRunning, runningCount. simpl. lia.
  - reflexivity.
  - reflexivity.
Defined.

(** X3. A timed session: [startTask] at [now] followed by [stopTask] at
    [later] leaves the session's log closed with [stopped] = later and
    [timeSpent] = later - now, and no log running. *)
Theorem start_then_stop_measures_the_session
    (env : Env) (nowStop now later : Z) (nanoid taskId : string) (w : World)
    (task : Task.t) :
  dexieDb env = true ->
  storageEnabled env = true ->
  atMostOneRunning (db w) ->
  JsObj.get taskId (State.tasks (state w)) = Some task ->
  tbl_has TaskLog.id ("log-" ++ nanoid) (Db.logs (db w)) = false ->
  let w' := run (stopTask env later)
                (run (startTask env nowStop now nanoid taskId) w) in
  tbl_get TaskLog.id ("log-" ++ nanoid) (Db.logs (db w'))
  = Some (TaskLog.mk ("log-" ++ nanoid) taskId now (Some later) (Some (later - now)))
  /\ runningLogs (db w') = [].
Proof.
  intros Hdb Hstore Hone Hget Hfree w'.
  assert (Hrunning :
            runningLogs (db (run (startTask env nowStop now nanoid taskId) w))
            = [TaskLog.mk ("log-" ++ nanoid) taskId now None None]).
  { unfold run.
    rewrite (startTask_run env nowStop now nanoid taskId w Hdb Hstore Hget Hfree).
    cbn [snd db]. unfold runningLogs. cbn [Db.logs Db.with_logs].
    apply filter_insert_only; [|reflexivity].
    apply length_zero_nil. exact (stopTask_clears env nowStop w Hdb Hone). }
  subst w'. set (w1 := run (startTask env nowStop now nanoid taskId) w) in *.
  assert (Hclear : runningCount (db (run (stopTask env later) w1)) = 0%nat).
  { apply stopTask_clears; auto.
    unfold atMostOneRunning, runningCount. rewrite Hrunning. simpl. lia. }
  unfold run in *. rewrite (stopTask_run_one env later w1 Hdb Hstore Hrunning) in *.
  cbn [snd db Db.logs Db.with_logs TaskLog.id TaskLog.taskId TaskLog.started] in *.
  split.
  - match goal with
    | |- tbl_get _ ?k (tbl_put _ ?r _) = _ =>
        change k with (TaskLog.id r); apply tbl_get_put_same
    end.
  - now apply length_zero_nil.
Qed.

Lemma start_then_stop_measures_the_session_witness :
  tbl_get TaskLog.id "log-a"
    (Db.logs (db (run (stopTask Sample.env 30)
                    (run (startTask Sample.env 20 21 "a" "task-r") Sample.added))))
  = Some Sample.logA9.
Proof.
  apply (@start_then_stop_measures_the_session Sample.env 20 21 30 "a" "task-r"
           Sample.added Sample.taskR eq_refl eq_refl).
  - unfold atMostOneRunning, runningCount. simpl. lia.
  - reflexivity.
  - reflexivity.
Defined.

Lemma filter_comm {A : Type} (p q : A -> bool) (l : list A) :
  filter p (filter q l) = filter q (filter p l).
Proof.
  induction l as [|x rest IH]; simpl; auto.
  destruct (q x) eqn:Eq, (p x) eqn:Ep; simpl; rewrite ?Eq, ?Ep, IH; auto.
Qed.

Lemma find_of_single {A : Type} (p q : A -> bool) (l : list A) (x : A) :
  filter p l = [x] -> q x = true -> find (fun y => q y && p y) l = Some x.
Proof.
  intros Hone Hq. induction l as [|y rest IH]; simpl in *; [discriminate|].
  destruct (p y) eqn:Ep.
  - injection Hone as -> _. now rewrite Hq.
  - rewrite andb_false_r. auto.
Qed.

Lemma find_none_of {A : Type} (p : A -> bool) (l : list A) :
  (forall x, In x l -> p x = false) -> find p l = None.
Proof.
  intros H. destruct (find p l) as [x|] eqn:E; auto.
  apply find_some in E. destruct E as [Hin Hp]. rewrite (H x Hin) in Hp.
  discriminate.
Qed.

(** The running logs after the one running log has been put back,
    changed or not. *)
Lemma runningLogs_put (running log : TaskLog.t) (tbl : list TaskLog.t) :
  filter isRunning tbl = [running] ->
  TaskLog.id log = TaskLog.id running ->
  filter isRunning (tbl_put TaskLog.id log tbl)
  = if isRunning log then [log] else [].
Proof.
  intros Hone Hid. unfold tbl_put.
  assert (Hrest : filter isRunning
                    (filter (fun x => negb (TaskLog.id x =? TaskLog.id log)%string)
                       tbl) = []).
  { rewrite filter_comm, Hone. simpl. rewrite Hid, String.eqb_refl. reflexivity. }
  destruct (isRunning log) eqn:Erun.
  - now apply filter_insert_only.
  - clear Hone.
    set (tbl' := filter (fun x => negb (TaskLog.id x =? TaskLog.id log)%string)
                   tbl) in *.
    clearbody tbl'.
    induction tbl' as [|x rest IH]; cbn [filter tbl_insert] in *.
    + now rewrite Erun.
    + destruct (isRunning x) eqn:Ex; [discriminate|].
      destruct (String.ltb _ _); cbn [filter]; rewrite ?Erun, ?Ex; auto.
Qed.

(** X4. A tick of the timer: for a task of the store whose log is the one
    running, [updateTaskTimer] sets the log's [timeSpent] to
    now - started, leaves it running (it stays the one running log) and
    shows it to the store through [updateLog]; when no log of the task is
    running, nothing changes. *)
Theorem updateTaskTimer_records_elapsed_time
    (env : Env) (now : Z) (taskId : string) (w : World) (task : Task.t) :
  dexieDb env = true ->
  storageEnabled env = true ->
  JsObj.get taskId (State.tasks (state w)) = Some task ->
  (forall running,
      runningLogs (db w) = [running] ->
      TaskLog.taskId running = taskId ->
      let ticked :=
        TaskLog.mk (TaskLog.id running) taskId (TaskLog.started running) None
          (Some (now - TaskLog.started running)) in
      let w' := run (updateTaskTimer env now taskId) w in
      tbl_get TaskLog.id (TaskLog.id running) (Db.logs (db w')) = Some ticked
      /\ runningLogs (db w') = [ticked]
      /\ state w' = Mutations.updateLog taskId ticked (state w))
  /\ ((forall log, In log (Db.logs (db w)) ->
         TaskLog.taskId log = taskId -> isRunning log = false) ->
      updateTaskTimer env now taskId w = (Resolved tt, w)).
Proof.
  intros Hdb Hstore Hget. split.
  - intros running Hone Htask ticked w'. subst w'.
    pose proof (filter_one_In _ _ Hone) as [_ Hrun].
    unfold isRunning in Hrun. destruct (TaskLog.stopped running) eqn:Estop;
      [discriminate|].
    assert (Hticked : TaskLog.with_timeSpent
                        (Some (now - TaskLog.started running)) running = ticked).
    { unfold TaskLog.with_timeSpent, ticked. now rewrite Estop, Htask. }
    unfold run, updateTaskTimer. rewrite Hdb. run_m. rewrite Hget.
    match goal with
    | |- context [find ?p ?l] =>
        change (find p l)
          with (find (fun y => (TaskLog.taskId y =? taskId)%string && isRunning y) l)
    end.
    rewrite (find_of_single isRunning
               (fun log => (TaskLog.taskId log =? taskId)%string)
               (Db.logs (db w)) Hone)
      by (now apply String.eqb_eq).
    unfold logs_put. run_m. rewrite Hstore, Hticked.
    cbn [snd db state Db.logs Db.with_logs]. repeat split.
    + change (TaskLog.id running) with (TaskLog.id ticked).
      apply tbl_get_put_same.
    + unfold runningLogs. cbn [Db.logs].
      exact (@runningLogs_put running ticked _ Hone eq_refl).
  - intros Hnone. unfold updateTaskTimer. rewrite Hdb. run_m. rewrite Hget.
    rewrite find_none_of; auto.
    intros log Hin. destruct (TaskLog.taskId log =? taskId)%string eqn:E; auto.
    apply String.eqb_eq in E. simpl. exact (Hnone log Hin E).
Qed.

Lemma updateTaskTimer_records_elapsed_time_witness :
  runningLogs (db (run (updateTaskTimer Sample.env 21 "task-r") Sample.started))
  = [Sample.logA0].
Proof.
  pose proof (proj1 (@updateTaskTimer_records_elapsed_time Sample.env 21
                       "task-r" Sample.started Sample.taskR
                       eq_refl eq_refl eq_refl)
                Sample.logA eq_refl eq_refl) as (_ & Hrun & _).
  exact Hrun.
Defined.

(** ** Intervals entered by hand *)

Lemma filter_insert_false {R : Type} (key : R -> string) (p : R -> bool)
    (r : R) (tbl : list R) :
  p r = false -> filter p (tbl_insert key r tbl) = filter p tbl.
Proof.
  intros Hr. induction tbl as [|x rest IH]; cbn [filter tbl_insert].
  - now rewrite Hr.
  - destruct (String.ltb (key r) (key x)); cbn [filter]; rewrite ?Hr; auto.
    now rewrite IH.
Qed.

Lemma removeFirst_In {R : Type} (key : R -> string) (k : string) (l : list R) :
  NoDup (map key l) ->
  forall x,
    In x match removeFirst (fun y => (key y =? k)%string) l with
         | Some l' => l'
         | None => l
         end
    <-> In x l /\ key x <> k.
Proof.
  induction l as [|y rest IH]; intros Hnd x; simpl.
  - tauto.
  - inversion Hnd as [|? ? Hnotin Hnd']; subst.
    destruct (key y =? k)%string eqn:E.
    + apply String.eqb_eq in E. split.
      * intros Hin. split; auto. intros Hk. apply Hnotin.
        rewrite E, <- Hk. now apply in_map.
      * intros [[-> | Hin] Hk]; [contradiction | exact Hin].
    + apply String.eqb_neq in E. specialize (IH Hnd' x).
      destruct (removeFirst _ rest) as [rest'|]; simpl.
      * rewrite IH. split.
        -- intros [-> | [Hin Hk]]; auto.
        -- intros [[-> | Hin] Hk]; auto.
      * split.
        -- intros [-> | Hin]; auto. apply IH in Hin. tauto.
        -- tauto.
Qed.

(** X5. An interval entered by hand can be read back: for a task of the
    store and a free log id, [addInterval] adds the closed log, which
    [getLogById] then returns; the logs under other ids are read as
    before, no timer starts or stops, and the store sees the log through
    [updateLog].  The action asks no leave of the disk-space guard.  With
    the id taken, the action rejects and changes nothing. *)
Theorem addInterval_then_getLogById
    (env : Env) (nanoid taskId : string) (started timeSpent stopped : Z)
    (w : World) (task : Task.t) :
  dexieDb env = true ->
  JsObj.get taskId (State.tasks (state w)) = Some task ->
  let log :=
    TaskLog.mk ("log-" ++ nanoid) taskId started (Some stopped) (Some timeSpent) in
  (tbl_has TaskLog.id (TaskLog.id log) (Db.logs (db w)) = false ->
   let w' := run (addInterval env nanoid taskId started timeSpent stopped) w in
   getLogById env (TaskLog.id log) w' = (Resolved (Some log), w')
   /\ (forall logId, logId <> TaskLog.id log ->
         fst (getLogById env logId w') = fst (getLogById env logId w))
   /\ runningLogs (db w') = runningLogs (db w)
   /\ state w' = Mutations.updateLog taskId log (state w))
  /\ (tbl_has TaskLog.id (TaskLog.id log) (Db.logs (db w)) = true ->
      addInterval env nanoid taskId started timeSpent stopped w = (Rejected, w)).
Proof.
  intros Hdb Hget log. split.
  - intros Hfree w'. subst w'. unfold run, addInterval, getLogById.
    rewrite Hdb. run_m. rewrite Hget. unfold logs_add. run_m.
    unfold tbl_add. fold log. rewrite Hfree. cbn [option_map]. run_m.
    cbn [Db.logs Db.with_logs]. repeat split.
    + rewrite tbl_get_insert_fresh; auto. now apply tbl_has_false.
    + intros logId Hne. rewrite tbl_get_insert_other; auto.
    + unfold runningLogs. cbn [Db.logs]. now apply filter_insert_false.
  - intros Htaken. unfold addInterval. rewrite Hdb. run_m. rewrite Hget.
    unfold logs_add. run_m. unfold tbl_add. fold log. rewrite Htaken.
    reflexivity.
Qed.

Lemma addInterval_then_getLogById_witness :
  fst (getLogById Sample.lowDisk "log-b"
         (run (addInterval Sample.lowDisk "b" "task-r" 40 5 45) Sample.added))
  = Resolved (Some (TaskLog.mk "log-b" "task-r" 40 (Some 45) (Some 5))).
Proof.
  pose proof (proj1 (@addInterval_then_getLogById Sample.lowDisk "b" "task-r"
                       40 5 45 Sample.added Sample.taskR eq_refl eq_refl)
                eq_refl) as (Hread & _).
  exact (f_equal fst Hread).
Defined.

(** X6. [updateInterval] rewrites one interval: the log under [logId]
    keeps its id and its task and gets the three given times, every other
    log stays as it is, and the store sees the change through [updateLog];
    an id the table does not have changes nothing. *)
Theorem updateInterval_rewrites_the_interval
    (env : Env) (logId : string) (started timeSpent stopped : Z) (w : World) :
  dexieDb env = true ->
  storageEnabled env = true ->
  (forall log,
      tbl_get TaskLog.id logId (Db.logs (db w)) = Some log ->
      let log' :=
        TaskLog.mk logId (TaskLog.taskId log) started (Some stopped)
          (Some timeSpent) in
      let w' := run (updateInterval env logId started timeSpent stopped) w in
      tbl_get TaskLog.id logId (Db.logs (db w')) = Some log'
      /\ (forall k, k <> logId ->
            tbl_get TaskLog.id k (Db.logs (db w'))
            = tbl_get TaskLog.id k (Db.logs (db w)))
      /\ state w' = Mutations.updateLog (TaskLog.taskId log) log' (state w))
  /\ (tbl_get TaskLog.id logId (Db.logs (db w)) = None ->
      updateInterval env logId started timeSpent stopped w = (Resolved tt, w)).
Proof.
  intros Hdb Hstore. split.
  - intros log Hfound log' w'. subst w'.
    pose proof (tbl_get_In _ _ _ Hfound) as [_ Hid].
    assert (Hlog' : TaskLog.with_timeSpent (Some timeSpent)
                      (TaskLog.with_stopped (Some stopped)
                         (TaskLog.with_started started log)) = log').
    { unfold log'. rewrite <- Hid. reflexivity. }
    unfold run, updateInterval. rewrite Hdb. run_m. rewrite Hfound.
    unfold logs_put. run_m. rewrite Hstore, Hlog'.
    cbn [snd db state Db.logs Db.with_logs]. repeat split.
    + change logId with (TaskLog.id log') at 1. apply tbl_get_put_same.
    + intros k Hne. apply tbl_get_put_other. cbn. congruence.
  - intros Hnone. unfold updateInterval. rewrite Hdb. run_m.
    now rewrite Hnone.
Qed.

Lemma updateInterval_rewrites_the_interval_witness :
  tbl_get TaskLog.id "log-1"
    (Db.logs (db (run (updateInterval Sample.env "log-1" 31 8 39) Sample.world)))
  = Some (TaskLog.mk "log-1" "task-2" 31 (Some 39) (Some 8)).
Proof.
  pose proof (proj1 (@updateInterval_rewrites_the_interval Sample.env "log-1"
                       31 8 39 Sample.world eq_refl eq_refl)
                Sample.log1 eq_refl) as (Hget & _).
  exact Hget.
Defined.

Lemma negb_false_iff_eqb (a b : string) : (a =? b)%string = false <-> a <> b.
Proof. apply String.eqb_neq. Qed.

(** X7. [deleteInterval] removes one interval: the log under [logId]
    leaves the table and every other log stays; the store drops it from
    the selected task's logs when the log's task is the selected one
    (their ids distinct) and keeps its logs otherwise; an id the table
    does not have changes nothing. *)
Theorem deleteInterval_removes_the_interval
    (env : Env) (logId : string) (w : World) :
  dexieDb env = true ->
  storageEnabled env = true ->
  (forall log,
      tbl_get TaskLog.id logId (Db.logs (db w)) = Some log ->
      let w' := run (deleteInterval env logId) w in
      (forall l, In l (Db.logs (db w'))
                 <-> In l (Db.logs (db w)) /\ TaskLog.id l <> logId)
      /\ (isSelectedTask (TaskLog.taskId log) (state w) = true ->
          NoDup (map TaskLog.id (State.selectedTaskLogs (state w))) ->
          forall l, In l (State.selectedTaskLogs (state w'))
                    <-> In l (State.selectedTaskLogs (state w))
                        /\ TaskLog.id l <> logId)
      /\ (isSelectedTask (TaskLog.taskId log) (state w) = false ->
          state w' = state w))
  /\ (tbl_get TaskLog.id logId (Db.logs (db w)) = None ->
      deleteInterval env logId w = (Resolved tt, w)).
Proof.
  intros Hdb Hstore. split.
  - intros log Hfound w'. subst w'.
    unfold run, deleteInterval. rewrite Hdb. run_m. rewrite Hfound.
    unfold logs_delete. run_m. rewrite Hstore.
    cbn [snd db state Db.logs Db.with_logs]. split; [|split].
    + intros l. rewrite In_tbl_delete. rewrite negb_false_iff_eqb. tauto.
    + intros Hsel Hnd l. unfold Mutations.deleteInterval. rewrite Hsel.
      cbn [negb].
      pose proof (@removeFirst_In _ TaskLog.id logId _ Hnd l) as Hrm.
      destruct (removeFirst _ (State.selectedTaskLogs (state w)));
        cbn [State.selectedTaskLogs State.with_selectedTaskLogs];
        exact Hrm.
    + intros Hsel. unfold Mutations.deleteInterval. now rewrite Hsel.
  - intros Hnone. unfold deleteInterval. rewrite Hdb. run_m.
    now rewrite Hnone.
Qed.

Lemma deleteInterval_removes_the_interval_witness :
  In Sample.log1
    (Db.logs (db (run (deleteInterval Sample.env "log-1") Sample.world)))
  <-> In Sample.log1 (Db.logs (db Sample.world))
      /\ TaskLog.id Sample.log1 <> "log-1".
Proof.
  pose proof (proj1 (@deleteInterval_removes_the_interval Sample.env "log-1"
                       Sample.world eq_refl eq_refl)
                Sample.log1 eq_refl) as (Hlogs & _).
  exact (Hlogs Sample.log1).
Defined.

(** ** New tasks and the selected task *)

Lemma maxOrder_bound (l : list Task.t) (a : Z) :
  a <= fold_left (fun max t => if Task.order t >? max then Task.order t else max) l a
  /\ forall t, In t l ->
       Task.order t
       <= fold_left (fun max t => if Task.order t >? max then Task.order t else max) l a.
Proof.
  revert a. induction l as [|x rest IH]; intros a; simpl.
  - split; [lia | tauto].
  - destruct (IH (if Task.order x >? a then Task.order x else a)) as [Hle Hall].
    destruct (Z.gtb_spec (Task.order x) a); split; try lia.
    + intros t [<- | Hin]; auto.
    + intros t [<- | Hin]; auto. lia.
Qed.

(** What [addTask] does when the tag filters are not copied. *)
Lemma addTask_run (env : Env) (nanoid : nat -> string) (now : Z)
    (name : string) (w : World) :
  dexieDb env = true ->
  storageEnabled env = true ->
  truthy_str (trim name) = true ->
  tbl_has Task.id ("task-" ++ nanoid 0%nat) (Db.tasks (db w)) = false ->
  match JsObj.get "addSelectedTags" (State.settings (state w)) with
  | Some v => truthy_value v
  | None => false
  end = false ->
  addTask env nanoid now name w
  = (Resolved tt,
     let taskId := ("task-" ++ nanoid 0%nat)%string in
     let order :=
       fold_left (fun max t => if Task.order t >? max then Task.order t else max)
         (JsObj.values (State.tasks (state w))) 0 + 1 in
     let newTask := Task.mk taskId (trim name) "" order now None None in
     mkWorld
       (Db.with_settings
          (tbl_put SettingKv.key (SettingKv.mk "selectedTaskID" (VStr taskId))
             (Db.settings (db w)))
          (Db.with_tasks (tbl_insert Task.id newTask (Db.tasks (db w))) (db w)))
       (State.with_selectedTaskLogs
          (filter (fun l => (TaskLog.taskId l =? taskId)%string) (Db.logs (db w)))
          (State.with_settings
             (JsObj.set "selectedTaskID" (VStr taskId) (State.settings (state w)))
             (State.with_taskTagsMap
                (JsObj.set taskId [] (State.taskTagsMap (state w)))
                (State.with_tasks
                   (JsObj.set taskId newTask (State.tasks (state w)))
                   (state w)))))).
Proof.
  intros Hdb Hstore Hname Hfree Htags.
  unfold addTask. rewrite Hdb, Hname. run_m. unfold tasks_add. run_m.
  unfold tbl_add. cbn [Task.id]. rewrite Hfree. cbn [option_map].
  rewrite Hstore, Htags. run_m. unfold Mutations.addTask. run_m.
  cbn [forEach]. run_m. unfold selectTask. rewrite Hdb. cbn [negb]. run_m.
  rewrite (updateSetting_run env _ _ _ Hdb Hstore). reflexivity.
Qed.

(** X8. A new task goes to the end of the list and is selected: for a
    name that is not blank, a free task id, storage enabled and the tag
    filters not copied, [addTask] stores (in the table and in the store)
    a task with the trimmed name, no notes, created now, neither
    completed nor archived, whose [order] is positive and greater than
    that of every task of the store; the task has no tags, the other
    tasks of the store stay, the new task becomes the selected one and
    the selected logs are the task's logs.  A blank name changes
    nothing. *)
Theorem addTask_appends_and_selects
    (env : Env) (nanoid : nat -> string) (now : Z) (name : string) (w : World) :
  dexieDb env = true ->
  storageEnabled env = true ->
  (truthy_str (trim name) = true ->
   tbl_has Task.id ("task-" ++ nanoid 0%nat) (Db.tasks (db w)) = false ->
   match JsObj.get "addSelectedTags" (State.settings (state w)) with
   | Some v => truthy_value v
   | None => false
   end = false ->
   let taskId := ("task-" ++ nanoid 0%nat)%string in
   let w' := run (addTask env nanoid now name) w in
   exists order,
     let newTask := Task.mk taskId (trim name) "" order now None None in
     0 < order
     /\ (forall t, In t (JsObj.values (State.tasks (state w))) ->
           Task.order t < order)
     /\ tbl_get Task.id taskId (Db.tasks (db w')) = Some newTask
     /\ JsObj.get taskId (State.tasks (state w')) = Some newTask
     /\ (forall k, k <> taskId ->
           JsObj.get k (State.tasks (state w'))
           = JsObj.get k (State.tasks (state w)))
     /\ JsObj.get taskId (State.taskTagsMap (state w')) = Some []
     /\ JsObj.get "selectedTaskID" (State.settings (state w'))
        = Some (VStr taskId)
     /\ State.selectedTaskLogs (state w')
        = filter (fun l => (TaskLog.taskId l =? taskId)%string) (Db.logs (db w)))
  /\ (truthy_str (trim name) = false ->
      addTask env nanoid now name w = (Resolved tt, w)).
Proof.
  intros Hdb Hstore. split.
  - intros Hname Hfree Htags taskId w'. subst w'. unfold run.
    rewrite (addTask_run env nanoid now name w Hdb Hstore Hname Hfree Htags).
    cbn [snd]. fold taskId.
    set (order := fold_left _ _ 0 + 1).
    destruct (maxOrder_bound (JsObj.values (State.tasks (state w))) 0)
      as [Hpos Hmax].
    exists order. cbv zeta.
    cbn [db state Db.tasks Db.with_settings Db.with_tasks State.tasks
         State.taskTagsMap State.settings State.selectedTaskLogs
         State.with_selectedTaskLogs State.with_settings State.with_taskTagsMap
         State.with_tasks].
    split; [unfold order; lia|].
    split; [intros t Hin; specialize (Hmax t Hin); unfold order; lia|].
    split.
    { match goal with
      | |- tbl_get _ _ (tbl_insert _ ?r _) = _ =>
          change taskId with (Task.id r); apply tbl_get_insert_fresh
      end.
      now apply tbl_has_false. }
    split; [apply JsObjFacts.get_set_same|].
    split; [intros k Hne; apply JsObjFacts.get_set_other; congruence|].
    split; [apply JsObjFacts.get_set_same|].
    split; [apply JsObjFacts.get_set_same | reflexivity].
  - intros Hblank. unfold addTask. rewrite Hdb, Hblank. reflexivity.
Qed.

Lemma addTask_appends_and_selects_witness :
  JsObj.get "selectedTaskID"
    (State.settings
       (state (run (addTask Sample.env (fun _ => "r") 10 " read ") Sample.fresh)))
  = Some (VStr "task-r").
Proof.
  destruct (proj1 (@addTask_appends_and_selects Sample.env (fun _ => "r") 10
                     " read " Sample.fresh eq_refl eq_refl)
              eq_refl eq_refl eq_refl)
    as (order & _ & _ & _ & _ & _ & _ & Hsel & _).
  exact Hsel.
Defined.

Lemma newTaskTagMaps_tagIds (nanoid : nat -> string) (i : nat) (taskId : string)
    (ids : list string) :
  map TaskTagMap.tagId (newTaskTagMaps nanoid i taskId ids) = ids.
Proof.
  revert i. induction ids as [|x rest IH]; intros i; simpl; auto.
  now rewrite IH.
Qed.

Lemma newTaskTagMaps_taskId (nanoid : nat -> string) (i : nat) (taskId : string)
    (ids : list string) (row : TaskTagMap.t) :
  In row (newTaskTagMaps nanoid i taskId ids) -> TaskTagMap.taskId row = taskId.
Proof.
  revert i. induction ids as [|x rest IH]; intros i; simpl; [tauto|].
  intros [<- | Hin]; eauto.
Qed.

(** The loop of the mutation [addTask] over rows of one task. *)
Lemma pushAll_run (taskId : string) (rows : list TaskTagMap.t) (s : State.t)
    (acc : list string) :
  (forall row, In row rows -> TaskTagMap.taskId row = taskId) ->
  JsObj.get taskId (State.taskTagsMap s) = Some acc ->
  forEach rows (fun row =>
    pushTaskTag (TaskTagMap.taskId row) (TaskTagMap.tagId row)) s
  = (Resolved tt,
     State.with_taskTagsMap
       (JsObj.set taskId (acc ++ map TaskTagMap.tagId rows)
          (State.taskTagsMap s)) s).
Proof.
  revert s acc. induction rows as [|row rest IH]; intros s acc Hrows Hget.
  - cbn [forEach map]. unfold ret. rewrite app_nil_r.
    rewrite (JsObjFacts.set_same_value _ _ Hget). now destruct s.
  - cbn [forEach map]. unfold bind at 1.
    rewrite (Hrows row (or_introl eq_refl)).
    rewrite (pushTaskTag_run taskId (TaskTagMap.tagId row) s Hget).
    rewrite (IH _ (acc ++ [TaskTagMap.tagId row])
               (fun r Hin => Hrows r (or_intror Hin)))
      by (cbn [State.taskTagsMap State.with_taskTagsMap];
          apply JsObjFacts.get_set_same).
    cbn [State.taskTagsMap State.with_taskTagsMap].
    rewrite JsObjFacts.set_set, <- app_assoc. reflexivity.
Qed.

Lemma tbl_bulkAdd_perm {R : Type} (key : R -> string) (rs tbl tbl' : list R) :
  tbl_bulkAdd key rs tbl = (tbl', true) -> Permutation tbl' (rs ++ tbl).
Proof.
  revert tbl. induction rs as [|r rest IH]; intros tbl; cbn [tbl_bulkAdd].
  - now intros [= ->].
  - unfold tbl_add. destruct (tbl_has key (key r) tbl).
    + intros [= _ Hfalse].
    + intros H. apply IH in H. rewrite H.
      rewrite (tbl_insert_perm key r tbl). cbn [app].
      symmetry. apply Permutation_middle.
Qed.

(** X9. The tag filters are copied to a new task: with the setting
    [addSelectedTags] on, the filters [selectedTagIds] in the store and the
    association rows added, the new task's entry of [taskTagsMap] is the
    list of the selected tag ids, and its rows in the table carry the same
    tag ids (next to those of rows the table already had for that id). *)
Theorem addTask_copies_the_tag_filters
    (env : Env) (nanoid : nat -> string) (now : Z) (name : string) (w : World)
    (v : SettingValue) (ids : list string) (tbl' : list TaskTagMap.t) :
  dexieDb env = true ->
  storageEnabled env = true ->
  truthy_str (trim name) = true ->
  tbl_has Task.id ("task-" ++ nanoid 0%nat) (Db.tasks (db w)) = false ->
  JsObj.get "addSelectedTags" (State.settings (state w)) = Some v ->
  truthy_value v = true ->
  JsObj.get "selectedTagIds" (State.settings (state w)) = Some (VList ids) ->
  tbl_bulkAdd TaskTagMap.id
    (newTaskTagMaps nanoid 1 ("task-" ++ nanoid 0%nat) ids)
    (Db.taskTagMap (db w)) = (tbl', true) ->
  let taskId := ("task-" ++ nanoid 0%nat)%string in
  let w' := run (addTask env nanoid now name) w in
  JsObj.get taskId (State.taskTagsMap (state w')) = Some ids
  /\ Permutation (tagIdsOf taskId (Db.taskTagMap (db w')))
       (ids ++ tagIdsOf taskId (Db.taskTagMap (db w)))
  /\ JsObj.get "selectedTaskID" (State.settings (state w')) = Some (VStr taskId).
Proof.
  intros Hdb Hstore Hname Hfree Hflag Hv Hsel Hadd taskId w'. subst w'.
  assert (Hrows : forall row,
             In row (newTaskTagMaps nanoid 1 taskId ids) ->
             TaskTagMap.taskId row = taskId)
    by (intros row; apply newTaskTagMaps_taskId).
  assert (Hperm : Permutation (tagIdsOf taskId tbl')
                    (ids ++ tagIdsOf taskId (Db.taskTagMap (db w)))).
  { unfold tagIdsOf. apply tbl_bulkAdd_perm in Hadd. fold taskId in Hadd.
    rewrite (Permutation_filter _ Hadd), filter_app, map_app.
    apply Permutation_app_tail.
    replace (filter _ (newTaskTagMaps nanoid 1 taskId ids))
      with (newTaskTagMaps nanoid 1 taskId ids).
    - now rewrite newTaskTagMaps_tagIds.
    - symmetry. apply forallb_filter_id. apply forallb_forall.
      intros row Hin. apply String.eqb_eq. auto. }
  set (order := fold_left
                  (fun max t => if Task.order t >? max then Task.order t else max)
                  (JsObj.values (State.tasks (state w))) 0 + 1).
  set (newTask := Task.mk taskId (trim name) "" order now None None).
  assert (Hmut : forall rows,
             (forall row, In row rows -> TaskTagMap.taskId row = taskId) ->
             Mutations.addTask newTask rows (state w)
             = (Resolved tt,
                State.with_taskTagsMap
                  (JsObj.set taskId (map TaskTagMap.tagId rows)
                     (State.taskTagsMap (state w)))
                  (State.with_tasks
                     (JsObj.set taskId newTask (State.tasks (state w)))
                     (state w)))).
  { intros rows Hr. unfold Mutations.addTask. run_m.
    rewrite (@pushAll_run taskId rows _ [] Hr)
      by (cbn [State.taskTagsMap State.with_taskTagsMap Task.id newTask];
          apply JsObjFacts.get_set_same).
    cbn [State.taskTagsMap State.with_taskTagsMap State.with_tasks
         Task.id newTask app].
    now rewrite JsObjFacts.set_set. }
  assert (Hselect : forall w1,
             selectTask env (Some taskId) w1
             = (Resolved tt,
                mkWorld
                  (Db.with_settings
                     (tbl_put SettingKv.key
                        (SettingKv.mk "selectedTaskID" (VStr taskId))
                        (Db.settings (db w1))) (db w1))
                  (State.with_selectedTaskLogs
                     (filter (fun l => (TaskLog.taskId l =? taskId)%string)
                        (Db.logs (db w1)))
                     (Mutations.updateSetting "selectedTaskID" (VStr taskId)
                        (state w1))))).
  { intros w1. unfold selectTask. rewrite Hdb. cbn [negb]. run_m.
    rewrite (updateSetting_run env _ _ _ Hdb Hstore). reflexivity. }
  unfold run, addTask. rewrite Hdb, Hname. run_m. unfold tasks_add. run_m.
  unfold tbl_add. cbn [Task.id]. rewrite Hfree. cbn [option_map].
  rewrite Hstore, Hflag, Hv, Hsel. fold taskId order newTask.
  destruct ids as [|id0 ids'].
  - cbn [tbl_bulkAdd newTaskTagMaps] in Hadd. injection Hadd as <-.
    run_m. rewrite (Hmut [] (fun row (Hin : In row []) => False_ind _ Hin)).
    rewrite Hselect.
    cbn [snd db state Db.taskTagMap Db.with_settings Db.with_tasks
         State.taskTagsMap State.settings State.with_selectedTaskLogs
         Mutations.updateSetting State.with_settings State.with_taskTagsMap map].
    split; [apply JsObjFacts.get_set_same|].
    split; [exact Hperm | apply JsObjFacts.get_set_same].
  - unfold taskTagMap_bulkAdd. run_m. cbn [Db.taskTagMap Db.with_tasks].
    fold taskId in Hadd. rewrite Hadd. run_m. rewrite (Hmut _ Hrows), Hselect.
    rewrite newTaskTagMaps_tagIds.
    cbn [snd db state Db.taskTagMap Db.with_settings Db.with_tasks
         Db.with_taskTagMap
         State.taskTagsMap State.settings State.with_selectedTaskLogs
         Mutations.updateSetting State.with_settings State.with_taskTagsMap map].
    split; [apply JsObjFacts.get_set_same|].
    split; [exact Hperm | apply JsObjFacts.get_set_same].
Qed.

Lemma addTask_copies_the_tag_filters_witness :
  JsObj.get "task-n0"
    (State.taskTagsMap (state (run (addTask Sample.env sampleIds 60 "plan") copying)))
  = Some ["tag-a"; "tag-b"].
Proof.
  destruct (@addTask_copies_the_tag_filters Sample.env sampleIds 60 "plan"
              copying (VBool true) ["tag-a"; "tag-b"]
              (fst (tbl_bulkAdd TaskTagMap.id
                      (newTaskTagMaps sampleIds 1 "task-n0" ["tag-a"; "tag-b"])
                      (Db.taskTagMap (db copying))))
              eq_refl eq_refl eq_refl eq_refl eq_refl eq_refl eq_refl eq_refl)
    as (Hmap & _).
  exact Hmap.
Defined.

(** ** Loading the store from the database *)

Lemma insertBy_perm {R : Type} (ord : R -> Z) (r : R) (l : list R) :
  Permutation (insertBy ord r l) (r :: l).
Proof.
  induction l as [|x rest IH]; simpl; auto.
  destruct (ord r <=? ord x); auto.
  rewrite IH. apply perm_swap.
Qed.

Lemma orderBy_perm {R : Type} (ord : R -> Z) (l : list R) :
  Permutation (orderBy ord l) l.
Proof.
  induction l as [|x rest IH]; simpl; auto.
  unfold orderBy in *. simpl. rewrite insertBy_perm. auto.
Qed.

Lemma insertBy_ascending {R : Type} (ord : R -> Z) (r : R) (l : list R) :
  ascending ord l -> ascending ord (insertBy ord r l).
Proof.
  induction l as [|x rest IH]; simpl.
  - intros _. split; [intros y [] | exact I].
  - intros [Hx Hrest]. destruct (Z.leb_spec (ord r) (ord x)).
    + simpl. split; auto. intros y [<- | Hin]; auto.
      specialize (Hx y Hin). lia.
    + simpl. split; auto. intros y Hin.
      apply (Permutation_in _ (insertBy_perm ord r rest)) in Hin.
      destruct Hin as [<- | Hin]; auto. lia.
Qed.

Lemma orderBy_ascending {R : Type} (ord : R -> Z) (l : list R) :
  ascending ord (orderBy ord l).
Proof.
  induction l as [|x rest IH]; simpl; auto.
  now apply insertBy_ascending.
Qed.

(** A loop whose body cannot throw is a fold. *)
Lemma forEach_fold {S A : Type} (body : A -> M S unit) (f : A -> S -> S)
    (xs : list A) (s : S) :
  (forall x s', body x s' = (Resolved tt, f x s')) ->
  forEach xs body s = (Resolved tt, fold_left (fun acc x => f x acc) xs s).
Proof.
  intros Hbody. revert s. induction xs as [|x rest IH]; intros s; simpl; auto.
  unfold bind. now rewrite Hbody, IH.
Qed.

Lemma fold_with_tasks (tasks : list Task.t) (s : State.t) :
  fold_left
    (fun acc task =>
       State.with_tasks (JsObj.set (Task.id task) task (State.tasks acc)) acc)
    tasks s
  = State.with_tasks
      (fold_left (fun o task => JsObj.set (Task.id task) task o) tasks
         (State.tasks s)) s.
Proof.
  revert s. induction tasks as [|t rest IH]; intros s; simpl.
  - now destruct s.
  - now rewrite IH.
Qed.

Lemma fold_with_tags (tags : list Tag.t) (s : State.t) :
  fold_left
    (fun acc tag =>
       State.with_tagOrder (State.tagOrder
          (State.with_tags (JsObj.set (Tag.id tag) tag (State.tags acc)) acc)
          ++ [Tag.id tag])
         (State.with_tags (JsObj.set (Tag.id tag) tag (State.tags acc)) acc))
    tags s
  = State.with_tagOrder (State.tagOrder s ++ map Tag.id tags)
      (State.with_tags
         (fold_left (fun o tag => JsObj.set (Tag.id tag) tag o) tags
            (State.tags s)) s).
Proof.
  revert s. induction tags as [|t rest IH]; intros s; simpl.
  - rewrite app_nil_r. now destruct s.
  - rewrite IH. cbn [State.tagOrder State.tags State.with_tags
                     State.with_tagOrder].
    now rewrite <- app_assoc.
Qed.

Lemma fold_with_taskTagsMap (tasks : list Task.t) (s : State.t) :
  fold_left
    (fun acc task =>
       State.with_taskTagsMap
         (JsObj.set (Task.id task) [] (State.taskTagsMap acc)) acc)
    tasks s
  = State.with_taskTagsMap
      (fold_left (fun o task => JsObj.set (Task.id task) [] o) tasks
         (State.taskTagsMap s)) s.
Proof.
  revert s. induction tasks as [|t rest IH]; intros s; simpl.
  - now destruct s.
  - now rewrite IH.
Qed.

Lemma fold_with_settings (ini : JsObj.t SettingValue)
    (settings : list SettingKv.t) (s : State.t) :
  fold_left
    (fun acc kv =>
       State.with_settings
         (JsObj.set (fst kv)
            match find (fun x => (SettingKv.key x =? fst kv)%string) settings with
            | Some found => SettingKv.value found
            | None => snd kv
            end (State.settings acc)) acc)
    ini s
  = State.with_settings
      (fold_left
         (fun o kv =>
            JsObj.set (fst kv)
              match find (fun x => (SettingKv.key x =? fst kv)%string) settings with
              | Some found => SettingKv.value found
              | None => snd kv
              end o)
         ini (State.settings s)) s.
Proof.
  revert s. induction ini as [|kv rest IH]; intros s; simpl.
  - now destruct s.
  - now rewrite IH.
Qed.

(** The fresh [taskTagsMap]: an empty list for every task. *)
Lemma emptyLists_get (tasks : list Task.t) (o : JsObj.t (list string))
    (k : string) :
  JsObj.get k (fold_left (fun o task => JsObj.set (Task.id task) [] o) tasks o)
  = if mem k (map Task.id tasks) then Some [] else JsObj.get k o.
Proof.
  revert o. induction tasks as [|t rest IH]; intros o; simpl; auto.
  rewrite IH. destruct (mem k (map Task.id rest)).
  - now rewrite orb_true_r.
  - rewrite orb_false_r. destruct (String.eqb_spec (Task.id t) k) as [->|Hne].
    + apply JsObjFacts.get_set_same.
    + apply JsObjFacts.get_set_other. congruence.
Qed.

(** The loop over the association rows, every row's task in the map. *)
Lemma pushRows_run (rows : list TaskTagMap.t) (s : State.t) :
  (forall row, In row rows ->
     In (TaskTagMap.taskId row) (JsObj.keys (State.taskTagsMap s))) ->
  exists m',
    forEach rows (fun row =>
      pushTaskTag (TaskTagMap.taskId row) (TaskTagMap.tagId row)) s
    = (Resolved tt, State.with_taskTagsMap m' s)
    /\ forall k l, JsObj.get k (State.taskTagsMap s) = Some l ->
                   JsObj.get k m' = Some (l ++ tagIdsOf k rows).
Proof.
  revert s. induction rows as [|row rest IH]; intros s Hrows.
  - exists (State.taskTagsMap s). split; [now destruct s|].
    intros k l Hget. unfold tagIdsOf. simpl. now rewrite app_nil_r.
  - destruct (JsObjFacts.get_Some_keys _ _ (Hrows row (or_introl eq_refl)))
      as [l0 Hl0].
    set (s1 := State.with_taskTagsMap
                 (JsObj.set (TaskTagMap.taskId row) (l0 ++ [TaskTagMap.tagId row])
                    (State.taskTagsMap s)) s).
    destruct (IH s1) as (m' & Hrun & Hget').
    { intros r Hin. unfold s1. cbn [State.taskTagsMap State.with_taskTagsMap].
      rewrite JsObjFacts.keys_set_present; auto.
      - apply Hrows. now right.
      - apply Hrows. now left. }
    exists m'. split.
    + cbn [forEach]. unfold bind.
      rewrite (pushTaskTag_run _ (TaskTagMap.tagId row) s Hl0).
      fold s1. rewrite Hrun. unfold s1. now destruct s.
    + intros k l Hget. unfold tagIdsOf. cbn [filter].
      destruct (String.eqb_spec (TaskTagMap.taskId row) k) as [Heq|Hne].
      * subst k. rewrite Hl0 in Hget. injection Hget as <-.
        rewrite (Hget' _ (l0 ++ [TaskTagMap.tagId row])).
        -- cbn [map]. now rewrite <- app_assoc.
        -- unfold s1. cbn [State.taskTagsMap State.with_taskTagsMap].
           apply JsObjFacts.get_set_same.
      * apply Hget'. unfold s1. cbn [State.taskTagsMap State.with_taskTagsMap].
        rewrite JsObjFacts.get_set_other; auto.
Qed.

Lemma loadSelectedTaskLogs_resolves (settings : list SettingKv.t)
    (acc : list TaskLog.t) (w : World) :
  (forall kv, In kv settings -> SettingKv.key kv = "selectedTaskID" ->
              SettingKv.value kv <> VBool true) ->
  exists logs, loadSelectedTaskLogs settings acc w = (Resolved logs, w).
Proof.
  revert acc. induction settings as [|kv rest IH]; intros acc Hok.
  - exists acc. reflexivity.
  - assert (Hrest : forall kv', In kv' rest ->
                      SettingKv.key kv' = "selectedTaskID" ->
                      SettingKv.value kv' <> VBool true)
      by (intros kv' Hin; apply Hok; now right).
    cbn [loadSelectedTaskLogs].
    destruct (SettingKv.key kv =? "selectedTaskID")%string eqn:Ekey;
      cbn [andb]; [|now apply IH].
    apply String.eqb_eq in Ekey.
    pose proof (Hok kv (or_introl eq_refl) Ekey) as Hv.
    destruct (SettingKv.value kv) as [| [|] | z | x | l]; cbn [truthy_value];
      try (now apply IH); try congruence.
    + destruct (negb (z =? 0)); now apply IH.
    + destruct (truthy_str x); [|now apply IH]. run_m. now apply IH.
Qed.

(** The store the mutation [loadInitialData] builds. *)
Lemma Mutations_loadInitialData_run (ini : JsObj.t SettingValue)
    (tasks : list Task.t) (tags : list Tag.t) (rows : list TaskTagMap.t)
    (settings : list SettingKv.t) (selected : list TaskLog.t) (s : State.t) :
  (forall row, In row rows -> In (TaskTagMap.taskId row) (map Task.id tasks)) ->
  exists m',
    Mutations.loadInitialData ini tasks tags rows settings selected s
    = (Resolved tt,
       State.mk
         (fold_left (fun o task => JsObj.set (Task.id task) task o) tasks
            JsObj.empty)
         (fold_left (fun o tag => JsObj.set (Tag.id tag) tag o) tags JsObj.empty)
         (map Tag.id tags) m'
         (fold_left
            (fun o kv =>
               JsObj.set (fst kv)
                 match find (fun x => (SettingKv.key x =? fst kv)%string)
                         settings with
                 | Some found => SettingKv.value found
                 | None => snd kv
                 end o)
            ini (State.settings s))
         selected (State.tempState s) (State.isActivityModalVisible s))
    /\ forall k, In k (map Task.id tasks) ->
                 JsObj.get k m' = Some (tagIdsOf k rows).
Proof.
  intros Hrows. unfold Mutations.loadInitialData.
  set (s1 := State.with_taskTagsMap
               (fold_left (fun o task => JsObj.set (Task.id task) [] o) tasks
                  JsObj.empty)
               (State.with_tagOrder (map Tag.id tags)
                  (State.with_tags
                     (fold_left (fun o tag => JsObj.set (Tag.id tag) tag o) tags
                        JsObj.empty)
                     (State.with_tasks
                        (fold_left
                           (fun o task => JsObj.set (Task.id task) task o) tasks
                           JsObj.empty) s)))).
  destruct (pushRows_run rows s1) as (m' & Hpush & Hget).
  { intros row Hin. unfold s1. cbn [State.taskTagsMap State.with_taskTagsMap].
    apply get_In_keys with (v := []). rewrite emptyLists_get.
    apply Hrows in Hin. apply mem_In in Hin. now rewrite Hin. }
  exists m'. split.
  - unfold bind at 1, modify at 1.
    unfold bind at 1.
    rewrite (forEach_fold _
               (fun task acc =>
                  State.with_tasks
                    (JsObj.set (Task.id task) task (State.tasks acc)) acc))
      by reflexivity.
    rewrite fold_with_tasks.
    unfold bind at 1, modify at 1. unfold bind at 1, modify at 1.
    unfold bind at 1.
    rewrite (forEach_fold _
               (fun tag acc =>
                  State.with_tagOrder
                    (State.tagOrder
                       (State.with_tags
                          (JsObj.set (Tag.id tag) tag (State.tags acc)) acc)
                     ++ [Tag.id tag])
                    (State.with_tags
                       (JsObj.set (Tag.id tag) tag (State.tags acc)) acc)))
      by reflexivity.
    rewrite fold_with_tags.
    unfold bind at 1, modify at 1. unfold bind at 1.
    rewrite (forEach_fold _
               (fun task acc =>
                  State.with_taskTagsMap
                    (JsObj.set (Task.id task) [] (State.taskTagsMap acc)) acc))
      by reflexivity.
    rewrite fold_with_taskTagsMap.
    unfold bind at 1.
    cbn [State.tasks State.tags State.tagOrder State.taskTagsMap
         State.with_tasks State.with_tags State.with_tagOrder
         State.with_taskTagsMap app].
    match goal with
    | |- context [forEach rows ?b ?st] => change st with s1
    end.
    rewrite Hpush.
    unfold bind at 1.
    rewrite (forEach_fold _
               (fun kv acc =>
                  State.with_settings
                    (JsObj.set (fst kv)
                       match find (fun x => (SettingKv.key x =? fst kv)%string)
                               settings with
                       | Some found => SettingKv.value found
                       | None => snd kv
                       end (State.settings acc)) acc))
      by reflexivity.
    rewrite fold_with_settings. unfold modify. unfold s1. reflexivity.
  - intros k Hin. rewrite (Hget k []); auto.
    unfold s1. cbn [State.taskTagsMap State.with_taskTagsMap].
    rewrite emptyLists_get. apply mem_In in Hin. now rewrite Hin.
Qed.

Lemma fold_set_entries {V : Type} (key : V -> string) (items : list V)
    (o : JsObj.t V) :
  NoDup (JsObj.keys o ++ map key items) ->
  fold_left (fun o x => JsObj.set (key x) x o) items o
  = o ++ map (fun x => (key x, x)) items.
Proof.
  revert o. induction items as [|x rest IH]; intros o Hnd; simpl.
  - now rewrite app_nil_r.
  - assert (Hfresh : ~ In (key x) (JsObj.keys o)).
    { intros Hin. apply NoDup_remove_2 in Hnd. apply Hnd.
      apply in_or_app. now left. }
    rewrite (JsObjFacts.keys_set_absent _ _ _ Hfresh).
    rewrite IH.
    + now rewrite <- app_assoc.
    + unfold JsObj.keys in *. rewrite map_app, <- app_assoc. exact Hnd.
Qed.

Lemma entries_keys {V : Type} (key : V -> string) (items : list V) :
  JsObj.keys (map (fun x => (key x, x)) items) = map key items.
Proof. unfold JsObj.keys. rewrite map_map. reflexivity. Qed.

Lemma entries_values {V : Type} (key : V -> string) (items : list V) :
  JsObj.values (map (fun x => (key x, x)) items) = items.
Proof. unfold JsObj.values. rewrite map_map. apply map_id. Qed.

Lemma entries_get {V : Type} (key : V -> string) (items : list V) (x : V) :
  NoDup (map key items) ->
  In x items -> JsObj.get (key x) (map (fun x => (key x, x)) items) = Some x.
Proof.
  intros Hnd Hin. apply JsObjFacts.In_get.
  - now rewrite entries_keys.
  - apply in_map_iff. now exists x.
Qed.

Lemma entries_keyed {V : Type} (key : V -> string) (items : list V)
    (k : string) (x : V) :
  In (k, x) (map (fun x => (key x, x)) items) -> key x = k.
Proof.
  intros Hin. apply in_map_iff in Hin. destruct Hin as (y & [= <- <-] & _).
  reflexivity.
Qed.

(** What [loadInitialData] leaves behind when nothing throws. *)
Lemma loadInitialData_run (env : Env) (w : World) :
  dexieDb env = true ->
  storageEnabled env = true ->
  (forall row, In row (Db.taskTagMap (db w)) ->
     In (TaskTagMap.taskId row) (map Task.id (Db.tasks (db w)))) ->
  (forall kv, In kv (Db.settings (db w)) ->
     SettingKv.key kv = "selectedTaskID" -> SettingKv.value kv <> VBool true) ->
  let w1 :=
    mkWorld (Db.with_logs (reconcile (Db.logs (db w)) (Db.logs (db w))) (db w))
      (state w) in
  exists m' selected,
    loadInitialData env w
    = (Resolved tt,
       mkWorld (db w1)
         (State.mk
            (fold_left (fun o task => JsObj.set (Task.id task) task o)
               (orderBy Task.order (Db.tasks (db w))) JsObj.empty)
            (fold_left (fun o tag => JsObj.set (Tag.id tag) tag o)
               (orderBy Tag.order (Db.tags (db w))) JsObj.empty)
            (map Tag.id (orderBy Tag.order (Db.tags (db w))))
            m'
            (fold_left
               (fun o kv =>
                  JsObj.set (fst kv)
                    match tbl_get SettingKv.key (fst kv) (Db.settings (db w)) with
                    | Some found => SettingKv.value found
                    | None => snd kv
                    end o)
               (initialSettings env) (State.settings (state w)))
            selected (State.tempState (state w))
            (State.isActivityModalVisible (state w))))
    /\ loadSelectedTaskLogs (Db.settings (db w)) [] w1 = (Resolved selected, w1)
    /\ forall k, In k (map Task.id (Db.tasks (db w))) ->
                 JsObj.get k m' = Some (tagIdsOf k (Db.taskTagMap (db w))).
Proof.
  intros Hdb Hstore Hrows Hsel w1.
  unfold loadInitialData. rewrite Hdb. run_m.
  rewrite (reconcile_loop env _ w Hstore). fold w1.
  destruct (loadSelectedTaskLogs_resolves (Db.settings (db w)) [] w1 Hsel)
    as [selected Hselected].
  rewrite Hselected. cbn [db state w1].
  destruct (Mutations_loadInitialData_run (initialSettings env)
              (orderBy Task.order (Db.tasks (db w)))
              (orderBy Tag.order (Db.tags (db w)))
              (Db.taskTagMap (db w)) (Db.settings (db w)) selected (state w))
    as (m' & Hrun & Hget).
  { intros row Hin. apply Hrows in Hin.
    apply (Permutation_in _ (Permutation_map Task.id
                               (Permutation_sym (orderBy_perm Task.order _)))).
    exact Hin. }
  exists m', selected. rewrite Hrun. split; [reflexivity|].
  split; [reflexivity|].
  intros k Hin. apply Hget.
  apply (Permutation_in _ (Permutation_map Task.id
                             (Permutation_sym (orderBy_perm Task.order _)))).
  exact Hin.
Qed.

(** X10. [loadInitialData] rebuilds the store from the database: with
    storage enabled, distinct keys in the [tasks] and [tags] tables, every
    association row naming a task of the table, and no boolean stored as
    the selected task, the action resolves; the store then lists exactly
    the tasks of the table in ascending [order], each under its own id,
    has every tag of the table under its id and [tagOrder] in ascending
    tag [order], and gives every task the tag ids of its rows, in table
    order. *)
Theorem loadInitialData_rebuilds_the_store (env : Env) (w : World) :
  dexieDb env = true ->
  storageEnabled env = true ->
  NoDup (map Task.id (Db.tasks (db w))) ->
  NoDup (map Tag.id (Db.tags (db w))) ->
  (forall row, In row (Db.taskTagMap (db w)) ->
     In (TaskTagMap.taskId row) (map Task.id (Db.tasks (db w)))) ->
  (forall kv, In kv (Db.settings (db w)) ->
     SettingKv.key kv = "selectedTaskID" -> SettingKv.value kv <> VBool true) ->
  let w' := run (loadInitialData env) w in
  fst (loadInitialData env w) = Resolved tt
  /\ Permutation (JsObj.values (State.tasks (state w'))) (Db.tasks (db w))
  /\ ascending Task.order (JsObj.values (State.tasks (state w')))
  /\ keyed (state w')
  /\ (forall tag, In tag (Db.tags (db w)) ->
        JsObj.get (Tag.id tag) (State.tags (state w')) = Some tag)
  /\ (exists tags,
        State.tagOrder (state w') = map Tag.id tags
        /\ Permutation tags (Db.tags (db w))
        /\ ascending Tag.order tags)
  /\ tagsMapExact w'.
Proof.
  intros Hdb Hstore Hnd HndTags Hrows Hsel w'. subst w'.
  destruct (loadInitialData_run env w Hdb Hstore Hrows Hsel)
    as (m' & selected & Hrun & _ & Hget).
  unfold run. rewrite Hrun. cbn [fst snd db state].
  assert (HndSorted : NoDup (map Task.id (orderBy Task.order (Db.tasks (db w))))).
  { apply (Permutation_NoDup
             (Permutation_map Task.id
                (Permutation_sym (orderBy_perm Task.order (Db.tasks (db w)))))).
    exact Hnd. }
  assert (HndTagsSorted :
            NoDup (map Tag.id (orderBy Tag.order (Db.tags (db w))))).
  { apply (Permutation_NoDup
             (Permutation_map Tag.id
                (Permutation_sym (orderBy_perm Tag.order (Db.tags (db w)))))).
    exact HndTags. }
  rewrite (fold_set_entries Task.id) by exact HndSorted.
  rewrite (fold_set_entries Tag.id) by exact HndTagsSorted.
  unfold JsObj.empty.
  cbn [app State.tasks State.tags State.tagOrder State.taskTagsMap
       Db.taskTagMap Db.with_logs].
  split; [reflexivity|].
  split; [rewrite entries_values; apply orderBy_perm|].
  split; [rewrite entries_values; apply orderBy_ascending|].
  split.
  { split.
    - split.
      + cbn [State.tasks]. now rewrite entries_keys.
      + cbn [State.tasks]. intros k t Hin. now apply entries_keyed in Hin.
    - intros k tag Hget'. cbn [State.tags] in Hget'.
      apply JsObjFacts.get_In in Hget'. now apply entries_keyed in Hget'. }
  split.
  { intros tag Hin. apply entries_get; auto.
    apply (Permutation_in _ (Permutation_sym (orderBy_perm Tag.order _))).
    exact Hin. }
  split.
  { exists (orderBy Tag.order (Db.tags (db w))).
    split; [reflexivity|].
    split; [apply orderBy_perm | apply orderBy_ascending]. }
  intros taskId Hin. cbn [state db State.tasks State.taskTagsMap Db.taskTagMap
                          Db.with_logs] in *.
  apply Hget. rewrite entries_keys in Hin.
  apply (Permutation_in _ (Permutation_map Task.id (orderBy_perm Task.order _))).
  exact Hin.
Qed.

Lemma loadInitialData_rebuilds_the_store_witness :
  tagsMapExact (run (loadInitialData Sample.env) Sample.world).
Proof.
  apply (@loadInitialData_rebuilds_the_store Sample.env Sample.world
           eq_refl eq_refl).
  - simpl. repeat constructor; simpl; intuition discriminate.
  - simpl. repeat constructor; simpl; intuition discriminate.
  - simpl. intros row [<- | []]. simpl. auto.
  - simpl. intros kv [<- | [<- | []]]; simpl; discriminate.
Defined.

Lemma pushRows_frame (rows : list TaskTagMap.t) (s : State.t) :
  State.settings
    (snd (forEach rows (fun row =>
            pushTaskTag (TaskTagMap.taskId row) (TaskTagMap.tagId row)) s))
  = State.settings s
  /\ State.selectedTaskLogs
       (snd (forEach rows (fun row =>
               pushTaskTag (TaskTagMap.taskId row) (TaskTagMap.tagId row)) s))
     = State.selectedTaskLogs s.
Proof.
  revert s. induction rows as [|row rest IH]; intros s; [now split|].
  cbn [forEach]. unfold bind, pushTaskTag at 1 3.
  destruct (JsObj.get (TaskTagMap.taskId row) (State.taskTagsMap s));
    [|now split].
  apply (IH (State.with_taskTagsMap _ s)).
Qed.

Lemma pushRows_reject (rows : list TaskTagMap.t) (s : State.t)
    (bad : TaskTagMap.t) :
  In bad rows ->
  ~ In (TaskTagMap.taskId bad) (JsObj.keys (State.taskTagsMap s)) ->
  fst (forEach rows (fun row =>
         pushTaskTag (TaskTagMap.taskId row) (TaskTagMap.tagId row)) s)
  = Rejected.
Proof.
  revert s. induction rows as [|row rest IH]; intros s Hin Hbad; [destruct Hin|].
  cbn [forEach]. unfold bind.
  destruct (JsObj.get (TaskTagMap.taskId row) (State.taskTagsMap s))
    as [l|] eqn:Hget.
  - rewrite (pushTaskTag_run _ (TaskTagMap.tagId row) s Hget).
    destruct Hin as [-> | Hin].
    + exfalso. apply Hbad. exact (get_In_keys _ _ Hget).
    + apply IH; auto. cbn [State.taskTagsMap State.with_taskTagsMap].
      rewrite JsObjFacts.keys_set_present; auto.
      exact (get_In_keys _ _ Hget).
  - unfold pushTaskTag. now rewrite Hget.
Qed.

(** The mutation [loadInitialData] on a row without a task. *)
Lemma Mutations_loadInitialData_reject (ini : JsObj.t SettingValue)
    (tasks : list Task.t) (tags : list Tag.t) (rows : list TaskTagMap.t)
    (settings : list SettingKv.t) (selected : list TaskLog.t) (s : State.t)
    (bad : TaskTagMap.t) :
  In bad rows ->
  ~ In (TaskTagMap.taskId bad) (map Task.id tasks) ->
  exists s',
    Mutations.loadInitialData ini tasks tags rows settings selected s
    = (Rejected, s')
    /\ State.settings s' = State.settings s
    /\ State.selectedTaskLogs s' = State.selectedTaskLogs s.
Proof.
  intros Hin Hbad. unfold Mutations.loadInitialData.
  unfold bind at 1, modify at 1. unfold bind at 1.
  rewrite (forEach_fold _
             (fun task acc =>
                State.with_tasks
                  (JsObj.set (Task.id task) task (State.tasks acc)) acc))
    by reflexivity.
  rewrite fold_with_tasks.
  unfold bind at 1, modify at 1. unfold bind at 1, modify at 1.
  unfold bind at 1.
  rewrite (forEach_fold _
             (fun tag acc =>
                State.with_tagOrder
                  (State.tagOrder
                     (State.with_tags
                        (JsObj.set (Tag.id tag) tag (State.tags acc)) acc)
                   ++ [Tag.id tag])
                  (State.with_tags
                     (JsObj.set (Tag.id tag) tag (State.tags acc)) acc)))
    by reflexivity.
  rewrite fold_with_tags.
  unfold bind at 1, modify at 1. unfold bind at 1.
  rewrite (forEach_fold _
             (fun task acc =>
                State.with_taskTagsMap
                  (JsObj.set (Task.id task) [] (State.taskTagsMap acc)) acc))
    by reflexivity.
  rewrite fold_with_taskTagsMap.
  unfold bind at 1.
  match goal with
  | |- context [forEach rows ?b ?st] =>
      pose proof (@pushRows_reject rows st bad Hin) as Hrej;
      pose proof (pushRows_frame rows st) as Hframe;
      destruct (forEach rows b st) as [r s']
  end.
  cbn [fst snd] in Hrej, Hframe.
  cbn [State.settings State.selectedTaskLogs State.with_taskTagsMap
       State.with_tagOrder State.with_tags State.with_tasks] in Hframe.
  exists s'. rewrite Hrej; [now split|].
  cbn [State.taskTagsMap State.with_taskTagsMap].
  intros Hkeys. apply JsObjFacts.get_Some_keys in Hkeys.
  destruct Hkeys as [l Hl]. rewrite emptyLists_get in Hl.
  destruct (mem _ _) eqn:Emem; [|discriminate].
  apply mem_In in Emem. now apply Hbad.
Qed.

(** X11. A dangling association row makes the load fail: when a row of
    [taskTagMap] names a task the [tasks] table does not have,
    [loadInitialData] rejects (the mutation throws at that row), and the
    settings and the selected task's logs of the store are left as they
    were, not loaded. *)
Theorem loadInitialData_rejects_a_dangling_row
    (env : Env) (w : World) (bad : TaskTagMap.t) :
  dexieDb env = true ->
  storageEnabled env = true ->
  (forall kv, In kv (Db.settings (db w)) ->
     SettingKv.key kv = "selectedTaskID" -> SettingKv.value kv <> VBool true) ->
  In bad (Db.taskTagMap (db w)) ->
  ~ In (TaskTagMap.taskId bad) (map Task.id (Db.tasks (db w))) ->
  let w' := run (loadInitialData env) w in
  fst (loadInitialData env w) = Rejected
  /\ State.settings (state w') = State.settings (state w)
  /\ State.selectedTaskLogs (state w') = State.selectedTaskLogs (state w).
Proof.
  intros Hdb Hstore Hsel Hin Hbad w'. subst w'.
  assert (Hrun : exists s',
             loadInitialData env w
             = (Rejected,
                mkWorld
                  (Db.with_logs (reconcile (Db.logs (db w)) (Db.logs (db w)))
                     (db w)) s')
             /\ State.settings s' = State.settings (state w)
             /\ State.selectedTaskLogs s' = State.selectedTaskLogs (state w)).
  { unfold loadInitialData. rewrite Hdb. run_m.
    rewrite (reconcile_loop env _ w Hstore).
    set (w1 := mkWorld _ (state w)).
    destruct (loadSelectedTaskLogs_resolves (Db.settings (db w)) [] w1 Hsel)
      as [selected Hselected].
    rewrite Hselected. subst w1. cbn [db state].
    destruct (@Mutations_loadInitialData_reject (initialSettings env)
                (orderBy Task.order (Db.tasks (db w)))
                (orderBy Tag.order (Db.tags (db w)))
                (Db.taskTagMap (db w)) (Db.settings (db w)) selected (state w)
                bad Hin)
      as (s' & Hmut & Hframe).
    { intros Hsorted. apply Hbad.
      apply (Permutation_in _ (Permutation_map Task.id
                                 (orderBy_perm Task.order _))).
      exact Hsorted. }
    exists s'. rewrite Hmut. split; [reflexivity | exact Hframe]. }
  destruct Hrun as (s' & Hrun & Hframe).
  unfold run. rewrite Hrun. cbn [fst snd state]. split; [reflexivity|].
  exact Hframe.
Qed.

Lemma loadInitialData_rejects_a_dangling_row_witness :
  fst (loadInitialData Sample.env
         (mkWorld
            (Db.with_taskTagMap
               [Sample.rowM; TaskTagMap.mk "taskTag-z" "task-9" "tag-a"]
               Sample.database)
            Sample.store))
  = Rejected.
Proof.
  apply (@loadInitialData_rejects_a_dangling_row Sample.env _
           (TaskTagMap.mk "taskTag-z" "task-9" "tag-a") eq_refl eq_refl).
  - simpl. intros kv [<- | [<- | []]]; simpl; discriminate.
  - simpl. auto.
  - simpl. intuition discriminate.
Defined.

Lemma fold_set_get_other {V W : Type} (f : string * W -> V)
    (ini : list (string * W)) (o : JsObj.t V) (k : string) :
  ~ In k (map fst ini) ->
  JsObj.get k (fold_left (fun o kv => JsObj.set (fst kv) (f kv) o) ini o)
  = JsObj.get k o.
Proof.
  revert o. induction ini as [|kv rest IH]; intros o Hnotin; simpl; auto.
  rewrite IH by (intros Hin; apply Hnotin; now right).
  apply JsObjFacts.get_set_other. intros Heq. apply Hnotin. now left.
Qed.

Lemma fold_set_get {V W : Type} (f : string * W -> V)
    (ini : list (string * W)) (o : JsObj.t V) (k : string) (d : W) :
  NoDup (map fst ini) ->
  In (k, d) ini ->
  JsObj.get k (fold_left (fun o kv => JsObj.set (fst kv) (f kv) o) ini o)
  = Some (f (k, d)).
Proof.
  revert o. induction ini as [|kv rest IH]; intros o Hnd Hin; [destruct Hin|].
  inversion Hnd as [|? ? Hnotin Hnd']; subst. simpl. destruct Hin as [-> | Hin].
  - rewrite fold_set_get_other by exact Hnotin.
    apply JsObjFacts.get_set_same.
  - now apply IH.
Qed.

Lemma loadSelectedTaskLogs_skip (settings : list SettingKv.t)
    (acc : list TaskLog.t) (w : World) :
  (forall kv, In kv settings -> SettingKv.key kv <> "selectedTaskID") ->
  loadSelectedTaskLogs settings acc w = (Resolved acc, w).
Proof.
  revert acc. induction settings as [|kv rest IH]; intros acc Hno; auto.
  cbn [loadSelectedTaskLogs].
  destruct (String.eqb_spec (SettingKv.key kv) "selectedTaskID") as [Heq|_].
  - exfalso. exact (Hno kv (or_introl eq_refl) Heq).
  - cbn [andb]. apply IH. intros kv' Hin. apply Hno. now right.
Qed.

Lemma loadSelectedTaskLogs_selected (settings : list SettingKv.t)
    (acc : list TaskLog.t) (w : World) (x : string) :
  NoDup (map SettingKv.key settings) ->
  tbl_get SettingKv.key "selectedTaskID" settings
  = Some (SettingKv.mk "selectedTaskID" (VStr x)) ->
  x <> "" ->
  loadSelectedTaskLogs settings acc w
  = (Resolved (filter (fun l => (TaskLog.taskId l =? x)%string) (Db.logs (db w))),
     w).
Proof.
  intros Hnd Hget Hx. revert acc.
  induction settings as [|kv rest IH]; intros acc; [discriminate|].
  inversion Hnd as [|? ? Hnotin Hnd']; subst.
  unfold tbl_get in Hget. cbn [find] in Hget. cbn [loadSelectedTaskLogs].
  destruct (SettingKv.key kv =? "selectedTaskID")%string eqn:Ekey.
  - injection Hget as ->. cbn [SettingKv.value truthy_value andb].
    unfold truthy_str. apply String.eqb_neq in Hx. rewrite Hx. cbn [negb].
    run_m. apply loadSelectedTaskLogs_skip.
    intros kv' Hin Heq. apply Hnotin. cbn [SettingKv.key]. rewrite <- Heq.
    now apply in_map.
  - cbn [andb]. now apply IH.
Qed.

(** X12. [loadInitialData] restores the settings and the selection (same
    conditions, the keys of the [settings] table and of the default
    settings distinct): every setting the defaults name gets the stored
    value, or its default when the table has none; and when the table
    holds a task id as [selectedTaskID], the selected logs are the logs of
    that task as the load leaves them in the table, while without a stored
    selection there are none. *)
Theorem loadInitialData_restores_settings_and_selection
    (env : Env) (w : World) :
  dexieDb env = true ->
  storageEnabled env = true ->
  NoDup (map SettingKv.key (Db.settings (db w))) ->
  NoDup (JsObj.keys (initialSettings env)) ->
  (forall row, In row (Db.taskTagMap (db w)) ->
     In (TaskTagMap.taskId row) (map Task.id (Db.tasks (db w)))) ->
  (forall kv, In kv (Db.settings (db w)) ->
     SettingKv.key kv = "selectedTaskID" -> SettingKv.value kv <> VBool true) ->
  let w' := run (loadInitialData env) w in
  (forall key default,
      In (key, default) (initialSettings env) ->
      JsObj.get key (State.settings (state w'))
      = Some match tbl_get SettingKv.key key (Db.settings (db w)) with
             | Some kv => SettingKv.value kv
             | None => default
             end)
  /\ (forall x,
        x <> "" ->
        tbl_get SettingKv.key "selectedTaskID" (Db.settings (db w))
        = Some (SettingKv.mk "selectedTaskID" (VStr x)) ->
        State.selectedTaskLogs (state w')
        = filter (fun l => (TaskLog.taskId l =? x)%string) (Db.logs (db w')))
  /\ (tbl_get SettingKv.key "selectedTaskID" (Db.settings (db w)) = None ->
      State.selectedTaskLogs (state w') = []).
Proof.
  intros Hdb Hstore HndSettings HndIni Hrows Hsel w'. subst w'.
  destruct (loadInitialData_run env w Hdb Hstore Hrows Hsel)
    as (m' & selected & Hrun & Hselected & _).
  unfold run. rewrite Hrun.
  cbn [snd db state State.settings State.selectedTaskLogs] in *.
  split; [|split].
  - intros key default Hin.
    exact (fold_set_get
             (fun kv =>
                match tbl_get SettingKv.key (fst kv) (Db.settings (db w)) with
                | Some found => SettingKv.value found
                | None => snd kv
                end)
             (initialSettings env) (State.settings (state w)) key default
             HndIni Hin).
  - intros x Hx Hget.
    rewrite (loadSelectedTaskLogs_selected _ [] _ HndSettings Hget Hx)
      in Hselected.
    now injection Hselected as <-.
  - intros Hnone. rewrite loadSelectedTaskLogs_skip in Hselected.
    + now injection Hselected as <-.
    + intros kv Hin. exact (proj1 (tbl_get_None _ _ _) Hnone kv Hin).
Qed.

Lemma loadInitialData_restores_settings_and_selection_witness :
  State.selectedTaskLogs (state (run (loadInitialData Sample.env) Sample.world))
  = filter (fun l => (TaskLog.taskId l =? "task-2")%string)
      (Db.logs (db (run (loadInitialData Sample.env) Sample.world))).
Proof.
  refine (proj1 (proj2 (@loadInitialData_restores_settings_and_selection
                          Sample.env Sample.world eq_refl eq_refl _ _ _ _))
            "task-2" _ eq_refl).
  - simpl. repeat constructor; simpl; intuition discriminate.
  - simpl. repeat constructor; simpl; intuition discriminate.
  - simpl. intros row [<- | []]. simpl. auto.
  - simpl. intros kv [<- | [<- | []]]; simpl; discriminate.
  - discriminate.
Defined.

(** ** Tags *)

(** The store the mutation [deleteTag] leaves. *)
Lemma Mutations_deleteTag_run (tagId : string) (s : State.t)
    (selected : list string) :
  (forall k, In k (JsObj.keys (State.tasks s)) ->
             exists l, JsObj.get k (State.taskTagsMap s) = Some l) ->
  JsObj.get "selectedTagIds" (State.settings s) = Some (VList selected) ->
  exists m',
    Mutations.deleteTag tagId s
    = (Resolved tt,
       State.mk (State.tasks s) (JsObj.del tagId (State.tags s))
         (without tagId (State.tagOrder s)) m'
         (JsObj.set "selectedTagIds" (VList (without tagId selected))
            (State.settings s))
         (State.selectedTaskLogs s) (State.tempState s) false)
    /\ forall t,
         JsObj.get t m'
         = if mem t (JsObj.keys (State.tasks s))
           then option_map (without tagId) (JsObj.get t (State.taskTagsMap s))
           else JsObj.get t (State.taskTagsMap s).
Proof.
  intros Hall Hsel. unfold Mutations.deleteTag. run_m.
  destruct (deleteTag_loop tagId _ s Hall) as (m' & Hrun & Hget).
  rewrite Hrun. cbn [State.settings State.with_taskTagsMap]. rewrite Hsel.
  exists m'. split; [reflexivity | exact Hget].
Qed.

(** What a confirmed [deleteTag] does to a tag of the table. *)
Lemma deleteTag_run (env : Env) (tagId : string) (w : World) (tag : Tag.t)
    (selected : list string) :
  dexieDb env = true ->
  storageEnabled env = true ->
  (forall k, In k (JsObj.keys (State.tasks (state w))) ->
             exists l, JsObj.get k (State.taskTagsMap (state w)) = Some l) ->
  JsObj.get "selectedTagIds" (State.settings (state w)) = Some (VList selected) ->
  tbl_get Tag.id tagId (Db.tags (db w)) = Some tag ->
  exists m',
    deleteTag env true tagId w
    = (Resolved tt,
       mkWorld
         (Db.with_tags
            (tbl_delete (fun t => (Tag.id t =? tagId)%string) (Db.tags (db w)))
            (Db.with_taskTagMap
               (tbl_delete (fun row => (TaskTagMap.tagId row =? tagId)%string)
                  (Db.taskTagMap (db w))) (db w)))
         (State.mk (State.tasks (state w))
            (JsObj.del tagId (State.tags (state w)))
            (without tagId (State.tagOrder (state w))) m'
            (JsObj.set "selectedTagIds" (VList (without tagId selected))
               (State.settings (state w)))
            (State.selectedTaskLogs (state w)) (State.tempState (state w))
            false))
    /\ forall t,
         JsObj.get t m'
         = if mem t (JsObj.keys (State.tasks (state w)))
           then option_map (without tagId)
                  (JsObj.get t (State.taskTagsMap (state w)))
           else JsObj.get t (State.taskTagsMap (state w)).
Proof.
  intros Hdb Hstore Hall Hsel Hfound.
  destruct (Mutations_deleteTag_run tagId (state w) Hall Hsel)
    as (m' & Hmut & Hget).
  exists m'. split; [|exact Hget].
  unfold deleteTag. rewrite Hdb. run_m. rewrite Hfound.
  unfold taskTagMap_delete, tags_delete. run_m. rewrite Hstore. run_m.
  rewrite Hmut. reflexivity.
Qed.

(** X13. [deleteTag], confirmed, removes the tag everywhere but in the
    stored filters: the tag and its association rows leave their tables,
    the store loses the tag, its place in [tagOrder], its id in every
    task's tag list and in the tag filters, and the activity modal is
    closed; the [settings] table is not written, so the stored
    [selectedTagIds] stay as they were.  Unconfirmed, or for an id the
    [tags] table does not have, [deleteTag] changes nothing. *)
Theorem deleteTag_removes_the_tag
    (env : Env) (tagId : string) (w : World) (tag : Tag.t)
    (selected : list string) :
  dexieDb env = true ->
  storageEnabled env = true ->
  (forall k, In k (JsObj.keys (State.tasks (state w))) ->
             exists l, JsObj.get k (State.taskTagsMap (state w)) = Some l) ->
  JsObj.get "selectedTagIds" (State.settings (state w)) = Some (VList selected) ->
  (tbl_get Tag.id tagId (Db.tags (db w)) = Some tag ->
   let w' := run (deleteTag env true tagId) w in
   fst (deleteTag env true tagId w) = Resolved tt
   /\ (forall t, In t (Db.tags (db w'))
                 <-> In t (Db.tags (db w)) /\ Tag.id t <> tagId)
   /\ (forall row, In row (Db.taskTagMap (db w'))
                   <-> In row (Db.taskTagMap (db w))
                       /\ TaskTagMap.tagId row <> tagId)
   /\ JsObj.get tagId (State.tags (state w')) = None
   /\ ~ In tagId (State.tagOrder (state w'))
   /\ (forall t l, In t (JsObj.keys (State.tasks (state w))) ->
         JsObj.get t (State.taskTagsMap (state w')) = Some l -> ~ In tagId l)
   /\ JsObj.get "selectedTagIds" (State.settings (state w'))
      = Some (VList (without tagId selected))
   /\ Db.settings (db w') = Db.settings (db w)
   /\ State.isActivityModalVisible (state w') = false)
  /\ (forall confirmed,
        confirmed = false \/ tbl_get Tag.id tagId (Db.tags (db w)) = None ->
        deleteTag env confirmed tagId w = (Resolved tt, w)).
Proof.
  intros Hdb Hstore Hall Hsel. split.
  - intros Hfound w'. subst w'.
    destruct (deleteTag_run env tagId w Hdb Hstore Hall Hsel Hfound)
      as (m' & Hrun & Hget).
    unfold run. rewrite Hrun.
    cbn [fst snd db state Db.tags Db.taskTagMap Db.settings Db.with_tags
         Db.with_taskTagMap State.tags State.tagOrder State.taskTagsMap
         State.settings State.isActivityModalVisible].
    split; [reflexivity|].
    split; [intros t; rewrite In_tbl_delete, negb_false_iff_eqb; tauto|].
    split; [intros row; rewrite In_tbl_delete, negb_false_iff_eqb; tauto|].
    split; [apply JsObjFacts.get_del_same|].
    split; [intros Hin; apply In_without in Hin; tauto|].
    split.
    { intros t l Hin Hl. rewrite Hget in Hl. apply mem_In in Hin.
      rewrite Hin in Hl.
      destruct (JsObj.get t (State.taskTagsMap (state w))) as [l0|];
        [|discriminate].
      injection Hl as <-. intros Hbad. apply In_without in Hbad. tauto. }
    split; [apply JsObjFacts.get_set_same|].
    split; reflexivity.
  - intros confirmed Hcase. unfold deleteTag. rewrite Hdb. run_m.
    destruct Hcase as [-> | ->]; [|reflexivity].
    now destruct (tbl_get Tag.id tagId (Db.tags (db w))).
Qed.

Lemma deleteTag_removes_the_tag_witness :
  JsObj.get "selectedTagIds"
    (State.settings (state (run (deleteTag Sample.env true "tag-a") Sample.world)))
  = Some (VList [])
  /\ Db.settings (db (run (deleteTag Sample.env true "tag-a") Sample.world))
     = Db.settings (db Sample.world).
Proof.
  assert (Hall : forall k,
             In k (JsObj.keys (State.tasks (state Sample.world))) ->
             exists l,
               JsObj.get k (State.taskTagsMap (state Sample.world)) = Some l).
  { simpl. intros k [<- | [<- | []]]; simpl; eauto. }
  destruct (proj1 (@deleteTag_removes_the_tag Sample.env "tag-a" Sample.world
                     Sample.tagA ["tag-a"] eq_refl eq_refl Hall eq_refl)
              eq_refl)
    as (_ & _ & _ & _ & _ & _ & Hfilter & Hstored & _).
  split; [exact Hfilter | exact Hstored].
Defined.

Lemma fold_set_get_absent {V : Type} (key : V -> string) (items : list V)
    (o : JsObj.t V) (k : string) :
  ~ In k (map key items) ->
  JsObj.get k (fold_left (fun o x => JsObj.set (key x) x o) items o)
  = JsObj.get k o.
Proof.
  revert o. induction items as [|x rest IH]; intros o Hnotin; simpl; auto.
  rewrite IH by (intros Hin; apply Hnotin; now right).
  apply JsObjFacts.get_set_other. intros Heq. apply Hnotin. now left.
Qed.

(** X14. The filter of a deleted tag comes back on reload: [deleteTag]
    drops the tag's id from the tag filters of the store but leaves the
    stored [selectedTagIds] alone, so when the stored filters list the tag,
    a [loadInitialData] after the deletion puts the stored list, with the
    deleted tag's id, back into the store, which no longer has the tag. *)
Theorem deleted_tag_filter_returns_on_reload
    (env : Env) (tagId : string) (w : World) (tag : Tag.t)
    (selected stored : list string) (default : SettingValue) :
  dexieDb env = true ->
  storageEnabled env = true ->
  (forall k, In k (JsObj.keys (State.tasks (state w))) ->
             exists l, JsObj.get k (State.taskTagsMap (state w)) = Some l) ->
  JsObj.get "selectedTagIds" (State.settings (state w)) = Some (VList selected) ->
  tbl_get Tag.id tagId (Db.tags (db w)) = Some tag ->
  tbl_get SettingKv.key "selectedTagIds" (Db.settings (db w))
  = Some (SettingKv.mk "selectedTagIds" (VList stored)) ->
  In tagId stored ->
  NoDup (JsObj.keys (initialSettings env)) ->
  In ("selectedTagIds", default) (initialSettings env) ->
  (forall row, In row (Db.taskTagMap (db w)) ->
     In (TaskTagMap.taskId row) (map Task.id (Db.tasks (db w)))) ->
  (forall kv, In kv (Db.settings (db w)) ->
     SettingKv.key kv = "selectedTaskID" -> SettingKv.value kv <> VBool true) ->
  let w1 := run (deleteTag env true tagId) w in
  let w2 := run (loadInitialData env) w1 in
  JsObj.get "selectedTagIds" (State.settings (state w1))
  = Some (VList (without tagId selected))
  /\ JsObj.get "selectedTagIds" (State.settings (state w2)) = Some (VList stored)
  /\ JsObj.get tagId (State.tags (state w2)) = None.
Proof.
  intros Hdb Hstore Hall Hsel Hfound Hstored Hin HndIni Hdefault Hrows Hbool
         w1 w2.
  destruct (deleteTag_run env tagId w Hdb Hstore Hall Hsel Hfound)
    as (m1 & Hrun1 & _).
  assert (Hw1 : db w1
                = Db.with_tags
                    (tbl_delete (fun t => (Tag.id t =? tagId)%string)
                       (Db.tags (db w)))
                    (Db.with_taskTagMap
                       (tbl_delete
                          (fun row => (TaskTagMap.tagId row =? tagId)%string)
                          (Db.taskTagMap (db w))) (db w))).
  { unfold w1, run. now rewrite Hrun1. }
  split.
  { unfold w1, run. rewrite Hrun1. cbn [snd state State.settings].
    apply JsObjFacts.get_set_same. }
  destruct (loadInitialData_run env w1 Hdb Hstore) as (m2 & sel2 & Hrun2 & _).
  { rewrite Hw1. cbn [Db.taskTagMap Db.tasks Db.with_tags Db.with_taskTagMap].
    intros row Hrow. apply In_tbl_delete in Hrow. apply Hrows. tauto. }
  { rewrite Hw1. cbn [Db.settings Db.with_tags Db.with_taskTagMap]. exact Hbool. }
  unfold w2, run. rewrite Hrun2. cbn [snd state State.settings State.tags].
  rewrite Hw1. cbn [Db.settings Db.tags Db.with_tags Db.with_taskTagMap].
  split.
  - rewrite (fold_set_get
               (fun kv =>
                  match tbl_get SettingKv.key (fst kv) (Db.settings (db w)) with
                  | Some found => SettingKv.value found
                  | None => snd kv
                  end)
               (initialSettings env) _ "selectedTagIds" default HndIni Hdefault).
    cbn [fst]. now rewrite Hstored.
  - rewrite fold_set_get_absent; [reflexivity|].
    intros Hkeys. apply in_map_iff in Hkeys. destruct Hkeys as (t & Hid & Ht).
    apply (Permutation_in _ (orderBy_perm Tag.order _)) in Ht.
    apply In_tbl_delete in Ht. destruct Ht as [_ Hne].
    apply negb_false_iff_eqb in Hne. contradiction.
Qed.

Lemma deleted_tag_filter_returns_on_reload_witness :
  JsObj.get "selectedTagIds"
    (State.settings
       (state (run (loadInitialData Sample.env)
                 (run (deleteTag Sample.env true "tag-a") Sample.world))))
  = Some (VList ["tag-a"])
  /\ JsObj.get "tag-a"
       (State.tags
          (state (run (loadInitialData Sample.env)
                    (run (deleteTag Sample.env true "tag-a") Sample.world))))
     = None.
Proof.
  assert (Hall : forall k,
             In k (JsObj.keys (State.tasks (state Sample.world))) ->
             exists l,
               JsObj.get k (State.taskTagsMap (state Sample.world)) = Some l).
  { simpl. intros k [<- | [<- | []]]; simpl; eauto. }
  refine (proj2 (@deleted_tag_filter_returns_on_reload Sample.env "tag-a"
                   Sample.world Sample.tagA ["tag-a"] ["tag-a"]
                   (VList ["tag-a"]) eq_refl eq_refl Hall eq_refl eq_refl
                   eq_refl _ _ _ _ _)).
  - simpl. auto.
  - simpl. repeat constructor; simpl; intuition discriminate.
  - simpl. auto.
  - simpl. intros row [<- | []]. simpl. auto.
  - simpl. intros kv [<- | [<- | []]]; simpl; discriminate.
Defined.

(** X15. [removeTaskTag] re-reads the task's rows: whatever the store
    held for the task before, its entry of [taskTagsMap] is afterwards
    exactly the tag ids of the task's rows, in table order, and the removed
    tag is not among them; the table loses exactly the rows that link the
    task to the tag, and the entries of the other tasks stay.  The action
    asks no leave of the disk-space guard and does not look for the task
    in the store. *)
Theorem removeTaskTag_resyncs_the_task
    (env : Env) (taskId tagId : string) (w : World) :
  dexieDb env = true ->
  let w' := run (removeTaskTag env taskId tagId) w in
  JsObj.get taskId (State.taskTagsMap (state w'))
  = Some (tagIdsOf taskId (Db.taskTagMap (db w')))
  /\ ~ In tagId (tagIdsOf taskId (Db.taskTagMap (db w')))
  /\ (forall row,
        In row (Db.taskTagMap (db w'))
        <-> In row (Db.taskTagMap (db w))
            /\ ~ (TaskTagMap.taskId row = taskId /\ TaskTagMap.tagId row = tagId))
  /\ (forall k, k <> taskId ->
        JsObj.get k (State.taskTagsMap (state w'))
        = JsObj.get k (State.taskTagsMap (state w))).
Proof.
  intros Hdb w'. subst w'. unfold run, removeTaskTag. rewrite Hdb.
  unfold taskTagMap_delete. run_m. unfold Mutations.deleteTaskTag.
  cbn [db state Db.taskTagMap Db.with_taskTagMap State.taskTagsMap
       State.with_taskTagsMap].
  fold (tagIdsOf taskId
          (tbl_delete
             (fun row => (TaskTagMap.taskId row =? taskId)%string
                         && (TaskTagMap.tagId row =? tagId)%string)
             (Db.taskTagMap (db w)))).
  split; [apply JsObjFacts.get_set_same|].
  split.
  { unfold tagIdsOf. intros Hin. apply in_map_iff in Hin.
    destruct Hin as (row & Htag & Hrow). apply filter_In in Hrow.
    destruct Hrow as [Hrow Htask]. apply In_tbl_delete in Hrow.
    destruct Hrow as [_ Hdel]. rewrite Htask in Hdel. cbn [andb] in Hdel.
    apply String.eqb_neq in Hdel. contradiction. }
  split.
  { intros row. rewrite In_tbl_delete, andb_false_iff.
    rewrite !negb_false_iff_eqb.
    destruct (string_dec (TaskTagMap.taskId row) taskId),
             (string_dec (TaskTagMap.tagId row) tagId); tauto. }
  intros k Hne. apply JsObjFacts.get_set_other. congruence.
Qed.

Lemma removeTaskTag_resyncs_the_task_witness :
  JsObj.get "task-1"
    (State.taskTagsMap
       (state (run (removeTaskTag Sample.lowDisk "task-1" "tag-a") Sample.world)))
  = Some [].
Proof.
  exact (proj1 (@removeTaskTag_resyncs_the_task Sample.lowDisk "task-1" "tag-a"
                  Sample.world eq_refl)).
Defined.

Lemma last_Some_In {A : Type} (l : list A) (m : A) :
  last (map Some l) None = Some m -> In m l.
Proof.
  induction l as [|x rest IH]; [discriminate|].
  destruct rest as [|y rest']; cbn [map last].
  - intros [= ->]. now left.
  - intros H. right. apply IH. exact H.
Qed.

Lemma last_None_nil {A : Type} (l : list A) :
  last (map Some l) None = None -> l = [].
Proof.
  induction l as [|x rest IH]; auto.
  destruct rest as [|y rest']; cbn [map last]; [discriminate|].
  intros H. specialize (IH H). discriminate.
Qed.

Lemma ascending_last {R : Type} (ord : R -> Z) (l : list R) (m : R) :
  ascending ord l ->
  last (map Some l) None = Some m ->
  forall x, In x l -> ord x <= ord m.
Proof.
  induction l as [|y rest IH]; [discriminate|].
  intros [Hy Hrest] Hlast x Hin.
  destruct rest as [|z rest'].
  - cbn in Hlast. injection Hlast as <-. destruct Hin as [<- | []]. lia.
  - assert (Hm : last (map Some (z :: rest')) None = Some m) by exact Hlast.
    destruct Hin as [<- | Hin].
    + apply Hy. now apply last_Some_In.
    + now apply IH.
Qed.

(** [lastByOrder] is a tag of greatest [order]. *)
Lemma lastByOrder_max (tags : list Tag.t) :
  match lastByOrder tags with
  | Some m => forall t, In t tags -> Tag.order t <= Tag.order m
  | None => tags = []
  end.
Proof.
  unfold lastByOrder.
  destruct (last (map Some (orderBy Tag.order tags)) None) as [m|] eqn:Hlast.
  - intros t Hin.
    apply (ascending_last Tag.order (orderBy Tag.order tags));
      auto using orderBy_ascending.
    apply (Permutation_in _ (Permutation_sym (orderBy_perm Tag.order tags))).
    exact Hin.
  - apply last_None_nil in Hlast.
    pose proof (orderBy_perm Tag.order tags) as Hperm. rewrite Hlast in Hperm.
    now apply Permutation_nil in Hperm.
Qed.

(** The [tags] table after [addTaskTagByName]. *)
Lemma addTaskTagByName_tags
    (env : Env) (nanoidTag color nanoidMap taskId tagName : string) (w : World) :
  Db.tags (db (run (addTaskTagByName env nanoidTag color nanoidMap taskId
                      tagName) w))
  = if dexieDb env && truthy_str (trim tagName)
       && isNull (find (fun t => (Tag.tagName t =? trim tagName)%string)
                    (Db.tags (db w)))
       && negb (isNull (JsObj.get taskId (State.tasks (state w))))
       && negb (tbl_has Tag.id ("tag-" ++ nanoidTag) (Db.tags (db w)))
    then
      tbl_insert Tag.id
        (Tag.mk ("tag-" ++ nanoidTag) (trim tagName) color
           match lastByOrder (Db.tags (db w)) with
           | Some m => Tag.order m + 1
           | None => 0
           end)
        (Db.tags (db w))
    else Db.tags (db w).
Proof.
  unfold run, addTaskTagByName.
  destruct (dexieDb env); cbn [negb andb]; [|reflexivity].
  unfold tryCatch. cbn [snd].
  destruct (truthy_str (trim tagName)); cbn [andb]; [|reflexivity].
  run_m.
  destruct (JsObj.get taskId (State.tasks (state w))) as [task|];
    cbn [isNull negb andb]; [|now rewrite andb_false_r].
  rewrite andb_true_r.
  destruct (find _ (Db.tags (db w))) as [found|]; cbn [isNull andb].
  - unfold taskTagMap_add. run_m.
    destruct (tbl_add TaskTagMap.id _ (Db.taskTagMap (db w))) as [rows'|];
      cbn [option_map snd db state]; [|reflexivity].
    now destruct (Mutations.addTaskTag taskId found false (state w)).
  - unfold tags_add, taskTagMap_add. run_m. unfold tbl_add at 1. cbn [Tag.id].
    destruct (tbl_has Tag.id ("tag-" ++ nanoidTag) (Db.tags (db w)));
      cbn [option_map snd db negb]; [reflexivity|].
    cbn [db state Db.taskTagMap Db.with_tags].
    destruct (tbl_add TaskTagMap.id _ (Db.taskTagMap (db w))) as [rows'|];
      cbn [option_map snd db state]; [|reflexivity].
    match goal with
    | |- context [Mutations.addTaskTag ?a ?b ?c ?d] =>
        destruct (Mutations.addTaskTag a b c d)
    end.
    reflexivity.
Qed.

(** X16. Tags are found by name before they are made: when the [tags]
    table has a tag with the trimmed name, [addTaskTagByName] adds no tag;
    when it has none (the task in the store, the new tag id free), the new
    tag carries the trimmed name and the given colour, and its [order] is
    greater than that of every tag of the table; and in every case a table
    whose tags have distinct names keeps them distinct. *)
Theorem addTaskTagByName_finds_or_creates
    (env : Env) (nanoidTag color nanoidMap taskId tagName : string) (w : World) :
  let w' := run (addTaskTagByName env nanoidTag color nanoidMap taskId tagName) w in
  (distinctTagNames (Db.tags (db w)) -> distinctTagNames (Db.tags (db w')))
  /\ (In (trim tagName) (map Tag.tagName (Db.tags (db w))) ->
      Db.tags (db w') = Db.tags (db w))
  /\ (forall task,
        dexieDb env = true ->
        trim tagName <> "" ->
        JsObj.get taskId (State.tasks (state w)) = Some task ->
        ~ In (trim tagName) (map Tag.tagName (Db.tags (db w))) ->
        tbl_has Tag.id ("tag-" ++ nanoidTag) (Db.tags (db w)) = false ->
        exists order,
          tbl_get Tag.id ("tag-" ++ nanoidTag) (Db.tags (db w'))
          = Some (Tag.mk ("tag-" ++ nanoidTag) (trim tagName) color order)
          /\ forall t, In t (Db.tags (db w)) -> Tag.order t < order).
Proof.
  intros w'. subst w'. rewrite addTaskTagByName_tags.
  set (order := match lastByOrder (Db.tags (db w)) with
                | Some m => Tag.order m + 1
                | None => 0
                end).
  set (tag := Tag.mk ("tag-" ++ nanoidTag) (trim tagName) color order).
  assert (Hfind : match find (fun t => (Tag.tagName t =? trim tagName)%string)
                          (Db.tags (db w)) with
                  | Some _ => In (trim tagName) (map Tag.tagName (Db.tags (db w)))
                  | None => ~ In (trim tagName) (map Tag.tagName (Db.tags (db w)))
                  end).
  { destruct (find _ (Db.tags (db w))) as [t|] eqn:E.
    - apply find_some in E. destruct E as [Hin Heq].
      apply String.eqb_eq in Heq. rewrite <- Heq. now apply in_map.
    - intros Hin. apply in_map_iff in Hin. destruct Hin as (t & Heq & Hin).
      apply (find_none _ _ E) in Hin. apply String.eqb_neq in Hin.
      contradiction. }
  split; [|split].
  - intros Hnd.
    destruct (dexieDb env && truthy_str (trim tagName)); cbn [andb]; auto.
    destruct (find _ (Db.tags (db w))); cbn [isNull andb]; auto.
    destruct (negb (isNull (JsObj.get taskId (State.tasks (state w)))));
      cbn [andb]; auto.
    destruct (negb (tbl_has Tag.id ("tag-" ++ nanoidTag) (Db.tags (db w))));
      auto.
    unfold distinctTagNames in *.
    apply (Permutation_NoDup
             (Permutation_map Tag.tagName
                (Permutation_sym (tbl_insert_perm Tag.id tag _)))).
    cbn [map Tag.tagName tag]. now constructor.
  - intros Hin.
    destruct (find _ (Db.tags (db w))); [|contradiction].
    cbn [isNull]. now rewrite andb_false_r.
  - intros task Hdb Hname Htask Hnot Hfree.
    assert (Htruthy : truthy_str (trim tagName) = true).
    { unfold truthy_str. apply negb_true_iff. now apply String.eqb_neq. }
    rewrite Hdb, Htruthy, Htask, Hfree.
    destruct (find _ (Db.tags (db w))); [contradiction|].
    cbn [isNull negb andb].
    exists order. split.
    + change ("tag-" ++ nanoidTag)%string with (Tag.id tag) at 1.
      apply tbl_get_insert_fresh. now apply tbl_has_false.
    + intros t Hin. unfold order.
      pose proof (lastByOrder_max (Db.tags (db w))) as Hmax.
      destruct (lastByOrder (Db.tags (db w))) as [m|].
      * specialize (Hmax t Hin). lia.
      * rewrite Hmax in Hin. destruct Hin.
Qed.

Lemma addTaskTagByName_finds_or_creates_witness :
  distinctTagNames
    (Db.tags (db (run (addTaskTagByName Sample.env "c" "green" "m2" "task-1"
                         " garden ") Sample.world))).
Proof.
  apply (@addTaskTagByName_finds_or_creates Sample.env "c" "green" "m2"
           "task-1" " garden " Sample.world).
  unfold distinctTagNames. simpl.
  repeat constructor; simpl; intuition discriminate.
Defined.

(** ** The order of the tags *)

Lemma Tag_with_order_same (tag : Tag.t) : Tag_with_order (Tag.order tag) tag = tag.
Proof. now destruct tag. Qed.

Lemma with_tags_same (s : State.t) : State.with_tags (State.tags s) s = s.
Proof. now destruct s. Qed.

(** One turn of the loop of [reorderTags]. *)
Lemma renumberTag_step (i : Z) (k : string) (tag : Tag.t) (s : State.t) :
  JsObj.get k (State.tags s) = Some tag ->
  (if Tag.order tag =? i then s
   else State.with_tags (JsObj.set k (Tag_with_order i tag) (State.tags s)) s)
  = State.with_tags (JsObj.set k (Tag_with_order i tag) (State.tags s)) s.
Proof.
  intros Hget. destruct (Z.eqb_spec (Tag.order tag) i) as [<-|]; auto.
  rewrite Tag_with_order_same, (JsObjFacts.set_same_value _ _ Hget).
  now rewrite with_tags_same.
Qed.

Lemma renumberTags_run (newOrder : list string) (i : Z) (s : State.t) :
  NoDup newOrder ->
  (forall k, In k newOrder -> exists tag, JsObj.get k (State.tags s) = Some tag) ->
  exists tags',
    renumberTags i newOrder s = (Resolved tt, State.with_tags tags' s)
    /\ (forall k, ~ In k newOrder -> JsObj.get k tags' = JsObj.get k (State.tags s))
    /\ (forall n k, nth_error newOrder n = Some k ->
          JsObj.get k tags'
          = option_map (Tag_with_order (i + Z.of_nat n))
              (JsObj.get k (State.tags s))).
Proof.
  revert i s. induction newOrder as [|k0 rest IH]; intros i s Hnd Hall.
  - exists (State.tags s). split; [|split].
    + cbn [renumberTags]. unfold ret. now rewrite with_tags_same.
    + auto.
    + intros [|n] k; discriminate.
  - inversion Hnd as [|? ? Hnotin Hnd']; subst.
    destruct (Hall k0 (or_introl eq_refl)) as (tag0 & Htag0).
    cbn [renumberTags]. rewrite Htag0, (renumberTag_step i k0 s Htag0).
    set (s1 := State.with_tags
                 (JsObj.set k0 (Tag_with_order i tag0) (State.tags s)) s).
    destruct (IH (i + 1) s1 Hnd') as (tags' & Hrun & Hother & Hnth).
    { intros k Hin. unfold s1. cbn [State.tags State.with_tags].
      destruct (string_dec k k0) as [-> | Hne].
      - rewrite JsObjFacts.get_set_same. eauto.
      - rewrite JsObjFacts.get_set_other by assumption. apply Hall. now right. }
    exists tags'. split; [|split].
    + rewrite Hrun. unfold s1. now destruct s.
    + intros k Hnot. rewrite Hother by (intros Hin; apply Hnot; now right).
      unfold s1. cbn [State.tags State.with_tags].
      apply JsObjFacts.get_set_other. intros ->. apply Hnot. now left.
    + intros [|n] k Hk; cbn [nth_error] in Hk.
      * injection Hk as <-. rewrite (Hother _ Hnotin). unfold s1.
        cbn [State.tags State.with_tags].
        rewrite JsObjFacts.get_set_same, Htag0. cbn [option_map].
        now rewrite Z.add_0_r.
      * rewrite (Hnth n k Hk). unfold s1. cbn [State.tags State.with_tags].
        rewrite JsObjFacts.get_set_other.
        -- f_equal. f_equal. lia.
        -- intros ->. apply Hnotin. eapply nth_error_In; eauto.
Qed.

Lemma renumberTags_reject (newOrder : list string) (i : Z) (s : State.t)
    (missing : string) :
  In missing newOrder ->
  JsObj.get missing (State.tags s) = None ->
  exists tags',
    renumberTags i newOrder s = (Rejected, State.with_tags tags' s).
Proof.
  revert i s. induction newOrder as [|k0 rest IH]; intros i s Hin Hnone;
    [destruct Hin|].
  cbn [renumberTags].
  destruct (JsObj.get k0 (State.tags s)) as [tag0|] eqn:Htag0.
  - rewrite (renumberTag_step i k0 s Htag0).
    destruct Hin as [-> | Hin]; [congruence|].
    set (s1 := State.with_tags
                 (JsObj.set k0 (Tag_with_order i tag0) (State.tags s)) s).
    destruct (IH (i + 1) s1 Hin) as (tags' & Hrun).
    { unfold s1. cbn [State.tags State.with_tags].
      rewrite JsObjFacts.get_set_other; auto. congruence. }
    exists tags'. rewrite Hrun. unfold s1. now destruct s.
  - exists (State.tags s). now rewrite with_tags_same.
Qed.

Lemma lookups_all {V : Type} (o : JsObj.t V) (l : list string) :
  (forall k, In k l -> exists v, JsObj.get k o = Some v) ->
  map Some
    (flat_map (fun k => match JsObj.get k o with
                        | Some v => [v]
                        | None => []
                        end) l)
  = map (fun k => JsObj.get k o) l.
Proof.
  induction l as [|k rest IH]; intros Hall; auto.
  cbn [flat_map map]. destruct (Hall k (or_introl eq_refl)) as (v & Hv).
  rewrite Hv. cbn [app map]. f_equal. apply IH. intros k' Hin. apply Hall.
  now right.
Qed.

Lemma map_Some_nth {A B : Type} (f : B -> option A) (ts : list A) (l : list B)
    (n : nat) (k : B) :
  map Some ts = map f l ->
  nth_error l n = Some k ->
  exists t, f k = Some t /\ nth_error ts n = Some t.
Proof.
  revert l n. induction ts as [|t rest IH]; intros [|k0 l] n Heq Hn;
    try discriminate.
  - destruct n; discriminate.
  - cbn [map] in Heq. injection Heq as Ht Hrest. destruct n as [|n].
    + injection Hn as <-. exists t. now split.
    + cbn [nth_error] in *. eauto.
Qed.

Lemma map_Some_In {A B : Type} (f : B -> option A) (ts : list A) (l : list B)
    (t : A) :
  map Some ts = map f l -> In t ts -> exists k, In k l /\ f k = Some t.
Proof.
  revert l. induction ts as [|t0 rest IH]; intros [|k0 l] Heq Hin;
    try discriminate; [destruct Hin|].
  cbn [map] in Heq. injection Heq as Ht Hrest. destruct Hin as [<- | Hin].
  - exists k0. split; [now left | auto].
  - destruct (IH l Hrest Hin) as (k & Hk & Hf). exists k. split; [now right|auto].
Qed.

Lemma fold_set_same (ts : list Tag.t) (s : State.t) :
  (forall t, In t ts -> JsObj.get (Tag.id t) (State.tags s) = Some t) ->
  fold_left
    (fun acc tag =>
       State.with_tags (JsObj.set (Tag.id tag) tag (State.tags acc)) acc)
    ts s
  = s.
Proof.
  induction ts as [|t rest IH]; intros Hall; auto.
  cbn [fold_left].
  rewrite (JsObjFacts.set_same_value _ _ (Hall t (or_introl eq_refl))).
  rewrite with_tags_same. apply IH. intros t' Hin. apply Hall. now right.
Qed.

(** X17. [reorderTags] numbers the tags by their place in the new order:
    for distinct tag ids that the store has (its tags under their own ids,
    storage enabled), the action resolves, [tagOrder] becomes the new
    order, and the tag at place [n] has [order] n, with its name and
    colour, in the store and in the table alike; tags that are not in the
    new order stay as they are.  An id the store does not have makes the
    action reject before anything is written to the table or to
    [tagOrder]. *)
Theorem reorderTags_numbers_the_tags
    (env : Env) (newOrder : list string) (w : World) :
  dexieDb env = true ->
  storageEnabled env = true ->
  tags_keyed (state w) ->
  (NoDup newOrder ->
   (forall k, In k newOrder ->
      exists tag, JsObj.get k (State.tags (state w)) = Some tag) ->
   let w' := run (reorderTags env newOrder) w in
   fst (reorderTags env newOrder w) = Resolved tt
   /\ State.tagOrder (state w') = newOrder
   /\ (forall n k,
         nth_error newOrder n = Some k ->
         exists tag,
           JsObj.get k (State.tags (state w)) = Some tag
           /\ JsObj.get k (State.tags (state w'))
              = Some (Tag_with_order (Z.of_nat n) tag)
           /\ tbl_get Tag.id k (Db.tags (db w'))
              = Some (Tag_with_order (Z.of_nat n) tag))
   /\ (forall k, ~ In k newOrder ->
         JsObj.get k (State.tags (state w')) = JsObj.get k (State.tags (state w))
         /\ tbl_get Tag.id k (Db.tags (db w'))
            = tbl_get Tag.id k (Db.tags (db w))))
  /\ (forall missing,
        In missing newOrder ->
        JsObj.get missing (State.tags (state w)) = None ->
        let w' := run (reorderTags env newOrder) w in
        fst (reorderTags env newOrder w) = Rejected
        /\ db w' = db w
        /\ State.tagOrder (state w') = State.tagOrder (state w)).
Proof.
  intros Hdb Hstore Hkeyed. split.
  - intros Hnd Hall w'. subst w'.
    destruct (renumberTags_run 0 (state w) Hnd Hall)
      as (tags' & Hloop & Hother & Hnth).
    set (look := fun k => JsObj.get k tags').
    assert (Hall' : forall k, In k newOrder -> exists v, JsObj.get k tags' = Some v).
    { intros k Hin. destruct (In_nth_error _ _ Hin) as (n & Hn).
      rewrite (Hnth n k Hn). destruct (Hall k Hin) as (tag & ->).
      cbn. eauto. }
    pose proof (lookups_all tags' newOrder Hall') as Hlook.
    set (reorderedTags :=
           flat_map (fun k => match JsObj.get k tags' with
                              | Some v => [v]
                              | None => []
                              end) newOrder) in *.
    assert (Hid : forall k t, In k newOrder -> JsObj.get k tags' = Some t ->
                    Tag.id t = k).
    { intros k t Hin Ht. destruct (In_nth_error _ _ Hin) as (n & Hn).
      rewrite (Hnth n k Hn) in Ht. destruct (Hall k Hin) as (tag & Htag).
      rewrite Htag in Ht. cbn in Ht. injection Ht as <-.
      cbn [Tag_with_order Tag.id]. exact (Hkeyed _ _ Htag). }
    assert (Hids : map Tag.id reorderedTags = newOrder).
    { assert (Hgen : forall l ts,
                 (forall k, In k l -> In k newOrder) ->
                 map Some ts = map (fun k => JsObj.get k tags') l ->
                 map Tag.id ts = l).
      { induction l as [|k l IH]; intros [|t ts] Hsub Heq; try discriminate; auto.
        cbn [map] in *. injection Heq as Ht Hrest. f_equal.
        - apply Hid; auto. apply Hsub. now left.
        - apply IH; auto. intros k' Hk'. apply Hsub. now right. }
      apply Hgen; auto. }
    assert (Hrun : reorderTags env newOrder w
                   = (Resolved tt,
                      mkWorld
                        (Db.with_tags
                           (tbl_bulkPut Tag.id reorderedTags (Db.tags (db w)))
                           (db w))
                        (State.with_tagOrder newOrder
                           (State.with_tags tags' (state w))))).
    { unfold reorderTags. rewrite Hdb. run_m. rewrite Hloop.
      unfold tags_bulkPut. run_m. rewrite Hstore.
      cbn [db state State.tags State.with_tags]. fold reorderedTags.
      unfold MoreMutations.updateTagOrder. rewrite Hids.
      rewrite fold_set_same; [reflexivity|].
      intros t Hin. cbn [State.tags State.with_tags].
      destruct (@map_Some_In _ _ _ _ _ _ Hlook Hin) as (k & Hk & Ht).
      now rewrite (Hid k t Hk Ht). }
    unfold run. rewrite Hrun.
    cbn [fst snd db state State.tagOrder State.tags State.with_tagOrder
         State.with_tags Db.tags Db.with_tags].
    split; [reflexivity|]. split; [reflexivity|]. split.
    + intros n k Hn. destruct (Hall k (nth_error_In _ _ Hn)) as (tag & Htag).
      exists tag. split; [exact Htag|].
      pose proof (Hnth n k Hn) as Hk. rewrite Htag in Hk. cbn in Hk.
      split; [exact Hk|].
      destruct (@map_Some_nth _ _ _ _ _ _ _ Hlook Hn) as (t & Ht & Hnt).
      rewrite Hk in Ht. injection Ht as <-.
      rewrite <- (Hid k _ (nth_error_In _ _ Hn) Hk).
      apply tbl_get_bulkPut.
      * now rewrite Hids.
      * eapply nth_error_In; eauto.
    + intros k Hnot. split; [now apply Hother|].
      apply tbl_get_bulkPut_other. now rewrite Hids.
  - intros missing Hin Hnone w'. subst w'.
    destruct (renumberTags_reject newOrder 0 (state w) missing Hin Hnone)
      as (tags' & Hloop).
    unfold run, reorderTags. rewrite Hdb. run_m. rewrite Hloop.
    cbn [fst snd db state State.tagOrder State.with_tags]. now repeat split.
Qed.

Lemma reorderTags_numbers_the_tags_witness :
  State.tagOrder (state (run (reorderTags Sample.env ["tag-b"; "tag-a"])
                           Sample.world))
  = ["tag-b"; "tag-a"].
Proof.
  refine (proj1 (proj2 (proj1 (@reorderTags_numbers_the_tags Sample.env
                                 ["tag-b"; "tag-a"] Sample.world
                                 eq_refl eq_refl _) _ _))).
  - exact Sample_tags_keyed.
  - repeat constructor; simpl; intuition discriminate.
  - simpl. intros k [<- | [<- | []]]; simpl; eauto.
Defined.

(** ** The activity list *)

Lemma fold_left_cons {A B : Type} (f : A -> B) (ts : list A) (acc : list B) :
  fold_left (fun acc t => f t :: acc) ts acc = rev (map f ts) ++ acc.
Proof.
  revert acc. induction ts as [|t rest IH]; intros acc; simpl; auto.
  rewrite IH, <- app_assoc. reflexivity.
Qed.

Lemma insertByStr_perm {R : Type} (field : R -> string) (r : R) (l : list R) :
  Permutation (insertByStr field r l) (r :: l).
Proof.
  induction l as [|x rest IH]; simpl; auto.
  destruct (String.leb (field r) (field x)); auto.
  rewrite IH. apply perm_swap.
Qed.

Lemma orderByStr_perm {R : Type} (field : R -> string) (l : list R) :
  Permutation (orderByStr field l) l.
Proof.
  induction l as [|x rest IH]; simpl; auto.
  unfold orderByStr in *. simpl. rewrite insertByStr_perm. auto.
Qed.

(** The list the mutation [setModalActivity] stores: the logs, each with
    the name and tags of its task when the store has the task, and one
    entry per completed task of the store, in ascending order of time. *)
Lemma setModalActivity_spec (logs : list TaskLog.t) (s : State.t) :
  let decorate := fun l =>
    match JsObj.get (TaskLog.taskId l) (State.tasks s) with
    | None => PlainLog l
    | Some task =>
        TaskLogItem (Task.name task)
          (JsObj.get (Task.id task) (State.taskTagsMap s)) l
    end in
  let completion := fun task =>
    CompletedItem (Task.name task)
      (JsObj.get (Task.id task) (State.taskTagsMap s)) (completedAt task) in
  ascending itemTime (MoreMutations.setModalActivity logs s)
  /\ Permutation (MoreMutations.setModalActivity logs s)
       (map decorate logs ++ map completion (completedTasks s)).
Proof.
  intros decorate completion. unfold MoreMutations.setModalActivity.
  split; [apply orderBy_ascending|].
  rewrite orderBy_perm.
  rewrite (fold_left_cons completion). fold decorate.
  rewrite Permutation_app_comm. apply Permutation_app_head.
  symmetry. apply Permutation_rev.
Qed.

(** X18. The activity of all tasks is a timeline: [loadAllActivity]
    (database there) commits a list in ascending order of time (a log
    counts by its start, a completion by its time) that holds, up to
    order, one entry for every log of the table — with the name and the
    tag ids of its task when the store has the task, bare otherwise — and
    one completion entry for every completed task of the store; it writes
    to no table. *)
Theorem loadAllActivity_is_a_timeline (env : Env) (w : World) :
  dexieDb env = true ->
  let decorate := fun l =>
    match JsObj.get (TaskLog.taskId l) (State.tasks (state w)) with
    | None => PlainLog l
    | Some task =>
        TaskLogItem (Task.name task)
          (JsObj.get (Task.id task) (State.taskTagsMap (state w))) l
    end in
  let completion := fun task =>
    CompletedItem (Task.name task)
      (JsObj.get (Task.id task) (State.taskTagsMap (state w)))
      (completedAt task) in
  exists items,
    loadAllActivity env w = (Resolved (Some items), w)
    /\ ascending itemTime items
    /\ Permutation items
         (map decorate (Db.logs (db w))
          ++ map completion (completedTasks (state w))).
Proof.
  intros Hdb decorate completion.
  unfold loadAllActivity. rewrite Hdb. run_m.
  eexists. split; [reflexivity|].
  destruct (setModalActivity_spec
              (rev (orderBy TaskLog.started (Db.logs (db w)))) (state w))
    as [Hasc Hperm].
  split; [exact Hasc|].
  rewrite Hperm. apply Permutation_app_tail. apply Permutation_map.
  rewrite <- Permutation_rev. apply orderBy_perm.
Qed.

Lemma loadAllActivity_is_a_timeline_witness :
  exists items,
    loadAllActivity Sample.env Sample.world = (Resolved (Some items), Sample.world)
    /\ ascending itemTime items.
Proof.
  destruct (@loadAllActivity_is_a_timeline Sample.env Sample.world eq_refl)
    as (items & Hrun & Hasc & _).
  exists items. split; [exact Hrun | exact Hasc].
Defined.

Lemma mem_tagged (tagId k : string) (rows : list TaskTagMap.t) :
  mem k
    (map TaskTagMap.taskId
       (filter (fun row => (TaskTagMap.tagId row =? tagId)%string) rows))
  = existsb (fun row => (TaskTagMap.tagId row =? tagId)%string
                        && (TaskTagMap.taskId row =? k)%string) rows.
Proof.
  unfold mem. induction rows as [|row rest IH]; auto.
  cbn [filter existsb].
  destruct (TaskTagMap.tagId row =? tagId)%string; cbn [map existsb andb];
    rewrite IH; reflexivity.
Qed.

(** X19. The activity of a tag: with a tag chosen in the modal,
    [loadTagActivity] (database there) commits a list in ascending order
    of time that holds, up to order, the logs of the tasks that carry the
    tag in the association table, and next to them a completion entry for
    every completed task of the store, whether it carries the tag or not;
    with no tag chosen it commits nothing. *)
Theorem loadTagActivity_lists_the_tag_logs (env : Env) (w : World) :
  dexieDb env = true ->
  let decorate := fun l =>
    match JsObj.get (TaskLog.taskId l) (State.tasks (state w)) with
    | None => PlainLog l
    | Some task =>
        TaskLogItem (Task.name task)
          (JsObj.get (Task.id task) (State.taskTagsMap (state w))) l
    end in
  let completion := fun task =>
    CompletedItem (Task.name task)
      (JsObj.get (Task.id task) (State.taskTagsMap (state w)))
      (completedAt task) in
  (forall modalTagId,
      TempState.modalTagId (State.tempState (state w)) = Some modalTagId ->
      modalTagId <> "" ->
      let tagged := fun taskId =>
        existsb (fun row => (TaskTagMap.tagId row =? modalTagId)%string
                            && (TaskTagMap.taskId row =? taskId)%string)
          (Db.taskTagMap (db w)) in
      exists items,
        loadTagActivity env w = (Resolved (Some items), w)
        /\ ascending itemTime items
        /\ Permutation items
             (map decorate
                (filter (fun l => tagged (TaskLog.taskId l)) (Db.logs (db w)))
              ++ map completion (completedTasks (state w))))
  /\ (TempState.modalTagId (State.tempState (state w)) = None
      \/ TempState.modalTagId (State.tempState (state w)) = Some "" ->
      loadTagActivity env w = (Resolved None, w)).
Proof.
  intros Hdb decorate completion. split.
  - intros modalTagId Hmodal Hne tagged.
    unfold loadTagActivity. rewrite Hdb. run_m. rewrite Hmodal.
    unfold truthy_str. apply String.eqb_neq in Hne. rewrite Hne. cbn [negb].
    eexists. split; [reflexivity|].
    match goal with
    | |- context [MoreMutations.setModalActivity ?logs (state w)] =>
        destruct (setModalActivity_spec logs (state w)) as [Hasc Hperm]
    end.
    split; [exact Hasc|].
    rewrite Hperm. apply Permutation_app_tail. apply Permutation_map.
    rewrite orderByStr_perm.
    replace (filter (fun l => tagged (TaskLog.taskId l)) (Db.logs (db w)))
      with (filter
              (fun l =>
                 mem (TaskLog.taskId l)
                   (map TaskTagMap.taskId
                      (filter
                         (fun row => (TaskTagMap.tagId row =? modalTagId)%string)
                         (Db.taskTagMap (db w)))))
              (Db.logs (db w))); [reflexivity|].
    apply filter_ext. intros l. apply mem_tagged.
  - intros Hcase. unfold loadTagActivity. rewrite Hdb. run_m.
    destruct Hcase as [-> | ->]; reflexivity.
Qed.

Lemma loadTagActivity_lists_the_tag_logs_witness :
  exists items,
    loadTagActivity Sample.env
      (mkWorld Sample.database
         (State.with_tempState (TempState.mk None false (Some "tag-a"))
            Sample.store))
    = (Resolved (Some items),
       mkWorld Sample.database
         (State.with_tempState (TempState.mk None false (Some "tag-a"))
            Sample.store))
    /\ ascending itemTime items.
Proof.
  destruct (proj1 (@loadTagActivity_lists_the_tag_logs Sample.env
                     (mkWorld Sample.database
                        (State.with_tempState
                           (TempState.mk None false (Some "tag-a"))
                           Sample.store))
                     eq_refl) "tag-a" eq_refl)
    as (items & Hrun & Hasc & _); [discriminate|].
  exists items. split; [exact Hrun | exact Hasc].
Defined.

(** ** Low disk space *)

Section LowDisk.

Variable env : Env.
Hypothesis Hlow : storageEnabled env = false.

Lemma guarded_keeps_state (request : Async unit) (k : unit -> Async unit)
    (w : World) :
  state (snd (request w)) = state w ->
  state (snd (bind (handleDexieError env request) k w)) = state w.
Proof.
  intros Hreq. unfold bind, handleDexieError.
  destruct (request w) as [r w1]. now rewrite Hlow.
Qed.

Lemma low_updateTaskName (taskId name : string) (w : World) :
  state (run (updateTaskName env taskId name) w) = state w.
Proof.
  unfold run, updateTaskName. destruct (dexieDb env); auto.
  cbn [negb]. unfold tryCatch. cbn [snd]. unfold bind at 1, gets.
  destruct (JsObj.get taskId (State.tasks (state w))); auto.
  now apply guarded_keeps_state.
Qed.

Lemma low_updateTaskNotes (taskId notes : string) (w : World) :
  state (run (updateTaskNotes env taskId notes) w) = state w.
Proof.
  unfold run, updateTaskNotes. destruct (dexieDb env); auto.
  cbn [negb]. unfold tryCatch. cbn [snd]. unfold bind at 1, gets.
  destruct (JsObj.get taskId (State.tasks (state w))); auto.
  now apply guarded_keeps_state.
Qed.

Lemma low_stopTask (now : Z) (w : World) :
  state (run (stopTask env now) w) = state w.
Proof.
  unfold run, stopTask. destruct (dexieDb env); auto.
  cbn [negb]. unfold tryCatch. cbn [snd]. unfold bind at 1, query, gets.
  destruct (find _ (Db.logs (db w))); auto.
  now apply guarded_keeps_state.
Qed.

Lemma low_startTask (nowStop now : Z) (nanoid taskId : string) (w : World) :
  state (run (startTask env nowStop now nanoid taskId) w) = state w.
Proof.
  unfold run, startTask. destruct (dexieDb env) eqn:Hdb; auto.
  cbn [negb]. unfold tryCatch. cbn [snd]. unfold bind at 1.
  pose proof (low_stopTask nowStop w) as Hstop.
  pose proof (stopTask_resolves env nowStop w) as Hres.
  unfold run in Hstop. destruct (stopTask env nowStop w) as [r w1].
  cbn [fst snd] in *. subst r. unfold bind at 1, gets.
  destruct (JsObj.get taskId (State.tasks (state w1))); auto.
  rewrite <- Hstop. apply guarded_keeps_state.
  unfold logs_add, dexie_try.
  now destruct (option_map _ _).
Qed.

Lemma low_updateTaskTimer (now : Z) (taskId : string) (w : World) :
  state (run (updateTaskTimer env now taskId) w) = state w.
Proof.
  unfold run, updateTaskTimer. destruct (dexieDb env); auto.
  cbn [negb]. unfold tryCatch. cbn [snd]. unfold bind at 1, gets.
  destruct (JsObj.get taskId (State.tasks (state w))); auto.
  unfold bind at 1, query, gets.
  destruct (find _ (Db.logs (db w))); auto.
  now apply guarded_keeps_state.
Qed.

Lemma low_updateInterval (logId : string) (started timeSpent stopped : Z)
    (w : World) :
  state (run (updateInterval env logId started timeSpent stopped) w) = state w.
Proof.
  unfold run, updateInterval. destruct (dexieDb env); auto.
  cbn [negb]. unfold tryCatch. cbn [snd]. unfold bind at 1, query, gets.
  destruct (tbl_get TaskLog.id logId (Db.logs (db w))); auto.
  now apply guarded_keeps_state.
Qed.

Lemma low_deleteInterval (logId : string) (w : World) :
  state (run (deleteInterval env logId) w) = state w.
Proof.
  unfold run, deleteInterval. destruct (dexieDb env); auto.
  cbn [negb]. unfold tryCatch. cbn [snd]. unfold bind at 1, query, gets.
  destruct (tbl_get TaskLog.id logId (Db.logs (db w))); auto.
  now apply guarded_keeps_state.
Qed.

Lemma low_updateSetting (key : string) (value : SettingValue) (w : World) :
  fst (updateSetting env key value w)
  = (if dexieDb env then Rejected else Resolved tt)
  /\ state (run (updateSetting env key value) w) = state w.
Proof.
  unfold run, updateSetting. destruct (dexieDb env); auto.
  cbn [negb]. unfold settings_put. run_m. now rewrite Hlow.
Qed.

Lemma low_selectTask (taskId : option string) (w : World) :
  state (run (selectTask env taskId) w) = state w.
Proof.
  unfold run, selectTask. destruct (dexieDb env) eqn:Hdb; auto.
  cbn [negb]. unfold bind at 1.
  destruct (low_updateSetting "selectedTaskID"
              match taskId with Some x => VStr x | None => VNull end w)
    as [Hres Hstate].
  unfold run in Hstate. rewrite Hdb in Hres.
  destruct (updateSetting env "selectedTaskID" _ w) as [r w1].
  cbn [fst snd] in *. now subst r.
Qed.

Lemma low_addTask (nanoid : nat -> string) (now : Z) (name : string)
    (w : World) :
  state (run (addTask env nanoid now name) w) = state w.
Proof.
  unfold run, addTask. destruct (dexieDb env); auto.
  cbn [negb]. destruct (truthy_str (trim name)); auto.
  unfold tryCatch. cbn [snd]. unfold bind at 1, gets.
  apply guarded_keeps_state.
  unfold tasks_add, dexie_try. now destruct (option_map _ _).
Qed.

Lemma low_addTaskTagById (nanoid taskId tagId : string) (w : World) :
  state (run (addTaskTagById env nanoid taskId tagId) w) = state w.
Proof.
  unfold run, addTaskTagById. destruct (dexieDb env); auto.
  cbn [negb]. unfold bind at 1, gets.
  destruct (JsObj.get taskId (State.tasks (state w))); auto.
  destruct (JsObj.get tagId (State.tags (state w))); auto.
  apply guarded_keeps_state.
  unfold taskTagMap_add, dexie_try. now destruct (option_map _ _).
Qed.

Lemma low_deleteTag (confirmed : bool) (tagId : string) (w : World) :
  state (run (deleteTag env confirmed tagId) w) = state w.
Proof.
  unfold run, deleteTag. destruct (dexieDb env); auto.
  cbn [negb]. unfold bind at 1, query, gets.
  destruct (tbl_get Tag.id tagId (Db.tags (db w))); auto.
  destruct confirmed; auto.
  now apply guarded_keeps_state.
Qed.

Lemma low_removeTagFilter (tagId : string) (w : World) :
  state (run (removeTagFilter env tagId) w) = state w.
Proof.
  unfold run, removeTagFilter. destruct (dexieDb env) eqn:Hdb; auto.
  cbn [negb]. unfold bind at 1, gets.
  destruct (JsObj.get "selectedTagIds" (State.settings (state w)))
    as [[| | | |selected]|]; auto.
  apply (low_updateSetting "selectedTagIds" (VList (without tagId selected)) w).
Qed.

Lemma low_removeAllTagFilters (w : World) :
  state (run (removeAllTagFilters env) w) = state w.
Proof.
  unfold run, removeAllTagFilters. destruct (dexieDb env); auto.
  cbn [negb]. now apply guarded_keeps_state.
Qed.

Lemma low_deleteAllArchivedTasks (w : World) :
  state (run (deleteAllArchivedTasks env) w) = state w.
Proof.
  unfold run, deleteAllArchivedTasks. destruct (dexieDb env); auto.
  cbn [negb]. unfold bind at 1, gets.
  destruct (archivedTasks (state w)); auto.
  now apply guarded_keeps_state.
Qed.

End LowDisk.

(** X20. On low disk space the guarded actions leave the store alone:
    with [storageEnabled] false, none of [updateTaskName],
    [updateTaskNotes], [startTask], [stopTask], [updateTaskTimer],
    [updateInterval], [deleteInterval], [addTask], [addTaskTagById],
    [deleteTag], [updateSetting], [selectTask], [removeTagFilter],
    [removeAllTagFilters] and [deleteAllArchivedTasks] changes the store,
    whatever its payload. *)
Theorem low_disk_keeps_the_store (env : Env) (w : World) :
  storageEnabled env = false ->
  (forall taskId name, state (run (updateTaskName env taskId name) w) = state w)
  /\ (forall taskId notes,
        state (run (updateTaskNotes env taskId notes) w) = state w)
  /\ (forall nowStop now nanoid taskId,
        state (run (startTask env nowStop now nanoid taskId) w) = state w)
  /\ (forall now, state (run (stopTask env now) w) = state w)
  /\ (forall now taskId, state (run (updateTaskTimer env now taskId) w) = state w)
  /\ (forall logId started timeSpent stopped,
        state (run (updateInterval env logId started timeSpent stopped) w)
        = state w)
  /\ (forall logId, state (run (deleteInterval env logId) w) = state w)
  /\ (forall nanoid now name, state (run (addTask env nanoid now name) w) = state w)
  /\ (forall nanoid taskId tagId,
        state (run (addTaskTagById env nanoid taskId tagId) w) = state w)
  /\ (forall confirmed tagId,
        state (run (deleteTag env confirmed tagId) w) = state w)
  /\ (forall key value, state (run (updateSetting env key value) w) = state w)
  /\ (forall taskId, state (run (selectTask env taskId) w) = state w)
  /\ (forall tagId, state (run (removeTagFilter env tagId) w) = state w)
  /\ state (run (removeAllTagFilters env) w) = state w
  /\ state (run (deleteAllArchivedTasks env) w) = state w.
Proof.
  intros Hlow.
  split; [intros; now apply low_updateTaskName|].
  split; [intros; now apply low_updateTaskNotes|].
  split; [intros; now apply low_startTask|].
  split; [intros; now apply low_stopTask|].
  split; [intros; now apply low_updateTaskTimer|].
  split; [intros; now apply low_updateInterval|].
  split; [intros; now apply low_deleteInterval|].
  split; [intros; now apply low_addTask|].
  split; [intros; now apply low_addTaskTagById|].
  split; [intros; now apply low_deleteTag|].
  split; [intros; now apply low_updateSetting|].
  split; [intros; now apply low_selectTask|].
  split; [intros; now apply low_removeTagFilter|].
  split; [now apply low_removeAllTagFilters | now apply low_deleteAllArchivedTasks].
Qed.

Lemma low_disk_keeps_the_store_witness :
  state (run (addTask Sample.lowDisk sampleIds 60 "plan") Sample.world)
  = state Sample.world.
Proof.
  destruct (@low_disk_keeps_the_store Sample.lowDisk Sample.world eq_refl)
    as (_ & _ & _ & _ & _ & _ & _ & Hadd & _).
  exact (Hadd sampleIds 60 "plan").
Defined.

(** ** Reordering a part of the incomplete tasks *)

(** The second branch's loop, when the payload is as long as the places
    it is to fill. *)
Lemma substitute_all (ids : list string) (refs : list TaskRef)
    (payload : list Task.t) :
  (forall t, In t payload -> mem (Task.id t) ids = true) ->
  List.length (filter (fun x => mem (Task.id (snd x)) ids) refs)
  = List.length payload ->
  exists merged : list TaskRef,
    substitute ids refs payload = map Some merged
    /\ List.length merged = List.length refs
    /\ filter (fun t => mem (Task.id t) ids) (map snd merged) = payload
    /\ filter (fun t => negb (mem (Task.id t) ids)) (map snd merged)
       = filter (fun t => negb (mem (Task.id t) ids)) (map snd refs)
    /\ (forall i x, nth_error refs i = Some x ->
          mem (Task.id (snd x)) ids = false ->
          nth_error merged i = Some x).
Proof.
  revert payload. induction refs as [|x rest IH]; intros payload Hids Hlen.
  - destruct payload; [|discriminate]. exists [].
    repeat split; auto; intros [|i] x; discriminate.
  - cbn [substitute filter] in *.
    destruct (mem (Task.id (snd x)) ids) eqn:Ex.
    + destruct payload as [|next later]; [discriminate|].
      destruct (IH later) as (merged & Hsub & Hl & Hin & Hout & Hnth).
      { intros t Ht. apply Hids. now right. }
      { cbn [List.length] in Hlen. lia. }
      exists ((None, next) :: merged).
      cbn [map snd filter List.length]. rewrite Hsub, Hl.
      rewrite (Hids next (or_introl eq_refl)). cbn [negb]. rewrite Ex.
      cbn [negb]. rewrite Hin, Hout. repeat split; auto.
      intros [|i] y Hy Hmem; cbn [nth_error] in *.
      * injection Hy as <-. congruence.
      * eauto.
    + destruct (IH payload Hids Hlen) as (merged & Hsub & Hl & Hin & Hout & Hnth).
      exists (x :: merged).
      cbn [map snd filter List.length]. rewrite Hsub, Hl, Ex. cbn [negb].
      rewrite Hin, Hout. repeat split; auto.
      intros [|i] y Hy Hmem; cbn [nth_error] in *; eauto.
Qed.

Lemma filter_map_snd (p : Task.t -> bool) (refs : list TaskRef) :
  map snd (filter (fun x => p (snd x)) refs) = filter p (map snd refs).
Proof.
  induction refs as [|x rest IH]; simpl; auto.
  destruct (p (snd x)); simpl; now rewrite IH.
Qed.

(** X21. Reordering a part of the incomplete tasks (a filtered view):
    when the payload of [reorderIncompleteTasks] holds, in some order,
    exactly the incomplete tasks of the store with the payload's ids, and
    these are not all the incomplete tasks, then (database there, storage
    enabled, the store's tasks under their own ids) the incomplete tasks
    that are not in the payload keep their places, the places of the
    others are filled with the payload in its order, the completed tasks
    follow, and every task's [order] is its index in that list; no task is
    lost. *)
Theorem reorderIncompleteTasks_reorders_a_part
    (env : Env) (w : World) (newIncompleteTaskOrder : list Task.t) :
  dexieDb env = true ->
  storageEnabled env = true ->
  tasks_keyed (state w) ->
  let inPayload := fun t : Task.t =>
    mem (Task.id t) (map Task.id newIncompleteTaskOrder) in
  Permutation newIncompleteTaskOrder
    (filter inPayload (incompleteTasks (state w))) ->
  List.length newIncompleteTaskOrder
  <> List.length (incompleteTasks (state w)) ->
  let w' := run (reorderIncompleteTasks env newIncompleteTaskOrder) w in
  exists merged,
    JsObj.values (State.tasks (state w'))
    = renumber 0 (merged ++ completedTasks (state w))
    /\ Permutation merged (incompleteTasks (state w))
    /\ filter inPayload merged = newIncompleteTaskOrder
    /\ (forall i t,
          nth_error (incompleteTasks (state w)) i = Some t ->
          inPayload t = false ->
          nth_error merged i = Some t)
    /\ (forall i t,
          nth_error (merged ++ completedTasks (state w)) i = Some t ->
          tbl_get Task.id (Task.id t) (Db.tasks (db w'))
          = Some (Task.with_order (Z.of_nat i) t)).
Proof.
  intros Hdb Hstore [Hnd Hkeyed] inPayload Hperm Hlen w'. subst w'.
  set (ids := map Task.id newIncompleteTaskOrder) in *.
  set (incompleteRefs :=
         ownRefs (fun t => negb (truthy_num (Task.completed t))) (state w)).
  set (completedRefs :=
         ownRefs (fun t => truthy_num (Task.completed t)) (state w)).
  assert (Hinc : map snd incompleteRefs = incompleteTasks (state w))
    by apply ownRefs_tasks.
  assert (Hcom : map snd completedRefs = completedTasks (state w))
    by apply ownRefs_tasks.
  destruct (substitute_all ids incompleteRefs newIncompleteTaskOrder)
    as (merged & Hsub & Hl & Hin & Hout & Hnth).
  { intros t Ht. apply mem_In. unfold ids. now apply in_map. }
  { rewrite <- (length_map snd), (filter_map_snd inPayload), Hinc.
    symmetry. apply Permutation_length. exact Hperm. }
  assert (Hmerged : Permutation (map snd merged) (incompleteTasks (state w))).
  { rewrite <- (filter_split_perm inPayload (map snd merged)).
    rewrite <- (filter_split_perm inPayload (incompleteTasks (state w))).
    assert (Hin' : filter inPayload (map snd merged) = newIncompleteTaskOrder)
      by exact Hin.
    assert (Hout' : filter (fun x => negb (inPayload x)) (map snd merged)
                    = filter (fun x => negb (inPayload x)) (map snd incompleteRefs))
      by exact Hout.
    rewrite Hin', Hout', Hinc.
    apply Permutation_app_head. exact Hperm. }
  destruct (assignOrders_all 0 (merged ++ completedRefs) (state w))
    as (s2 & Hs2).
  unfold TaskRef in *. rewrite !map_app, Hcom in Hs2.
  assert (Hrun : reorderIncompleteTasks env newIncompleteTaskOrder w
                 = (Resolved tt,
                    let tasks :=
                      renumber 0 (map snd merged ++ completedTasks (state w)) in
                    mkWorld
                      (Db.with_tasks
                         (tbl_bulkPut Task.id tasks (Db.tasks (db w))) (db w))
                      (Mutations.setTasks tasks s2))).
  { unfold reorderIncompleteTasks. rewrite Hdb. run_m.
    fold incompleteRefs completedRefs ids. unfold TaskRef.
    assert (Hne : Nat.eqb (List.length newIncompleteTaskOrder)
                    (List.length incompleteRefs) = false).
    { apply Nat.eqb_neq.
      assert (Hlen2 : List.length incompleteRefs
                      = List.length (incompleteTasks (state w)))
        by (rewrite <- Hinc; symmetry; apply length_map).
      rewrite Hlen2. exact Hlen. }
    rewrite Hne, Hsub, length_map, Hl, Nat.eqb_refl. run_m.
    unfold TaskRef. rewrite Hs2.
    unfold bulkPutTasks, tasks_bulkPut. rewrite Hdb. run_m. rewrite Hstore.
    reflexivity. }
  exists (map snd merged). unfold run. rewrite Hrun.
  cbn [snd db state Db.tasks Db.with_tasks].
  set (full := map snd merged ++ completedTasks (state w)).
  assert (Hids : NoDup (map Task.id (renumber 0 full))).
  { rewrite renumber_ids.
    apply (Permutation_NoDup (l := JsObj.keys (State.tasks (state w))));
      [|exact Hnd].
    rewrite <- (keyed_ids _ Hkeyed). apply Permutation_map, Permutation_sym.
    unfold full. rewrite Hmerged. apply filter_split_perm. }
  split.
  { rewrite setTasks_tasks, fold_set_fresh by exact Hids.
    apply values_of_entries. }
  split; [exact Hmerged|].
  split; [exact Hin|].
  split.
  { intros i t Hi Hout'. rewrite <- Hinc in Hi.
    rewrite nth_error_map in Hi.
    destruct (nth_error incompleteRefs i) as [x|] eqn:Ex; [|discriminate].
    injection Hi as <-. rewrite nth_error_map, (Hnth i x Ex Hout').
    reflexivity. }
  intros i t Hi.
  change (Task.id t) with (Task.id (Task.with_order (Z.of_nat i) t)).
  apply tbl_get_bulkPut; auto.
  apply (nth_error_In _ i). now rewrite nth_error_renumber, Hi.
Qed.

Lemma reorderIncompleteTasks_reorders_a_part_witness :
  exists merged,
    JsObj.values
      (State.tasks
         (state (run (reorderIncompleteTasks Sample.env [Sample.task3])
                   Sample.three)))
    = renumber 0 (merged ++ completedTasks (state Sample.three))
    /\ Permutation merged (incompleteTasks (state Sample.three)).
Proof.
  destruct (@reorderIncompleteTasks_reorders_a_part Sample.env Sample.three
              [Sample.task3] eq_refl eq_refl)
    as (merged & Hvalues & Hperm & _).
  - split.
    + simpl. repeat constructor; simpl; intuition discriminate.
    + intros k t. simpl.
      intros [[= <- <-] | [[= <- <-] | [[= <- <-] | []]]]; reflexivity.
  - simpl. apply Permutation_refl.
  - simpl. discriminate.
  - exists merged. split; [exact Hvalues | exact Hperm].
Defined.

(** ** Completing, renaming, selecting *)

(** X22. Completing the task whose timer runs stops the timer: for a
    task of the store that is not completed, [completeTask] closes the
    running log at the first clock reading when the task is the active,
    running one, and leaves the [logs] table as it is when it is not.
    (Database there, storage enabled, one log running.) *)
Theorem completeTask_stops_its_timer
    (env : Env) (nowStop now : Z) (taskId : string) (w : World)
    (task : Task.t) (running : TaskLog.t) :
  dexieDb env = true ->
  storageEnabled env = true ->
  JsObj.get taskId (State.tasks (state w)) = Some task ->
  truthy_num (Task.completed task) = false ->
  runningLogs (db w) = [running] ->
  let w' := run (completeTask env nowStop now taskId) w in
  (TempState.activeTaskID (State.tempState (state w)) = Some (Task.id task) ->
   TempState.running (State.tempState (state w)) = true ->
   runningLogs (db w') = []
   /\ tbl_get TaskLog.id (TaskLog.id running) (Db.logs (db w'))
      = Some (TaskLog.mk (TaskLog.id running) (TaskLog.taskId running)
                (TaskLog.started running) (Some nowStop)
                (Some (nowStop - TaskLog.started running))))
  /\ (TempState.activeTaskID (State.tempState (state w)) <> Some (Task.id task)
      \/ TempState.running (State.tempState (state w)) = false ->
      Db.logs (db w') = Db.logs (db w)).
Proof.
  intros Hdb Hstore Hget Hopen Hone w'. subst w'.
  unfold run, completeTask. rewrite Hdb. run_m. rewrite Hget, Hopen.
  cbn [negb]. run_m. unfold tasks_update. split.
  - intros Hactive Hrunning. unfold isActiveTask.
    rewrite Hactive, Hrunning, String.eqb_refl. cbn [andb].
    rewrite (stopTask_run_one env nowStop w Hdb Hstore Hone).
    run_m. unfold runningLogs.
    cbn [snd db Db.logs Db.with_logs Db.with_tasks].
    split.
    + exact (@runningLogs_put running
               (TaskLog.mk (TaskLog.id running) (TaskLog.taskId running)
                  (TaskLog.started running) (Some nowStop)
                  (Some (nowStop - TaskLog.started running)))
               _ Hone eq_refl).
    + match goal with
      | |- tbl_get _ ?k (tbl_put _ ?r _) = _ =>
          change k with (TaskLog.id r); apply tbl_get_put_same
      end.
  - intros Hcase.
    assert (Hno : isActiveTask task (state w)
                  && TempState.running (State.tempState (state w)) = false).
    { destruct Hcase as [Hne | ->]; [|apply andb_false_r].
      unfold isActiveTask.
      destruct (TempState.activeTaskID (State.tempState (state w))) as [a|];
        auto.
      destruct (String.eqb_spec (Task.id task) a) as [Heq|]; [congruence|auto]. }
    rewrite Hno. run_m. reflexivity.
Qed.

Lemma completeTask_stops_its_timer_witness :
  runningLogs (db (run (completeTask Sample.env 30 31 "task-r") Sample.started))
  = [].
Proof.
  refine (proj1 (proj1 (@completeTask_stops_its_timer Sample.env 30 31 "task-r"
                          Sample.started Sample.taskR Sample.logA
                          eq_refl eq_refl eq_refl eq_refl eq_refl)
                   eq_refl eq_refl)).
Defined.

(** X23. Editing the name or the notes of a task of the store changes
    that field alone: the store's task and the task's row get the text as
    it is given (it is not trimmed, and may be empty), every other field
    and every other task stay.  (Database there, storage enabled.) *)
Theorem updateTaskName_and_Notes_change_one_field
    (env : Env) (taskId text : string) (w : World) (task : Task.t) :
  dexieDb env = true ->
  storageEnabled env = true ->
  JsObj.get taskId (State.tasks (state w)) = Some task ->
  let wn := run (updateTaskName env taskId text) w in
  let wo := run (updateTaskNotes env taskId text) w in
  (JsObj.get taskId (State.tasks (state wn)) = Some (Task.with_name text task)
   /\ tbl_get Task.id taskId (Db.tasks (db wn))
      = option_map (Task.with_name text) (tbl_get Task.id taskId (Db.tasks (db w)))
   /\ (forall k, k <> taskId ->
         JsObj.get k (State.tasks (state wn)) = JsObj.get k (State.tasks (state w))
         /\ tbl_get Task.id k (Db.tasks (db wn))
            = tbl_get Task.id k (Db.tasks (db w))))
  /\ (JsObj.get taskId (State.tasks (state wo)) = Some (Task.with_notes text task)
      /\ tbl_get Task.id taskId (Db.tasks (db wo))
         = option_map (Task.with_notes text)
             (tbl_get Task.id taskId (Db.tasks (db w)))
      /\ (forall k, k <> taskId ->
            JsObj.get k (State.tasks (state wo))
            = JsObj.get k (State.tasks (state w))
            /\ tbl_get Task.id k (Db.tasks (db wo))
               = tbl_get Task.id k (Db.tasks (db w)))).
Proof.
  intros Hdb Hstore Hget wn wo. subst wn wo.
  assert (Hrun : forall u,
             (forall x, Task.id (applyTaskUpdates u x) = Task.id x) ->
             let w' :=
               mkWorld
                 (Db.with_tasks
                    (tbl_update Task.id taskId (applyTaskUpdates u)
                       (Db.tasks (db w))) (db w))
                 (Mutations.updateTask taskId u (state w)) in
             JsObj.get taskId (State.tasks (state w'))
             = Some (applyTaskUpdates u task)
             /\ tbl_get Task.id taskId (Db.tasks (db w'))
                = option_map (applyTaskUpdates u)
                    (tbl_get Task.id taskId (Db.tasks (db w)))
             /\ (forall k, k <> taskId ->
                   JsObj.get k (State.tasks (state w'))
                   = JsObj.get k (State.tasks (state w))
                   /\ tbl_get Task.id k (Db.tasks (db w'))
                      = tbl_get Task.id k (Db.tasks (db w)))).
  { intros u Hid w'. subst w'. cbn [db state Db.tasks Db.with_tasks].
    split; [now apply updateTask_tasks|]. split.
    - rewrite tbl_get_update by exact Hid. now rewrite String.eqb_refl.
    - intros k Hne. split.
      + unfold Mutations.updateTask. rewrite Hget. cbn [State.tasks State.with_tasks].
        now apply JsObjFacts.get_set_other.
      + rewrite tbl_get_update by exact Hid.
        destruct (String.eqb_spec taskId k); [congruence | reflexivity]. }
  split.
  - unfold run, updateTaskName. rewrite Hdb. run_m. rewrite Hget.
    unfold tasks_update. run_m. rewrite Hstore.
    exact (Hrun (UpdName text) (fun x => eq_refl)).
  - unfold run, updateTaskNotes. rewrite Hdb. run_m. rewrite Hget.
    unfold tasks_update. run_m. rewrite Hstore.
    exact (Hrun (UpdNotes text) (fun x => eq_refl)).
Qed.

Lemma updateTaskName_and_Notes_change_one_field_witness :
  JsObj.get "task-1"
    (State.tasks (state (run (updateTaskName Sample.env "task-1" " draft ")
                           Sample.world)))
  = Some (Task.with_name " draft " Sample.task1).
Proof.
  exact (proj1 (proj1 (@updateTaskName_and_Notes_change_one_field Sample.env
                         "task-1" " draft " Sample.world Sample.task1
                         eq_refl eq_refl eq_refl))).
Defined.

(** X24. The selection survives a reload: [selectTask] on a task id
    stores the id as [selectedTaskID] in the store and in the [settings]
    table and shows the logs of that task, and a [loadInitialData] after
    it selects the same task again, with its logs as the table then has
    them.  (Storage enabled, distinct keys in the [settings] table and in
    the defaults, which name [selectedTaskID], every association row
    naming a task of the table.) *)
Theorem selection_survives_reload
    (env : Env) (x : string) (w : World) (default : SettingValue) :
  dexieDb env = true ->
  storageEnabled env = true ->
  x <> "" ->
  NoDup (map SettingKv.key (Db.settings (db w))) ->
  NoDup (JsObj.keys (initialSettings env)) ->
  In ("selectedTaskID", default) (initialSettings env) ->
  (forall row, In row (Db.taskTagMap (db w)) ->
     In (TaskTagMap.taskId row) (map Task.id (Db.tasks (db w)))) ->
  let w1 := run (selectTask env (Some x)) w in
  let w2 := run (loadInitialData env) w1 in
  JsObj.get "selectedTaskID" (State.settings (state w1)) = Some (VStr x)
  /\ State.selectedTaskLogs (state w1)
     = filter (fun l => (TaskLog.taskId l =? x)%string) (Db.logs (db w))
  /\ JsObj.get "selectedTaskID" (State.settings (state w2)) = Some (VStr x)
  /\ State.selectedTaskLogs (state w2)
     = filter (fun l => (TaskLog.taskId l =? x)%string) (Db.logs (db w2)).
Proof.
  intros Hdb Hstore Hx HndSettings HndIni Hdefault Hrows w1 w2.
  assert (Hw1 : w1
                = mkWorld
                    (Db.with_settings
                       (tbl_put SettingKv.key
                          (SettingKv.mk "selectedTaskID" (VStr x))
                          (Db.settings (db w))) (db w))
                    (State.with_selectedTaskLogs
                       (filter (fun l => (TaskLog.taskId l =? x)%string)
                          (Db.logs (db w)))
                       (Mutations.updateSetting "selectedTaskID" (VStr x)
                          (state w)))).
  { unfold w1, run, selectTask. rewrite Hdb. cbn [negb]. run_m.
    rewrite (updateSetting_run env _ _ _ Hdb Hstore).
    unfold truthy_str. apply String.eqb_neq in Hx. now rewrite Hx. }
  assert (Hget1 : tbl_get SettingKv.key "selectedTaskID" (Db.settings (db w1))
                  = Some (SettingKv.mk "selectedTaskID" (VStr x))).
  { rewrite Hw1. cbn [db Db.settings Db.with_settings].
    exact (tbl_get_put_same SettingKv.key
             (SettingKv.mk "selectedTaskID" (VStr x)) (Db.settings (db w))). }
  assert (Hnd1 : NoDup (map SettingKv.key (Db.settings (db w1)))).
  { rewrite Hw1. cbn [db Db.settings Db.with_settings].
    now apply NoDup_keys_put. }
  assert (Hrows1 : forall row, In row (Db.taskTagMap (db w1)) ->
                     In (TaskTagMap.taskId row) (map Task.id (Db.tasks (db w1)))).
  { rewrite Hw1. exact Hrows. }
  assert (Hbool1 : forall kv, In kv (Db.settings (db w1)) ->
                     SettingKv.key kv = "selectedTaskID" ->
                     SettingKv.value kv <> VBool true).
  { intros kv Hin Hkey.
    pose proof (In_tbl_get SettingKv.key kv _ Hnd1 Hin) as Hkv.
    rewrite Hkey, Hget1 in Hkv. injection Hkv as <-. discriminate. }
  destruct (loadInitialData_run env w1 Hdb Hstore Hrows1 Hbool1)
    as (m' & selected & Hrun & Hselected & _).
  split; [rewrite Hw1; cbn; apply JsObjFacts.get_set_same|].
  split; [now rewrite Hw1|].
  unfold w2, run. rewrite Hrun.
  cbn [snd db state State.settings State.selectedTaskLogs].
  split.
  - rewrite (fold_set_get
               (fun kv =>
                  match tbl_get SettingKv.key (fst kv) (Db.settings (db w1)) with
                  | Some found => SettingKv.value found
                  | None => snd kv
                  end)
               (initialSettings env) _ "selectedTaskID" default HndIni Hdefault).
    cbn [fst]. now rewrite Hget1.
  - rewrite (loadSelectedTaskLogs_selected _ [] _ Hnd1 Hget1 Hx) in Hselected.
    now injection Hselected as <-.
Qed.

Lemma selection_survives_reload_witness :
  JsObj.get "selectedTaskID"
    (State.settings
       (state (run (loadInitialData Sample.env)
                 (run (selectTask Sample.env (Some "task-1")) Sample.world))))
  = Some (VStr "task-1").
Proof.
  refine (proj1 (proj2 (proj2 (@selection_survives_reload Sample.env "task-1"
                                 Sample.world (VStr "task-2")
                                 eq_refl eq_refl _ _ _ _ _)))).
  - discriminate.
  - simpl. repeat constructor; simpl; intuition discriminate.
  - simpl. repeat constructor; simpl; intuition discriminate.
  - simpl. auto.
  - simpl. intros row [<- | []]. simpl. auto.
Defined.

(** ** The store stays keyed by id *)

Lemma In_set {V : Type} (kv : string * V) (k : string) (v : V) (o : JsObj.t V) :
  In kv (JsObj.set k v o) -> kv = (k, v) \/ In kv o.
Proof.
  induction o as [|[k' v'] rest IH]; simpl.
  - intros [<- | []]. now left.
  - destruct (k' =? k)%string eqn:E; simpl.
    + apply String.eqb_eq in E. subst k'. intros [<- | Hin]; auto.
    + intros [<- | Hin]; auto. destruct (IH Hin); auto.
Qed.

Lemma NoDup_keys_set {V : Type} (k : string) (v : V) (o : JsObj.t V) :
  NoDup (JsObj.keys o) -> NoDup (JsObj.keys (JsObj.set k v o)).
Proof.
  intros Hnd. destruct (in_dec string_dec k (JsObj.keys o)) as [Hin | Hnot].
  - now rewrite JsObjFacts.keys_set_present.
  - rewrite (JsObjFacts.keys_set_absent _ _ _ Hnot). unfold JsObj.keys in *.
    rewrite map_app. simpl. apply NoDup_app_remove_l with (l := []).
    simpl. apply Permutation_NoDup with (l := k :: map fst o).
    + apply Permutation_cons_append.
    + now constructor.
Qed.

Lemma NoDup_keys_del {V : Type} (k : string) (o : JsObj.t V) :
  NoDup (JsObj.keys o) -> NoDup (JsObj.keys (JsObj.del k o)).
Proof.
  unfold JsObj.keys, JsObj.del. induction o as [|[k' v'] rest IH]; simpl; auto.
  intros Hnd. inversion Hnd as [|? ? Hnotin Hnd']; subst.
  destruct (negb (k' =? k)%string); simpl; auto.
  constructor; auto. intros Hin. apply Hnotin.
  apply in_map_iff in Hin. destruct Hin as (kv & Hfst & Hkv).
  apply filter_In in Hkv. apply in_map_iff. exists kv. tauto.
Qed.

Lemma keyed_frame (s s' : State.t) :
  State.tasks s' = State.tasks s -> State.tags s' = State.tags s ->
  keyed s -> keyed s'.
Proof.
  unfold keyed, tasks_keyed, tags_keyed. intros -> ->. auto.
Qed.

Lemma keyed_set_task (k : string) (t : Task.t) (s : State.t) :
  Task.id t = k -> keyed s ->
  keyed (State.with_tasks (JsObj.set k t (State.tasks s)) s).
Proof.
  intros Hid [[Hnd Hk] Htags]. split; [split|exact Htags];
    cbn [State.tasks State.with_tasks].
  - now apply NoDup_keys_set.
  - intros k' t' Hin. apply In_set in Hin. destruct Hin as [[= -> ->] | Hin]; auto.
Qed.

Lemma keyed_del_task (k : string) (s : State.t) :
  keyed s -> keyed (State.with_tasks (JsObj.del k (State.tasks s)) s).
Proof.
  intros [[Hnd Hk] Htags]. split; [split|exact Htags];
    cbn [State.tasks State.with_tasks].
  - now apply NoDup_keys_del.
  - intros k' t' Hin. apply JsObjFacts.In_del in Hin. apply Hk. tauto.
Qed.

Lemma keyed_no_tasks (s : State.t) :
  keyed s -> keyed (State.with_tasks JsObj.empty s).
Proof.
  intros [_ Htags]. split; [split|exact Htags]; cbn [State.tasks State.with_tasks].
  - constructor.
  - intros k t [].
Qed.

Lemma keyed_set_tag (k : string) (tag : Tag.t) (s : State.t) :
  Tag.id tag = k -> keyed s ->
  keyed (State.with_tags (JsObj.set k tag (State.tags s)) s).
Proof.
  intros Hid [Htasks Htags]. split; [exact Htasks|].
  intros k' tag' Hget. cbn [State.tags State.with_tags] in Hget.
  destruct (string_dec k' k) as [-> | Hne].
  - rewrite JsObjFacts.get_set_same in Hget. congruence.
  - rewrite JsObjFacts.get_set_other in Hget by assumption. eauto.
Qed.

Lemma keyed_del_tag (k : string) (s : State.t) :
  keyed s -> keyed (State.with_tags (JsObj.del k (State.tags s)) s).
Proof.
  intros [Htasks Htags]. split; [exact Htasks|].
  intros k' tag' Hget. cbn [State.tags State.with_tags] in Hget.
  apply get_del_Some in Hget. eauto.
Qed.

Lemma keyed_no_tags (s : State.t) :
  keyed s -> keyed (State.with_tags JsObj.empty s).
Proof.
  intros [Htasks _]. split; [exact Htasks|]. intros k tag. discriminate.
Qed.

(** *** Mutations *)

Lemma kkM_ret {A : Type} (a : A) : keepsKeyedM (@ret State.t A a).
Proof. intros s H. exact H. Qed.

Lemma kkM_throw {A : Type} : keepsKeyedM (@throw State.t A).
Proof. intros s H. exact H. Qed.

Lemma kkM_gets {A : Type} (f : State.t -> A) : keepsKeyedM (gets f).
Proof. intros s H. exact H. Qed.

Lemma kkM_modify (f : State.t -> State.t) :
  (forall s, keyed s -> keyed (f s)) -> keepsKeyedM (modify f).
Proof. intros Hf s H. exact (Hf s H). Qed.

Lemma kkM_bind {A B : Type} (m : M State.t A) (k : A -> M State.t B) :
  keepsKeyedM m -> (forall a, keepsKeyedM (k a)) -> keepsKeyedM (bind m k).
Proof.
  intros Hm Hk s H. unfold bind. specialize (Hm s H).
  destruct (m s) as [[a|] s1]; cbn [snd] in *; auto.
  exact (Hk a s1 Hm).
Qed.

Lemma kkM_forEach {A : Type} (xs : list A) (body : A -> M State.t unit) :
  (forall x, keepsKeyedM (body x)) -> keepsKeyedM (forEach xs body).
Proof.
  intros Hbody. induction xs as [|x rest IH]; cbn [forEach].
  - apply kkM_ret.
  - apply kkM_bind; auto.
Qed.

Lemma kkM_pushTaskTag (taskId tagId : string) :
  keepsKeyedM (pushTaskTag taskId tagId).
Proof.
  intros s H. unfold pushTaskTag.
  destruct (JsObj.get taskId (State.taskTagsMap s)); auto.
Qed.

Lemma kkM_frame {A : Type} (m : M State.t A) :
  (forall s, State.tasks (snd (m s)) = State.tasks s
             /\ State.tags (snd (m s)) = State.tags s) ->
  keepsKeyedM m.
Proof.
  intros Hm s H. destruct (Hm s) as [Ht Hg]. exact (keyed_frame _ Ht Hg H).
Qed.

Ltac kkm_step :=
  match goal with
  | |- keepsKeyedM (ret _) => apply kkM_ret
  | |- keepsKeyedM throw => apply kkM_throw
  | |- keepsKeyedM (gets _) => apply kkM_gets
  | |- keepsKeyedM (bind _ _) => apply kkM_bind; [| intros ?]
  | |- keepsKeyedM (forEach _ _) => apply kkM_forEach; intros ?
  | |- keepsKeyedM (pushTaskTag _ _) => apply kkM_pushTaskTag
  | |- keepsKeyedM (modify (State.with_tasks JsObj.empty)) =>
      apply kkM_modify; exact keyed_no_tasks
  | |- keepsKeyedM (modify (State.with_tags JsObj.empty)) =>
      apply kkM_modify; exact keyed_no_tags
  | |- keepsKeyedM (modify _) =>
      apply kkM_modify; intros ? ?;
      first [ apply keyed_set_task; [reflexivity | assumption]
            | apply keyed_set_tag; [reflexivity | assumption]
            | apply keyed_del_task; assumption
            | apply keyed_del_tag; assumption
            | eapply keyed_frame; [reflexivity | reflexivity | eassumption] ]
  | |- keepsKeyedM (if ?b then _ else _) => destruct b eqn:?
  | |- keepsKeyedM (match ?x with _ => _ end) => destruct x eqn:?
  end.

Ltac kkm := repeat first [ kkm_step | progress cbv zeta ].

Lemma kkM_loadInitialData ini tasks tags rows settings selected :
  keepsKeyedM (Mutations.loadInitialData ini tasks tags rows settings selected).
Proof. unfold Mutations.loadInitialData. kkm. Qed.

Lemma kkM_addTask task rows : keepsKeyedM (Mutations.addTask task rows).
Proof. unfold Mutations.addTask. kkm. Qed.

Lemma kkM_addTaskTag taskId tag isNewTag :
  keepsKeyedM (Mutations.addTaskTag taskId tag isNewTag).
Proof. unfold Mutations.addTaskTag. kkm. Qed.

Lemma kkM_deleteTag tagId : keepsKeyedM (Mutations.deleteTag tagId).
Proof.
  unfold Mutations.deleteTag.
  kkm; intros s H;
    repeat match goal with
           | |- context [match ?x with _ => _ end] => destruct x
           end; auto.
Qed.

Lemma keyed_updateTask (taskId : string) (u : TaskUpdates) (s : State.t) :
  keyed s -> keyed (Mutations.updateTask taskId u s).
Proof.
  intros H. unfold Mutations.updateTask.
  destruct (JsObj.get taskId (State.tasks s)) as [task|] eqn:Hget; auto.
  apply keyed_set_task; auto. rewrite applyTaskUpdates_id.
  destruct H as [[_ Hk] _]. apply Hk. now apply JsObjFacts.get_In.
Qed.

Lemma keyed_fold_set_tasks (tasks : list Task.t) (s : State.t) :
  keyed s ->
  keyed (fold_left
           (fun acc task =>
              State.with_tasks (JsObj.set (Task.id task) task (State.tasks acc)) acc)
           tasks s).
Proof.
  revert s. induction tasks as [|t rest IH]; intros s H; cbn [fold_left]; auto.
  apply IH. now apply keyed_set_task.
Qed.

Lemma keyed_setTasks (tasks : list Task.t) (s : State.t) :
  keyed s -> keyed (Mutations.setTasks tasks s).
Proof.
  intros H. unfold Mutations.setTasks. apply keyed_fold_set_tasks.
  now apply keyed_no_tasks.
Qed.

Lemma keyed_deleteTasks (taskIds : list string) (s : State.t) :
  keyed s -> keyed (Mutations.deleteTasks taskIds s).
Proof.
  unfold Mutations.deleteTasks. revert s.
  induction taskIds as [|k rest IH]; intros s H; cbn [fold_left]; auto.
  apply IH.
  apply (@keyed_frame (State.with_tasks (JsObj.del k (State.tasks s)) s));
    [reflexivity | reflexivity | now apply keyed_del_task].
Qed.

Lemma keyed_updateTagOrder (reorderedTags : list Tag.t) (s : State.t) :
  keyed s -> keyed (MoreMutations.updateTagOrder reorderedTags s).
Proof.
  intros H. unfold MoreMutations.updateTagOrder.
  match goal with
  | |- keyed (State.with_tagOrder ?o ?s') =>
      apply (@keyed_frame s'); [reflexivity | reflexivity |]
  end.
  revert s H. induction reorderedTags as [|t rest IH]; intros s H;
    cbn [fold_left]; auto.
  apply IH. now apply keyed_set_tag.
Qed.

Lemma keyed_store_frame (f : State.t -> State.t) :
  (forall s, State.tasks (f s) = State.tasks s) ->
  (forall s, State.tags (f s) = State.tags s) ->
  forall s, keyed s -> keyed (f s).
Proof. intros Ht Hg s. apply keyed_frame; auto. Qed.

Lemma keyed_startTask (log : TaskLog.t) (s : State.t) :
  keyed s -> keyed (Mutations.startTask log s).
Proof.
  intros H. unfold Mutations.startTask.
  destruct (JsObj.get (TaskLog.taskId log) (State.tasks s)); auto.
Qed.

Lemma keyed_updateLog (taskId : string) (log : TaskLog.t) (s : State.t) :
  keyed s -> keyed (Mutations.updateLog taskId log s).
Proof.
  intros H. unfold Mutations.updateLog.
  destruct (negb (isSelectedTask taskId s)); auto.
  destruct (replaceFirst _ log (State.selectedTaskLogs s)); auto.
  destruct (TaskLog.stopped log); auto.
Qed.

Lemma keyed_deleteInterval (taskId logId : string) (s : State.t) :
  keyed s -> keyed (Mutations.deleteInterval taskId logId s).
Proof.
  intros H. unfold Mutations.deleteInterval.
  destruct (negb (isSelectedTask taskId s)); auto.
  destruct (removeFirst _ (State.selectedTaskLogs s)); auto.
Qed.

(** The in-place loops. *)
Lemma keyed_assignOrders (refs : list (option TaskRef)) (i : Z) (s : State.t) :
  (forall k t, In (Some (Some k, t)) refs -> Task.id t = k) ->
  keyed s -> keyed (snd (assignOrders i refs s)).
Proof.
  revert i s. induction refs as [|[[owner task]|] rest IH]; intros i s Hrefs H;
    cbn [assignOrders]; auto.
  assert (Hrest : forall k t, In (Some (Some k, t)) rest -> Task.id t = k)
    by (intros k t Hin; apply Hrefs; now right).
  unfold bind at 1.
  destruct owner as [k|].
  - unfold modify at 1. unfold bind at 1.
    specialize (IH (i + 1)
                  (State.with_tasks
                     (JsObj.set k (Task.with_order i task) (State.tasks s)) s)
                  Hrest).
    destruct (assignOrders (i + 1) rest _) as [[tasks|] s'];
      cbn [snd ret] in *; apply IH;
      apply keyed_set_task; auto;
      cbn [Task.id Task.with_order]; apply Hrefs; now left.
  - unfold ret at 1. unfold bind at 1. specialize (IH (i + 1) s Hrest H).
    now destruct (assignOrders (i + 1) rest s) as [[tasks|] s'].
Qed.

Lemma keyed_renumberTags (newOrder : list string) (i : Z) (s : State.t) :
  keyed s -> keyed (snd (renumberTags i newOrder s)).
Proof.
  revert i s. induction newOrder as [|k rest IH]; intros i s H;
    cbn [renumberTags]; auto.
  destruct (JsObj.get k (State.tags s)) as [tag|] eqn:Hget; auto.
  apply IH. destruct (Tag.order tag =? i); auto.
  apply keyed_set_tag; auto. cbn [Tag_with_order Tag.id].
  destruct H as [_ Htags]. exact (Htags _ _ Hget).
Qed.

(** *** Actions *)

Lemma kk_ret {A : Type} (a : A) : keepsKeyed (@ret World A a).
Proof. intros w H. exact H. Qed.

Lemma kk_throw {A : Type} : keepsKeyed (@throw World A).
Proof. intros w H. exact H. Qed.

Lemma kk_gets {A : Type} (f : World -> A) : keepsKeyed (gets f).
Proof. intros w H. exact H. Qed.

Lemma kk_query {A : Type} (f : Db.t -> A) : keepsKeyed (query f).
Proof. intros w H. exact H. Qed.

Lemma kk_bind {A B : Type} (m : Async A) (k : A -> Async B) :
  keepsKeyed m -> (forall a, keepsKeyed (k a)) -> keepsKeyed (bind m k).
Proof.
  intros Hm Hk w H. unfold bind. specialize (Hm w H).
  destruct (m w) as [[a|] w1]; cbn [snd] in *; auto.
  exact (Hk a w1 Hm).
Qed.

Lemma kk_tryCatch (m : Async unit) : keepsKeyed m -> keepsKeyed (tryCatch m).
Proof. intros Hm w H. exact (Hm w H). Qed.

Lemma kk_handleDexieError {A : Type} (env : Env) (m : Async A) :
  keepsKeyed m -> keepsKeyed (handleDexieError env m).
Proof.
  intros Hm w H. unfold handleDexieError. specialize (Hm w H).
  destruct (m w) as [r w1]. now destruct (storageEnabled env).
Qed.

Lemma kk_forEach {A : Type} (xs : list A) (body : A -> Async unit) :
  (forall x, keepsKeyed (body x)) -> keepsKeyed (forEach xs body).
Proof.
  intros Hbody. induction xs as [|x rest IH]; cbn [forEach].
  - apply kk_ret.
  - apply kk_bind; auto.
Qed.

Lemma kk_commit (m : M State.t unit) : keepsKeyedM m -> keepsKeyed (commit m).
Proof.
  intros Hm w H. unfold commit. specialize (Hm (state w) H).
  now destruct (m (state w)).
Qed.

Lemma kk_commit_ (f : State.t -> State.t) :
  (forall s, keyed s -> keyed (f s)) -> keepsKeyed (commit_ f).
Proof. intros Hf. apply kk_commit. now apply kkM_modify. Qed.

Lemma kk_inPlace {A : Type} (m : M State.t A) :
  keepsKeyedM m -> keepsKeyed (inPlace m).
Proof.
  intros Hm w H. unfold inPlace. specialize (Hm (state w) H).
  now destruct (m (state w)).
Qed.

(** Requests to the database leave the store alone. *)
Lemma kk_dexie (f : Db.t -> Db.t) : keepsKeyed (dexie f).
Proof. intros w H. exact H. Qed.

Lemma kk_dexie_try (f : Db.t -> option Db.t) : keepsKeyed (dexie_try f).
Proof. intros w H. unfold dexie_try. now destruct (f (db w)). Qed.

Lemma kk_taskTagMap_bulkAdd rows : keepsKeyed (taskTagMap_bulkAdd rows).
Proof.
  intros w H. unfold taskTagMap_bulkAdd.
  now destruct (tbl_bulkAdd TaskTagMap.id rows (Db.taskTagMap (db w))).
Qed.

Lemma kk_loadSelectedTaskLogs settings acc :
  keepsKeyed (loadSelectedTaskLogs settings acc).
Proof. intros w H. now rewrite loadSelectedTaskLogs_frame. Qed.

Ltac kk_step :=
  match goal with
  | |- keepsKeyed (ret _) => apply kk_ret
  | |- keepsKeyed throw => apply kk_throw
  | |- keepsKeyed (gets _) => apply kk_gets
  | |- keepsKeyed (query _) => apply kk_query
  | |- keepsKeyed (tryCatch _) => apply kk_tryCatch
  | |- keepsKeyed (handleDexieError _ _) => apply kk_handleDexieError
  | |- keepsKeyed (bind _ _) => apply kk_bind; [| intros ?]
  | |- keepsKeyed (forEach _ _) => apply kk_forEach; intros ?
  | |- keepsKeyed (dexie _) => apply kk_dexie
  | |- keepsKeyed (dexie_try _) => apply kk_dexie_try
  | |- keepsKeyed (taskTagMap_bulkAdd _) => apply kk_taskTagMap_bulkAdd
  | |- keepsKeyed (loadSelectedTaskLogs _ _) => apply kk_loadSelectedTaskLogs
  | |- keepsKeyed (commit (Mutations.loadInitialData _ _ _ _ _ _)) =>
      apply kk_commit, kkM_loadInitialData
  | |- keepsKeyed (commit (Mutations.addTask _ _)) =>
      apply kk_commit, kkM_addTask
  | |- keepsKeyed (commit (Mutations.addTaskTag _ _ _)) =>
      apply kk_commit, kkM_addTaskTag
  | |- keepsKeyed (commit (Mutations.deleteTag _)) =>
      apply kk_commit, kkM_deleteTag
  | |- keepsKeyed (commit_ (Mutations.updateTask _ _)) =>
      apply kk_commit_, keyed_updateTask
  | |- keepsKeyed (commit_ (Mutations.setTasks _)) =>
      apply kk_commit_, keyed_setTasks
  | |- keepsKeyed (commit_ (Mutations.deleteTasks _)) =>
      apply kk_commit_, keyed_deleteTasks
  | |- keepsKeyed (commit_ (Mutations.startTask _)) =>
      apply kk_commit_, keyed_startTask
  | |- keepsKeyed (commit_ (Mutations.updateLog _ _)) =>
      apply kk_commit_, keyed_updateLog
  | |- keepsKeyed (commit_ (Mutations.deleteInterval _ _)) =>
      apply kk_commit_, keyed_deleteInterval
  | |- keepsKeyed (commit_ (MoreMutations.updateTagOrder _)) =>
      apply kk_commit_, keyed_updateTagOrder
  | |- keepsKeyed (commit_ _) =>
      apply kk_commit_, keyed_store_frame; reflexivity
  | |- keepsKeyed (inPlace (modify _)) =>
      apply kk_inPlace, kkM_modify, keyed_store_frame; reflexivity
  | |- keepsKeyed (if ?b then _ else _) => destruct b eqn:?
  | |- keepsKeyed (match ?x with _ => _ end) => destruct x eqn:?
  end.

Ltac kk_with leaf := repeat first [ leaf | kk_step | progress cbv zeta ].

Ltac kk :=
  kk_with ltac:(idtac; match goal with
    | |- keepsKeyed (?f _) =>
        first [ unfold f; match goal with |- keepsKeyed (dexie _) => idtac
                                        | |- keepsKeyed (dexie_try _) => idtac end ]
    | |- keepsKeyed (?f _ _) =>
        first [ unfold f; match goal with |- keepsKeyed (dexie _) => idtac
                                        | |- keepsKeyed (dexie_try _) => idtac end ]
    end).

Lemma kk_stopTask env now : keepsKeyed (stopTask env now).
Proof. unfold stopTask. kk. Qed.

Lemma kk_updateSetting env key value : keepsKeyed (updateSetting env key value).
Proof. unfold updateSetting. kk. Qed.

Lemma kk_selectTask env taskId : keepsKeyed (selectTask env taskId).
Proof.
  unfold selectTask.
  kk_with ltac:(idtac; match goal with
    | |- keepsKeyed (updateSetting _ _ _) => apply kk_updateSetting
    end).
Qed.

Lemma kk_bulkPutTasks env tasks : keepsKeyed (bulkPutTasks env tasks).
Proof. unfold bulkPutTasks. kk. Qed.

Lemma kk_loadInitialData env : keepsKeyed (loadInitialData env).
Proof. unfold loadInitialData. kk. Qed.

Lemma kk_addTask env nanoid now name : keepsKeyed (addTask env nanoid now name).
Proof.
  unfold addTask.
  kk_with ltac:(idtac; match goal with
    | |- keepsKeyed (selectTask _ _) => apply kk_selectTask
    | |- keepsKeyed (tasks_add _) => unfold tasks_add
    end).
Qed.

Lemma kk_updateTaskName env taskId name :
  keepsKeyed (updateTaskName env taskId name).
Proof. unfold updateTaskName. kk. Qed.

Lemma kk_updateTaskNotes env taskId notes :
  keepsKeyed (updateTaskNotes env taskId notes).
Proof. unfold updateTaskNotes. kk. Qed.

Lemma In_ownRefs (p : Task.t -> bool) (s : State.t) (k : string) (t : Task.t) :
  In (Some k, t) (ownRefs p s) -> In (k, t) (State.tasks s).
Proof.
  unfold ownRefs. intros Hin. apply in_map_iff in Hin.
  destruct Hin as ([k' t'] & [= <- <-] & Hin). apply filter_In in Hin. tauto.
Qed.

Lemma kk_reorderIncompleteTasks env newIncompleteTaskOrder :
  keepsKeyed (reorderIncompleteTasks env newIncompleteTaskOrder).
Proof.
  intros w H. unfold reorderIncompleteTasks.
  destruct (dexieDb env); [|exact H]. cbn [negb]. unfold tryCatch. cbn [snd].
  unfold bind at 1, gets at 1.
  assert (Hown : forall p k t,
             In (Some k, t) (ownRefs p (state w)) -> Task.id t = k).
  { intros p k t Hin. apply In_ownRefs in Hin.
    destruct H as [[_ Hk] _]. exact (Hk k t Hin). }
  assert (Hloop : forall refs,
             (forall k t, In (Some (Some k, t)) refs -> Task.id t = k) ->
             keyed (state (snd (bind (inPlace (assignOrders 0 refs))
                                  (bulkPutTasks env) w)))).
  { intros refs Hrefs. unfold bind, inPlace.
    pose proof (@keyed_assignOrders refs 0 (state w) Hrefs H) as Hk.
    destruct (assignOrders 0 refs (state w)) as [[tasks|] s']; cbn [snd] in *.
    - exact (kk_bulkPutTasks env tasks (mkWorld (db w) s') Hk).
    - exact Hk. }
  destruct (Nat.eqb _ _).
  - apply Hloop. intros k t Hin. apply in_map_iff in Hin.
    destruct Hin as (x & [= ->] & Hin). apply in_app_or in Hin.
    destruct Hin as [Hin | Hin].
    + unfold callerRefs in Hin. apply in_map_iff in Hin.
      destruct Hin as (t' & [=] & _).
    + exact (Hown _ k t Hin).
  - destruct (Nat.eqb _ _); [|exact H].
    apply Hloop. intros k t Hin. apply in_app_or in Hin.
    destruct Hin as [Hin | Hin].
    + assert (Hsub : forall ids refs payload,
                 In (Some (Some k, t)) (substitute ids refs payload) ->
                 In (Some k, t) refs).
      { intros ids refs. induction refs as [|x rest IH]; intros payload Hs;
          cbn [substitute] in Hs; [destruct Hs|].
        destruct (mem (Task.id (snd x)) ids).
        - destruct payload as [|next later];
            (destruct Hs as [Hs | Hs]; [discriminate | right; eauto]).
        - destruct Hs as [[= ->] | Hs]; [now left | right; eauto]. }
      apply Hsub in Hin. exact (Hown _ k t Hin).
    + apply in_map_iff in Hin. destruct Hin as (x & [= ->] & Hin).
      exact (Hown _ k t Hin).
Qed.

Lemma kk_startTask env nowStop now nanoid taskId :
  keepsKeyed (startTask env nowStop now nanoid taskId).
Proof.
  unfold startTask.
  kk_with ltac:(idtac; match goal with
    | |- keepsKeyed (stopTask _ _) => apply kk_stopTask
    | |- keepsKeyed (logs_add _) => unfold logs_add
    end).
Qed.

Lemma kk_updateTaskTimer env now taskId :
  keepsKeyed (updateTaskTimer env now taskId).
Proof. unfold updateTaskTimer. kk. Qed.

Lemma kk_completeTask env nowStop now taskId :
  keepsKeyed (completeTask env nowStop now taskId).
Proof.
  unfold completeTask.
  kk_with ltac:(idtac; match goal with
    | |- keepsKeyed (stopTask _ _) => apply kk_stopTask
    | |- keepsKeyed (tasks_update _ _) => unfold tasks_update
    end).
Qed.

Lemma kk_archiveTask env taskId archived :
  keepsKeyed (archiveTask env taskId archived).
Proof. unfold archiveTask. kk. Qed.

Lemma kk_addInterval env nanoid taskId started timeSpent stopped :
  keepsKeyed (addInterval env nanoid taskId started timeSpent stopped).
Proof. unfold addInterval. kk. Qed.

Lemma kk_updateInterval env logId started timeSpent stopped :
  keepsKeyed (updateInterval env logId started timeSpent stopped).
Proof. unfold updateInterval. kk. Qed.

Lemma kk_deleteInterval env logId : keepsKeyed (deleteInterval env logId).
Proof. unfold deleteInterval. kk. Qed.

Lemma kk_addTaskTagByName env nanoidTag color nanoidMap taskId tagName :
  keepsKeyed (addTaskTagByName env nanoidTag color nanoidMap taskId tagName).
Proof. unfold addTaskTagByName. kk. Qed.

Lemma kk_addTaskTagById env nanoid taskId tagId :
  keepsKeyed (addTaskTagById env nanoid taskId tagId).
Proof. unfold addTaskTagById. kk. Qed.

Lemma kk_removeTaskTag env taskId tagId :
  keepsKeyed (removeTaskTag env taskId tagId).
Proof. unfold removeTaskTag. kk. Qed.

Lemma kk_deleteTag env confirmed tagId :
  keepsKeyed (deleteTag env confirmed tagId).
Proof. unfold deleteTag. kk. Qed.

Lemma kk_reorderTags env newOrder : keepsKeyed (reorderTags env newOrder).
Proof.
  unfold reorderTags.
  kk_with ltac:(idtac; match goal with
    | |- keepsKeyed (inPlace (renumberTags _ _)) =>
        apply kk_inPlace; intros ? ?; now apply keyed_renumberTags
    | |- keepsKeyed (tags_bulkPut _) => unfold tags_bulkPut
    end).
Qed.

Lemma kk_addTagFilter env tagId : keepsKeyed (addTagFilter env tagId).
Proof.
  unfold addTagFilter.
  kk_with ltac:(idtac; match goal with
    | |- keepsKeyed (updateSetting _ _ _) => apply kk_updateSetting
    end).
Qed.

Lemma kk_removeTagFilter env tagId : keepsKeyed (removeTagFilter env tagId).
Proof.
  unfold removeTagFilter.
  kk_with ltac:(idtac; match goal with
    | |- keepsKeyed (updateSetting _ _ _) => apply kk_updateSetting
    end).
Qed.

Lemma kk_removeAllTagFilters env : keepsKeyed (removeAllTagFilters env).
Proof.
  unfold removeAllTagFilters.
  kk_with ltac:(idtac; match goal with
    | |- keepsKeyed (updateSetting _ _ _) => apply kk_updateSetting
    | |- keepsKeyed (settings_put _) => unfold settings_put
    end).
Qed.

Lemma kk_deleteAllArchivedTasks env : keepsKeyed (deleteAllArchivedTasks env).
Proof. unfold deleteAllArchivedTasks. kk. Qed.

Lemma kk_getLogById env logId : keepsKeyed (getLogById env logId).
Proof. unfold getLogById. kk. Qed.

Lemma kk_loadAllActivity env : keepsKeyed (loadAllActivity env).
Proof. unfold loadAllActivity. kk. Qed.

Lemma kk_loadTagActivity env : keepsKeyed (loadTagActivity env).
Proof. unfold loadTagActivity. kk. Qed.

(** X25. The store stays keyed by id: when every task of the store sits
    under its own id, each key once, and every tag under its own id, this
    is so again after any action, whatever its payload and whether it
    resolves or rejects: so it holds in every world the actions lead to
    from a store that [loadInitialData] has built. *)
Theorem dispatch_keeps_the_store_keyed (w w' : World) :
  keyed (state w) -> dispatched w w' -> keyed (state w').
Proof.
  intros H Hstep. destruct Hstep; unfold run.
  - now apply kk_loadInitialData.
  - now apply kk_loadAllActivity.
  - now apply kk_loadTagActivity.
  - now apply kk_addTask.
  - now apply kk_updateTaskName.
  - now apply kk_updateTaskNotes.
  - now apply kk_reorderIncompleteTasks.
  - now apply kk_startTask.
  - now apply kk_updateTaskTimer.
  - now apply kk_stopTask.
  - now apply kk_completeTask.
  - now apply kk_archiveTask.
  - now apply kk_addInterval.
  - now apply kk_getLogById.
  - now apply kk_updateInterval.
  - now apply kk_deleteInterval.
  - now apply kk_addTaskTagByName.
  - now apply kk_addTaskTagById.
  - now apply kk_reorderTags.
  - now apply kk_removeTaskTag.
  - now apply kk_deleteTag.
  - now apply kk_selectTask.
  - now apply kk_addTagFilter.
  - now apply kk_removeTagFilter.
  - now apply kk_updateSetting.
  - now apply kk_removeAllTagFilters.
  - now apply kk_deleteAllArchivedTasks.
Qed.

Lemma dispatch_keeps_the_store_keyed_witness :
  keyed (state (run (reorderIncompleteTasks Sample.env [Sample.task3; Sample.task3])
                  Sample.world)).
Proof.
  apply (@dispatch_keeps_the_store_keyed Sample.world).
  - split; [exact Sample_tasks_keyed | exact Sample_tags_keyed].
  - apply dispatched_reorderIncompleteTasks.
Defined.

(** ** The running flag of the store *)

(** X26. Switching tasks while the timer runs leaves the running flag
    set: after [startTask] on a task, [selectTask] on another task and
    [stopTask], no log is running in the table, but the store still says
    that the first task is active and running, because the mutation
    [updateLog] returns at once for a log of a task that is not the
    selected one.  (Database there, storage enabled, at most one log
    running before, the new log id free.) *)
Theorem stopTask_after_switching_keeps_the_running_flag
    (env : Env) (nowStop now later : Z) (nanoid a b : string) (w : World)
    (task : Task.t) :
  dexieDb env = true ->
  storageEnabled env = true ->
  atMostOneRunning (db w) ->
  JsObj.get a (State.tasks (state w)) = Some task ->
  tbl_has TaskLog.id ("log-" ++ nanoid) (Db.logs (db w)) = false ->
  b <> a ->
  b <> "" ->
  let w1 := run (startTask env nowStop now nanoid a) w in
  let w2 := run (selectTask env (Some b)) w1 in
  let w3 := run (stopTask env later) w2 in
  runningLogs (db w3) = []
  /\ TempState.running (State.tempState (state w3)) = true
  /\ TempState.activeTaskID (State.tempState (state w3)) = Some (Task.id task).
Proof.
  intros Hdb Hstore Hone Hget Hfree Hba Hb w1 w2 w3.
  set (log := TaskLog.mk ("log-" ++ nanoid) a now None None).
  set (w0 := run (stopTask env nowStop) w).
  assert (Hw1 : w1
                = mkWorld
                    (Db.with_logs (tbl_insert TaskLog.id log (Db.logs (db w0)))
                       (db w0))
                    (Mutations.startTask log (state w0))).
  { unfold w1, run.
    now rewrite (startTask_run env nowStop now nanoid a w Hdb Hstore Hget Hfree). }
  assert (Hrun1 : runningLogs (db w1) = [log]).
  { rewrite Hw1. unfold runningLogs. cbn [db Db.logs Db.with_logs].
    apply filter_insert_only; [|reflexivity].
    apply length_zero_nil. exact (stopTask_clears env nowStop w Hdb Hone). }
  assert (Hstate1 : State.tempState (state w1)
                    = TempState.mk (Some (Task.id task)) true
                        (TempState.modalTagId (State.tempState (state w0)))).
  { rewrite Hw1. cbn [state]. unfold Mutations.startTask. cbn [TaskLog.taskId log].
    destruct (stopTask_frame env nowStop w) as (Htasks & _). fold w0 in Htasks.
    now rewrite Htasks, Hget. }
  assert (Hw2 : w2
                = mkWorld
                    (Db.with_settings
                       (tbl_put SettingKv.key
                          (SettingKv.mk "selectedTaskID" (VStr b))
                          (Db.settings (db w1))) (db w1))
                    (State.with_selectedTaskLogs
                       (filter (fun l => (TaskLog.taskId l =? b)%string)
                          (Db.logs (db w1)))
                       (Mutations.updateSetting "selectedTaskID" (VStr b)
                          (state w1)))).
  { unfold w2, run, selectTask. rewrite Hdb. cbn [negb]. run_m.
    rewrite (updateSetting_run env _ _ _ Hdb Hstore).
    unfold truthy_str. apply String.eqb_neq in Hb. now rewrite Hb. }
  assert (Hrun2 : runningLogs (db w2) = [log]).
  { rewrite Hw2. exact Hrun1. }
  assert (Hsel2 : isSelectedTask a (state w2) = false).
  { rewrite Hw2. unfold isSelectedTask, Mutations.updateSetting.
    cbn [state State.settings State.with_settings State.with_selectedTaskLogs].
    rewrite JsObjFacts.get_set_same. now apply String.eqb_neq. }
  unfold w3, run. rewrite (stopTask_run_one env later w2 Hdb Hstore Hrun2).
  cbn [snd db state Db.logs Db.with_logs TaskLog.taskId log].
  unfold Mutations.updateLog. rewrite Hsel2. cbn [negb].
  split.
  - exact (@runningLogs_put log
             (TaskLog.mk (TaskLog.id log) a (TaskLog.started log) (Some later)
                (Some (later - TaskLog.started log)))
             _ Hrun2 eq_refl).
  - rewrite Hw2.
    cbn [state State.tempState State.with_selectedTaskLogs
         Mutations.updateSetting State.with_settings].
    rewrite Hstate1. now split.
Qed.

Lemma stopTask_after_switching_keeps_the_running_flag_witness :
  runningLogs
    (db (run (stopTask Sample.env 30)
           (run (selectTask Sample.env (Some "task-1"))
              (run (startTask Sample.env 20 21 "a" "task-r") Sample.added))))
  = []
  /\ TempState.running
       (State.tempState
          (state (run (stopTask Sample.env 30)
                    (run (selectTask Sample.env (Some "task-1"))
                       (run (startTask Sample.env 20 21 "a" "task-r")
                          Sample.added)))))
     = true.
Proof.
  destruct (@stopTask_after_switching_keeps_the_running_flag Sample.env 20 21 30
              "a" "task-r" "task-1" Sample.added Sample.taskR eq_refl eq_refl)
    as (Hnone & Hflag & _).
  - unfold atMostOneRunning, runningCount. simpl. lia.
  - reflexivity.
  - reflexivity.
  - discriminate.
  - discriminate.
  - split; [exact Hnone | exact Hflag].
Defined.

(** ** Writes to the store outside a mutation *)

(** X27. What is written into the store's own objects escapes the
    disk-space guard: with [storageEnabled] false, [addTagFilter] rejects,
    yet the tag id is in the store's tag filters (it has been pushed onto
    the store's array), and [reorderTags] rejects without touching
    [tagOrder], yet every tag of the new order (distinct ids the store
    has) carries its new [order] in the store. *)
Theorem in_place_writes_escape_the_guard (env : Env) (w : World) :
  dexieDb env = true ->
  storageEnabled env = false ->
  (forall tagId selected,
      JsObj.get "selectedTagIds" (State.settings (state w))
      = Some (VList selected) ->
      let w' := run (addTagFilter env tagId) w in
      fst (addTagFilter env tagId w) = Rejected
      /\ JsObj.get "selectedTagIds" (State.settings (state w'))
         = Some (VList (selected ++ [tagId])))
  /\ (forall newOrder,
        NoDup newOrder ->
        (forall k, In k newOrder ->
           exists tag, JsObj.get k (State.tags (state w)) = Some tag) ->
        let w' := run (reorderTags env newOrder) w in
        fst (reorderTags env newOrder w) = Rejected
        /\ State.tagOrder (state w') = State.tagOrder (state w)
        /\ forall n k,
             nth_error newOrder n = Some k ->
             JsObj.get k (State.tags (state w'))
             = option_map (Tag_with_order (Z.of_nat n))
                 (JsObj.get k (State.tags (state w)))).
Proof.
  intros Hdb Hlow. split.
  - intros tagId selected Hsel w'. subst w'.
    unfold run, addTagFilter. rewrite Hdb. run_m. rewrite Hsel. run_m.
    unfold updateSetting. rewrite Hdb. cbn [negb]. unfold settings_put. run_m.
    rewrite Hlow. cbn [fst snd state State.settings State.with_settings].
    split; [reflexivity | apply JsObjFacts.get_set_same].
  - intros newOrder Hnd Hall w'. subst w'.
    destruct (renumberTags_run 0 (state w) Hnd Hall)
      as (tags' & Hloop & _ & Hnth).
    unfold run, reorderTags. rewrite Hdb. run_m. rewrite Hloop.
    unfold tags_bulkPut. run_m. rewrite Hlow.
    cbn [fst snd state State.tagOrder State.tags State.with_tags].
    split; [reflexivity|]. split; [reflexivity|]. exact Hnth.
Qed.

Lemma in_place_writes_escape_the_guard_witness :
  fst (addTagFilter Sample.lowDisk "tag-b" Sample.world) = Rejected
  /\ JsObj.get "selectedTagIds"
       (State.settings
          (state (run (addTagFilter Sample.lowDisk "tag-b") Sample.world)))
     = Some (VList ["tag-a"; "tag-b"]).
Proof.
  exact (proj1 (@in_place_writes_escape_the_guard Sample.lowDisk Sample.world
                  eq_refl eq_refl) "tag-b" ["tag-a"] eq_refl).
Defined.
